(* ===== verification/_CoqProject ===== *)
-Q . S2P
Prelude.v
Effects.v
PyStr.v
Utf8.v
Json.v
JsonParse.v
JsonRound.v
Csv.v
PyInt.v
Calendar.v
Times.v
Argparse.v
Sha256.v
Wire.v
Bindings.v
World.v
Rpc.v
Artifacts.v
Worker.v
WorkerSafety.v
Heartbeat.v
Logs.v
WorkerRun.v
WorkerMain.v
Checkpoint.v
Control.v
ControlSpec.v
ControlRefine.v
ControlProps.v
ControlBatch.v
ControlServe.v
ControlReap.v
ControlLive.v
EndToEnd.v
WireText.v
Grpc.v
Queries.v
Telemetry.v
Requests.v
Client.v
Api.v
ApiText.v
ApiProps.v
Server.v
Cli.v
Release.v
Protocols.v
Research.v
Study.v
Task.v
TaskRun.v
StudyScripts.v
StudySubmit.v
StudyGrid.v
Aggregate.v
StudyApi.v
Bench.v
BenchRun.v
BenchQueue.v
BenchQueueProps.v
Backlog.v
Plot.v
