(* ===== verification/Prelude.v ===== *)
(** * RunGrid: a verification development

    RunGrid runs batch jobs on a pool of workers.  A control plane (Go, over PostgreSQL) accepts
    jobs over HTTP and serves workers over gRPC; a worker (Python) leases a job, runs its command,
    reports logs, checkpoints and results, and renews its lease from a heartbeat thread; an SDK
    (Python) submits jobs and writes checkpoints from inside a command; the research example and
    the benchmarks (Python) are clients of it.  The lease is the contract between the two sides:
    the store gives a job to one attempt until a time, the worker acts only before its own,
    conservative reading of that time, and every later word of a worker that lost its lease is
    refused.

    ** Files and what they model

    - Prelude: lists, the slices of [range(0, len(l), n)], tactics, the hint database [rungrid].
    - Effects: Python computations as trees of calls to the environment ([prog], [py]), with
      [try]/[except]/[finally], their traces, an executable [run], and a Hoare logic over
      histories ([wp], with a guard for every call and a postcondition).
    - PyStr, Utf8, Json, JsonParse, JsonRound, Csv, PyInt, Calendar, Times, Argparse, Sha256: what
      the sources use of Python's strings, bytes.decode, json, csv, int, datetime, argparse and
      hashlib, with the round trips of text they rely on.
    - Wire: the messages of proto/rungrid.proto as the worker sees them, and the signature
      [WorkerSig] of all calls of the worker process.  Bindings (rungrid_pb2_grpc.py): stub,
      servicer, registration and version check, against interfaces of the gRPC and protobuf
      libraries (classes [Grpc] and [Protobuf] with their laws).  World: what is assumed of the
      environment of a process: the clock does not run backwards, [process] is what [Popen]
      started, an exit status stays, a set event stays set.  Nothing is assumed of network, object
      store and files.
    - Rpc (rpc.py): [RPC.call].  Artifacts (artifacts.py): digest, upload, restore.
    - Worker (main.py): kill_group, Worker.log, alive, renew, progress and [Worker.execute].
      WorkerSafety: theorems on one attempt.  Heartbeat: the heartbeat thread alone and every
      interleaving of it with the attempt over the cells they share.  Logs: read_logs and the
      bounded queue as a step relation.  WorkerRun: [Worker.run].  WorkerMain: the constructors of
      Worker and RPC, [main], and the metrics endpoint with its counter.
    - Checkpoint (checkpoint.py, checkpoint_counter.py): atomic publication over a file system
      that can lose power, and the example that resumes.
    - Control, Module Store (internal/store, internal/scheduler/model.go, migrations): the tables
      with their constraints, and each transaction that writes, in the monad [Tx]: [Submit],
      [Mutate], [Action], [RPC] with [register], [lease], [attempt], and [Reap].  ControlSpec: the
      abstract specification [step] and its invariant [Inv].  ControlRefine: the transactions
      implement it.  ControlProps, ControlReap: what runs of calls guarantee.  ControlBatch,
      ControlServe: when a batch of new jobs and the calls of a worker are accepted.  ControlLive:
      that every job comes to an end.
    - EndToEnd (internal/api/grpc.go): answers of the store on the wire, and the theorems that
      join worker and store.  WireText: the same answers, and the payloads of requests, as the
      JSON text that travels.  Requests: what every program of the worker sends, as the server
      decodes it.  Grpc (internal/api/grpc.go): [WorkerServer.call] with the wait of [LeaseJob].
    - Queries, Module Query (internal/store): what the store only reads: [Get], [List_],
      [ReadRows], [Workers].  Telemetry (internal/telemetry): [Collect], the metrics of a scrape.
    - Client: Modules Client (client.py) and Invoke (invoke.py).
    - Api (internal/api/http.go, [scheduler.ID]): [Handler], with the patterns and the matching of
      http.ServeMux, the decoding of bodies and queries, and every handler over the tables.
      ApiText: what the server makes of the texts its clients send.  ApiProps: the theorems that
      join the SDK's client, the HTTP interface, the store and the worker.  Server (cmd/server):
      the process, from its configuration to its exit, as a step relation over the store, the
      requests in flight and the phases of its shutdown.  Cli (cmd/cli): the command line client.
    - Release (scripts/release.py, scripts/archive_evidence.py, scripts/generate.py): the scripts
      over the files of the repository.
    - Protocols (protocols.py, Modules Movie and Grid: submit.py).  Research, Study (research.py):
      metrics and sampling; the encoder and [run_once] over an interface of the tensor library
      (class [Torch]).  Task, TaskRun (task.py): checkpointed training; the whole task from its
      command line on.  StudyScripts (preflight.py, smoke.py), StudySubmit (submit.py), Aggregate
      (aggregate.py); StudyGrid and StudyApi join submit.py and aggregate.py to the control plane.
    - Bench, BenchRun (benchmarks/run.py, recovery.py): percentiles and batches; the scripts as
      programs that drive the cluster, with the sampling thread.  BenchQueue, BenchQueueProps
      (cmd/benchqueue): the queue benchmark over the schemas of a database, each of its calls a
      transaction of Control.  Backlog (benchmarks/backlog.py): the script that runs it at several
      sizes, alone and with BenchQueue in the place of the binary.  Plot (benchmarks/plot.py): the
      lines drawn of the summaries of BenchRun.

    A definition keeps the name of the function it translates; a method is a function of [self];
    [deadline[0]], [lost] and [process] are cells read and written by calls, since two threads
    share them.  Times are integers in microseconds.

    ** What the theorems show

    - The attempt: success is reported only for exit status 0 after the files were reported; the
      command starts once, after the acknowledged start, with a verified checkpoint; no child
      outlives the attempt; every request carries the fencing token and stays within limits.
    - The lease on the worker: one call is one request however often it is sent; the local
      deadline is conservative; in every interleaving with the heartbeat thread the worker acts
      only right after it found the lease alive against a deadline the server granted.
    - The store: the invariant (one active attempt per job, states that agree, budget, capacity,
      unique keys) in every reachable state; refinement of the specification; exclusivity of a
      lease until it expires; fencing of ended attempts; replay of receipts; idempotent
      submission; the order of the queue; leases never fail; the reaper; final states.
      Liveness: in more rounds of reaping and polling than attempts are left every job ends.
      Waiting in LeaseJob passes over no state in which a job could have been leased.
    - The HTTP API: a request changes the tables only through one operation of the store, the one
      it asks for; a job submitted with the SDK is the job that is shown and run; a cancel is
      final and safe to repeat; the pages of the list are the list; no read depends on the tokens
      of leases.  Every state of the server process, whatever is in flight and however it is
      stopped, has tables the operations of the store reach; its shutdown is never stuck.  The
      metrics count what is in the tables.  A command of the command line client
      that is run again under its request identifier changes nothing.
    - End to end: while a worker believes a grant, the store still reserves the job for it.  The
      text of an answer is read as the answer, also from a receipt the database printed again; the
      payload of every request of a worker is decoded into the values the worker put in.
    - The worker process: what it does from its environment variables to its exit: leases only
      into free slots, the order of its session, the metrics server.  A call of the stub runs the
      servicer's method of the same name.  No failed upload is lost from the metrics.
    - Checkpoints: published whole or not at all; resumed counters and experiments end like
      uninterrupted ones.  Round trips: json.loads after json.dumps, CSV, RFC 3339 times,
      submit_function and invoke.
    - The research code: [run_once] evaluates fairly (rank AUC is the share of wins, sampled pairs
      are negatives of the test nodes); a task reports the metrics of [run_once] however often it
      is killed; every job of the grid parses to its cell; a preflight that passes covers the
      grid; splits keep the contract of the study; a grid is stored by the control plane as it was
      generated; only verified results are aggregated, those of the attempts that succeeded, and
      the table of a study is computed from all of them.
    - The scripts: the SHA256SUMS of a release and of the evidence list what is there.  The
      benchmarks end, measure what they mean to, and return the cluster to two workers.  The
      queue benchmark passes its own check and leaves the database as it was; the backlog script
      keeps every result but at most the one it fails at; a plot shows every case once, in order.
    - Termination: [RPC.call] makes at most [5 + timeout/1s] sends; [execute] returns once the
      child has exited; the fuel of both is exactly that bound.

    ** Bounds and fuel

    [call_fuel] covers the sends that fit in the timeout with delays doubling from 0.1 s to 1 s,
    and [call_bounded] shows it is never used up.  The fuel of [execute] and [run_worker] counts
    polls that find the child running and turns of the loop; theorems hold for every fuel, and
    [execute_ends_with_child] says when it is enough.  [loads] uses the length of its text,
    [read_chunks] the length of the file.

    [watch_fuel], [wait_fuel] and [poll_fuel] count the polls that fit in a timeout, and the
    theorems on the benchmarks and on aggregate.py show that they are never used up.
    [every_job_ends] counts rounds: one more than the attempts the jobs have left is enough.
    [backlog_fuel] is the number of batches of 1000 the queue benchmark submits, and
    [backlog_runs] shows that it is enough.

    ** Assumptions

    Transactions of the store run one at a time: they lock worker, job and attempt rows in this
    order, and the row of their receipt.  [clock_timestamp] does not go backwards.  The clocks of
    worker and database differ by a constant in [grants_are_honoured].  The libraries the sources
    call (grpc, protobuf, torch, heterosplit) are interfaces or parameters, with the laws the
    theorems need stated as classes or hypotheses and instantiated by concrete functions in the
    witnesses.  Strings are byte strings in UTF-8; numbers in JSON are integers; metrics and
    measured times are exact rationals.

    ** Not modelled

    Tracing and the registry of metrics, which set up libraries; logging, the texts of error
    messages and what is printed as progress; the serialized descriptor of rungrid_pb2.py; what
    matplotlib makes of a figure; JSON objects with a key given twice; the text of floating-point
    numbers in the JSON files of the benchmarks; the flags of benchqueue, which are taken as
    parsed; what happens between the statements of a transaction, which PostgreSQL isolates; the
    limits gRPC puts on the sizes of messages. *)
From stdpp Require Export base list gmap sets strings.
From Stdlib Require Export Ascii ZArith Lia.

#[export] Set Default Proof Using "Type".

Create HintDb rungrid discriminated.

(** Case analysis on the scrutinee of the first match of a hypothesis or of the goal,
    followed by the injectivity and discrimination of constructors. *)
Ltac case_hyp H :=
  match type of H with
  | context [match ?x with _ => _ end] => let E := fresh "E" in destruct x eqn:E
  end; simplify_eq/=.

Ltac case_goal :=
  match goal with
  | |- context [match ?x with _ => _ end] => let E := fresh "E" in destruct x eqn:E
  end; simplify_eq/=.

(** ** Lists *)
Section Lists.
Context {A : Type}.
Implicit Types (l : list A) (n : nat).

(** [batches n l]: the slices [l[0:n], l[n:2n], ...] of
    [for index in range(0, len(l), n): l[index:index+n]]. *)
Fixpoint batches_fuel (fuel n : nat) l : list (list A) :=
  match fuel, l with
  | S f, _ :: _ => take n l :: batches_fuel f n (drop n l)
  | _, _ => []
  end.
Definition batches n l := batches_fuel (length l) n l.

Lemma snoc_app l x l' : l ++ x :: l' = (l ++ [x]) ++ l'.
Proof. by rewrite <- app_assoc. Qed.

(** Where an element that is not in [l ++ [x]] sits in [l ++ x :: l']. *)
Lemma app_cons_split l l' a b (x e : A) :
  l ++ x :: l' = a ++ e :: b → e ∉ l ++ [x] → ∃ p, a = l ++ x :: p ∧ l' = p ++ e :: b.
Proof.
  revert a. induction l as [|y l IH]; intros [|z a]; simpl.
  - intros [= -> ->] []. set_solver.
  - intros [= -> ->] _. eauto.
  - intros [= -> _] []. set_solver.
  - intros [= -> Heq] Hni. destruct (IH _ Heq) as (p & -> & ->); [set_solver|eauto].
Qed.

(** An element of a concatenation sits in its first part or in its second. *)
Lemma app_cons_cases l l' a b (e : A) :
  l ++ l' = a ++ e :: b →
  (∃ q, l = a ++ e :: q ∧ b = q ++ l') ∨ (∃ p, a = l ++ p ∧ l' = p ++ e :: b).
Proof.
  revert a. induction l as [|x l IH]; intros [|y a]; simpl; [by eauto..| |].
  - intros [= -> <-]. eauto.
  - intros [= -> Heq]. destruct (IH _ Heq) as [(q & -> & ->)|(p & -> & ->)]; eauto.
Qed.

Lemma elem_of_middle l l' (x : A) : x ∈ l ++ x :: l'.
Proof. apply elem_of_app. right. apply elem_of_cons. by left. Qed.

Lemma prefix_app_cases l l1 l2 :
  l `prefix_of` l1 ++ l2 → l `prefix_of` l1 ∨ ∃ l', l = l1 ++ l' ∧ l' `prefix_of` l2.
Proof.
  revert l. induction l1 as [|x l1 IH]; intros [|y l] Hl; simpl in *.
  - left. apply prefix_nil.
  - right. by eexists.
  - left. apply prefix_nil.
  - apply prefix_cons_inv_1 in Hl as Hy. apply prefix_cons_inv_2 in Hl. subst y.
    destruct (IH _ Hl) as [?|(l' & -> & ?)]; [left; by apply prefix_cons|right; by exists l'].
Qed.

Lemma batches_fuel_concat n l fuel :
  0 < n → length l ≤ fuel → concat (batches_fuel fuel n l) = l.
Proof.
  intros Hn. revert l. induction fuel as [|f IH]; intros [|x l] Hl; simpl in *; try done; [lia|].
  rewrite IH; [apply take_drop|]. rewrite length_drop. simpl. lia.
Qed.

Lemma batches_concat n l : 0 < n → concat (batches n l) = l.
Proof. intros ?. by apply batches_fuel_concat. Qed.

Lemma batches_length n l b : b ∈ batches n l → length b ≤ n.
Proof.
  unfold batches. generalize (length l) as f. intros f. revert l.
  induction f as [|f IH]; intros [|x l] Hb; simpl in Hb; try by apply not_elem_of_nil in Hb.
  apply elem_of_cons in Hb as [->|Hb]; [rewrite length_take; lia|eauto].
Qed.
End Lists.
