(* ===== verification/Effects.v ===== *)
(** * Effects: Python computations as trees of calls to the outside world

    A Python function that talks to its environment (clock, gRPC stub, object store, child
    process, files, cells shared with another thread) is a tree: a node is one such call, its
    branches are the answers it can get.  A [py] computation ends with a value, with a raised
    exception, or without fuel (a [while] loop that was not run to its end).

    The file gives the tree's monad, Python's [try]/[except]/[finally], the traces of a tree
    under an environment that keeps the promises [E] (a clock that does not run backwards, a
    cell that holds the last value written), an executable [run] against a concrete
    environment, and a Hoare logic over the history of calls. *)
From S2P Require Import Prelude.

(** ** Exceptions *)
Inductive status :=
| UNAVAILABLE | DEADLINE_EXCEEDED | FAILED_PRECONDITION | NOT_FOUND
| INVALID_ARGUMENT | INTERNAL | CANCELLED | RESOURCE_EXHAUSTED | UNKNOWN | UNIMPLEMENTED.

#[export] Instance status_eq_dec : EqDecision status.
Proof. solve_decision. Defined.

Inductive exn :=
| RpcError (code : status)
| RuntimeError (msg : string)
| ValueError (msg : string)
| KeyError (key : string)
| TypeError (msg : string)
| AttributeError (msg : string)
| OSError (msg : string)
| ProcessLookupError
| S3Error (msg : string)
| NotImplementedError (msg : string)
| FileNotFoundError (path : string)
| AssertionError (msg : string)
| CalledProcessError (argv : list string)
| IndexError (msg : string)
| ZeroDivisionError
| SystemExit (code : Z).

#[export] Instance exn_eq_dec : EqDecision exn.
Proof. solve_decision. Defined.

(** ** Signatures and trees *)
Record sig := Sig { op : Type; ans : op → Type }.

Inductive prog (S : sig) (A : Type) : Type :=
| Ret (a : A)
| Vis (o : op S) (k : ans S o → prog S A).
Arguments Ret {S A} a.
Arguments Vis {S A} o k.

Inductive outcome (A : Type) :=
| Ok (a : A)
| Raised (e : exn)
| OutOfFuel.
Arguments Ok {A} a.
Arguments Raised {A} e.
Arguments OutOfFuel {A}.

Section Monad.
Context {S : sig}.

Fixpoint prog_bind {A B} (p : prog S A) (f : A → prog S B) : prog S B :=
  match p with
  | Ret a => f a
  | Vis o k => Vis o (λ x, prog_bind (k x) f)
  end.

Definition py (A : Type) := prog S (outcome A).

Definition ret {A} (a : A) : py A := Ret (Ok a).
Definition raise {A} (e : exn) : py A := Ret (Raised e).
Definition diverge {A} : py A := Ret OutOfFuel.
Definition call_op (o : op S) : py (ans S o) := Vis o (λ x, Ret (Ok x)).

Definition bind {A B} (p : py A) (f : A → py B) : py B :=
  prog_bind p (λ r, match r with
                    | Ok a => f a
                    | Raised e => Ret (Raised e)
                    | OutOfFuel => Ret OutOfFuel
                    end).

(** [try: p except ...: h e]: [h] answers [None] for an exception it does not catch. *)
Definition try_except {A} (p : py A) (h : exn → option (py A)) : py A :=
  prog_bind p (λ r, match r with
                    | Raised e => match h e with Some q => q | None => Ret (Raised e) end
                    | r => Ret r
                    end).

(** [try: p finally: q]: an exception of [q] replaces the outcome of [p]. *)
Definition try_finally {A} (p : py A) (q : py unit) : py A :=
  prog_bind p (λ r, match r with
                    | OutOfFuel => Ret OutOfFuel
                    | r => prog_bind q (λ r', match r' with
                                              | Ok _ => Ret r
                                              | Raised e => Ret (Raised e)
                                              | OutOfFuel => Ret OutOfFuel
                                              end)
                    end).

(** An answer that may be an exception is raised at the call. *)
Definition unwrap {A} (r : exn + A) : py A :=
  match r with inl e => raise e | inr a => ret a end.
End Monad.
Arguments py : clear implicits.

Declare Scope py_scope.
Delimit Scope py_scope with py.
Bind Scope py_scope with py.
Notation "x <- p ; q" := (bind p (λ x, q))
  (at level 100, p at level 99, q at level 200, right associativity) : py_scope.
Notation "p ;;; q" := (bind p (λ _ : unit, q))
  (at level 100, q at level 200, right associativity) : py_scope.
Open Scope py_scope.

(** ** Traces *)
Section Traces.
Context {S : sig}.

Definition event := {o : op S & ans S o}.
Implicit Types (h tr : list event).

(** [traces p tr a]: against some environment, [p] makes the calls and gets the answers of
    [tr], in this order, and ends with [a]. *)
Fixpoint traces {A} (p : prog S A) (tr : list event) (a : A) : Prop :=
  match p with
  | Ret a' => tr = [] ∧ a = a'
  | Vis o k => ∃ x tr', tr = existT o x :: tr' ∧ traces (k x) tr' a
  end.

(** A concrete environment answers from the history of calls. *)
Fixpoint run {A} (env : list event → ∀ o, ans S o) (p : prog S A) (h : list event)
  : A * list event :=
  match p with
  | Ret a => (a, [])
  | Vis o k => let x := env h o in
               let '(a, tr) := run env (k x) (h ++ [existT o x]) in
               (a, existT o x :: tr)
  end.

Lemma run_traces {A} env (p : prog S A) h a tr :
  run env p h = (a, tr) → traces p tr a.
Proof.
  revert h tr. induction p as [a'|o k IH]; intros h tr; simpl.
  - by intros [= -> <-].
  - destruct (run env (k (env h o)) (h ++ [existT o (env h o)])) as [a' tr'] eqn:Hrun.
    intros [= -> <-]. eexists _, _. split; [done|]. by eapply IH.
Qed.

Lemma traces_run {A} env (p : prog S A) h : traces p (run env p h).2 (run env p h).1.
Proof. eapply run_traces. apply surjective_pairing. Qed.

Lemma traces_bind {A B} (p : prog S A) (f : A → prog S B) tr b :
  traces (prog_bind p f) tr b ↔
  ∃ tr1 a tr2, traces p tr1 a ∧ traces (f a) tr2 b ∧ tr = tr1 ++ tr2.
Proof.
  revert tr. induction p as [a|o k IH]; intros tr; simpl; split.
  - intros Ht. by exists [], a, tr.
  - by intros (tr1 & a' & tr2 & [-> ->] & H2 & ->).
  - intros (x & tr' & -> & Hk).
    apply IH in Hk as (tr1 & a & tr2 & H1 & H2 & ->).
    exists (existT o x :: tr1), a, tr2. split_and!; [|done|done]. by eexists _, _.
  - intros (tr1 & a & tr2 & (x & tr' & -> & Hk) & H2 & ->).
    eexists _, _. split; [done|]. apply IH. eauto 6.
Qed.

(** The environment's promises: [E h e] holds when [e] may follow the history [h]. *)
Fixpoint consistent_from (E : list event → event → bool) h tr : bool :=
  match tr with
  | [] => true
  | e :: tr => E h e && consistent_from E (h ++ [e]) tr
  end.
Definition consistent E tr := consistent_from E [] tr.

Lemma consistent_from_app E h tr1 tr2 :
  consistent_from E h (tr1 ++ tr2) = true ↔
  consistent_from E h tr1 = true ∧ consistent_from E (h ++ tr1) tr2 = true.
Proof.
  revert h. induction tr1 as [|e tr1 IH]; intros h; simpl.
  - rewrite app_nil_r. naive_solver.
  - rewrite !andb_true_iff, IH, <- app_assoc. naive_solver.
Qed.
End Traces.
Arguments event : clear implicits.

(** ** A Hoare logic over histories

    [wp E G p Q h]: started after the history [h], in an environment that keeps [E], every call
    [p] makes is allowed by [G] at the history it is made, and [p] ends with [Q]. *)
Section WP.
Context {S : sig}.
Context (E : list (event S) → event S → bool).
Context (G : list (event S) → op S → Prop).
Implicit Types (h tr : list (event S)).

Fixpoint wp {A} (p : prog S A) (Q : A → list (event S) → Prop) h : Prop :=
  match p with
  | Ret a => Q a h
  | Vis o k => G h o ∧ ∀ x, E h (existT o x) = true → wp (k x) Q (h ++ [existT o x])
  end.

Lemma wp_mono {A} (p : prog S A) (Q Q' : A → list (event S) → Prop) h :
  wp p Q h → (∀ a h', Q a h' → Q' a h') → wp p Q' h.
Proof.
  revert h. induction p as [a|o k IH]; intros h; simpl; [by eauto|].
  intros [HG Hk] HQ. split; [done|]. eauto.
Qed.

Lemma wp_prog_bind {A B} (p : prog S A) (f : A → prog S B) Q h :
  wp p (λ a, wp (f a) Q) h → wp (prog_bind p f) Q h.
Proof.
  revert h. induction p as [a|o k IH]; intros h; simpl; [done|].
  intros [HG Hk]. split; [done|]. eauto.
Qed.

Theorem wp_sound {A} (p : prog S A) Q h tr a :
  wp p Q h → traces p tr a → consistent_from E h tr = true →
  Q a (h ++ tr) ∧
  ∀ tr1 e tr2, tr = tr1 ++ e :: tr2 → G (h ++ tr1) (projT1 e).
Proof.
  revert h tr. induction p as [a'|o k IH]; intros h tr Hwp Htr HE; simpl in *.
  - destruct Htr as [-> ->]. rewrite app_nil_r. split; [done|].
    intros [|??] ? ? ?; discriminate.
  - destruct Htr as (x & tr' & -> & Htr). destruct Hwp as [HG Hk].
    simpl in HE. apply andb_true_iff in HE as [HEx HE].
    destruct (IH x _ _ (Hk x HEx) Htr HE) as [HQ Hall].
    rewrite <- app_assoc in HQ. split; [done|].
    intros [|e1 tr1] e tr2 [= <- Heq]; [by rewrite app_nil_r|].
    rewrite (cons_middle _ h tr1), app_assoc. by eapply Hall.
Qed.

(** A computation whose calls satisfy [P], known by its traces. *)
Fixpoint ops_in {A} (P : op S → Prop) (p : prog S A) : Prop :=
  match p with
  | Ret _ => True
  | Vis o k => P o ∧ ∀ x, ops_in P (k x)
  end.

Lemma ops_in_bind {A B} P (p : prog S A) (f : A → prog S B) :
  ops_in P p → (∀ a, ops_in P (f a)) → ops_in P (prog_bind p f).
Proof. intros Hp Hf. induction p as [a|o k IH]; simpl in *; naive_solver. Qed.

Lemma ops_in_traces {A} P (p : prog S A) tr a :
  ops_in P p → traces p tr a → Forall (λ e, P (projT1 e)) tr.
Proof.
  revert tr. induction p as [a'|o k IH]; intros tr; simpl.
  - by intros _ [-> _].
  - intros [Ho Hk] (x & tr' & -> & Htr). constructor; eauto.
Qed.

Lemma ops_in_mono {A} (P P' : op S → Prop) (p : prog S A) :
  (∀ o, P o → P' o) → ops_in P p → ops_in P' p.
Proof. intros HP. induction p as [a|o k IH]; simpl; [done|]. intros [Ho Hk]. split; eauto. Qed.

Lemma ops_in_py_bind {A B} P (p : py S A) (f : A → py S B) :
  ops_in P p → (∀ a, ops_in P (f a)) → ops_in P (bind p f).
Proof. intros Hp Hf. apply ops_in_bind; [done|]. by intros [a|e|]; simpl. Qed.

Lemma ops_in_try_except {A} P (p : py S A) (hd : exn → option (py S A)) :
  ops_in P p → (∀ e q, hd e = Some q → ops_in P q) → ops_in P (try_except p hd).
Proof.
  intros Hp Hh. apply ops_in_bind; [done|]. intros [a|e|]; simpl; [done| |done].
  destruct (hd e) eqn:He; simpl; eauto.
Qed.

Lemma ops_in_try_finally {A} P (p : py S A) (q : py S unit) :
  ops_in P p → ops_in P q → ops_in P (try_finally p q).
Proof.
  intros Hp Hq. apply ops_in_bind; [done|].
  intros [a|e|]; simpl; try done; (apply ops_in_bind; [done|]); by intros [[]|e'|].
Qed.

Lemma ops_in_call_op (P : op S → Prop) o : P o → ops_in P (call_op o).
Proof. by split. Qed.

Lemma ops_in_unwrap {A} P (r : exn + A) : ops_in P (unwrap r).
Proof. by destruct r. Qed.

(** A history predicate the calls of [P] cannot destroy. *)
Definition stable (P : op S → Prop) (I : list (event S) → Prop) : Prop :=
  ∀ h (e : event S), P (projT1 e) → I h → I (h ++ [e]).

Lemma stable_and (P : op S → Prop) I J :
  stable P I → stable P J → stable P (λ h, I h ∧ J h).
Proof. intros HI HJ h e He [? ?]. split; [by apply HI|by apply HJ]. Qed.

Lemma stable_mono (P P' : op S → Prop) I : (∀ o, P' o → P o) → stable P I → stable P' I.
Proof. intros HP HI h e He. apply HI. by apply HP. Qed.

Lemma stable_app P I h tr :
  stable P I → Forall (λ e, P (projT1 e)) tr → I h → I (h ++ tr).
Proof.
  intros HI Htr. revert h. induction Htr as [|e tr He Htr IH]; intros h Hh; [by rewrite app_nil_r|].
  rewrite snoc_app. apply IH. by apply HI.
Qed.

(** The guard may use a fact of the history that the calls keep. *)
Lemma wp_inv {A} P (I : list (event S) → Prop) (p : prog S A)
    (Q : A → list (event S) → Prop) h :
  ops_in P p → stable P I → I h → (∀ h' o, I h' → P o → G h' o) →
  (∀ tr a, traces p tr a → consistent_from E h tr = true → I (h ++ tr) → Q a (h ++ tr)) →
  wp p Q h.
Proof.
  intros Hops HI. revert h Hops. induction p as [a'|o k IH]; intros h Hops Hh HG HQ; simpl in *.
  - specialize (HQ [] a'). rewrite app_nil_r in HQ. by apply HQ.
  - destruct Hops as [Ho Hk]. split; [by apply HG|]. intros x Hx.
    apply IH; [done|by apply HI|done|]. intros tr a Htr Hc. rewrite <- app_assoc.
    apply HQ; [by eauto|]. apply andb_true_intro. by split.
Qed.

(** What the traces of [p] are known to satisfy can be used after [p]. *)
Lemma wp_traces {A} (p : prog S A) (Q : A → list (event S) → Prop) h :
  wp p Q h → wp p (λ a h', Q a h' ∧ ∃ tr, h' = h ++ tr ∧ traces p tr a) h.
Proof.
  revert h. induction p as [a|o k IH]; intros h; simpl.
  - intros HQ. split; [done|]. exists []. by rewrite app_nil_r.
  - intros [HG Hk]. split; [done|]. intros x Hx. eapply wp_mono; [by apply IH, Hk|].
    intros a h' (HQ & tr & -> & Htr). split; [done|]. exists (existT o x :: tr).
    rewrite <- app_assoc. eauto.
Qed.

(** *** Rules for Python's control flow *)
Context {A B : Type}.
Implicit Types (Q : outcome A → list (event S) → Prop).

Lemma wp_ret (a : A) Q h : Q (Ok a) h → wp (ret a) Q h.
Proof. done. Qed.

Lemma wp_raise e Q h : Q (Raised e) h → wp (raise (A:=A) e) Q h.
Proof. done. Qed.

Lemma wp_diverge Q h : Q OutOfFuel h → wp (diverge (A:=A)) Q h.
Proof. done. Qed.

Lemma wp_call_op (o : op S) (Q : outcome (ans S o) → list (event S) → Prop) h :
  G h o → (∀ x, E h (existT o x) = true → Q (Ok x) (h ++ [existT o x])) →
  wp (call_op o) Q h.
Proof. by split. Qed.

Lemma wp_bind (p : py S B) (f : B → py S A) Q h :
  wp p (λ r h', match r with
                | Ok b => wp (f b) Q h'
                | Raised e => Q (Raised e) h'
                | OutOfFuel => Q OutOfFuel h'
                end) h →
  wp (bind p f) Q h.
Proof.
  intros Hp. apply wp_prog_bind. eapply wp_mono; [exact Hp|].
  by intros [b|e|] h' H.
Qed.

Lemma wp_try_except (p : py S A) (hd : exn → option (py S A)) Q h :
  wp p (λ r h', match r with
                | Raised e => match hd e with Some q => wp q Q h' | None => Q (Raised e) h' end
                | r => Q r h'
                end) h →
  wp (try_except p hd) Q h.
Proof.
  intros Hp. apply wp_prog_bind. eapply wp_mono; [exact Hp|].
  intros [b|e|] h' H; simpl; try done. by destruct (hd e).
Qed.

Lemma wp_try_finally (p : py S A) (q : py S unit) Q h :
  wp p (λ r h', match r with
                | OutOfFuel => Q OutOfFuel h'
                | r => wp q (λ r' h'', match r' with
                                       | Ok _ => Q r h''
                                       | Raised e => Q (Raised e) h''
                                       | OutOfFuel => Q OutOfFuel h''
                                       end) h'
                end) h →
  wp (try_finally p q) Q h.
Proof.
  intros Hp. apply wp_prog_bind. eapply wp_mono; [exact Hp|].
  intros [b|e|] h' H; simpl; try done; apply wp_prog_bind; (eapply wp_mono; [exact H|]);
    by intros [?|?|] h'' H'.
Qed.
End WP.

#[export] Hint Resolve stable_and : rungrid.

Create HintDb ops discriminated.
#[export] Hint Resolve ops_in_py_bind ops_in_try_except ops_in_try_finally ops_in_call_op ops_in_unwrap : ops.
