(* ===== verification/PyStr.v ===== *)
(** * PyStr: the string operations the sources use

    A Python [str] is its UTF-8 encoding, a [string] of bytes, as is a Go [string]; [len] of a
    Go string is [String.length].  The operations below are the ones the repository calls. *)
From stdpp Require Export pretty.
From S2P Require Import Prelude.
Local Open Scope string_scope.
Local Open Scope list_scope.

Definition slash : ascii := "/"%char.
Definition dquote : ascii := "034"%char.

(** [s.strip(c)], [s.lstrip(c)] and [s.rstrip(c)] for a set of characters [p]; Go's
    [strings.Trim] is [strip]. *)
Fixpoint lstrip (p : ascii → bool) (s : string) : string :=
  match s with
  | EmptyString => EmptyString
  | String c r => if p c then lstrip p r else s
  end.

Fixpoint rstrip (p : ascii → bool) (s : string) : string :=
  match s with
  | EmptyString => EmptyString
  | String c r =>
      match rstrip p r with
      | EmptyString => if p c then EmptyString else String c EmptyString
      | r' => String c r'
      end
  end.

Definition strip (p : ascii → bool) (s : string) : string := rstrip p (lstrip p s).

Definition is_char (c d : ascii) : bool := Ascii.eqb d c.

(** ASCII white space, what [str.rstrip()] removes from the ASCII range. *)
Definition is_space (c : ascii) : bool :=
  let n := N_of_ascii c in
  ((9 <=? n) && (n <=? 13))%N || ((28 <=? n) && (n <=? 32))%N.

(** [sep.join(l)] *)
Fixpoint join (sep : string) (l : list string) : string :=
  match l with
  | [] => EmptyString
  | [s] => s
  | s :: l => s +:+ sep +:+ join sep l
  end.

(** [strings.HasPrefix(s, p)] / [s.startswith(p)] *)
Fixpoint has_prefix (p s : string) : bool :=
  match p, s with
  | EmptyString, _ => true
  | String c p, String d s => Ascii.eqb c d && has_prefix p s
  | String _ _, EmptyString => false
  end.

(** [strings.Contains(s, t)] / [t in s] *)
Fixpoint contains (t s : string) : bool :=
  has_prefix t s || match s with
                    | EmptyString => false
                    | String _ s => contains t s
                    end.

(** [s.endswith(t)] *)
Fixpoint ends_with (t s : string) : bool :=
  (String.eqb t s) || match s with
                      | EmptyString => false
                      | String _ s => ends_with t s
                      end.

(** [s.split(c, 1)]: the part before the first [c] and the part after it, when there is one. *)
Fixpoint split1 (c : ascii) (s : string) : option (string * string) :=
  match s with
  | EmptyString => None
  | String d r => if Ascii.eqb d c then Some (EmptyString, r)
                  else match split1 c r with
                       | Some (a, b) => Some (String d a, b)
                       | None => None
                       end
  end.

(** [Path(s).name]: what follows the last slash. *)
Fixpoint basename (s : string) : string :=
  match s with
  | EmptyString => EmptyString
  | String c r => if Ascii.eqb c slash
                  then basename r
                  else if contains "/" r then basename r else s
  end.

Definition nonempty (s : string) : bool := negb (String.eqb s EmptyString).

(** ** UTF-8 *)
(** Whether a byte continues a sequence (10xxxxxx). *)
Definition is_cont (c : ascii) : bool :=
  let n := N_of_ascii c in ((128 <=? n) && (n <? 192))%N.

(** [len(s)] of a Python string: its code points, that is the bytes that do not continue one. *)
Fixpoint py_len (s : string) : nat :=
  match s with
  | EmptyString => 0
  | String c r => if is_cont c then py_len r else S (py_len r)
  end.

(** [s[:n]] of a Python string: the first [n] code points. *)
Fixpoint py_take (n : nat) (s : string) : string :=
  match s with
  | EmptyString => EmptyString
  | String c r =>
      if is_cont c then String c (py_take n r)
      else match n with
           | O => EmptyString
           | S n => String c (py_take n r)
           end
  end.

(** ** Lemmas *)
Lemma has_prefix_app p s : has_prefix p (p +:+ s) = true.
Proof. induction p as [|c p IH]; [done|]. simpl. by rewrite Ascii.eqb_refl. Qed.

Lemma has_prefix_app_l p q s : has_prefix p q = true → has_prefix p (q +:+ s) = true.
Proof.
  revert q. induction p as [|c p IH]; intros [|d q]; simpl; try done.
  rewrite !andb_true_iff. naive_solver.
Qed.

Lemma string_app_assoc (a b c : string) : (a +:+ b) +:+ c = a +:+ (b +:+ c).
Proof. induction a as [|x a IH]; [done|]. simpl. unfold String.app in *. simpl. by rewrite IH. Qed.

Lemma string_cons_app c (a b : string) : String c a +:+ b = String c (a +:+ b).
Proof. done. Qed.

Lemma string_app_nil_r (a : string) : a +:+ EmptyString = a.
Proof. induction a as [|x a IH]; [done|]. unfold String.app in *. simpl. by rewrite IH. Qed.

Lemma string_length_app (a b : string) :
  String.length (a +:+ b) = String.length a + String.length b.
Proof. induction a as [|x a IH]; [done|]. unfold String.app in *. simpl. by rewrite IH. Qed.

Lemma join_cons sep s t l : join sep (s :: t :: l) = s +:+ sep +:+ join sep (t :: l).
Proof. done. Qed.

#[export] Hint Rewrite string_app_assoc string_app_nil_r string_length_app : rungrid.
#[export] Hint Resolve has_prefix_app has_prefix_app_l : rungrid.

(** ** Paths and endings *)
(** Path order: component by component. *)
Fixpoint path_parts (cur s : string) : list string :=
  match s with
  | EmptyString => [cur]
  | String c r => if Ascii.eqb c slash then cur :: path_parts EmptyString r
                  else path_parts (cur +:+ String c EmptyString) r
  end.
Fixpoint parts_leb (a b : list string) : bool :=
  match a, b with
  | [], _ => true
  | _ :: _, [] => false
  | x :: a, y :: b => match String.compare x y with
                      | Lt => true
                      | Eq => parts_leb a b
                      | Gt => false
                      end
  end.
Definition path_leb (p q : string) : bool :=
  parts_leb (path_parts EmptyString p) (path_parts EmptyString q).
Fixpoint insert_path (p : string) (l : list string) : list string :=
  match l with
  | [] => [p]
  | q :: l' => if path_leb p q then p :: l else q :: insert_path p l'
  end.
Definition sort_paths (l : list string) : list string := foldr insert_path [] l.

Lemma insert_path_perm p l : insert_path p l ≡ₚ p :: l.
Proof.
  induction l as [|q l IH]; cbn [insert_path]; [done|]. destruct (path_leb p q); [done|].
  rewrite IH. apply Permutation_swap.
Qed.
Lemma sort_paths_perm l : sort_paths l ≡ₚ l.
Proof. induction l as [|p l IH]; cbn; [done|]. by rewrite insert_path_perm, IH. Qed.

Lemma ends_with_spec t s : ends_with t s = true ↔ ∃ p, s = p +:+ t.
Proof.
  induction s as [|c s IH]; cbn [ends_with].
  - rewrite orb_false_r. split.
    + intros ->%String.eqb_eq. by exists EmptyString.
    + intros [[|d p] Hp]; [by apply String.eqb_eq|]. by rewrite string_cons_app in Hp.
  - rewrite orb_true_iff, IH. split.
    + intros [->%String.eqb_eq|[p ->]]; [by exists EmptyString|by exists (String c p)].
    + intros [[|d p] Hp]; [left; apply String.eqb_eq; by rewrite Hp|].
      rewrite string_cons_app in Hp. injection Hp as -> ->. right. by exists p.
Qed.

(** [str(Path(s))] of a POSIX path: empty and [.] components are left out; two slashes at the front
    are kept, more are one. *)
Definition str_path (s : string) : string :=
  let root := if has_prefix "/" s
              then if has_prefix "//" s && negb (has_prefix "///" s) then "//" else "/"
              else EmptyString in
  let path := root +:+ join "/" (List.filter (λ p, negb (existsb (String.eqb p) [EmptyString; "."]))
                                   (path_parts EmptyString s)) in
  if nonempty path then path else ".".

Example paths :
  str_path "a//b/./c/" = "a/b/c" ∧ str_path EmptyString = "." ∧ str_path "./x" = "x" ∧ str_path "///a" = "/a" ∧
  str_path "//a/../b" = "//a/../b" ∧ str_path "/" = "/".
Proof. by vm_compute. Qed.

(** [str(Path(s).parent)] *)
Fixpoint before_last (c : ascii) (s : string) : option string :=
  match s with
  | EmptyString => None
  | String d r => match before_last c r with
                  | Some p => Some (String d p)
                  | None => if Ascii.eqb d c then Some EmptyString else None
                  end
  end.
Definition parent (s : string) : string :=
  match before_last slash s with None => "." | Some EmptyString => "/" | Some p => p end.

(** [str(d / f)] for a normalized directory [d] and a relative path [f]. *)
Definition path_join (d f : string) : string :=
  if existsb (String.eqb d) [EmptyString; "."] then f
  else if String.eqb d "/" then "/" +:+ f
  else d +:+ "/" +:+ f.

(** The last character of a name that ends with [.c]. *)
Fixpoint last_char (s : string) : option ascii :=
  match s with
  | EmptyString => None
  | String c r => match last_char r with Some d => Some d | None => Some c end
  end.

Lemma last_char_app s t : last_char t ≠ None → last_char (s +:+ t) = last_char t.
Proof.
  intros Ht. induction s as [|c s IH]; [done|]. rewrite string_cons_app. cbn [last_char].
  rewrite IH. by destruct (last_char t).
Qed.

Lemma app_inj_l p (a b : string) : p +:+ a = p +:+ b → a = b.
Proof. induction p as [|c p IH]; [done|]. rewrite !string_cons_app. intros [= Heq]. auto. Qed.

(** ** Numbers as text: the codec of the concrete instances *)
Fixpoint bits (p : positive) : string :=
  match p with
  | xH => EmptyString
  | xO p => String "0" (bits p)
  | xI p => String "1" (bits p)
  end.
Fixpoint of_bits (s : string) : positive :=
  match s with
  | EmptyString => xH
  | String c s => if Ascii.eqb c "1" then xI (of_bits s) else xO (of_bits s)
  end.
Lemma of_bits_bits p : of_bits (bits p) = p.
Proof. induction p; simpl; congruence. Qed.
