(* ===== verification/Utf8.v ===== *)
(** * Utf8: decoding and encoding of text

    [decode] is [bytes.decode(errors="replace")]: code points, one replacement character for each
    maximal ill-formed part; [encode] is the encoder. *)
From S2P Require Import Prelude PyStr.
Local Open Scope string_scope.
Local Open Scope list_scope.

(** ** UTF-8 *)
Local Abbreviation in_range lo hi n := ((lo <=? n) && (n <=? hi))%N.
Definition replacement : N := 65533.

(** For a first byte: how many bytes must follow, the range of the first of them, and the bits
    the first byte contributes. *)
Definition lead (n : N) : option (nat * N * N * N) :=
  (if in_range 194 223 n then Some (1%nat, 128, 191, n - 192)
   else if n =? 224 then Some (2%nat, 160, 191, 0)
   else if n =? 237 then Some (2%nat, 128, 159, 13)
   else if in_range 225 239 n then Some (2%nat, 128, 191, n - 224)
   else if n =? 240 then Some (3%nat, 144, 191, 0)
   else if in_range 241 243 n then Some (3%nat, 128, 191, n - 240)
   else if n =? 244 then Some (3%nat, 128, 143, 4)
   else None)%N.

(** Reads [k] continuation bytes; [None] when one is missing.  The bytes read are consumed. *)
Fixpoint continue (k : nat) (lo hi acc : N) (s : string) : option N * string :=
  match k with
  | O => (Some acc, s)
  | S k =>
      match s with
      | EmptyString => (None, s)
      | String c r =>
          let n := N_of_ascii c in
          if in_range lo hi n then continue k 128 191 (acc * 64 + (n - 128))%N r else (None, s)
      end
  end.

Fixpoint decode_fuel (fuel : nat) (s : string) : list N :=
  match fuel, s with
  | S fuel, String c r =>
      let n := N_of_ascii c in
      if (n <? 128)%N then n :: decode_fuel fuel r
      else match lead n with
           | None => replacement :: decode_fuel fuel r
           | Some (k, lo, hi, acc) =>
               let '(cp, rest) := continue k lo hi acc r in
               default replacement cp :: decode_fuel fuel rest
           end
  | _, _ => []
  end.
(** [s.decode(errors="replace")], as code points. *)
Definition decode (s : string) : list N := decode_fuel (String.length s) s.

Local Abbreviation byte n := (ascii_of_N n%N).
Definition encode_cp (n : N) : string :=
  if (n <? 128)%N then String (byte n) EmptyString
  else if (n <? 2048)%N then
    String (byte (192 + n / 64)) (String (byte (128 + n mod 64)) EmptyString)
  else if (n <? 65536)%N then
    String (byte (224 + n / 4096))
      (String (byte (128 + n / 64 mod 64)) (String (byte (128 + n mod 64)) EmptyString))
  else
    String (byte (240 + n / 262144))
      (String (byte (128 + n / 4096 mod 64))
        (String (byte (128 + n / 64 mod 64)) (String (byte (128 + n mod 64)) EmptyString))).
Fixpoint encode (l : list N) : string :=
  match l with
  | [] => EmptyString
  | n :: l => encode_cp n +:+ encode l
  end.

(** ** Decoding *)
Lemma length_encode_cp n : (String.length (encode_cp n) ≤ 4)%nat.
Proof. unfold encode_cp. repeat case_match; simpl; lia. Qed.

Lemma length_encode_ascii n : (n < 128)%N → String.length (encode_cp n) = 1%nat.
Proof. intros Hn. unfold encode_cp. by rewrite (proj2 (N.ltb_lt n 128)). Qed.

Lemma continue_consumes k lo hi acc s cp rest :
  continue k lo hi acc s = (cp, rest) →
  (String.length rest ≤ String.length s)%nat ∧
  (is_Some cp → String.length rest + k = String.length s)%nat.
Proof.
  revert lo hi acc s. induction k as [|k IH]; intros lo hi acc s; cbn [continue].
  { intros [= <- <-]. split; [done|lia]. }
  destruct s as [|c s]; [by intros [= <- <-]; split; [|intros []]|]. cbv zeta. cbn [String.length].
  destruct (_ && _); [|by intros [= <- <-]; split; [|intros []]].
  intros Hk. apply IH in Hk as [? Hcp]. split; [lia|]. intros ?. rewrite <- Hcp by done. lia.
Qed.

Lemma lead_some n k lo hi acc : lead n = Some (k, lo, hi, acc) → (1 ≤ k)%nat.
Proof. unfold lead. repeat case_match; intros; simplify_eq; lia. Qed.

(** What decoding and encoding again can add: three bytes for one. *)
Lemma length_encode_decode_fuel fuel s :
  (String.length (encode (decode_fuel fuel s)) ≤ 3 * String.length s)%nat.
Proof.
  revert s. induction fuel as [|fuel IH]; intros [|c s]; simpl; try lia.
  case_match eqn:Hc.
  { cbn [encode]. rewrite string_length_app, length_encode_ascii by by apply N.ltb_lt.
    specialize (IH s). lia. }
  case_match eqn:Hl; [repeat case_match; subst|].
  - cbn [encode]. rewrite string_length_app. apply lead_some in Hl.
    match goal with H : continue _ _ _ _ _ = (?cp, ?rest) |- _ =>
      apply continue_consumes in H as [Hle Hcp]; specialize (IH rest); destruct cp as [x|] end; cbn [default from_option id].
    + specialize (Hcp ltac:(eauto)). pose proof (length_encode_cp x). lia.
    + cbn. lia.
  - cbn [encode]. rewrite string_length_app. specialize (IH s). cbn. lia.
Qed.

Lemma encode_app l l' : encode (l ++ l') = encode l +:+ encode l'.
Proof. induction l as [|n l IH]; simpl; [done|]. by rewrite IH, string_app_assoc. Qed.

