(* ===== verification/Json.v ===== *)
(** * Json: JSON values and [json.dumps]

    The worker's RPC payload, the checkpoint file and the SDK's request body are JSON text.
    [dumps] is Python's [json.dumps] with its defaults: separators [", "] and [": "], object
    keys in insertion order, every character outside printable ASCII written as an escape.
    Numbers are integers. *)
From S2P Require Import Prelude PyStr.
Local Open Scope string_scope.
Local Open Scope list_scope.

Inductive json :=
| JNull
| JBool (b : bool)
| JNum (z : Z)
| JStr (s : string)
| JArr (l : list json)
| JObj (l : list (string * json)).

(** ** String escapes *)
Definition hex_digit (n : N) : ascii :=
  ascii_of_N (if (n <? 10)%N then 48 + n else 87 + n).

Definition hex4 (n : N) : string :=
  String (hex_digit (N.shiftr n 12 mod 16))
    (String (hex_digit (N.shiftr n 8 mod 16))
      (String (hex_digit (N.shiftr n 4 mod 16))
        (String (hex_digit (n mod 16)) EmptyString))).

Definition backslash : ascii := "092"%char.
Definition u_escape (n : N) : string := String backslash (String "u" (hex4 n)).

(** A code point beyond the basic plane is written as a surrogate pair. *)
Definition cp_escape (n : N) : string :=
  if (n <? 65536)%N then u_escape n
  else let v := (n - 65536)%N in
       u_escape (N.lor 55296 (N.shiftr v 10)) +:+ u_escape (N.lor 56320 (v mod 1024)).

Definition short_escape (c : ascii) : string := String backslash (String c EmptyString).

(** The escape of an ASCII character. *)
Definition ascii_escape (c : ascii) : string :=
  let n := N_of_ascii c in
  if (n =? 34)%N then short_escape dquote
  else if (n =? 92)%N then short_escape backslash
  else if (n =? 10)%N then short_escape "n"
  else if (n =? 13)%N then short_escape "r"
  else if (n =? 9)%N then short_escape "t"
  else if (n =? 12)%N then short_escape "f"
  else if (n =? 8)%N then short_escape "b"
  else if (n <? 32)%N || (n =? 127)%N then u_escape n
  else String c EmptyString.

Definition low6 (c : ascii) : N := (N_of_ascii c mod 64)%N.

(** The escape of a string, code point by code point. *)
Fixpoint escape (s : string) : string :=
  match s with
  | EmptyString => EmptyString
  | String c r =>
      let n := N_of_ascii c in
      if (n <? 128)%N then ascii_escape c +:+ escape r
      else if (n <? 224)%N then
        match r with
        | String c1 r => cp_escape ((n mod 32) * 64 + low6 c1)%N +:+ escape r
        | _ => EmptyString
        end
      else if (n <? 240)%N then
        match r with
        | String c1 (String c2 r) =>
            cp_escape ((n mod 16) * 4096 + low6 c1 * 64 + low6 c2)%N +:+ escape r
        | _ => EmptyString
        end
      else
        match r with
        | String c1 (String c2 (String c3 r)) =>
            cp_escape ((n mod 8) * 262144 + low6 c1 * 4096 + low6 c2 * 64 + low6 c3)%N
              +:+ escape r
        | _ => EmptyString
        end
  end.

Definition quote (s : string) : string :=
  String dquote (escape s +:+ String dquote EmptyString).

(** ** [json.dumps] *)
Fixpoint dumps (v : json) : string :=
  match v with
  | JNull => "null"
  | JBool true => "true"
  | JBool false => "false"
  | JNum z => pretty z
  | JStr s => quote s
  | JArr l => "[" +:+ join ", " (map dumps l) +:+ "]"
  | JObj l => "{" +:+ join ", " (map (λ kv, quote (kv.1) +:+ ": " +:+ dumps (kv.2)) l) +:+ "}"
  end.

(** [json.dumps(v, indent=2)]; [pad] is the indentation of the line the value starts on. *)
Fixpoint dumps_indent (pad : string) (v : json) : string :=
  let newline := String "010" EmptyString in
  match v with
  | JArr ((_ :: _) as l) =>
      "[" +:+ newline +:+ pad +:+ "  "
      +:+ join ("," +:+ newline +:+ pad +:+ "  ") (map (dumps_indent (pad +:+ "  ")) l)
      +:+ newline +:+ pad +:+ "]"
  | JObj ((_ :: _) as l) =>
      "{" +:+ newline +:+ pad +:+ "  "
      +:+ join ("," +:+ newline +:+ pad +:+ "  ")
            (map (λ kv, quote (kv.1) +:+ ": " +:+ dumps_indent (pad +:+ "  ") (kv.2)) l)
      +:+ newline +:+ pad +:+ "}"
  | v => dumps v
  end.
