(* ===== verification/JsonParse.v ===== *)
(** * JsonParse: [json.loads]

    The decoder of Python's json module on objects, arrays, strings, integers and constants; a
    number with a fraction or an exponent is not in the model's value type and is refused.  The
    fuel of [loads] is the length of the text. *)
From S2P Require Import Prelude PyStr Utf8 Json.
Local Open Scope string_scope.
Local Open Scope list_scope.

(** ** The decoder *)
Definition is_ws (c : ascii) : bool :=
  let n := N_of_ascii c in ((n =? 32) || (n =? 9) || (n =? 10) || (n =? 13))%N.
Fixpoint skip_ws (s : string) : string :=
  match s with
  | String c r => if is_ws c then skip_ws r else s
  | EmptyString => s
  end.

Definition hex_value (c : ascii) : option N :=
  let n := N_of_ascii c in
  (if (48 <=? n) && (n <=? 57) then Some (n - 48)
   else if (97 <=? n) && (n <=? 102) then Some (n - 87)
   else if (65 <=? n) && (n <=? 70) then Some (n - 55)
   else None)%N.
Definition hex4_value (a b c d : ascii) : option N :=
  match hex_value a, hex_value b, hex_value c, hex_value d with
  | Some a, Some b, Some c, Some d => Some (a * 4096 + b * 256 + c * 16 + d)%N
  | _, _, _, _ => None
  end.

(** The character a one-letter escape stands for. *)
Definition unescape (c : ascii) : option ascii :=
  let n := N_of_ascii c in
  (if (n =? 34) || (n =? 92) || (n =? 47) then Some c
   else if n =? 98 then Some (ascii_of_N 8)
   else if n =? 102 then Some (ascii_of_N 12)
   else if n =? 110 then Some (ascii_of_N 10)
   else if n =? 114 then Some (ascii_of_N 13)
   else if n =? 116 then Some (ascii_of_N 9)
   else None)%N.

Definition cons_cp (n : N) (r : option (string * string)) : option (string * string) :=
  match r with Some (a, b) => Some (encode_cp n +:+ a, b) | None => None end.

(** The rest of a string literal after its opening quote, and what follows it. *)
Fixpoint parse_str (s : string) : option (string * string) :=
  match s with
  | EmptyString => None
  | String c r =>
      if Ascii.eqb c dquote then Some (EmptyString, r)
      else if Ascii.eqb c backslash then
        match r with
        | String e r1 =>
            if Ascii.eqb e "u" then
              match r1 with
              | String h1 (String h2 (String h3 (String h4 r2))) =>
                  match hex4_value h1 h2 h3 h4 with
                  | None => None
                  | Some n =>
                      if ((55296 <=? n) && (n <=? 56319))%N then
                        match r2 with
                        | String b (String u (String k1 (String k2 (String k3 (String k4 r3))))) =>
                            if Ascii.eqb b backslash && Ascii.eqb u "u" then
                              match hex4_value k1 k2 k3 k4 with
                              | None => None
                              | Some m =>
                                  if ((56320 <=? m) && (m <=? 57343))%N
                                  then cons_cp (65536 + (n - 55296) * 1024 + (m - 56320))%N (parse_str r3)
                                  else cons_cp n (parse_str r2)
                              end
                            else cons_cp n (parse_str r2)
                        | _ => cons_cp n (parse_str r2)
                        end
                      else cons_cp n (parse_str r2)
                  end
              | _ => None
              end
            else match unescape e, parse_str r1 with
                 | Some d, Some (a, b) => Some (String d a, b)
                 | _, _ => None
                 end
        | EmptyString => None
        end
      else if (N_of_ascii c <? 32)%N then None
      else match parse_str r with Some (a, b) => Some (String c a, b) | None => None end
  end.

Definition digit (c : ascii) : option N :=
  let n := N_of_ascii c in if ((48 <=? n) && (n <=? 57))%N then Some (n - 48)%N else None.
Fixpoint digits (acc : N) (s : string) : N * string :=
  match s with
  | String c r => match digit c with Some d => digits (acc * 10 + d) r | None => (acc, s) end
  | EmptyString => (acc, s)
  end.
(** [0] or a digit from 1 and the digits after it. *)
Definition parse_nat (s : string) : option (N * string) :=
  match s with
  | String c r => match digit c with
                  | None => None
                  | Some 0%N => Some (0%N, r)
                  | Some d => Some (digits d r)
                  end
  | EmptyString => None
  end.
Definition parse_num (s : string) : option (Z * string) :=
  match s with
  | String "-" r => match parse_nat r with Some (n, r) => Some (Z.opp (Z.of_N n), r) | None => None end
  | _ => match parse_nat s with Some (n, r) => Some (Z.of_N n, r) | None => None end
  end.

Fixpoint drop_prefix (p s : string) : option string :=
  match p, s with
  | EmptyString, _ => Some s
  | String a p, String b s => if Ascii.eqb a b then drop_prefix p s else None
  | _, _ => None
  end.

(** [dict[key] = value]: a key that is there keeps its place. *)
Fixpoint dict_set (d : list (string * json)) (k : string) (v : json) : list (string * json) :=
  match d with
  | [] => [(k, v)]
  | (k', v') :: d => if String.eqb k k' then (k, v) :: d else (k', v') :: dict_set d k v
  end.

Fixpoint parse_value (fuel : nat) (s : string) : option (json * string) :=
  match fuel with
  | O => None
  | S fuel =>
      match s with
      | EmptyString => None
      | String c r =>
          if Ascii.eqb c dquote then
            match parse_str r with Some (a, r) => Some (JStr a, r) | None => None end
          else if Ascii.eqb c "[" then
            match drop_prefix "]" (skip_ws r) with
            | Some r => Some (JArr [], r)
            | None => match parse_elems fuel (skip_ws r) with
                      | Some (l, r) => Some (JArr l, r)
                      | None => None
                      end
            end
          else if Ascii.eqb c "{" then
            match drop_prefix "}" (skip_ws r) with
            | Some r => Some (JObj [], r)
            | None => match parse_members fuel [] (skip_ws r) with
                      | Some (l, r) => Some (JObj l, r)
                      | None => None
                      end
            end
          else match drop_prefix "null" s, drop_prefix "true" s, drop_prefix "false" s with
               | Some r, _, _ => Some (JNull, r)
               | _, Some r, _ => Some (JBool true, r)
               | _, _, Some r => Some (JBool false, r)
               | _, _, _ => match parse_num s with Some (z, r) => Some (JNum z, r) | None => None end
               end
      end
  end
with parse_elems (fuel : nat) (s : string) : option (list json * string) :=
  match fuel with
  | O => None
  | S fuel =>
      match parse_value fuel s with
      | None => None
      | Some (v, r) =>
          match skip_ws r with
          | String "]" r => Some ([v], r)
          | String "," r => match parse_elems fuel (skip_ws r) with
                            | Some (l, r) => Some (v :: l, r)
                            | None => None
                            end
          | _ => None
          end
      end
  end
with parse_members (fuel : nat) (d : list (string * json)) (s : string)
  : option (list (string * json) * string) :=
  match fuel with
  | O => None
  | S fuel =>
      match s with
      | String c r =>
          if Ascii.eqb c dquote then
            match parse_str r with
            | None => None
            | Some (k, r) =>
                match skip_ws r with
                | String ":" r =>
                    match parse_value fuel (skip_ws r) with
                    | None => None
                    | Some (v, r) =>
                        match skip_ws r with
                        | String "}" r => Some (dict_set d k v, r)
                        | String "," r => parse_members fuel (dict_set d k v) (skip_ws r)
                        | _ => None
                        end
                    end
                | _ => None
                end
            end
          else None
      | EmptyString => None
      end
  end.

(** [json.loads(s)]; [None] is [JSONDecodeError]. *)
Definition loads (s : string) : option json :=
  match parse_value (S (String.length s)) (skip_ws s) with
  | Some (v, r) => if nonempty (skip_ws r) then None else Some v
  | None => None
  end.

(** ** Dictionaries *)
(** [d[k]]; [None] is [KeyError]. *)
Fixpoint dict_get {A} (d : list (string * A)) (k : string) : option A :=
  match d with
  | [] => None
  | (k', v) :: d => if String.eqb k k' then Some v else dict_get d k
  end.

Lemma dict_get_elem {A} (d : list (string * A)) k v : dict_get d k = Some v → (k, v) ∈ d.
Proof.
  induction d as [|[k' v'] d IH]; cbn [dict_get]; [done|].
  destruct (String.eqb_spec k k') as [<-|]; [intros [= <-]|intros H%IH]; apply elem_of_cons; auto.
Qed.

(** A key that is there once is found wherever it is. *)
Lemma dict_get_some {A} (d : list (string * A)) k v : NoDup (map fst d) → (k, v) ∈ d → dict_get d k = Some v.
Proof.
  induction d as [|[k' v'] d IH]; [by intros _ ?%not_elem_of_nil|]. cbn [map fst dict_get].
  intros [Hk Hnd]%NoDup_cons [[= -> ->]|Hin]%elem_of_cons; [by rewrite String.eqb_refl|].
  destruct (String.eqb_spec k k') as [->|]; [|auto]. destruct Hk.
  change (k', v).1 with k'. apply list_elem_of_fmap. by exists (k', v).
Qed.

Lemma dict_get_perm {A} (d d' : list (string * A)) k :
  NoDup (map fst d) → d ≡ₚ d' → dict_get d' k = dict_get d k.
Proof.
  intros Hnd Hp. assert (NoDup (map fst d')) as Hnd' by (rewrite <- Hp; done).
  destruct (dict_get d k) as [v|] eqn:Hv.
  - apply dict_get_some; [done|]. rewrite <- Hp. by apply dict_get_elem.
  - destruct (dict_get d' k) as [v|] eqn:Hv'; [|done]. apply dict_get_elem in Hv'.
    rewrite <- Hp in Hv'. rewrite (dict_get_some _ _ _ Hnd Hv') in Hv. done.
Qed.
