(* ===== verification/JsonRound.v ===== *)
(** * JsonRound: what a JSON encoder writes is read back

    A printer is a layout: how it writes strings, and the white space between the tokens.  Whatever
    the layout, [json.loads] reads back the value, when the strings are valid Unicode and the keys
    of an object distinct ([loads_print]).  [json.dumps] with and without [indent=2] are layouts;
    Go's [json.Marshal] is one in WireText.  [weight_length] shows that the fuel of [loads], the
    length of the text, is enough. *)
From S2P Require Import Prelude PyStr Utf8 Json JsonParse.
Local Open Scope string_scope.
Local Open Scope list_scope.

(** ** Values that are read back: valid Unicode strings, distinct keys *)
Fixpoint ascii_ok (s : string) : bool :=
  match s with
  | EmptyString => true
  | String c r => (N_of_ascii c <? 128)%N && ascii_ok r
  end.
(** A Unicode scalar value: no surrogate. *)
Definition scalar (n : N) : bool := ((n <? 55296) || ((57344 <=? n) && (n <=? 1114111)))%N.
Definition utf8_ok (s : string) : bool :=
  String.eqb (encode (decode s)) s && forallb scalar (decode s).
Definition str_ok (s : string) : bool := ascii_ok s || utf8_ok s.
Fixpoint json_ok (j : json) : bool :=
  match j with
  | JNull | JBool _ | JNum _ => true
  | JStr s => str_ok s
  | JArr l => forallb json_ok l
  | JObj l => forallb (λ kv, str_ok kv.1 && json_ok kv.2) l && bool_decide (NoDup (map fst l))
  end.

(** How deep and wide a value is: the calls of the decoder it takes. *)
Fixpoint weight (j : json) : nat :=
  match j with
  | JArr l => S (list_sum (map (λ x, S (weight x)) l))
  | JObj l => S (list_sum (map (λ kv, S (weight kv.2)) l))
  | _ => 1
  end.

Section JsonInd.
Context (P : json → Prop).
Hypothesis (Hnull : P JNull) (Hbool : ∀ b, P (JBool b)) (Hnum : ∀ z, P (JNum z))
  (Hstr : ∀ s, P (JStr s)) (Harr : ∀ l, Forall P l → P (JArr l))
  (Hobj : ∀ l, Forall (λ kv, P kv.2) l → P (JObj l)).

Fixpoint json_nested_ind (j : json) : P j :=
  match j with
  | JNull => Hnull
  | JBool b => Hbool b
  | JNum z => Hnum z
  | JStr s => Hstr s
  | JArr l => Harr l ((fix go l : Forall P l :=
      match l with
      | [] => List.Forall_nil P
      | x :: l => List.Forall_cons P x l (json_nested_ind x) (go l)
      end) l)
  | JObj l => Hobj l ((fix go l : Forall (λ kv, P kv.2) l :=
      match l with
      | [] => List.Forall_nil _
      | x :: l => List.Forall_cons _ x l (json_nested_ind x.2) (go l)
      end) l)
  end.
End JsonInd.

(** *** Strings *)
Lemma parse_str_escape1 c t :
  (N_of_ascii c <? 128)%N = true →
  parse_str (ascii_escape c +:+ t) =
  match parse_str t with Some (a, b) => Some (String c a, b) | None => None end.
Proof.
  destruct c as [[] [] [] [] [] [] [] []]; intros Hc; try discriminate Hc; reflexivity.
Qed.

Lemma parse_str_ascii s rest :
  ascii_ok s = true → parse_str (escape s +:+ String dquote rest) = Some (s, rest).
Proof.
  induction s as [|c s IH]; intros Hs; [done|].
  simpl in Hs. apply andb_true_iff in Hs as [Hc Hs]. cbn [escape]. rewrite Hc.
  by rewrite string_app_assoc, parse_str_escape1, IH.
Qed.

Lemma utf8_ok_encode s : utf8_ok s = true → ∃ cps, s = encode cps ∧ Forall (λ n, scalar n = true) cps.
Proof.
  unfold utf8_ok. intros [Hs%String.eqb_eq Hall]%andb_true_iff. exists (decode s). split; [done|].
  apply Forall_forall. intros n Hn. rewrite forallb_forall in Hall. by apply Hall, list_elem_of_In.
Qed.

#[local] Ltac Zify.zify_post_hook ::= Z.to_euclidean_division_equations.

Lemma N_of_byte n : (n < 256)%N → N_of_ascii (ascii_of_N n) = n.
Proof. apply N_ascii_embedding. Qed.

(** *** The escape of a code point *)
Definition esc_cp (n : N) : string := if (n <? 128)%N then ascii_escape (ascii_of_N n) else cp_escape n.

Lemma escape_cp n r : scalar n = true → escape (encode_cp n +:+ r) = esc_cp n +:+ escape r.
Proof.
  unfold scalar. rewrite orb_true_iff, andb_true_iff, N.ltb_lt, !N.leb_le. intros Hn.
  unfold encode_cp, esc_cp. destruct (N.ltb_spec n 128) as [H1|H1].
  { rewrite string_cons_app. cbn [escape]. rewrite N_of_byte by lia.
    by rewrite (proj2 (N.ltb_lt _ _) H1). }
  destruct (N.ltb_spec n 2048) as [H2|H2].
  { rewrite !string_cons_app. cbn [escape]. unfold low6. rewrite !N_of_byte by lia.
    rewrite (proj2 (N.ltb_ge (192 + n / 64) 128)), (proj2 (N.ltb_lt (192 + n / 64) 224)) by lia.
    do 2 f_equal. lia. }
  destruct (N.ltb_spec n 65536) as [H3|H3].
  { rewrite !string_cons_app. cbn [escape]. unfold low6. rewrite !N_of_byte by lia.
    rewrite (proj2 (N.ltb_ge (224 + n / 4096) 128)), (proj2 (N.ltb_ge (224 + n / 4096) 224)),
      (proj2 (N.ltb_lt (224 + n / 4096) 240)) by lia.
    do 2 f_equal. lia. }
  rewrite !string_cons_app. cbn [escape]. unfold low6. rewrite !N_of_byte by lia.
  rewrite (proj2 (N.ltb_ge (240 + n / 262144) 128)), (proj2 (N.ltb_ge (240 + n / 262144) 224)),
    (proj2 (N.ltb_ge (240 + n / 262144) 240)) by lia.
  do 2 f_equal. lia.
Qed.

(** *** Reading an escape *)
Lemma hex_value_digit x : (x < 16)%N → hex_value (hex_digit x) = Some x.
Proof.
  intros Hx. assert (forallb (λ x, bool_decide (hex_value (hex_digit x) = Some x)) (N.of_nat <$> seq 0 16) = true)
    as Hall by (vm_compute; reflexivity).
  rewrite forallb_forall in Hall. eapply bool_decide_eq_true, Hall, list_elem_of_In, list_elem_of_fmap.
  exists (N.to_nat x). split; [lia|]. apply elem_of_seq. lia.
Qed.

Lemma hex4_value_hex4 n :
  (n < 65536)%N →
  hex4_value (hex_digit (N.shiftr n 12 mod 16)) (hex_digit (N.shiftr n 8 mod 16))
    (hex_digit (N.shiftr n 4 mod 16)) (hex_digit (n mod 16)) = Some n.
Proof.
  intros Hn. unfold hex4_value. rewrite !hex_value_digit by by apply N.mod_lt. f_equal. rewrite !N.shiftr_div_pow2.
  change (2 ^ 12)%N with 4096%N. change (2 ^ 8)%N with 256%N. change (2 ^ 4)%N with 16%N. lia.
Qed.

Lemma lor_surrogate base x : base = 55296%N ∨ base = 56320%N → (x < 1024)%N → N.lor base x = (base + x)%N.
Proof.
  intros Hb Hx. assert (forallb (λ x, (N.lor 55296 x =? 55296 + x) && (N.lor 56320 x =? 56320 + x))%N
    (N.of_nat <$> seq 0 1024) = true) as Hall by (vm_compute; reflexivity).
  rewrite forallb_forall in Hall. specialize (Hall x). rewrite andb_true_iff, !N.eqb_eq in Hall.
  destruct Hall as [? ?]; [|by destruct Hb as [-> | ->]].
  apply list_elem_of_In, list_elem_of_fmap. exists (N.to_nat x). split; [lia|]. apply elem_of_seq. lia.
Qed.

(** An escape that is no high surrogate stands for itself. *)
Lemma parse_u_escape n t :
  (n < 65536)%N → ((55296 <=? n) && (n <=? 56319))%N = false →
  parse_str (u_escape n +:+ t) = cons_cp n (parse_str t).
Proof.
  intros Hn Hs. unfold u_escape, hex4. rewrite !string_cons_app. change (EmptyString +:+ t) with t.
  cbn [parse_str]. change (Ascii.eqb backslash dquote) with false.
  change (Ascii.eqb backslash backslash) with true. change (Ascii.eqb "u" "u") with true. cbv match.
  by rewrite hex4_value_hex4, Hs.
Qed.

Lemma parse_cp_escape n t :
  scalar n = true → parse_str (cp_escape n +:+ t) = cons_cp n (parse_str t).
Proof.
  unfold scalar. rewrite orb_true_iff, andb_true_iff, N.ltb_lt, !N.leb_le. intros Hn.
  unfold cp_escape. destruct (N.ltb_spec n 65536) as [H|H].
  { apply parse_u_escape; [done|]. rewrite andb_false_iff, !N.leb_gt. lia. }
  cbv zeta. set (v := (n - 65536)%N).
  assert (N.shiftr v 10 = v / 1024)%N as -> by (rewrite N.shiftr_div_pow2; done).
  rewrite !lor_surrogate by (auto || unfold v; lia).
  set (hi := (55296 + v / 1024)%N). set (lo := (56320 + v mod 1024)%N).
  assert (∀ x t, u_escape x +:+ t = String backslash (String "u"
    (String (hex_digit (N.shiftr x 12 mod 16)) (String (hex_digit (N.shiftr x 8 mod 16))
      (String (hex_digit (N.shiftr x 4 mod 16)) (String (hex_digit (x mod 16)) t)))))) as Hu by done.
  rewrite string_app_assoc, !Hu.
  cbn [parse_str]. change (Ascii.eqb backslash dquote) with false.
  change (Ascii.eqb backslash backslash) with true. change (Ascii.eqb "u" "u") with true. cbv match.
  rewrite !hex4_value_hex4 by (unfold hi, lo, v; lia). cbn [andb].
  rewrite !(proj2 (N.leb_le _ _)) by (unfold hi, lo, v; lia). cbn [andb].
  f_equal. unfold hi, lo, v. lia.
Qed.

Lemma parse_esc_cp n t : scalar n = true → parse_str (esc_cp n +:+ t) = cons_cp n (parse_str t).
Proof.
  intros Hs. unfold esc_cp. destruct (N.ltb_spec n 128) as [H|H]; [|by apply parse_cp_escape].
  rewrite parse_str_escape1 by (rewrite N_of_byte by lia; by apply N.ltb_lt).
  unfold cons_cp, encode_cp. rewrite (proj2 (N.ltb_lt _ _) H). done.
Qed.

Lemma parse_str_utf8 s rest :
  utf8_ok s = true → parse_str (escape s +:+ String dquote rest) = Some (s, rest).
Proof.
  intros (cps & -> & Hall)%utf8_ok_encode. induction Hall as [|n cps Hn _ IH]; [done|].
  cbn [encode]. rewrite escape_cp by done. rewrite string_app_assoc, parse_esc_cp by done.
  by rewrite IH.
Qed.

Lemma parse_str_escape s rest :
  str_ok s = true → parse_str (escape s +:+ String dquote rest) = Some (s, rest).
Proof. unfold str_ok. intros [?|?]%orb_true_iff; [by apply parse_str_ascii|by apply parse_str_utf8]. Qed.

(** *** Numbers *)
Definition no_digit (s : string) : Prop :=
  match s with String c _ => digit c = None | EmptyString => True end.

Lemma digits_stop acc s : no_digit s → digits acc s = (acc, s).
Proof. destruct s as [|c s]; simpl; [done|]. by intros ->. Qed.

Lemma digit_char x : (x < 10)%N → digit (pretty_N_char x) = Some x.
Proof.
  intros Hx. assert (x = 0 ∨ x = 1 ∨ x = 2 ∨ x = 3 ∨ x = 4 ∨ x = 5 ∨ x = 6 ∨ x = 7 ∨ x = 8 ∨ x = 9)%N
    as Hc by lia. by destruct_or! Hc; subst.
Qed.

Lemma digits_pretty x s acc :
  ∃ k, ∀ rest, digits acc (pretty_N_go x s +:+ rest) = digits (acc * 10 ^ k + x) (s +:+ rest).
Proof.
  revert s acc. induction (N.lt_wf_0 x) as [x _ IH]; intros s acc.
  destruct (decide (x = 0)%N) as [->|Hx].
  { exists 0%N. intros rest. rewrite pretty_N_go_0. f_equal. lia. }
  rewrite pretty_N_go_step by lia.
  destruct (IH (x `div` 10)%N ltac:(by apply N.div_lt; lia)
    (String (pretty_N_char (x `mod` 10)) s) acc) as [k Hk].
  exists (N.succ k). intros rest. rewrite Hk. rewrite string_cons_app. cbn [digits].
  rewrite digit_char by by apply N.mod_lt. f_equal. rewrite N.pow_succ_r'.
  pose proof (N.div_mod' x 10). lia.
Qed.

Lemma pretty_head x s :
  (0 < x)%N → ∃ d r, pretty_N_go x s = String (pretty_N_char d) r ∧ (0 < d < 10)%N ∧
    ∀ rest, digits d (r +:+ rest) = digits x (s +:+ rest).
Proof.
  revert s. induction (N.lt_wf_0 x) as [x _ IH]; intros s Hx. rewrite pretty_N_go_step by done.
  destruct (decide (x < 10)%N) as [Hlt|Hge].
  - rewrite (N.div_small x 10), (N.mod_small x 10), pretty_N_go_0 by done. by eexists x, _.
  - assert (0 < x `div` 10)%N as Hd by (apply N.div_str_pos; lia).
    destruct (IH (x `div` 10)%N ltac:(by apply N.div_lt; lia) (String (pretty_N_char (x `mod` 10)) s) Hd)
      as (d & r & Heq & Hr & Hdig).
    exists d, r. split_and!; [done|lia..|]. intros rest. rewrite Hdig. rewrite string_cons_app. cbn [digits].
    rewrite digit_char by by apply N.mod_lt. f_equal. pose proof (N.div_mod' x 10). lia.
Qed.

Lemma parse_nat_pretty x rest :
  no_digit rest → parse_nat (pretty x +:+ rest) = Some (x, rest) ∧
  ∃ c r, pretty x = String c r ∧ is_Some (digit c).
Proof.
  intros Hrest. unfold pretty, pretty_N. destruct (decide (x = 0)%N) as [->|Hx].
  { split; [done|]. eexists _, _. split; [done|]. by eexists. }
  destruct (pretty_head x "") as (d & r & -> & Hd & Hdig); [lia|].
  assert (digit (pretty_N_char d) = Some d) as Hdd by (apply digit_char; lia).
  split; [|eexists _, _; split; [done|by eexists]].
  rewrite string_cons_app. cbn [parse_nat]. rewrite Hdd. destruct d; [lia|]. rewrite Hdig. f_equal.
  by apply digits_stop.
Qed.

Lemma parse_num_pretty z rest : no_digit rest → parse_num (pretty z +:+ rest) = Some (z, rest).
Proof.
  intros Hrest. destruct z as [|p|p]; [done| |].
  - destruct (parse_nat_pretty (Npos p) rest Hrest) as [Hp (c & r & Heq & Hc)].
    change (pretty (Zpos p)) with (pretty (Npos p)). unfold parse_num. rewrite Heq in *.
    rewrite string_cons_app in *. rewrite Hp.
    destruct c as [[] [] [] [] [] [] [] []]; try done; by destruct Hc.
  - destruct (parse_nat_pretty (Npos p) rest Hrest) as [Hp _].
    change (pretty (Zneg p)) with (String "-" (pretty (Npos p))). rewrite string_cons_app.
    unfold parse_num. by rewrite Hp.
Qed.

(** The first character of a value: not a space, not a bracket that closes. *)
Definition opens (c : ascii) : bool :=
  negb (is_ws c) && negb (Ascii.eqb c "]") && negb (Ascii.eqb c "}") && negb (Ascii.eqb c ",").

Lemma digit_opens c : is_Some (digit c) → opens c = true.
Proof. destruct c as [[] [] [] [] [] [] [] []]; try done; by intros []. Qed.

Lemma skip_opens c r : opens c = true → skip_ws (String c r) = String c r.
Proof. unfold opens. simpl. by destruct (is_ws c). Qed.

(** A number starts as neither of the other values does. *)
Lemma parse_value_num fuel z rest :
  no_digit rest → parse_value (S fuel) (pretty z +:+ rest) = Some (JNum z, rest).
Proof.
  intros Hrest. pose proof (parse_num_pretty z rest Hrest) as Hp.
  assert (∃ c r, pretty z = String c r ∧ (c = "-"%char ∨ is_Some (digit c))) as (c & r & Heq & Hc).
  { destruct z as [|p|p]; [by eexists _, _; split; [|right; eexists]| |by eexists _, _; split; [|left]].
    destruct (parse_nat_pretty (Npos p) "" I) as [_ (c & r & Heq & Hc)]. eauto. }
  rewrite Heq, string_cons_app in *. cbn [parse_value drop_prefix]. rewrite Hp.
  destruct Hc as [->|Hc]; [done|].
  by destruct c as [[] [] [] [] [] [] [] []]; try done; destruct Hc.
Qed.

Lemma dict_set_new d k v : k ∉ map fst d → dict_set d k v = d ++ [(k, v)].
Proof.
  induction d as [|[k' v'] d IH]; [done|]. cbn [map fst dict_set]. intros Hk.
  apply not_elem_of_cons in Hk as [Hne Hk].
  destruct (String.eqb_spec k k') as [|_]; [done|]. by rewrite IH.
Qed.

Lemma ascii_str s : ascii_ok s = true → str_ok s = true.
Proof. unfold str_ok. by intros ->. Qed.

(** *** Layouts *)
(** How a printer writes: strings, and the white space after an opening bracket, a comma, before
    a closing bracket (at a depth) and after a colon. *)
Record layout := Layout {
  y_quote : string → string;
  y_pre : nat → string; y_gap : nat → string; y_post : nat → string;
  y_colon : string }.

Fixpoint print (y : layout) (d : nat) (v : json) : string :=
  match v with
  | JNull => "null"
  | JBool true => "true"
  | JBool false => "false"
  | JNum z => pretty z
  | JStr s => y_quote y s
  | JArr [] => "[]"
  | JObj [] => "{}"
  | JArr ((_ :: _) as l) =>
      "[" +:+ y_pre y d +:+ join ("," +:+ y_gap y d) (map (print y (S d)) l) +:+ y_post y d +:+ "]"
  | JObj ((_ :: _) as l) =>
      "{" +:+ y_pre y d
      +:+ join ("," +:+ y_gap y d)
            (map (λ kv, y_quote y kv.1 +:+ ":" +:+ y_colon y +:+ print y (S d) kv.2) l)
      +:+ y_post y d +:+ "}"
  end.

Fixpoint blank (s : string) : bool :=
  match s with String c r => is_ws c && blank r | EmptyString => true end.

(** What the decoder needs of a layout: strings it reads back, and white space. *)
Class LayoutOk (y : layout) : Prop := {
  quote_ok s : str_ok s = true →
    ∃ body, y_quote y s = String dquote body ∧
            ∀ rest, parse_str (body +:+ rest) = Some (s, rest);
  pre_ok d : blank (y_pre y d) = true;
  gap_ok d : blank (y_gap y d) = true;
  post_ok d : blank (y_post y d) = true;
  colon_ok : blank (y_colon y) = true }.

Lemma skip_blank b t : blank b = true → skip_ws (b +:+ t) = skip_ws t.
Proof.
  induction b as [|c b IH]; [done|]. cbn [blank]. intros [Hc Hb]%andb_true_iff.
  rewrite string_cons_app. cbn [skip_ws]. rewrite Hc. auto.
Qed.

Lemma blank_no_digit b c t : blank b = true → digit c = None → no_digit (b +:+ String c t).
Proof.
  intros Hb Hc. destruct b as [|x b]; [done|]. cbn [blank] in Hb.
  apply andb_true_iff in Hb as [Hx _]. destruct x as [[] [] [] [] [] [] [] []]; try done.
Qed.

Section Layouts.
Context (y : layout) `{!LayoutOk y}.

Definition starts (s : string) : Prop := ∃ c r, s = String c r ∧ opens c = true.

Lemma skip_starts s t : starts s → skip_ws (s +:+ t) = s +:+ t.
Proof. intros (c & r & -> & Hc). rewrite string_cons_app. by apply skip_opens. Qed.

Lemma quote_starts s : str_ok s = true → starts (y_quote y s).
Proof using All. intros (b & -> & _)%quote_ok. by eexists _, _. Qed.

Lemma print_starts d v : json_ok v = true → starts (print y d v).
Proof using All.
  destruct v as [|[]|[|p|p]|s|[|x l]|[|kv l]]; intros Hok; try by (eexists _, _; split).
  - destruct (parse_nat_pretty (Npos p) "" I) as [_ (c & r & Heq & Hc)].
    exists c, r. split; [exact Heq|]. by apply digit_opens.
  - by apply quote_starts.
Qed.

Definition reads_back (v : json) : Prop :=
  json_ok v = true → ∀ d fuel rest, (weight v ≤ fuel)%nat → no_digit rest →
    parse_value fuel (print y d v +:+ rest) = Some (v, rest).

Definition member (d : nat) (kv : string * json) : string :=
  y_quote y kv.1 +:+ ":" +:+ y_colon y +:+ print y (S d) kv.2.

Lemma join_starts {A} (f : A → string) sep x l t :
  starts (f x) → skip_ws (join sep (map f (x :: l)) +:+ t) = join sep (map f (x :: l)) +:+ t.
Proof.
  intros Hf. apply skip_starts. destruct Hf as (c & r & Hx & Hc).
  destruct l as [|x' l]; cbn [map join]; rewrite Hx, ?string_cons_app; by eexists _, _.
Qed.

Lemma drop_starts p s t : (p = "]" ∨ p = "}") → starts s → drop_prefix p (s +:+ t) = None.
Proof.
  intros Hp (c & r & -> & Hc). rewrite string_cons_app. unfold opens in Hc.
  by destruct Hp as [-> | ->]; destruct c as [[] [] [] [] [] [] [] []].
Qed.

Lemma elems_read_back d l x fuel rest :
  Forall reads_back (x :: l) → forallb json_ok (x :: l) = true →
  (list_sum (map (λ x, S (weight x)) (x :: l)) ≤ fuel)%nat →
  parse_elems fuel (join ("," +:+ y_gap y d) (map (print y (S d)) (x :: l))
                    +:+ y_post y d +:+ "]" +:+ rest) = Some (x :: l, rest).
Proof using All.
  revert x fuel. induction l as [|x' l IH]; intros x fuel Hall Hok Hfuel;
    apply Forall_cons in Hall as [Hx Hall]; cbn [forallb] in Hok; apply andb_true_iff in Hok as [Hok Hl];
    cbn [map list_sum foldr] in Hfuel; (destruct fuel as [|fuel]; [lia|]); cbn [parse_elems].
  - cbn [map join]. rewrite Hx; [|done|lia|by apply blank_no_digit; [apply post_ok|]].
    rewrite skip_blank by apply post_ok. done.
  - change (map (print y (S d)) (x :: x' :: l)) with (print y (S d) x :: map (print y (S d)) (x' :: l)).
    assert (parse_elems fuel (join ("," +:+ y_gap y d) (map (print y (S d)) (x' :: l))
              +:+ y_post y d +:+ "]" +:+ rest) = Some (x' :: l, rest))
      as HIH by (apply IH; [done|done|]; cbn [map list_sum foldr]; lia).
    rewrite <- join_starts in HIH by (apply print_starts; cbn [forallb] in Hl; by apply andb_true_iff in Hl as [? _]).
    cbn [map] in HIH |- *. rewrite join_cons, !string_app_assoc, Hx by (done || lia).
    revert HIH. generalize (join ("," +:+ y_gap y d) (print y (S d) x' :: map (print y (S d)) l)
      +:+ y_post y d +:+ "]" +:+ rest). intros J HJ.
    change (skip_ws ("," +:+ ?t)) with (String "," t). cbv match.
    rewrite skip_blank by apply gap_ok. by rewrite HJ.
Qed.

Lemma member_value d fuel k v t :
  reads_back v → str_ok k = true → json_ok v = true → (weight v ≤ fuel)%nat → no_digit t →
  ∃ body, member d (k, v) +:+ t = String dquote body ∧
    ∃ r, parse_str body = Some (k, r) ∧ skip_ws r = String ":" (y_colon y +:+ print y (S d) v +:+ t) ∧
         parse_value fuel (skip_ws (y_colon y +:+ print y (S d) v +:+ t)) = Some (v, t).
Proof using All.
  intros Hv Hk Hok Hw Ht. destruct (quote_ok k Hk) as (b & Hq & Hb). unfold member. cbn [fst snd].
  rewrite Hq, !string_app_assoc, string_cons_app. eexists. split; [reflexivity|].
  eexists. split; [apply Hb|]. split; [done|].
  rewrite skip_blank by apply colon_ok. rewrite skip_starts by by apply print_starts.
  by apply Hv.
Qed.

Lemma members_read_back d l kv acc fuel rest :
  Forall (λ kv, reads_back kv.2) (kv :: l) →
  forallb (λ kv, str_ok kv.1 && json_ok kv.2) (kv :: l) = true →
  NoDup (map fst (acc ++ kv :: l)) →
  (list_sum (map (λ kv, S (weight kv.2)) (kv :: l)) ≤ fuel)%nat →
  parse_members fuel acc (join ("," +:+ y_gap y d) (map (member d) (kv :: l))
                          +:+ y_post y d +:+ "}" +:+ rest) = Some (acc ++ kv :: l, rest).
Proof using All.
  revert kv acc fuel. induction l as [|kv' l IH]; intros [k v] acc fuel Hall Hok Hnd Hfuel;
    apply Forall_cons in Hall as [Hv Hall]; cbn [forallb fst snd] in *;
    apply andb_true_iff in Hok as [[Hk Hok]%andb_true_iff Hl];
    cbn [map list_sum foldr snd] in Hfuel; (destruct fuel as [|fuel]; [lia|]).
  all: assert (dict_set acc k v = acc ++ [(k, v)]) as Hset by
    (apply dict_set_new; rewrite map_app in Hnd; apply NoDup_app in Hnd as (_ & Hnd & _);
     intros Hin; by apply (Hnd k Hin), list_elem_of_here).
  - cbn [map join]. destruct (member_value d fuel k v (y_post y d +:+ "}" +:+ rest)) as
      (body & -> & r & Hr & Hcolon & Hval); [done|done|done|lia|by apply blank_no_digit; [apply post_ok|]|].
    cbn [parse_members]. change (Ascii.eqb dquote dquote) with true. cbv match.
    rewrite Hr, Hcolon. cbv match. rewrite Hval, skip_blank by apply post_ok.
    change (skip_ws ("}" +:+ rest)) with (String "}" rest). cbv match. by rewrite Hset.
  - change (map (member d) ((k, v) :: kv' :: l)) with (member d (k, v) :: map (member d) (kv' :: l)).
    assert (parse_members fuel (acc ++ [(k, v)]) (join ("," +:+ y_gap y d) (map (member d) (kv' :: l))
              +:+ y_post y d +:+ "}" +:+ rest) = Some ((acc ++ [(k, v)]) ++ kv' :: l, rest)) as HIH.
    { apply IH; [done|done|by rewrite <- app_assoc|]. cbn [map list_sum foldr]. lia. }
    rewrite <- join_starts in HIH.
    2: { cbn [forallb] in Hl. apply andb_true_iff in Hl as [[Hk' _]%andb_true_iff _].
         destruct (quote_starts _ Hk') as (c & r & Hq & Hc). unfold member. rewrite Hq, string_cons_app.
         by eexists _, _. }
    cbn [map] in HIH |- *. rewrite join_cons, !string_app_assoc.
    revert HIH. generalize (join ("," +:+ y_gap y d) (member d kv' :: map (member d) l)
      +:+ y_post y d +:+ "}" +:+ rest). intros J HJ.
    destruct (member_value d fuel k v ("," +:+ y_gap y d +:+ J)) as (body & -> & r & Hr & Hcolon & Hval);
      [done|done|done|lia|done|].
    cbn [parse_members]. change (Ascii.eqb dquote dquote) with true. cbv match.
    rewrite Hr, Hcolon. cbv match. rewrite Hval.
    change (skip_ws ("," +:+ ?t)) with (String "," t). cbv match.
    rewrite skip_blank by apply gap_ok. rewrite Hset, HJ. by rewrite <- app_assoc.
Qed.

Lemma value_reads_back v : reads_back v.
Proof using All.
  induction v as [|[]|z|s|l IH|l IH] using json_nested_ind; intros Hok d fuel rest Hfuel Hrest;
    (destruct fuel as [|fuel]; [simpl in Hfuel; lia|]); try done.
  - by apply parse_value_num.
  - cbn [print]. destruct (quote_ok s Hok) as (b & -> & Hb). rewrite string_cons_app. cbn [parse_value].
    change (Ascii.eqb dquote dquote) with true. cbv match. by rewrite Hb.
  - destruct l as [|x l]; [done|]. cbn [print]. cbn [weight] in Hfuel. cbn [json_ok] in Hok.
    assert (starts (print y (S d) x)) as Hst.
    { apply print_starts. cbn [forallb] in Hok. by apply andb_true_iff in Hok as [? _]. }
    rewrite !string_app_assoc. change ("[" +:+ ?t) with (String "[" t). cbn [parse_value].
    change (Ascii.eqb "[" dquote) with false. change (Ascii.eqb "[" "[") with true. cbv match.
    rewrite skip_blank by apply pre_ok. rewrite join_starts by done.
    rewrite drop_starts; [|by left|].
    2: { destruct Hst as (c & r & Hx & Hc). destruct l; cbn [map join]; rewrite Hx, ?string_cons_app; by eexists _, _. }
    rewrite elems_read_back; [done|done|done|lia].
  - cbn [json_ok] in Hok. apply andb_true_iff in Hok as [Hok Hnd]. apply bool_decide_eq_true in Hnd.
    destruct l as [|kv l]; [done|]. cbn [print]. cbn [weight] in Hfuel.
    fold (member d) in *. change (λ kv, y_quote y kv.1 +:+ ":" +:+ y_colon y +:+ print y (S d) kv.2) with (member d).
    assert (starts (member d kv)) as Hst.
    { cbn [forallb] in Hok. apply andb_true_iff in Hok as [[Hk _]%andb_true_iff _].
      destruct (quote_starts _ Hk) as (c & r & Hq & Hc). unfold member. rewrite Hq, string_cons_app.
      by eexists _, _. }
    rewrite !string_app_assoc. change ("{" +:+ ?t) with (String "{" t). cbn [parse_value].
    change (Ascii.eqb "{" dquote) with false. change (Ascii.eqb "{" "[") with false.
    change (Ascii.eqb "{" "{") with true. cbv match.
    rewrite skip_blank by apply pre_ok. rewrite join_starts by done.
    rewrite drop_starts; [|by right|].
    2: { destruct Hst as (c & r & Hx & Hc). destruct l; cbn [map join]; rewrite Hx, ?string_cons_app; by eexists _, _. }
    rewrite (members_read_back d l kv []); [done|done|done|done|lia].
Qed.

(** The text is long enough for the fuel of [loads]. *)
Lemma length_join {A} (f : A → string) sep x l :
  (1 ≤ String.length sep)%nat →
  (list_sum (map (λ x, S (String.length (f x))) (x :: l)) ≤ S (String.length (join sep (map f (x :: l)))))%nat.
Proof.
  intros Hs. revert x. induction l as [|x' l IH]; intros x; [cbn; lia|].
  change (map f (x :: x' :: l)) with (f x :: map f (x' :: l)). cbn [map]. rewrite join_cons, !string_length_app.
  specialize (IH x'). cbn [map list_sum foldr String.length] in *. lia.
Qed.

Lemma sum_weight {A} (w len : A → nat) l :
  Forall (λ x, w x ≤ len x)%nat l →
  (list_sum (map (λ x, S (w x)) l) ≤ list_sum (map (λ x, S (len x)) l))%nat.
Proof. unfold list_sum. induction 1; simpl; lia. Qed.

Lemma weight_length v : json_ok v = true → ∀ d, (weight v ≤ String.length (print y d v))%nat.
Proof using All.
  assert (∀ s, starts s → 1 ≤ String.length s)%nat as Hone.
  { intros s (c & r & -> & _). simpl. lia. }
  induction v as [|[]|z|s|l IH|l IH] using json_nested_ind; intros Hok d;
    try (by apply Hone, print_starts).
  - destruct l as [|x l]; [simpl; lia|]. cbn [print weight]. rewrite !string_length_app.
    pose proof (length_join (print y (S d)) ("," +:+ y_gap y d) x l ltac:(simpl; lia)) as Hj.
    assert (Forall (λ x, weight x ≤ String.length (print y (S d) x))%nat (x :: l)) as Hall.
    { rewrite !Forall_forall in *. intros z Hz. apply IH; [done|]. cbn [json_ok] in Hok.
      rewrite forallb_forall in Hok. by apply Hok, list_elem_of_In. }
    apply sum_weight in Hall. cbn [String.length length] in *. lia.
  - destruct l as [|kv l]; [simpl; lia|]. cbn [print weight]. rewrite !string_length_app.
    change (λ kv, y_quote y kv.1 +:+ ":" +:+ y_colon y +:+ print y (S d) kv.2) with (member d).
    pose proof (length_join (member d) ("," +:+ y_gap y d) kv l ltac:(simpl; lia)) as Hj.
    assert (Forall (λ kv, weight kv.2 ≤ String.length (member d kv))%nat (kv :: l)) as Hall.
    { rewrite !Forall_forall in *. intros z Hz. unfold member. rewrite !string_length_app.
      cbn [json_ok] in Hok. apply andb_true_iff in Hok as [Hok _]. rewrite forallb_forall in Hok.
      apply list_elem_of_In in Hz as Hz'. specialize (Hok z Hz'). apply andb_true_iff in Hok as [_ Hok].
      specialize (IH z Hz Hok (S d)). lia. }
    apply (sum_weight (λ kv, weight kv.2)) in Hall. cbn [String.length length] in *. lia.
Qed.

(** Whatever the layout, [json.loads] reads the value back. *)
Lemma loads_print v : json_ok v = true → loads (print y 0 v) = Some v.
Proof using All.
  intros Hok. unfold loads. rewrite <- (string_app_nil_r (print y 0 v)) at 2.
  rewrite skip_starts by by apply print_starts.
  rewrite value_reads_back; [done|done| |done]. pose proof (weight_length v Hok 0). lia.
Qed.
End Layouts.

(** *** [json.dumps], with and without indentation *)
Definition compact : layout :=
  Layout quote (λ _, EmptyString) (λ _, " ") (λ _, EmptyString) " ".
Fixpoint spaces (d : nat) : string :=
  match d with O => EmptyString | S d => spaces d +:+ "  " end.
Definition indented : layout :=
  let line d := String "010" (spaces d) in
  Layout quote (λ d, line (S d)) (λ d, line (S d)) line " ".

Lemma python_quote_ok s :
  str_ok s = true →
  ∃ body, quote s = String dquote body ∧ ∀ rest, parse_str (body +:+ rest) = Some (s, rest).
Proof.
  intros Hs. eexists. split; [reflexivity|]. intros rest. rewrite string_app_assoc, string_cons_app.
  by apply parse_str_escape.
Qed.

#[export] Instance compact_ok : LayoutOk compact.
Proof. split; try done. apply python_quote_ok. Qed.
Lemma blank_spaces d : blank (spaces d) = true.
Proof.
  assert (∀ s, blank s = true → blank (s +:+ "  ") = true) as H.
  { induction s as [|c s IH]; [done|]. rewrite string_cons_app. cbn [blank].
    intros [-> Hs]%andb_true_iff. auto. }
  induction d as [|d IH]; [done|]. by apply H.
Qed.
#[export] Instance indented_ok : LayoutOk indented.
Proof.
  split; [apply python_quote_ok|..|done]; intros d; cbn [y_pre y_gap y_post indented blank];
    rewrite blank_spaces; done.
Qed.

Lemma map_ext_Forall {A B} (P : A → Prop) (f g : A → B) l :
  (∀ x, P x → f x = g x) → Forall P l → map f l = map g l.
Proof. intros H. induction 1; simpl; [done|]. by rewrite H, IHForall. Qed.

Lemma print_compact d v : print compact d v = dumps v.
Proof.
  revert d. induction v as [|[]|z|s|l IH|l IH] using json_nested_ind; intros d; try done;
    (destruct l as [|x l]; [done|]); cbn [print dumps compact y_pre y_gap y_post y_colon y_quote];
    fold compact.
  - rewrite (map_ext_Forall _ (print compact (S d)) dumps) with (2 := IH) by (intros z Hz; apply Hz). done.
  - erewrite (map_ext_Forall _ _ (λ kv, quote kv.1 +:+ ": " +:+ dumps kv.2)) with (2 := IH); [done|].
    intros kv Hkv. by rewrite Hkv.
Qed.

Lemma line_app d t :
  String "010" (spaces (S d)) +:+ t = String "010" EmptyString +:+ spaces d +:+ "  " +:+ t.
Proof. rewrite string_cons_app. cbn [spaces]. by rewrite string_app_assoc. Qed.

Lemma print_indented d v : print indented d v = dumps_indent (spaces d) v.
Proof.
  revert d. induction v as [|[]|z|s|l IH|l IH] using json_nested_ind; intros d; try done;
    (destruct l as [|x l]; [done|]); cbn [print dumps_indent indented y_pre y_gap y_post y_colon y_quote];
    fold indented.
  - rewrite (map_ext_Forall _ (print indented (S d)) (dumps_indent (spaces d +:+ "  "))) with (2 := IH)
      by (intros z Hz; apply Hz). by rewrite line_app.
  - erewrite (map_ext_Forall _ _ (λ kv, quote kv.1 +:+ ": " +:+ dumps_indent (spaces d +:+ "  ") kv.2))
      with (2 := IH); [by rewrite line_app|]. intros kv Hkv. by rewrite Hkv.
Qed.

Lemma loads_dumps_eq j : json_ok j = true → loads (dumps j) = Some j.
Proof. rewrite <- (print_compact 0). apply (loads_print compact). Qed.

Lemma loads_dumps_indent j : json_ok j = true → loads (dumps_indent EmptyString j) = Some j.
Proof. rewrite <- (print_indented 0). apply (loads_print indented). Qed.

(** [json.loads] reads back what [json.dumps] wrote, on one line or with [indent=2]: every
    value of objects with distinct keys, arrays, Unicode strings, integers and constants survives
    the round trip. *)
Theorem loads_dumps j :
  json_ok j = true → loads (dumps j) = Some j ∧ loads (dumps_indent EmptyString j) = Some j.
Proof. intros Hok. split; [by apply loads_dumps_eq|by apply loads_dumps_indent]. Qed.

Lemma loads_dumps_witness :
  let j := JObj [("step", JNum 12); ("a b", JArr [JNull; JBool true; JNum (-40); JObj []])] in
  loads (dumps j) = Some j ∧ loads (dumps_indent EmptyString j) = Some j.
Proof. intros j. apply (loads_dumps j). vm_compute. reflexivity. Defined.
