(* ===== verification/Csv.v ===== *)
(** * Csv: [csv.DictReader] with the default dialect

    The reader of the standard library is a state machine fed with the characters of each line and
    an end-of-line mark.  [read_text] runs it over a text whose lines end with the character 10;
    [dict_rows] makes a dictionary of every row that is not empty.  Fields longer than the
    library's limit of 131072 characters are not distinguished. *)
From S2P Require Import Prelude Effects PyStr.
Local Open Scope string_scope.
Local Open Scope list_scope.

(** ** The reader *)
Inductive csv_state :=
| START_RECORD | START_FIELD | IN_FIELD | IN_QUOTED_FIELD | QUOTE_IN_QUOTED_FIELD | EAT_CRNL.

Record reader := Reader { r_state : csv_state; r_field : string; r_fields : list string }.
Definition new_reader : reader := Reader START_RECORD EmptyString [].

Definition comma : ascii := ","%char.
Definition lf : ascii := "010"%char.
Definition cr : ascii := "013"%char.

(** The end of a line is [None]. *)
Definition line_end (c : option ascii) : bool :=
  match c with None => true | Some c => Ascii.eqb c lf || Ascii.eqb c cr end.
Definition after_line (c : option ascii) : csv_state :=
  match c with None => START_RECORD | Some _ => EAT_CRNL end.
Definition is_c (c : option ascii) (d : ascii) : bool :=
  match c with None => false | Some c => Ascii.eqb c d end.

Definition goto (s : csv_state) (r : reader) : reader := Reader s (r_field r) (r_fields r).
Definition add_char (c : option ascii) (s : csv_state) (r : reader) : reader :=
  Reader s (r_field r +:+ match c with Some c => String c EmptyString | None => EmptyString end) (r_fields r).
Definition save_field (s : csv_state) (r : reader) : reader :=
  Reader s EmptyString (r_fields r ++ [r_field r]).

Definition start_field (c : option ascii) (r : reader) : reader :=
  if line_end c then save_field (after_line c) r
  else if is_c c dquote then goto IN_QUOTED_FIELD r
  else if is_c c comma then save_field START_FIELD r
  else add_char c IN_FIELD r.

(** One character; [None] is [csv.Error]. *)
Definition process_char (c : option ascii) (r : reader) : option reader :=
  match r_state r with
  | START_RECORD =>
      match c with
      | None => Some r
      | Some _ => if line_end c then Some (goto EAT_CRNL r) else Some (start_field c r)
      end
  | START_FIELD => Some (start_field c r)
  | IN_FIELD =>
      Some (if line_end c then save_field (after_line c) r
            else if is_c c comma then save_field START_FIELD r
            else add_char c IN_FIELD r)
  | IN_QUOTED_FIELD =>
      Some (match c with
            | None => r
            | Some _ => if is_c c dquote then goto QUOTE_IN_QUOTED_FIELD r else add_char c IN_QUOTED_FIELD r
            end)
  | QUOTE_IN_QUOTED_FIELD =>
      Some (if is_c c dquote then add_char c IN_QUOTED_FIELD r
            else if is_c c comma then save_field START_FIELD r
            else if line_end c then save_field (after_line c) r
            else add_char c IN_FIELD r)
  | EAT_CRNL =>
      match c with
      | None => Some (goto START_RECORD r)
      | Some _ => if line_end c then Some r else None
      end
  end.

(** The rows that are complete at the end of a line, and the reader for the next one. *)
Definition finish_line (r : reader) : list (list string) * reader :=
  match r_state r with START_RECORD => ([r_fields r], new_reader) | _ => ([], r) end.

(** No more lines: an open quoted field ends the last row. *)
Definition end_of_input (r : reader) : list (list string) :=
  match r_state r with
  | IN_QUOTED_FIELD => [r_fields r ++ [r_field r]]
  | _ => if nonempty (r_field r) then [r_fields r ++ [r_field r]] else []
  end.

(** [fresh]: no character of the current line has been read. *)
Fixpoint read_text (text : string) (r : reader) (fresh : bool) : option (list (list string)) :=
  match text with
  | EmptyString =>
      if fresh then Some (end_of_input r)
      else match process_char None r with
           | None => None
           | Some r => let '(rows, r) := finish_line r in Some (rows ++ end_of_input r)
           end
  | String c t =>
      match process_char (Some c) r with
      | None => None
      | Some r =>
          if Ascii.eqb c lf then
            match process_char None r with
            | None => None
            | Some r => let '(rows, r) := finish_line r in
                        match read_text t r true with None => None | Some l => Some (rows ++ l) end
            end
          else read_text t r false
      end
  end.

Definition csv_rows (text : string) : option (list (list string)) := read_text text new_reader true.

(** ** [csv.DictReader] *)
(** A row; a column the row is too short for has the value [None]. *)
Definition dict := gmap string (option string).

Fixpoint dict_row (fieldnames row : list string) : dict :=
  match fieldnames with
  | [] => ∅
  | k :: ks =>
      let d := dict_row ks (tail row) in
      match d !! k with Some _ => d | None => <[k := head row]> d end
  end.

Definition dict_rows (text : string) : exn + list dict :=
  match csv_rows text with
  | None => inl (ValueError "new-line character seen in unquoted field")
  | Some [] => inr []
  | Some (fieldnames :: rows) =>
      inr (dict_row fieldnames <$> List.filter (λ r, negb (bool_decide (r = []))) rows)
  end.

(** ** CSV text is read back

    [COPY ... TO STDOUT WITH CSV HEADER] and [csv.writer] write a field in quotes when it holds a
    comma, a quote or a line end, doubling the quotes in it. *)
Definition special (c : ascii) : bool :=
  Ascii.eqb c comma || Ascii.eqb c dquote || Ascii.eqb c lf || Ascii.eqb c cr.
Fixpoint needs_quotes (s : string) : bool :=
  match s with EmptyString => false | String c s => special c || needs_quotes s end.
Fixpoint double_quotes (s : string) : string :=
  match s with
  | EmptyString => EmptyString
  | String c s => (if Ascii.eqb c dquote then String dquote (String dquote EmptyString)
                   else String c EmptyString) +:+ double_quotes s
  end.
Definition csv_field (s : string) : string :=
  if needs_quotes s then String dquote (double_quotes s +:+ String dquote EmptyString) else s.
Definition csv_line (row : list string) : string :=
  join "," (csv_field <$> row) +:+ String lf EmptyString.
Definition csv_text (rows : list (list string)) : string :=
  foldr (λ row t, csv_line row +:+ t) EmptyString rows.

(** A row of one empty field is written as an empty line, which is read as no field. *)
Definition csv_row_ok (row : list string) : bool :=
  match row with [] => false | [s] => nonempty s | _ => true end.

Example csv_quoted :
  csv_rows (csv_text [["id"; "state"]; ["a,b"; String dquote "x"]; [String lf EmptyString; EmptyString]])
  = Some [["id"; "state"]; ["a,b"; String dquote "x"]; [String lf EmptyString; EmptyString]].
Proof. reflexivity. Qed.

(** *** Fields *)
Lemma read_text_fresh d t r b b' : read_text (String d t) r b = read_text (String d t) r b'.
Proof. done. Qed.

(** The inside of a quoted field. *)
Lemma read_quoted s d t f fs b :
  read_text (double_quotes s +:+ String d t) (Reader IN_QUOTED_FIELD f fs) b =
  read_text (String d t) (Reader IN_QUOTED_FIELD (f +:+ s) fs) true.
Proof.
  revert f b. induction s as [|c s IH]; intros f b; [by rewrite string_app_nil_r|].
  cbn [double_quotes]. rewrite string_app_assoc.
  assert (∀ b', read_text (double_quotes s +:+ String d t)
            (Reader IN_QUOTED_FIELD (f +:+ String c EmptyString) fs) b' =
          read_text (String d t) (Reader IN_QUOTED_FIELD (f +:+ String c s) fs) true) as IH'.
  { intros b'. rewrite IH. by rewrite string_app_assoc. }
  revert IH'. generalize (double_quotes s +:+ String d t) as x.
  generalize (read_text (String d t) (Reader IN_QUOTED_FIELD (f +:+ String c s) fs) true) as rhs.
  intros rhs x IH'. destruct (Ascii.eqb_spec c dquote) as [->|Hc]; [exact (IH' false)|].
  change (read_text (String c x) (Reader IN_QUOTED_FIELD f fs) b = rhs).
  apply Ascii.eqb_neq in Hc. cbn [read_text process_char r_state is_c]. rewrite Hc.
  unfold add_char. cbn [r_field r_fields process_char r_state finish_line].
  destruct (Ascii.eqb c lf); rewrite IH'; by destruct rhs.
Qed.

(** A field without special characters. *)
Lemma read_plain s d t f fs b :
  needs_quotes s = false →
  read_text (s +:+ String d t) (Reader IN_FIELD f fs) b =
  read_text (String d t) (Reader IN_FIELD (f +:+ s) fs) true.
Proof.
  revert f b. induction s as [|c s IH]; intros f b; [by rewrite string_app_nil_r|].
  cbn [needs_quotes]. unfold special. rewrite !orb_false_iff. intros [[[[Hc Hq] Hl] Hr] Hs].
  rewrite string_cons_app.
  specialize (IH (f +:+ String c EmptyString) false Hs). rewrite string_app_assoc in IH.
  change (String c EmptyString +:+ s) with (String c s) in IH. rewrite <- IH.
  generalize (s +:+ String d t) as x. intros x.
  cbn [read_text process_char r_state is_c line_end]. by rewrite Hc, Hl, Hr.
Qed.

(** A field at the start of a line or after a comma, up to the character after it. *)
Lemma read_field s d t st fs b :
  st = START_RECORD ∨ st = START_FIELD →
  ∃ st', read_text (csv_field s +:+ String d t) (Reader st EmptyString fs) b =
         read_text (String d t) (Reader st' s fs) true ∧
         (st' = IN_FIELD ∨ st' = QUOTE_IN_QUOTED_FIELD ∨ s = EmptyString ∧ st' = st).
Proof.
  intros Hst. unfold csv_field. destruct (needs_quotes s) eqn:Hn.
  - exists QUOTE_IN_QUOTED_FIELD. split; [|by auto].
    rewrite string_cons_app, string_app_assoc.
    assert (∀ x, read_text (String dquote x) (Reader st EmptyString fs) b =
                 read_text x (Reader IN_QUOTED_FIELD EmptyString fs) false) as ->
      by by destruct Hst as [Hst|Hst]; rewrite Hst.
    rewrite string_cons_app, read_quoted. reflexivity.
  - destruct s as [|c s]; [exists st; by auto|]. exists IN_FIELD. split; [|by auto].
    cbn [needs_quotes] in Hn. unfold special in Hn.
    rewrite !orb_false_iff in Hn. destruct Hn as [[[[Hc Hq] Hl] Hr] Hs].
    rewrite string_cons_app.
    assert (∀ x, read_text (String c x) (Reader st EmptyString fs) b =
                 read_text x (Reader IN_FIELD (String c EmptyString) fs) false) as ->.
    { intros x. destruct Hst as [Hst|Hst]; rewrite Hst;
        cbn [read_text process_char r_state line_end]; unfold start_field; cbn [line_end is_c];
        by rewrite Hl, Hr, ?Hq, Hc. }
    by rewrite read_plain.
Qed.

Lemma read_comma s t st fs b :
  st = START_RECORD ∨ st = START_FIELD →
  read_text (csv_field s +:+ String comma t) (Reader st EmptyString fs) b =
  read_text t (Reader START_FIELD EmptyString (fs ++ [s])) false.
Proof.
  intros Hst. destruct (read_field s comma t st fs b Hst) as (st' & -> & [H|[H|[-> H]]]); rewrite H;
    [done..|]. by destruct Hst as [Hst|Hst]; rewrite Hst.
Qed.

Lemma read_newline s t st fs b :
  st = START_RECORD ∧ nonempty s = true ∨ st = START_FIELD →
  read_text (csv_field s +:+ String lf t) (Reader st EmptyString fs) b =
  match csv_rows t with None => None | Some l => Some ((fs ++ [s]) :: l) end.
Proof.
  intros Hst. destruct (read_field s lf t st fs b) as (st' & -> & [H|[H|[-> H]]]);
    [naive_solver|rewrite H; done|rewrite H; done|].
  destruct Hst as [[_ Hs]|Hst]; [done|]. by rewrite H, Hst.
Qed.

Lemma read_line row t st fs b :
  row ≠ [] → st = START_RECORD ∧ csv_row_ok row = true ∨ st = START_FIELD →
  read_text (csv_line row +:+ t) (Reader st EmptyString fs) b =
  match csv_rows t with None => None | Some l => Some ((fs ++ row) :: l) end.
Proof.
  unfold csv_line. revert st fs b. induction row as [|s row IH]; intros st fs b Hr Hst; [done|].
  destruct row as [|s' row].
  - change (join "," (csv_field <$> [s])) with (csv_field s).
    rewrite string_app_assoc, string_cons_app. apply read_newline. naive_solver.
  - change (join "," (csv_field <$> s :: s' :: row))
      with (csv_field s +:+ String comma (join "," (csv_field <$> s' :: row))).
    rewrite !string_app_assoc, string_cons_app, read_comma by naive_solver.
    rewrite <- string_app_assoc, IH by (done || by right). by rewrite <- app_assoc.
Qed.

(** CSV text is read back: the rows written, with whatever commas, quotes and line ends are in
    their fields, are the rows the reader yields. *)
Theorem csv_read_back rows :
  forallb csv_row_ok rows = true → csv_rows (csv_text rows) = Some rows.
Proof.
  induction rows as [|row rows IH]; [done|]. cbn [forallb].
  intros [Hr Hrs]%andb_true_iff. change (csv_text (row :: rows)) with (csv_line row +:+ csv_text rows).
  unfold csv_rows at 1, new_reader.
  rewrite read_line; [by rewrite IH|by destruct row|by left].
Qed.
