(* ===== verification/PyInt.v ===== *)
(** * PyInt: Python's [int] of a text, and the settings read from the environment *)
From S2P Require Import Prelude Effects PyStr Utf8 Json JsonParse JsonRound.
Local Open Scope string_scope.
Local Open Scope Z_scope.

(** ** [int(s)]: optional spaces and sign, digits with single underscores between them *)
Fixpoint int_digits (acc : Z) (prev : bool) (s : string) : option Z :=
  match s with
  | EmptyString => if prev then Some acc else None
  | String c r =>
      match digit c with
      | Some d => int_digits (acc * 10 + Z.of_N d) true r
      | None => if Ascii.eqb c "_" && prev then int_digits acc false r else None
      end
  end.
Definition py_int (s : string) : option Z :=
  match strip is_space s with
  | String "-" r => Z.opp <$> int_digits 0 false r
  | String "+" r => int_digits 0 false r
  | r => int_digits 0 false r
  end.

(** [int(os.environ.get(name, default))] *)
Definition env_int (environ : gmap string string) (name fallback : string) : exn + Z :=
  match py_int (default fallback (environ !! name)) with
  | Some n => inr n
  | None => inl (ValueError "invalid literal for int()")
  end.

(** ** [int] reads back what [str] writes *)
Lemma digits_int acc s n prev :
  digits acc s = (n, EmptyString) → (s ≠ EmptyString ∨ prev = true) →
  int_digits (Z.of_N acc) prev s = Some (Z.of_N n).
Proof.
  revert acc prev. induction s as [|c s IH]; intros acc prev; cbn [digits int_digits].
  { intros [= ->] [ | ->]; done. }
  destruct (digit c) as [d|]; [|done]. intros H _.
  replace (Z.of_N acc * 10 + Z.of_N d) with (Z.of_N (acc * 10 + d)) by lia.
  apply IH; [done|by right].
Qed.

Lemma digits_no_space acc s n :
  digits acc s = (n, EmptyString) → rstrip is_space s = s ∧ lstrip is_space s = s.
Proof.
  revert acc. induction s as [|c s IH]; intros acc; cbn [digits]; [done|].
  destruct (digit c) as [d|] eqn:Hd; [|done]. intros H. destruct (IH _ H) as [Hr _].
  assert (is_space c = false) as Hc.
  { unfold digit in Hd. unfold is_space.
    destruct ((48 <=? N_of_ascii c) && (N_of_ascii c <=? 57))%N eqn:E; [|done].
    apply andb_true_iff in E as [E1 E2]. apply N.leb_le in E1, E2.
    apply orb_false_iff. split; apply andb_false_iff; right; apply N.leb_gt; lia. }
  cbn [lstrip rstrip]. rewrite Hr, Hc. destruct s; done.
Qed.

Lemma parse_nat_int s n :
  parse_nat s = Some (n, EmptyString) → digits 0 s = (n, EmptyString) ∧ s ≠ EmptyString.
Proof.
  destruct s as [|c r]; [done|]. cbn [parse_nat digits]. destruct (digit c) as [d|]; [|done].
  intros H. split; [|done]. destruct d; [|by injection H]. by injection H as <- ->.
Qed.

Lemma strip_digits acc s n : digits acc s = (n, EmptyString) → strip is_space s = s.
Proof. intros [Hr Hl]%digits_no_space. unfold strip. by rewrite Hl, Hr. Qed.

Lemma strip_minus s : rstrip is_space s = s → strip is_space (String "-" s) = String "-" s.
Proof.
  intros Hs. unfold strip. change (lstrip is_space (String "-" s)) with (String "-" s).
  cbn [rstrip]. rewrite Hs. by destruct s.
Qed.

Lemma py_int_pretty z : py_int (pretty z) = Some z.
Proof.
  assert (∀ x : N, digits 0 (pretty x) = (x, EmptyString) ∧ pretty x ≠ EmptyString) as Hx.
  { intros x. destruct (parse_nat_pretty x EmptyString I) as [H _].
    rewrite string_app_nil_r in H. by apply parse_nat_int. }
  destruct z as [|p|p]; [done| |].
  - change (pretty (Zpos p)) with (pretty (Npos p)). destruct (Hx (Npos p)) as [Hd Hne].
    unfold py_int. rewrite (strip_digits 0 _ (Npos p)) by done.
    destruct (parse_nat_pretty (Npos p) EmptyString I) as [_ (c & r & Heq & Hc)]. rewrite Heq in *.
    change 0 with (Z.of_N 0). change (Zpos p) with (Z.of_N (Npos p)).
    destruct c as [[] [] [] [] [] [] [] []]; try (by destruct Hc); by apply digits_int; [|left].
  - change (pretty (Zneg p)) with (String "-" (pretty (Npos p))). destruct (Hx (Npos p)) as [Hd Hne].
    unfold py_int. rewrite strip_minus by by eapply digits_no_space.
    change 0 with (Z.of_N 0). rewrite (digits_int 0 _ (Npos p)) by auto. done.
Qed.
