(* ===== verification/Calendar.v ===== *)
(** * Calendar: the proleptic Gregorian calendar of [datetime]

    Year and month of a day the way [datetime] computes them, and that they are the ones of the
    calendar.  Used for the months of ratings (protocols.py) and the times of a lease (rpc.py). *)
From S2P Require Import Prelude PyStr.
Local Open Scope string_scope.
Local Open Scope list_scope.
Local Open Scope Z_scope.

(** ** Days, months and years *)
(** The days before a month in a year, with or without a leap day. *)
Definition before_month (leap : bool) (m : Z) : Z :=
  nth (Z.to_nat m) [0; 0; 31; 59; 90; 120; 151; 181; 212; 243; 273; 304; 334; 365] 0
  + (if (2 <? m) && leap then 1 else 0).

(** The month of the day [n] of a year. *)
Definition month_in_year (leap : bool) (n : Z) : Z :=
  let month := (n + 50) / 32 in
  if n <? before_month leap month then month - 1 else month.

(** Year and month of a day counted from 1970-01-01, as [datetime] computes them: the days are
    divided into periods of 400, 100, 4 and 1 years. *)
Definition civil (days : Z) : Z * Z :=
  let n := days + 719162 in
  let n400 := n / 146097 in let n := n mod 146097 in
  let n100 := n / 36524 in let n := n mod 36524 in
  let n4 := n / 1461 in let n := n mod 1461 in
  let n1 := n / 365 in let n := n mod 365 in
  let year := n400 * 400 + 1 + n100 * 100 + n4 * 4 + n1 in
  if (n1 =? 4) || (n100 =? 4) then (year - 1, 12)
  else let leap := (n1 =? 3) && (negb (n4 =? 24) || (n100 =? 3)) in
       (year, month_in_year leap n).

(** The reference: the proleptic Gregorian calendar. *)
Definition leap (y : Z) : bool := (y mod 4 =? 0) && (negb (y mod 100 =? 0) || (y mod 400 =? 0)).
Definition days_before_year (y : Z) : Z := 365 * (y - 1) + (y - 1) / 4 - (y - 1) / 100 + (y - 1) / 400.
Definition days_before_month (y m : Z) : Z := before_month (leap y) m.
(** The day 1970-01-01 is day 719162 counted from 0001-01-01. *)
Definition month_start (y m : Z) : Z := days_before_year y + days_before_month y m - 719162.

Definition two_digits (n : Z) : string := if n <? 10 then "0" +:+ pretty n else pretty n.

(** ** The calendar is the Gregorian one *)
Definition next_month (y m : Z) : Z * Z := if m =? 12 then (y + 1, 1) else (y, m + 1).

(** The month is found for each of the 365 or 366 days of a year. *)
Definition month_ok (leap : bool) (n : Z) : bool :=
  let m := month_in_year leap n in
  (1 <=? m) && (m <=? 12) && (before_month leap m <=? n) && (n <? before_month leap (m + 1)).
Fixpoint check_year (leap : bool) (k : nat) : bool :=
  match k with O => true | S k => month_ok leap (Z.of_nat k) && check_year leap k end.

Lemma month_in_year_ok leap n : 0 ≤ n < 365 + Z.b2z leap → month_ok leap n = true.
Proof.
  intros Hn. assert (∀ k, check_year leap k = true → n < Z.of_nat k → month_ok leap n = true) as Hk.
  { induction k as [|k IH]; intros Hc Hlt; [lia|]. simpl in Hc. apply andb_true_iff in Hc as [Hm Hc].
    destruct (decide (n = Z.of_nat k)) as [->|]; [done|]. apply IH; [done|lia]. }
  destruct leap; simpl in Hn; [apply (Hk 366%nat)|apply (Hk 365%nat)]; try lia; vm_compute; reflexivity.
Qed.

Lemma mod_is_zero x k : 1 ≤ x ≤ k → (x mod k =? 0) = (x =? k).
Proof.
  intros Hx. destruct (Z.eqb_spec x k) as [->|Hne].
  - by rewrite Z.mod_same by lia.
  - rewrite Z.mod_small by lia. apply Z.eqb_neq. lia.
Qed.

Lemma div_step y k : 0 < k → y / k = (y - 1) / k + (if y mod k =? 0 then 1 else 0).
Proof.
  intros Hk. pose proof (Z.div_mod y k ltac:(lia)) as Hd. pose proof (Z.mod_pos_bound y k Hk).
  destruct (Z.eqb_spec (y mod k) 0) as [H0|H0].
  - assert ((y - 1) / k = y / k - 1) as ->; [|lia].
    symmetry. apply (Z.div_unique _ _ _ (k - 1)); [lia|]. nia.
  - assert ((y - 1) / k = y / k) as ->; [|lia].
    symmetry. apply (Z.div_unique _ _ _ (y mod k - 1)); [lia|]. nia.
Qed.

(** The year of 400[a] + 100[b] + 4[c] + [d] elapsed years. *)
Section Elapsed.
Context (a b c d : Z) (Hb : 0 ≤ b ≤ 3) (Hc : 0 ≤ c ≤ 24) (Hd : 0 ≤ d ≤ 3).
Let y := a * 400 + 1 + b * 100 + c * 4 + d.

Lemma elapsed_days : days_before_year y = 146097 * a + 36524 * b + 1461 * c + 365 * d.
Proof using Hb Hc Hd.
  unfold days_before_year. replace (y - 1) with (a * 400 + 100 * b + 4 * c + d) by (unfold y; lia).
  assert ((a * 400 + 100 * b + 4 * c + d) / 4 = 100 * a + 25 * b + c) as ->
    by (symmetry; apply (Z.div_unique _ _ _ d); lia).
  assert ((a * 400 + 100 * b + 4 * c + d) / 100 = 4 * a + b) as ->
    by (symmetry; apply (Z.div_unique _ _ _ (4 * c + d)); lia).
  assert ((a * 400 + 100 * b + 4 * c + d) / 400 = a) as ->
    by (symmetry; apply (Z.div_unique _ _ _ (100 * b + 4 * c + d)); lia).
  lia.
Qed.

Lemma elapsed_leap : leap y = (d =? 3) && (negb (c =? 24) || (b =? 3)).
Proof using Hb Hc Hd.
  unfold leap.
  assert ((y mod 4 =? 0) = (d =? 3)) as ->.
  { replace y with (d + 1 + (100 * a + 25 * b + c) * 4) by (unfold y; lia).
    rewrite Z.mod_add, mod_is_zero by lia. lia. }
  assert ((y mod 100 =? 0) = (d =? 3) && (c =? 24)) as ->.
  { replace y with (4 * c + d + 1 + (4 * a + b) * 100) by (unfold y; lia).
    rewrite Z.mod_add, mod_is_zero by lia. lia. }
  assert ((y mod 400 =? 0) = (d =? 3) && (c =? 24) && (b =? 3)) as ->.
  { replace y with (100 * b + 4 * c + d + 1 + a * 400) by (unfold y; lia).
    rewrite Z.mod_add, mod_is_zero by lia. lia. }
  by destruct (d =? 3), (c =? 24), (b =? 3).
Qed.
End Elapsed.

Lemma next_month_start y m :
  1 ≤ m ≤ 12 →
  (let '(y', m') := next_month y m in month_start y' m')
  = days_before_year y + before_month (leap y) (m + 1) - 719162.
Proof.
  intros Hm. unfold next_month. destruct (Z.eqb_spec m 12) as [->|Hne]; [|done].
  unfold month_start, days_before_month. change (before_month (leap (y + 1)) 1) with 0.
  assert (days_before_year (y + 1) = days_before_year y + 365 + Z.b2z (leap y)) as ->.
  { unfold days_before_year, leap. replace (y + 1 - 1) with y by lia.
    rewrite (div_step y 4), (div_step y 100), (div_step y 400) by lia.
    assert (y mod 400 = 0 → y mod 100 = 0) by (Z.div_mod_to_equations; lia).
    assert (y mod 100 = 0 → y mod 4 = 0) by (Z.div_mod_to_equations; lia).
    destruct (Z.eqb_spec (y mod 4) 0), (Z.eqb_spec (y mod 100) 0), (Z.eqb_spec (y mod 400) 0);
      cbn [andb orb negb Z.b2z]; try lia; tauto. }
  assert (before_month (leap y) (12 + 1) = 365 + Z.b2z (leap y)) as -> by by destruct (leap y).
  lia.
Qed.

(** The bracket, from the days elapsed in the year. *)
Lemma civil_bracket_year y n days :
  days = days_before_year y + n - 719162 → 0 ≤ n < 365 + Z.b2z (leap y) →
  let m := month_in_year (leap y) n in
  1 ≤ m ≤ 12 ∧ month_start y m ≤ days ∧ days < (let '(y', m') := next_month y m in month_start y' m').
Proof.
  intros -> Hn m. pose proof (month_in_year_ok (leap y) n Hn) as Hok. unfold month_ok in Hok.
  fold m in Hok. rewrite !andb_true_iff, !Z.leb_le, Z.ltb_lt in Hok.
  split; [lia|]. rewrite next_month_start by lia. unfold month_start, days_before_month. lia.
Qed.

(** The 366th day is in December. *)
Lemma december_31 y days :
  leap y = true → days = days_before_year y + 365 - 719162 →
  1 ≤ 12 ≤ 12 ∧ month_start y 12 ≤ days ∧ days < (let '(y', m') := next_month y 12 in month_start y' m').
Proof.
  intros Hl Hd. pose proof (civil_bracket_year y 365 days Hd) as H. rewrite Hl in H.
  apply H. cbn. lia.
Qed.

Lemma civil_brackets days y m :
  civil days = (y, m) →
  1 ≤ m ≤ 12 ∧ month_start y m ≤ days ∧ days < (let '(y', m') := next_month y m in month_start y' m').
Proof.
  unfold civil. set (n0 := days + 719162). cbv zeta.
  set (a := n0 / 146097). set (r1 := n0 mod 146097). set (b := r1 / 36524). set (r2 := r1 mod 36524).
  set (c := r2 / 1461). set (r3 := r2 mod 1461). set (d := r3 / 365). set (n := r3 mod 365).
  assert (n0 = 146097 * a + 36524 * b + 1461 * c + 365 * d + n ∧ 0 ≤ n < 365 ∧ 0 ≤ d ≤ 4 ∧
    (d = 4 → n = 0) ∧ 0 ≤ c ≤ 24 ∧ 0 ≤ b ≤ 4 ∧ (b = 4 → c = 0 ∧ d = 0 ∧ n = 0) ∧
    (c = 24 → d = 4 → b = 3)) as (Hn0 & Hn & Hd & Hd4 & Hc & Hb & Hb4 & Hcd).
  { unfold n, d, r3, c, r2, b, r1, a. Z.div_mod_to_equations. lia. }
  unfold n0 in Hn0. clearbody a b c d n. clear n0 r1 r2 r3.
  destruct (Z.eqb_spec d 4) as [->|Hd']; [|destruct (Z.eqb_spec b 4) as [->|Hb']]; cbn [orb]; intros [= <- <-].
  - replace (a * 400 + 1 + b * 100 + c * 4 + 4 - 1) with (a * 400 + 1 + b * 100 + c * 4 + 3) by lia.
    assert (b ≤ 3) by (destruct (decide (b = 4)); lia).
    assert (leap (a * 400 + 1 + b * 100 + c * 4 + 3) = true) as Hl.
    { rewrite elapsed_leap by lia. cbn. destruct (Z.eqb_spec c 24); [|done]. by rewrite (Hcd e). }
    apply (december_31 (a * 400 + 1 + b * 100 + c * 4 + 3)); [done|]. rewrite elapsed_days by lia. lia.
  - destruct Hb4 as (-> & -> & ->); [done|].
    replace (a * 400 + 1 + 4 * 100 + 0 * 4 + 0 - 1) with (a * 400 + 1 + 3 * 100 + 24 * 4 + 3) by lia.
    assert (leap (a * 400 + 1 + 3 * 100 + 24 * 4 + 3) = true) as Hl by by rewrite elapsed_leap by lia.
    apply (december_31 (a * 400 + 1 + 3 * 100 + 24 * 4 + 3)); [done|]. rewrite elapsed_days by lia. lia.
  - rewrite <- (elapsed_leap a b c d) by lia. apply civil_bracket_year.
    + rewrite elapsed_days by lia. lia.
    + destruct (leap _); cbn; lia.
Qed.
