(* ===== verification/Times.v ===== *)
(** * Times: the instants of a lease as text (rpc.py, and [time.Time] in the answers of the server)

    [rfc3339] is what Go's [json.Marshal] writes for a [time.Time]: RFC 3339 with the fraction cut
    at its last digit that is not zero, in the time zone of the server.  [fromisoformat] is what
    Python reads of it: the extended format with seconds, an optional fraction (cut at six digits)
    and an offset in minutes; the other forms Python accepts are answered [None] here.  Instants
    are microseconds since 1970, the resolution of PostgreSQL. *)
From S2P Require Import Prelude PyStr Json JsonParse JsonRound Calendar.
Local Open Scope string_scope.
Local Open Scope list_scope.
Local Open Scope Z_scope.

Definition day_us : Z := 86400 * 1000000.

(** ** Decimals of a fixed width *)
Definition dchar (z : Z) : ascii := pretty_N_char (Z.to_N z).
Fixpoint dec (w : nat) (n : Z) : string :=
  match w with
  | O => EmptyString
  | S w => String (dchar (n / 10 ^ Z.of_nat w mod 10)) (dec w n)
  end.

(** Exactly [w] digits. *)
Fixpoint num (w : nat) (acc : Z) (s : string) : option (Z * string) :=
  match w with
  | O => Some (acc, s)
  | S w => match s with
           | String c r => match digit c with
                           | Some x => num w (acc * 10 + Z.of_N x) r
                           | None => None
                           end
           | EmptyString => None
           end
  end.

(** ** Go *)
Fixpoint trim_zeros (s : string) : string :=
  match s with
  | EmptyString => EmptyString
  | String c r => let r := trim_zeros r in
                  if Ascii.eqb c "0" && negb (nonempty r) then EmptyString else String c r
  end.

Definition fraction (us : Z) : string :=
  if us =? 0 then EmptyString else "." +:+ trim_zeros (dec 9 (us * 1000)).

(** The offset of a zone, in minutes. *)
Definition zone (off : Z) : string :=
  if off =? 0 then "Z"
  else (if off <? 0 then "-" else "+") +:+ dec 2 (Z.abs off / 60) +:+ ":" +:+ dec 2 (Z.abs off mod 60).

Definition day_of_month (days y m : Z) : Z := days - month_start y m + 1.

Definition rfc3339 (off t : Z) : string :=
  let local := t + off * 60000000 in
  let days := local / day_us in
  let us := local mod day_us in
  let '(y, m) := civil days in
  dec 4 y +:+ "-" +:+ dec 2 m +:+ "-" +:+ dec 2 (day_of_month days y m) +:+ "T"
  +:+ dec 2 (us / 3600000000) +:+ ":" +:+ dec 2 (us / 60000000 mod 60) +:+ ":"
  +:+ dec 2 (us / 1000000 mod 60) +:+ fraction (us mod 1000000) +:+ zone off.

(** ** Python *)
(** [s.replace(c, t)] for a single character. *)
Fixpoint replace_char (c : ascii) (t s : string) : string :=
  match s with
  | EmptyString => EmptyString
  | String x r => (if Ascii.eqb x c then t else String x EmptyString) +:+ replace_char c t r
  end.

(** The digits of a fraction, six of which count: [k] of them are still to come. *)
Fixpoint frac (k : nat) (s : string) : Z * string :=
  match s with
  | String c r =>
      match digit c with
      | Some x => match k with
                  | O => frac 0 r
                  | S k => let '(v, r) := frac k r in (Z.of_N x * 10 ^ Z.of_nat k + v, r)
                  end
      | None => (0, s)
      end
  | EmptyString => (0, s)
  end.

Definition days_in_month (y m : Z) : Z := before_month (leap y) (m + 1) - before_month (leap y) m.

(** [±HH:MM] or [±HH], in minutes. *)
Definition signed_zone (c : ascii) (h m : Z) : option Z :=
  if (60 * h + m <? 1440) && (m <? 60) then
    if Ascii.eqb c "+" then Some (60 * h + m)
    else if Ascii.eqb c "-" then Some (- (60 * h + m))
    else None
  else None.
Definition parse_zone (s : string) : option Z :=
  match s with
  | String c r =>
      match num 2 0 r with
      | Some (h, EmptyString) => signed_zone c h 0
      | Some (h, String ":" r) =>
          match num 2 0 r with
          | Some (m, EmptyString) => signed_zone c h m
          | _ => None
          end
      | _ => None
      end
  | EmptyString => None
  end.

(** The date of the extended format, as days since 1970. *)
Definition parse_date (s : string) : option (Z * string) :=
  match num 4 0 s with
  | Some (y, String "-" r) =>
      match num 2 0 r with
      | Some (m, String "-" r) =>
          match num 2 0 r with
          | Some (d, r) =>
              if (1 <=? y) && (1 <=? m) && (m <=? 12) && (1 <=? d) && (d <=? days_in_month y m)
              then Some (month_start y m + d - 1, r) else None
          | None => None
          end
      | _ => None
      end
  | _ => None
  end.

(** A dot and at least one digit, or nothing. *)
Definition optional_fraction (s : string) : option (Z * string) :=
  match s with
  | String "." r => match r with
                    | String c _ => match digit c with Some _ => Some (frac 6 r) | None => None end
                    | EmptyString => None
                    end
  | _ => Some (0, s)
  end.

(** The time of the day, in microseconds, up to the offset. *)
Definition parse_time (s : string) : option (Z * string) :=
  match num 2 0 s with
  | Some (h, String ":" r) =>
      match num 2 0 r with
      | Some (mi, String ":" r) =>
          match num 2 0 r with
          | Some (sec, r) =>
              match optional_fraction r with
              | Some (us, r) =>
                  if (h <? 24) && (mi <? 60) && (sec <? 60)
                  then Some (((h * 60 + mi) * 60 + sec) * 1000000 + us, r) else None
              | None => None
              end
          | None => None
          end
      | _ => None
      end
  | _ => None
  end.

(** [datetime.fromisoformat(s)]: the instant. *)
Definition fromisoformat (s : string) : option Z :=
  match parse_date s with
  | Some (days, String _ r) =>
      match parse_time r with
      | Some (us, r) =>
          match parse_zone r with
          | Some off => Some (days * day_us + us - off * 60000000)
          | None => None
          end
      | None => None
      end
  | _ => None
  end.

(** [datetime.fromisoformat(s.replace("Z", "+00:00"))] *)
Definition parse_instant (s : string) : option Z := fromisoformat (replace_char "Z" "+00:00" s).

Example lease_times :
  rfc3339 0 1735787045250000 = "2025-01-02T03:04:05.25Z" ∧
  rfc3339 (-210) 1735787045000000 = "2025-01-01T23:34:05-03:30" ∧
  parse_instant "2025-01-02T03:04:05.25Z" = Some 1735787045250000 ∧
  parse_instant "2025-01-01T23:34:05.0000019-03:30" = Some 1735787045000001.
Proof. vm_compute. done. Qed.

(** ** What is written is read back *)
Lemma digit_dchar z : 0 ≤ z < 10 → digit (dchar z) = Some (Z.to_N z).
Proof. intros Hz. apply digit_char. lia. Qed.

Lemma mod_step n w : n mod 10 ^ Z.of_nat (S w) = n / 10 ^ Z.of_nat w mod 10 * 10 ^ Z.of_nat w + n mod 10 ^ Z.of_nat w.
Proof.
  rewrite Nat2Z.inj_succ, Z.pow_succ_r, (Z.mul_comm 10), Z.rem_mul_r by lia. lia.
Qed.

Lemma num_dec w acc n rest :
  num w acc (dec w n +:+ rest) = Some (acc * 10 ^ Z.of_nat w + n mod 10 ^ Z.of_nat w, rest).
Proof.
  revert acc. induction w as [|w IH]; intros acc.
  - cbn [dec num]. change (EmptyString +:+ rest) with rest. rewrite Z.mod_1_r. do 2 f_equal. simpl. lia.
  - cbn [dec]. rewrite string_cons_app. cbn [num].
    pose proof (Z.mod_pos_bound (n / 10 ^ Z.of_nat w) 10 ltac:(lia)).
    rewrite digit_dchar, IH by done. rewrite Z2N.id by lia. do 2 f_equal.
    rewrite mod_step, Nat2Z.inj_succ, Z.pow_succ_r by lia. lia.
Qed.

(** A number that fits the width. *)
Lemma num_fits w n rest : 0 ≤ n < 10 ^ Z.of_nat w → num w 0 (dec w n +:+ rest) = Some (n, rest).
Proof. intros Hn. rewrite num_dec, Z.mod_small by done. do 2 f_equal. Qed.

Fixpoint all_digits (s : string) : Prop :=
  match s with String c r => is_Some (digit c) ∧ all_digits r | EmptyString => True end.

Lemma all_digits_dec w n : all_digits (dec w n).
Proof.
  induction w as [|w IH]; [done|]. cbn [dec all_digits]. split; [|done]. rewrite digit_dchar; [by eexists|].
  apply Z.mod_pos_bound. lia.
Qed.

Lemma frac_stop k s : no_digit s → frac k s = (0, s).
Proof. destruct s as [|c s]; [done|]. cbn [no_digit frac]. by intros ->. Qed.

Lemma frac_dec k j n rest :
  no_digit rest → frac k (dec (k + j) n +:+ rest) = (n / 10 ^ Z.of_nat j mod 10 ^ Z.of_nat k, rest).
Proof.
  intros Hr. induction k as [|k IH].
  - cbn [Nat.add]. rewrite Z.mod_1_r. induction j as [|j IH]; [by apply frac_stop|].
    cbn [dec]. rewrite string_cons_app. cbn [frac]. rewrite digit_dchar; [done|apply Z.mod_pos_bound; lia].
  - cbn [Nat.add dec]. rewrite string_cons_app. cbn [frac].
    pose proof (Z.mod_pos_bound (n / 10 ^ Z.of_nat (k + j)) 10 ltac:(lia)).
    rewrite digit_dchar, IH by done. f_equal. rewrite Z2N.id by lia. rewrite mod_step. f_equal.
    rewrite Z.div_div by lia. rewrite <- Z.pow_add_r, Nat2Z.inj_add, (Z.add_comm (Z.of_nat j)) by lia. done.
Qed.

Lemma frac_trim s : all_digits s → ∀ k rest, no_digit rest → frac k (trim_zeros s +:+ rest) = frac k (s +:+ rest).
Proof.
  induction s as [|c s IH]; intros Hs k rest Hr; [done|]. destruct Hs as [Hc Hs]. specialize (IH Hs).
  cbn [trim_zeros]. destruct (Ascii.eqb c "0" && negb (nonempty (trim_zeros s))) eqn:Hz.
  - apply andb_true_iff in Hz as [->%Ascii.eqb_eq Hz]. destruct (trim_zeros s) as [|]; [|done].
    rewrite (string_cons_app "0"). cbn [frac]. change (digit "0") with (Some 0%N). cbv match.
    destruct k as [|k]; rewrite <- IH by done; change (EmptyString +:+ rest) with rest; rewrite !frac_stop by done; done.
  - rewrite !string_cons_app. cbn [frac]. destruct (digit c); [|by destruct Hc].
    destruct k as [|k]; by rewrite IH.
Qed.

(** The text without the [Z]. *)
Lemma replace_app c t a b : replace_char c t (a +:+ b) = replace_char c t a +:+ replace_char c t b.
Proof.
  induction a as [|x a IH]; [done|]. rewrite string_cons_app. cbn [replace_char].
  by rewrite IH, string_app_assoc.
Qed.

Lemma replace_digits t s : all_digits s → replace_char "Z" t s = s.
Proof.
  induction s as [|c s IH]; [done|]. intros [Hc Hs]. cbn [replace_char]. rewrite IH by done.
  assert (Ascii.eqb c "Z" = false) as -> by by destruct c as [[] [] [] [] [] [] [] []]; try done; destruct Hc.
  by rewrite string_cons_app.
Qed.

Lemma all_digits_trim s : all_digits s → all_digits (trim_zeros s).
Proof.
  induction s as [|c s IH]; [done|]. intros [Hc Hs]. cbn [trim_zeros].
  destruct (_ && _); [done|]. split; auto.
Qed.

(** A number of a fixed width and the character after it. *)
Lemma lit_app c t : String c EmptyString +:+ t = String c t.
Proof. done. Qed.
Ltac field := rewrite num_fits by (simpl; lia); rewrite ?lit_app; cbv match.

(** Times whose year and offset both sides can write. *)
Definition writable (off t : Z) : Prop :=
  1 ≤ (civil ((t + off * 60000000) / day_us)).1 ≤ 9999 ∧ Z.abs off < 1440.

Lemma days_in_month_bound y m : 1 ≤ m ≤ 12 → days_in_month y m ≤ 31.
Proof.
  intros Hm. unfold days_in_month.
  assert (m = 1 ∨ m = 2 ∨ m = 3 ∨ m = 4 ∨ m = 5 ∨ m = 6 ∨ m = 7 ∨ m = 8 ∨ m = 9 ∨ m = 10 ∨ m = 11 ∨ m = 12)
    as Hc by lia.
  destruct (leap y); destruct_or! Hc; subst; vm_compute; congruence.
Qed.

Lemma parse_date_ok days y m rest :
  civil days = (y, m) → 1 ≤ y ≤ 9999 →
  parse_date (dec 4 y +:+ "-" +:+ dec 2 m +:+ "-" +:+ dec 2 (day_of_month days y m) +:+ rest)
  = Some (days, rest).
Proof.
  intros (Hm & Hlo & Hhi)%civil_brackets Hy. rewrite next_month_start in Hhi by done.
  pose proof (days_in_month_bound y m Hm) as Hb. unfold day_of_month.
  assert (1 ≤ days - month_start y m + 1 ≤ days_in_month y m) as Hd.
  { unfold days_in_month, month_start, days_before_month in *. lia. }
  unfold parse_date. field. field. field.
  rewrite !(proj2 (Z.leb_le _ _)) by lia. simpl. do 2 f_equal. lia.
Qed.

Lemma parse_fraction us rest :
  0 ≤ us < 1000000 → no_digit rest → (∀ r, rest ≠ String "." r) →
  optional_fraction (fraction us +:+ rest) = Some (us, rest).
Proof.
  intros Hus Hr Hdot. unfold fraction. destruct (Z.eqb_spec us 0) as [->|Hne].
  - change (EmptyString +:+ rest) with rest. destruct rest as [|c rest]; [done|].
    destruct (decide (c = "."%char)) as [->|Hc]; [by destruct (Hdot rest)|].
    by destruct c as [[] [] [] [] [] [] [] []].
  - rewrite string_app_assoc. change ("." +:+ ?t) with (String "." t).
    assert (frac 6 (trim_zeros (dec 9 (us * 1000)) +:+ rest) = (us, rest)) as Hf.
    { rewrite frac_trim by (done || apply all_digits_dec). rewrite (frac_dec 6 3) by done.
      change (10 ^ Z.of_nat 3) with 1000. rewrite Z.div_mul, Z.mod_small by (simpl; lia). done. }
    pose proof (all_digits_trim _ (all_digits_dec 9 (us * 1000))) as Hd.
    destruct (trim_zeros (dec 9 (us * 1000))) as [|c s].
    + change (EmptyString +:+ rest) with rest in Hf. rewrite frac_stop in Hf by done. congruence.
    + rewrite string_cons_app in *. destruct Hd as [[x Hx] _]. cbn [optional_fraction]. cbv match. by rewrite Hx, Hf.
Qed.

Lemma parse_time_ok us rest :
  0 ≤ us < day_us → no_digit rest → (∀ r, rest ≠ String "." r) →
  parse_time (dec 2 (us / 3600000000) +:+ ":" +:+ dec 2 (us / 60000000 mod 60) +:+ ":"
              +:+ dec 2 (us / 1000000 mod 60) +:+ fraction (us mod 1000000) +:+ rest) = Some (us, rest).
Proof.
  intros Hus Hr Hdot. unfold day_us in Hus.
  assert (0 ≤ us / 3600000000 < 24) as Hh.
  { split; [apply Z.div_pos; lia|]. apply Z.div_lt_upper_bound; lia. }
  pose proof (Z.mod_pos_bound (us / 60000000) 60 ltac:(lia)) as Hm.
  pose proof (Z.mod_pos_bound (us / 1000000) 60 ltac:(lia)) as Hs.
  pose proof (Z.mod_pos_bound us 1000000 ltac:(lia)) as Hf.
  unfold parse_time. field. field. field.
  rewrite (parse_fraction _ _ Hf Hr Hdot). rewrite !(proj2 (Z.ltb_lt _ _)) by lia. simpl. do 2 f_equal.
  rewrite (Z.mod_eq us 1000000), (Z.mod_eq (us / 1000000) 60), (Z.mod_eq (us / 60000000) 60) by lia.
  rewrite !Z.div_div by lia. change (1000000 * 60) with 60000000. change (60000000 * 60) with 3600000000. lia.
Qed.

Lemma parse_zone_ok off : Z.abs off < 1440 → parse_zone (replace_char "Z" "+00:00" (zone off)) = Some off.
Proof.
  intros Ho. unfold zone. destruct (Z.eqb_spec off 0) as [->|Hne]; [done|].
  assert (0 ≤ Z.abs off / 60 < 24) as Hh.
  { split; [apply Z.div_pos; lia|]. apply Z.div_lt_upper_bound; lia. }
  pose proof (Z.mod_pos_bound (Z.abs off) 60 ltac:(lia)) as Hm.
  pose proof (Z.div_mod (Z.abs off) 60 ltac:(lia)) as Hdm.
  rewrite !replace_app, !(replace_digits _ (dec _ _)) by apply all_digits_dec.
  assert (parse_zone (String (if off <? 0 then "-" else "+")
    (dec 2 (Z.abs off / 60) +:+ ":" +:+ dec 2 (Z.abs off mod 60))) = Some off) as Hz.
  { cbn [parse_zone]. unfold signed_zone. field.
    rewrite <- (string_app_nil_r (dec 2 (Z.abs off mod 60))). field.
    rewrite !(proj2 (Z.ltb_lt _ _)) by lia. simpl. destruct (Z.ltb_spec off 0); simpl; f_equal; lia. }
  destruct (off <? 0); exact Hz.
Qed.

(** The worker reads the instant the server wrote, in whatever zone the server runs. *)
Lemma parse_rfc3339 off t : writable off t → parse_instant (rfc3339 off t) = Some t.
Proof.
  unfold writable, rfc3339, parse_instant. set (local := t + off * 60000000).
  destruct (civil (local / day_us)) as [y m] eqn:Hc. cbn [fst]. intros [Hy Ho].
  pose proof (Z.mod_pos_bound local day_us ltac:(unfold day_us; lia)) as Hus.
  rewrite !replace_app, !(replace_digits _ (dec _ _)) by apply all_digits_dec.
  assert (∀ us, replace_char "Z" "+00:00" (fraction us) = fraction us) as ->.
  { intros us. unfold fraction. destruct (us =? 0); [done|]. rewrite replace_app, (replace_digits _ (trim_zeros _)); [done|].
    apply all_digits_trim, all_digits_dec. }
  set (z := replace_char "Z" "+00:00" (zone off)).
  assert (no_digit z ∧ ∀ r, z ≠ String "." r) as [Hz1 Hz2].
  { unfold z, zone. destruct (off =? 0); [done|]. destruct (off <? 0); rewrite !replace_app; done. }
  unfold fromisoformat.
  change (replace_char "Z" "+00:00" "-") with "-". change (replace_char "Z" "+00:00" ":") with ":".
  change (replace_char "Z" "+00:00" "T") with "T".
  rewrite (parse_date_ok _ _ _ _ Hc Hy). change ("T" +:+ ?t) with (String "T" t). cbv match.
  rewrite (parse_time_ok _ _ Hus Hz1 Hz2). unfold z. rewrite parse_zone_ok by done. f_equal.
  pose proof (Z.div_mod local day_us ltac:(unfold day_us; lia)). unfold local in *. lia.
Qed.
