(* ===== verification/Argparse.v ===== *)
(** * Argparse: the command lines of the scripts

    Python's [ArgumentParser] as the scripts use it: options with one value (text, integer, path or
    one of several choices) or, with [nargs="+"], one or more; required or with a default; one
    positional argument; and [--help].  An option may be written
    [--name value], [--name=value] or abbreviated to a prefix of one option only; a value that
    starts with a dash is a value when it is a number or holds a space.  The separator [--] is
    not used. *)
From S2P Require Import Prelude Effects PyStr Utf8 Json JsonParse JsonRound PyInt.
Local Open Scope string_scope.
Local Open Scope list_scope.

Inductive value := VStr (s : string) | VInt (z : Z) | VNone | VList (l : list value).

(** [TMany]: [nargs="+"]. *)
Inductive arg_type := TStr | TInt | TPath | TChoice (choices : list string) | TMany (t : arg_type).

(** An option, or a positional argument when the name does not begin with a dash. *)
Record option_ := Option_ { flag : string; type : arg_type; required : bool; fallback : value }.

Abbreviation namespace := (gmap string value).

Definition help : string := "--help".

(** The options whose name [s] abbreviates. *)
Definition matches (opts : list option_) (s : string) : list string :=
  List.filter (has_prefix s) (help :: (flag <$> opts)).

Inductive parsed_option :=
| NotAnOption
| Unknown
| Ambiguous
| Known (name : string) (explicit : option string).

Fixpoint all_digits (s : string) : bool :=
  match s with
  | EmptyString => true
  | String c r => match digit c with Some _ => all_digits r | None => false end
  end.
(** [-\d+] or [-\d*\.\d+] *)
Definition negative_number (s : string) : bool :=
  match s with
  | String "-" r =>
      match split1 "." r with
      | None => nonempty r && all_digits r
      | Some (a, b) => all_digits a && nonempty b && all_digits b
      end
  | _ => false
  end.

(** [ArgumentParser._parse_optional] *)
Definition parse_optional (opts : list option_) (s : string) : parsed_option :=
  if negb (has_prefix "-" s) then NotAnOption
  else if String.eqb s "-h" then Known help None
  else if existsb (String.eqb s) (help :: (flag <$> opts)) then Known s None
  else if String.eqb s "-" then NotAnOption
  else
    let '(name, explicit) := match split1 "=" s with
                             | Some (a, b) => (a, Some b)
                             | None => (s, None)
                             end in
    if existsb (String.eqb name) (help :: (flag <$> opts)) then Known name explicit
    else
      match (if has_prefix "--" s then matches opts name else []) with
      | [o] => Known o explicit
      | _ :: _ :: _ => Ambiguous
      | [] => if negative_number s || contains " " s then NotAnOption else Unknown
      end.

Fixpoint convert (t : arg_type) (s : string) : option value :=
  match t with
  | TMany t => convert t s
  | TStr => Some (VStr s)
  | TPath => Some (VStr (str_path s))
  | TInt => VInt <$> py_int s
  | TChoice l => if existsb (String.eqb s) l then Some (VStr s) else None
  end.

Definition find_option (opts : list option_) (name : string) : option option_ :=
  List.find (λ o, String.eqb (flag o) name) opts.

(** The error exit of the parser. *)
Definition usage_error {A} : exn + A := inl (SystemExit 2).

(** Defaults, and the error for a required option that was not given. *)
Fixpoint complete (opts : list option_) (ns : namespace) : exn + namespace :=
  match opts with
  | [] => inr ns
  | o :: opts =>
      match ns !! flag o with
      | Some _ => complete opts ns
      | None => if required o then usage_error
                else complete opts (<[flag o := fallback o]> ns)
      end
  end.

(** The value of an option when its first value is [v], and when one more is found. *)
Definition many (o : option_) : bool := match type o with TMany _ => true | _ => false end.
Definition first_value (o : option_) (v : value) : value := if many o then VList [v] else v.
Definition one_more (o : option_) (v : value) (ns : namespace) : namespace :=
  <[flag o := match ns !! flag o with Some (VList l) => VList (l ++ [v]) | _ => v end]> ns.

(** The positional argument that is still to come. *)
Definition next_positional (opts : list option_) (ns : namespace) : option option_ :=
  List.find (λ o, negb (has_prefix "-" (flag o)) && bool_decide (ns !! flag o = None)) opts.

(** The arguments from left to right; [open]: the option whose values are being read; [extras]: an
    argument was not recognized. *)
Fixpoint consume (opts : list option_) (open : option option_) (argv : list string) (ns : namespace) (extras : bool)
    : exn + namespace :=
  match argv with
  | [] => match complete opts ns with
          | inl e => inl e
          | inr ns => if extras then usage_error else inr ns
          end
  | a :: rest =>
      match parse_optional opts a with
      | NotAnOption =>
          match open with
          | Some o => match convert (type o) a with
                      | Some v => consume opts open rest (one_more o v ns) extras
                      | None => usage_error
                      end
          | None => match next_positional opts ns with
                    | Some o => match convert (type o) a with
                                | Some v => consume opts None rest (<[flag o := v]> ns) extras
                                | None => usage_error
                                end
                    | None => consume opts None rest ns true
                    end
          end
      | Unknown => consume opts None rest ns true
      | Ambiguous => usage_error
      | Known name explicit =>
          match find_option opts name with
          | None =>  (* --help *)
              match explicit with None => inl (SystemExit 0) | Some _ => usage_error end
          | Some o =>
              match explicit with
              | Some v => match convert (type o) v with
                          | Some v => consume opts None rest (<[name := first_value o v]> ns) extras
                          | None => usage_error
                          end
              | None =>
                  match rest with
                  | v :: rest =>
                      match parse_optional opts v with
                      | NotAnOption =>
                          match convert (type o) v with
                          | Some v => consume opts (if many o then Some o else None) rest
                                        (<[name := first_value o v]> ns) extras
                          | None => usage_error
                          end
                      | _ => usage_error
                      end
                  | [] => usage_error
                  end
              end
          end
      end
  end.

(** [parser.parse_args(argv)] *)
Definition parse_args (opts : list option_) (argv : list string) : exn + namespace :=
  consume opts None argv ∅ false.

Definition get_str (ns : namespace) (name : string) : string :=
  match ns !! name with Some (VStr s) => s | _ => EmptyString end.
Definition get_int (ns : namespace) (name : string) : Z :=
  match ns !! name with Some (VInt z) => z | _ => 0%Z end.
(** The values of an option with [nargs="+"]. *)
Definition get_list (ns : namespace) (name : string) : list value :=
  match ns !! name with Some (VList l) => l | _ => [] end.
Definition get_ints (ns : namespace) (name : string) : list Z :=
  omap (λ v, match v with VInt z => Some z | _ => None end) (get_list ns name).
Definition get_strs (ns : namespace) (name : string) : list string :=
  omap (λ v, match v with VStr s => Some s | _ => None end) (get_list ns name).

(** ** Reading options back *)
Lemma consume_option opts o name v rest ns extras w :
  parse_optional opts name = Known name None → find_option opts name = Some o → many o = false →
  parse_optional opts v = NotAnOption → convert (type o) v = Some w →
  consume opts None (name :: v :: rest) ns extras = consume opts None rest (<[name := w]> ns) extras.
Proof. intros H1 H2 Hm H3 H4. cbn [consume]. unfold first_value. by rewrite H1, H2, H3, H4, Hm. Qed.

Lemma plain_value opts v : has_prefix "-" v = false → parse_optional opts v = NotAnOption.
Proof. intros Hv. unfold parse_optional. by rewrite Hv. Qed.

Lemma pretty_is_value opts z : (0 ≤ z)%Z → parse_optional opts (pretty z) = NotAnOption.
Proof.
  intros Hz. apply plain_value. destruct z as [|p|p]; [done| |lia].
  destruct (parse_nat_pretty (Npos p) EmptyString I) as [_ (c & r & Heq & Hc)].
  change (pretty (Zpos p)) with (pretty (Npos p)). rewrite Heq.
  destruct c as [[] [] [] [] [] [] [] []]; try done; by destruct Hc.
Qed.

Lemma consume_int opts o name z rest ns extras :
  parse_optional opts name = Known name None → find_option opts name = Some o → type o = TInt → (0 ≤ z)%Z →
  consume opts None (name :: pretty z :: rest) ns extras = consume opts None rest (<[name := VInt z]> ns) extras.
Proof.
  intros H1 H2 Ht Hz. apply (consume_option _ o); [done|done|unfold many; by rewrite Ht|by apply pretty_is_value|].
  rewrite Ht. cbn. by rewrite py_int_pretty.
Qed.

(** One or more values, up to the next option or the end. *)
Lemma consume_more opts o l vs ns extras rest old :
  Forall2 (λ s v, parse_optional opts s = NotAnOption ∧ convert (type o) s = Some v) l vs →
  ns !! flag o = Some (VList old) →
  consume opts (Some o) (l ++ rest) ns extras = consume opts (Some o) rest (<[flag o := VList (old ++ vs)]> ns) extras.
Proof.
  intros Hl. revert ns old. induction Hl as [|s v l vs [Hs Hv] Hl IH]; intros ns old Hns.
  { rewrite app_nil_r. by rewrite insert_id. }
  cbn [app consume]. rewrite Hs, Hv. unfold one_more. rewrite Hns.
  rewrite (IH _ (old ++ [v])) by apply lookup_insert_eq. by rewrite insert_insert_eq, <- app_assoc.
Qed.
Lemma consume_many opts o name s l v vs ns extras rest :
  parse_optional opts name = Known name None → find_option opts name = Some o → flag o = name → many o = true →
  Forall2 (λ s v, parse_optional opts s = NotAnOption ∧ convert (type o) s = Some v) (s :: l) (v :: vs) →
  consume opts None (name :: s :: l ++ rest) ns extras
  = consume opts (Some o) rest (<[name := VList (v :: vs)]> ns) extras.
Proof.
  intros H1 H2 Hf Hm [[Hs Hv] Hl]%Forall2_cons. cbn [consume]. rewrite H1, H2, Hs, Hv. unfold first_value. rewrite Hm.
  rewrite <- Hf in *. rewrite (consume_more opts o l vs _ _ _ [v]) by (done || apply lookup_insert_eq).
  by rewrite insert_insert_eq.
Qed.
