(* ===== verification/Sha256.v ===== *)
(** * Sha256: the digest of [hashlib.sha256], with its incremental interface

    The worker's [digest] feeds a file to SHA-256 in chunks; the control plane hashes a
    request's payload with it.  The state takes one byte at a time ([push]) and compresses
    every 64th, so [update] of a concatenation is [update] after [update] (what the hashlib
    documentation states of repeated calls). *)
From S2P Require Import Prelude PyStr.
Local Open Scope N_scope.

Definition w32 (x : N) : N := x mod 4294967296.
Definition add32 (x y : N) : N := w32 (x + y).
Definition rotr (n x : N) : N := N.lor (N.shiftr x n) (w32 (N.shiftl x (32 - n))).
Definition not32 (x : N) : N := N.lxor x 4294967295.

Definition K : list N :=
  [1116352408; 1899447441; 3049323471; 3921009573; 961987163; 1508970993; 2453635748; 2870763221;
   3624381080; 310598401; 607225278; 1426881987; 1925078388; 2162078206; 2614888103; 3248222580;
   3835390401; 4022224774; 264347078; 604807628; 770255983; 1249150122; 1555081692; 1996064986;
   2554220882; 2821834349; 2952996808; 3210313671; 3336571891; 3584528711; 113926993; 338241895;
   666307205; 773529912; 1294757372; 1396182291; 1695183700; 1986661051; 2177026350; 2456956037;
   2730485921; 2820302411; 3259730800; 3345764771; 3516065817; 3600352804; 4094571909; 275423344;
   430227734; 506948616; 659060556; 883997877; 958139571; 1322822218; 1537002063; 1747873779;
   1955562222; 2024104815; 2227730452; 2361852424; 2428436474; 2756734187; 3204031479; 3329325298].

Definition H0 : list N :=
  [1779033703; 3144134277; 1013904242; 2773480762; 1359893119; 2600822924; 528734635; 1541459225].

(** Big-endian words of a block. *)
Fixpoint words (l : list N) : list N :=
  match l with
  | a :: b :: c :: d :: l => (a * 16777216 + b * 65536 + c * 256 + d) :: words l
  | _ => []
  end.

(** The message schedule, kept newest first while it grows. *)
Definition next_word (ws : list N) : N :=
  let w i := nth i ws 0 in
  let s0 := N.lxor (N.lxor (rotr 7 (w 14%nat)) (rotr 18 (w 14%nat))) (N.shiftr (w 14%nat) 3) in
  let s1 := N.lxor (N.lxor (rotr 17 (w 1%nat)) (rotr 19 (w 1%nat))) (N.shiftr (w 1%nat) 10) in
  add32 (add32 (w 15%nat) s0) (add32 (w 6%nat) s1).

Definition schedule (block : list N) : list N :=
  rev (Nat.iter 48 (λ ws, next_word ws :: ws) (rev (words block))).

Definition round (st : list N) (kw : N * N) : list N :=
  match st with
  | [a; b; c; d; e; f; g; h] =>
      let s1 := N.lxor (N.lxor (rotr 6 e) (rotr 11 e)) (rotr 25 e) in
      let ch := N.lxor (N.land e f) (N.land (not32 e) g) in
      let t1 := w32 (h + s1 + ch + kw.1 + kw.2) in
      let s0 := N.lxor (N.lxor (rotr 2 a) (rotr 13 a)) (rotr 22 a) in
      let mj := N.lxor (N.lxor (N.land a b) (N.land a c)) (N.land b c) in
      [add32 t1 (add32 s0 mj); a; b; c; add32 d t1; e; f; g]
  | _ => st
  end.

Definition compress (hs block : list N) : list N :=
  zip_with add32 hs (fold_left round (zip K (schedule block)) hs).

(** ** The hash object *)
Record sha := Sha { chain : list N; buffer : list N (** newest byte first *); total : N }.

Definition sha256_new : sha := Sha H0 [] 0.

Definition push (st : sha) (b : N) : sha :=
  let buf := b :: buffer st in
  if (length buf =? 64)%nat
  then Sha (compress (chain st) (rev buf)) [] (total st + 1)
  else Sha (chain st) buf (total st + 1).

Definition bytes_of (s : string) : list N := N_of_ascii <$> String.list_ascii_of_string s.

(** [result.update(chunk)] *)
Definition update (st : sha) (chunk : string) : sha := fold_left push (bytes_of chunk) st.

Fixpoint be_bytes (n : nat) (x : N) : list N :=
  match n with
  | O => []
  | S n => be_bytes n (N.shiftr x 8) ++ [x mod 256]
  end.

(** Padding: one bit, then zeros up to 56 bytes modulo 64, then the length in bits. *)
Definition padding (total : N) : list N :=
  128 :: replicate (N.to_nat ((119 - total mod 64) mod 64)) 0 ++ be_bytes 8 (8 * total).

Definition hex_byte (b : N) : string :=
  let d n := ascii_of_N (if n <? 10 then 48 + n else 87 + n) in
  String (d (b / 16)) (String (d (b mod 16)) EmptyString).

(** [result.hexdigest()] *)
Definition hexdigest (st : sha) : string :=
  let st := fold_left push (padding (total st)) st in
  join EmptyString (hex_byte <$> (chain st ≫= be_bytes 4)).

(** [hashlib.sha256(data).hexdigest()] *)
Definition sha256_hex (data : string) : string := hexdigest (update sha256_new data).

Example sha256_abc :
  sha256_hex "abc"%string = "ba7816bf8f01cfea414140de5dae2223b00361a396177a9cb410ff61f20015ad"%string.
Proof. vm_compute. reflexivity. Qed.

Example sha256_two_blocks :
  sha256_hex "abcdbcdecdefdefgefghfghighijhijkijkljklmklmnlmnomnopnopq"%string
  = "248d6a61d20638b8e5c026930c3e6039a33ce45964ff2167f6ecedd419db06c1"%string.
Proof. vm_compute. reflexivity. Qed.

(** ** Laws *)
Lemma bytes_of_app (a b : string) : bytes_of (a +:+ b) = (bytes_of a ++ bytes_of b)%list.
Proof.
  unfold bytes_of. rewrite <- fmap_app. f_equal.
  induction a as [|c a IH]; [done|]. simpl. by rewrite <- IH.
Qed.

Lemma update_app st (a b : string) : update st (a +:+ b) = update (update st a) b.
Proof. unfold update. by rewrite bytes_of_app, fold_left_app. Qed.

Lemma update_nil st : update st EmptyString = st.
Proof. done. Qed.
