(* ===== verification/Wire.v ===== *)
(** * Wire: the messages of the worker protocol and the calls of the worker process

    The request envelope of proto/rungrid.proto, the reply as the worker reads it, the lease
    dictionary a worker executes, and the signature [WorkerSig] of everything the worker
    process asks of its environment.  Times are integers, in microseconds: the resolution of
    PostgreSQL timestamps and of Python's [datetime]. *)
From S2P Require Import Prelude Effects PyStr Json.
Local Open Scope string_scope.
Local Open Scope list_scope.

(** [t] seconds and [t] milliseconds in microseconds. *)
Definition sec (t : Z) : Z := (t * 1000000)%Z.
Definition ms (t : Z) : Z := (t * 1000)%Z.

(** ** Data *)
Inductive method :=
| RegisterWorker | LeaseJob | StartAttempt | Heartbeat
| ReportProgress | CompleteAttempt | FailAttempt | ReleaseWorker.

#[export] Instance method_eq_dec : EqDecision method.
Proof. solve_decision. Defined.

Definition method_name (m : method) : string :=
  match m with
  | RegisterWorker => "RegisterWorker" | LeaseJob => "LeaseJob"
  | StartAttempt => "StartAttempt" | Heartbeat => "Heartbeat"
  | ReportProgress => "ReportProgress" | CompleteAttempt => "CompleteAttempt"
  | FailAttempt => "FailAttempt" | ReleaseWorker => "ReleaseWorker"
  end.

Record request := Request {
  rq_request_id : string;
  rq_worker_id : string;
  rq_session_id : string;
  rq_attempt_id : string;
  rq_lease_token : string;
  rq_payload_json : string;
  rq_wait_seconds : Z }.

#[export] Instance request_eq_dec : EqDecision request.
Proof. solve_decision. Defined.

Record artifact := Artifact {
  object_key : string;
  content_type : string;
  size_bytes : Z;
  checksum : string;
  kind : string }.

#[export] Instance artifact_eq_dec : EqDecision artifact.
Proof. solve_decision. Defined.

(** The value of a key of a JSON object: absent, [null], or present. *)
Inductive field (A : Type) := Absent | Null | Value (a : A).
Arguments Absent {A}.
Arguments Null {A}.
Arguments Value {A} a.

#[export] Instance field_eq_dec `{EqDecision A} : EqDecision (field A).
Proof. solve_decision. Defined.

(** The keys of [lease["job"]["definition"]] the worker reads. *)
Record definition := Definition_ {
  command : list string;
  environment : field (gmap string string);
  artifact_prefix : field string }.

Record lease_body := LeaseBody {
  job_id : string;
  job_definition : definition;
  attempt_id : string;
  attempt_number : Z;
  lease_token : string;
  lease_checkpoint : option artifact }.

(** A decoded reply.  [Malformed] is a payload [json.loads] or [fromisoformat] rejects. *)
Inductive reply :=
| Malformed
| Reply (lease_expires_at server_time : option Z) (idle : bool) (body : option lease_body).

(** A lease: the body of a [LeaseJob] result with the [local_deadline] key the client adds. *)
Record lease := Lease { l_body : lease_body; local_deadline : option Z }.

(** What [RPC.call] returns: the reply's [idle] flag and body, and the added key. *)
Record result := Result { res_idle : bool; res_body : option lease_body; res_deadline : option Z }.

(** ** The calls of the worker process *)
Definition fallible (A : Type) : Type := exn + A.

Inductive wop :=
(* clock, identifiers, console *)
| Monotonic                      (* time.monotonic() *)
| Uuid4                          (* str(uuid.uuid4()) *)
| Sleep (d : Z)                  (* time.sleep(d) *)
| Print (line : string)          (* print(line, flush=True) *)
(* control plane *)
| Stub (m : method) (r : request) (timeout : Z)  (* getattr(stub, method)(req, timeout=...) *)
(* cells shared by the threads of one attempt *)
| LostIsSet | LostSet            (* lost: threading.Event *)
| DeadlineGet | DeadlineSet (d : Z)  (* deadline[0] *)
| DoneSet | DoneWait (d : Z)     (* done: threading.Event *)
| ProcessIsSet                   (* process is not None *)
| HeartbeatStart | HeartbeatJoin (d : Z)
(* object store *)
| BotoClient (endpoint_url : option string)  (* boto3.client("s3", endpoint_url=..., ...) *)
| PutObject (bucket key body sha256 content_type : string)
| DownloadFile (bucket key target : string)
| UploadFailed                   (* self.on_failure() *)
(* files *)
| MkTemp | RmTree (dir : string) (* tempfile.TemporaryDirectory *)
| Mkdir (dir : string)
| ReadFile (path : string)       (* path.open("rb"), read to the end *)
| StatSize (path : string) | StatMtime (path : string)
| GlobJson (dir : string)        (* dir.glob("*.json") *)
| RGlob (dir : string)           (* dir.rglob("*") *)
| IsFile (path : string) | IsSymlink (path : string)
(* child process *)
| Popen (argv : list string) (env : gmap string string)
| Poll                           (* process.poll() *)
| ReturnCode                     (* process.returncode *)
| KillPg                         (* os.killpg(process.pid, SIGKILL) *)
| WaitProcess                    (* process.wait() *)
| CloseStdout
| ReaderStart | ReaderJoin (d : Z) | ReaderIsAlive
| LinesGetNowait                 (* lines.get_nowait(); None is queue.Empty *)
(* the loop of the worker *)
| GetHostname                    (* socket.gethostname() *)
| StoppingIsSet | StoppingWait (d : Z)  (* self.stopping: threading.Event *)
| PoolSubmit (r : result)        (* pool.submit(self.execute, lease); the future, by number *)
| FutureDone (f : nat) | FutureResult (f : nat)
| PoolShutdown                   (* the end of [with ThreadPoolExecutor(...)] *)
| ChannelClose                   (* self.rpc.channel.close() *)
(* the process *)
| InsecureChannel (address : string) (options : list (string * Z))  (* grpc.insecure_channel *)
| Signal (signum : Z)            (* signal.signal(signum, lambda *_: worker.stopping.set()) *)
| MetricsServer (host : string) (port : Z)  (* ThreadingHTTPServer((host, port), Metrics) *)
| MetricsStart                   (* threading.Thread(target=metrics.serve_forever).start() *)
| MetricsShutdown.               (* metrics.shutdown() *)

Definition wans (o : wop) : Type :=
  match o with
  | Monotonic | DeadlineGet => Z
  | Uuid4 | GetHostname => string
  | Stub _ _ _ => status + reply
  | LostIsSet | DoneWait _ | ProcessIsSet | IsFile _ | IsSymlink _ | ReaderIsAlive
  | StoppingIsSet | StoppingWait _ | FutureDone _ => bool
  | BotoClient _ | PutObject _ _ _ _ _ | DownloadFile _ _ _ | RmTree _ | Mkdir _
  | Popen _ _ | KillPg | FutureResult _ | MetricsServer _ _ => fallible unit
  | PoolSubmit _ => nat
  | MkTemp | ReadFile _ => fallible string
  | StatSize _ | StatMtime _ => fallible Z
  | GlobJson _ | RGlob _ => fallible (list string)
  | Poll => option Z
  | ReturnCode => Z
  | LinesGetNowait => option string
  | Sleep _ | Print _ | LostSet | DeadlineSet _ | DoneSet | HeartbeatStart | HeartbeatJoin _
  | UploadFailed | WaitProcess | CloseStdout | ReaderStart | ReaderJoin _
  | PoolShutdown | ChannelClose | InsecureChannel _ _ | Signal _ | MetricsStart
  | MetricsShutdown => unit
  end.

Definition WorkerSig : sig := Sig wop wans.

(** A computation of the worker process. *)
Abbreviation W := (py WorkerSig).
Abbreviation wevent := (event WorkerSig).

(** One call, and one call whose answer may be an exception. *)
Definition do (o : wop) : W (wans o) := call_op (S:=WorkerSig) o.
Definition ev (o : wop) (x : wans o) : wevent := existT (o : op WorkerSig) x.
