(* ===== verification/Bindings.v ===== *)
(** * Bindings: the generated gRPC bindings (sdk/python/rungrid/rungrid_pb2_grpc.py)

    The stub [WorkerServiceStub] the worker calls, the servicer class with its default methods,
    the table [add_WorkerServiceServicer_to_server] registers, and the functions of the
    experimental class [WorkerService].  The code only names paths, methods, serializers and
    deserializers; what it relies on is stated as two interfaces: [Protobuf], the codec of
    the messages, and [Grpc], the channels and servers of the grpc package.  The theorems are
    about the whole way of a call: the path of each stub method is the path under which the
    servicer's method of the same name is registered, with codecs that fit each other. *)
From S2P Require Import Prelude Effects PyStr Utf8 Json Wire.
Local Open Scope string_scope.
Local Open Scope list_scope.

(** ** The messages and their codec *)
Record response := Response { rs_payload_json : string }.

Definition is_utf8 (s : string) : bool := String.eqb (encode (decode s)) s.

(** The requests a [pb.Request] can hold: text in the string fields, an [int32]. *)
Definition representable (q : request) : bool :=
  forallb is_utf8 [rq_request_id q; rq_worker_id q; rq_session_id q; rq_attempt_id q; rq_lease_token q]
  && ((- 2 ^ 31 <=? rq_wait_seconds q) && (rq_wait_seconds q <? 2 ^ 31))%Z.

(** The methods of the message classes of rungrid_pb2. *)
Class Protobuf := {
  Request_SerializeToString : request → string;
  Request_FromString : string → option request;
  Response_SerializeToString : response → string;
  Response_FromString : string → option response }.

Class ProtobufLaws (P : Protobuf) : Prop := {
  request_roundtrip q :
    representable q = true → Request_FromString (Request_SerializeToString q) = Some q;
  response_roundtrip r : Response_FromString (Response_SerializeToString r) = Some r }.

(** ** The values of the grpc package the bindings build *)
(** What a servicer method may set on its [context]. *)
Record context := Context_ { ctx_code : option status; ctx_details : option string }.

(** A method of a servicer whose state is an [St]. *)
Definition behaviour (St : Type) : Type := request → context → St → St * context * (exn + response).

Record rpc_method_handler (St : Type) := Handler {
  unary_unary : behaviour St;
  request_deserializer : string → option request;
  response_serializer : response → string }.
Arguments Handler {St}.
Arguments unary_unary {St}.
Arguments request_deserializer {St}.
Arguments response_serializer {St}.

Record multi_callable (channel : Type) := Callable {
  mc_channel : channel;
  mc_path : string;
  mc_serializer : request → string;
  mc_deserializer : string → option response;
  mc_registered : bool }.
Arguments Callable {channel}.
Arguments mc_channel {channel}.
Arguments mc_path {channel}.
Arguments mc_serializer {channel}.
Arguments mc_deserializer {channel}.
Arguments mc_registered {channel}.

Definition generic_handler (St : Type) : Type := string * gmap string (rpc_method_handler St).

Definition full_path (service name : string) : string := "/" +:+ service +:+ "/" +:+ name.

(** The end of a call in which the method raised: the code it set on its context, or UNKNOWN. *)
Definition abort_code (c : context) : status :=
  match ctx_code c with Some s => s | None => UNKNOWN end.

(** A server at work on one request for the handler registered under its path. *)
Definition handle {St} (h : option (rpc_method_handler St)) (bytes : string) (st : St)
    : St * (status + string) :=
  match h with
  | None => (st, inl UNIMPLEMENTED)
  | Some h =>
      match request_deserializer h bytes with
      | None => (st, inl INTERNAL)
      | Some q =>
          match unary_unary h q (Context_ None None) st with
          | (st', c, inl _) => (st', inl (abort_code c))
          | (st', c, inr r) =>
              (st', match ctx_code c with Some s => inl s | None => inr (response_serializer h r) end)
          end
      end
  end.

(** A call that the transport, not the server, ended. *)
Definition transport_failure (s : status) : bool :=
  match s with UNAVAILABLE | DEADLINE_EXCEEDED | CANCELLED => true | _ => false end.

(** How one call is made: [stub.method(request, timeout, metadata, credentials, wait_for_ready,
    compression)]. *)
Record call_settings (call_credentials compression metadata : Type) := Settings {
  cs_timeout : option Z;
  cs_metadata : option metadata;
  cs_credentials : option call_credentials;
  cs_wait_for_ready : option bool;
  cs_compression : option compression }.
Arguments Settings {call_credentials compression metadata}.

(** Channels and servers.  [sends c path o bytes st st' r]: the bytes sent over [c] to [path] with
    the settings [o] got the answer [r], and the state behind the channel went from [st] to
    [st']. *)
Class Grpc (St : Type) := {
  channel : Type;
  server : Type;
  channel_credentials : Type;
  call_credentials : Type;
  compression : Type;
  metadata : Type;
  channel_of : string → list (string * Z) → option channel_credentials → bool → option compression → channel;
  sends : channel → string → call_settings call_credentials compression metadata →
          string → St → St → status + string → Prop;
  add_generic_rpc_handlers : server → list (generic_handler St) → server;
  add_registered_method_handlers :
    server → string → gmap string (rpc_method_handler St) → server;
  serves : server → string → option (rpc_method_handler St);
  connected : channel → server → Prop }.
Arguments channel St {_}.
Arguments server St {_}.
Arguments channel_credentials St {_}.
Arguments call_credentials St {_}.
Arguments compression St {_}.
Arguments metadata St {_}.
Notation settings_of St := (call_settings (call_credentials St) (compression St) (metadata St)).

(** What the package documents: handlers are found by the path of their service and name, and
    the answer of a call is the server's, or the transport gave up on it. *)
Class GrpcLaws (St : Type) (G : Grpc St) : Prop := {
  serves_generic s service hs name h :
    hs !! name = Some h →
    serves (add_generic_rpc_handlers s [(service, hs)]) (full_path service name) = Some h;
  serves_registered s service hs name h :
    hs !! name = Some h →
    serves (add_registered_method_handlers s service hs) (full_path service name) = Some h;
  sends_connected c s path o bytes st st' r :
    connected c s → sends c path o bytes st st' r →
    (st', r) = handle (serves s path) bytes st ∨
    (∃ e, r = inl e ∧ transport_failure e = true) ∧
      (st' = st ∨ st' = (handle (serves s path) bytes st).1) }.

(** ** The bindings *)
(** The check of the package's version when the module is imported; [None]: the import of
    [first_version_is_lower] fails. *)
Definition GRPC_GENERATED_VERSION : string := "1.72.1".

Definition version_not_supported (first_version_is_lower : option (string → string → bool))
    (GRPC_VERSION : string) : bool :=
  match first_version_is_lower with
  | Some lower => lower GRPC_VERSION GRPC_GENERATED_VERSION
  | None => true
  end.

Definition import_check (first_version_is_lower : option (string → string → bool))
    (GRPC_VERSION : string) : exn + unit :=
  if version_not_supported first_version_is_lower GRPC_VERSION then
    inl (RuntimeError ("The grpc package installed is at version " +:+ GRPC_VERSION +:+ ","
      +:+ " but the generated code in rungrid_pb2_grpc.py depends on"
      +:+ " grpcio>=" +:+ GRPC_GENERATED_VERSION +:+ "."
      +:+ " Please upgrade your grpc module to grpcio>=" +:+ GRPC_GENERATED_VERSION
      +:+ " or downgrade your generated code using grpcio-tools<=" +:+ GRPC_VERSION +:+ "."))
  else inr tt.

(** A value per method of the service: the attributes of the stub and of a servicer. *)
Record per_method (A : Type) := PerMethod {
  at_RegisterWorker : A; at_LeaseJob : A; at_StartAttempt : A; at_Heartbeat : A;
  at_ReportProgress : A; at_CompleteAttempt : A; at_FailAttempt : A; at_ReleaseWorker : A }.
Arguments PerMethod {A}.
Arguments at_RegisterWorker {A}.
Arguments at_LeaseJob {A}.
Arguments at_StartAttempt {A}.
Arguments at_Heartbeat {A}.
Arguments at_ReportProgress {A}.
Arguments at_CompleteAttempt {A}.
Arguments at_FailAttempt {A}.
Arguments at_ReleaseWorker {A}.

(** [getattr(obj, method_name m)] *)
Definition attribute {A} (o : per_method A) (m : method) : A :=
  match m with
  | RegisterWorker => at_RegisterWorker o | LeaseJob => at_LeaseJob o
  | StartAttempt => at_StartAttempt o | Heartbeat => at_Heartbeat o
  | ReportProgress => at_ReportProgress o | CompleteAttempt => at_CompleteAttempt o
  | FailAttempt => at_FailAttempt o | ReleaseWorker => at_ReleaseWorker o
  end.

Definition method_of_name (name : string) : option method :=
  list_find (λ m, method_name m = name)
    [RegisterWorker; LeaseJob; StartAttempt; Heartbeat; ReportProgress; CompleteAttempt;
     FailAttempt; ReleaseWorker] ≫= λ p, Some p.2.

(** [getattr(obj, name)]; [None] is AttributeError. *)
Definition getattr {A} (o : per_method A) (name : string) : option A :=
  attribute o <$> method_of_name name.

Section Bindings.
Context `{PB : Protobuf} {St : Type} `{G : !Grpc St}.

(** *** WorkerServiceStub *)
Definition WorkerServiceStub (c : channel St) : per_method (multi_callable (channel St)) :=
  {| at_RegisterWorker := Callable c "/rungrid.v1.WorkerService/RegisterWorker"
       Request_SerializeToString Response_FromString true;
     at_LeaseJob := Callable c "/rungrid.v1.WorkerService/LeaseJob"
       Request_SerializeToString Response_FromString true;
     at_StartAttempt := Callable c "/rungrid.v1.WorkerService/StartAttempt"
       Request_SerializeToString Response_FromString true;
     at_Heartbeat := Callable c "/rungrid.v1.WorkerService/Heartbeat"
       Request_SerializeToString Response_FromString true;
     at_ReportProgress := Callable c "/rungrid.v1.WorkerService/ReportProgress"
       Request_SerializeToString Response_FromString true;
     at_CompleteAttempt := Callable c "/rungrid.v1.WorkerService/CompleteAttempt"
       Request_SerializeToString Response_FromString true;
     at_FailAttempt := Callable c "/rungrid.v1.WorkerService/FailAttempt"
       Request_SerializeToString Response_FromString true;
     at_ReleaseWorker := Callable c "/rungrid.v1.WorkerService/ReleaseWorker"
       Request_SerializeToString Response_FromString true |}.

(** *** WorkerServiceServicer: methods that are not overridden *)
Definition set_code (s : status) (c : context) : context := Context_ (Some s) (ctx_details c).
Definition set_details (d : string) (c : context) : context := Context_ (ctx_code c) (Some d).

Definition not_implemented : behaviour St := λ _ ctx st,
  let ctx := set_code UNIMPLEMENTED ctx in
  let ctx := set_details "Method not implemented!" ctx in
  (st, ctx, inl (NotImplementedError "Method not implemented!")).

Definition WorkerServiceServicer_RegisterWorker : behaviour St := not_implemented.
Definition WorkerServiceServicer_LeaseJob : behaviour St := not_implemented.
Definition WorkerServiceServicer_StartAttempt : behaviour St := not_implemented.
Definition WorkerServiceServicer_Heartbeat : behaviour St := not_implemented.
Definition WorkerServiceServicer_ReportProgress : behaviour St := not_implemented.
Definition WorkerServiceServicer_CompleteAttempt : behaviour St := not_implemented.
Definition WorkerServiceServicer_FailAttempt : behaviour St := not_implemented.
Definition WorkerServiceServicer_ReleaseWorker : behaviour St := not_implemented.

Definition WorkerServiceServicer : per_method (behaviour St) :=
  {| at_RegisterWorker := WorkerServiceServicer_RegisterWorker;
     at_LeaseJob := WorkerServiceServicer_LeaseJob;
     at_StartAttempt := WorkerServiceServicer_StartAttempt;
     at_Heartbeat := WorkerServiceServicer_Heartbeat;
     at_ReportProgress := WorkerServiceServicer_ReportProgress;
     at_CompleteAttempt := WorkerServiceServicer_CompleteAttempt;
     at_FailAttempt := WorkerServiceServicer_FailAttempt;
     at_ReleaseWorker := WorkerServiceServicer_ReleaseWorker |}.

(** *** add_WorkerServiceServicer_to_server *)
Definition rpc_method_handlers (servicer : per_method (behaviour St))
    : gmap string (rpc_method_handler St) :=
  list_to_map
    [("RegisterWorker", Handler (at_RegisterWorker servicer)
        Request_FromString Response_SerializeToString);
     ("LeaseJob", Handler (at_LeaseJob servicer)
        Request_FromString Response_SerializeToString);
     ("StartAttempt", Handler (at_StartAttempt servicer)
        Request_FromString Response_SerializeToString);
     ("Heartbeat", Handler (at_Heartbeat servicer)
        Request_FromString Response_SerializeToString);
     ("ReportProgress", Handler (at_ReportProgress servicer)
        Request_FromString Response_SerializeToString);
     ("CompleteAttempt", Handler (at_CompleteAttempt servicer)
        Request_FromString Response_SerializeToString);
     ("FailAttempt", Handler (at_FailAttempt servicer)
        Request_FromString Response_SerializeToString);
     ("ReleaseWorker", Handler (at_ReleaseWorker servicer)
        Request_FromString Response_SerializeToString)].

Definition add_WorkerServiceServicer_to_server (servicer : per_method (behaviour St))
    (s : server St) : server St :=
  let handlers := rpc_method_handlers servicer in
  let generic : generic_handler St := ("rungrid.v1.WorkerService", handlers) in
  let s := add_generic_rpc_handlers s [generic] in
  add_registered_method_handlers s "rungrid.v1.WorkerService" handlers.

(** *** Making a call *)
(** A call of a multi-callable: serialize, send, deserialize; bytes that do not parse end the
    call with INTERNAL. *)
Definition calls (mc : multi_callable (channel St)) (o : settings_of St) (q : request)
    (st st' : St) (r : status + response) : Prop :=
  ∃ answer, sends (mc_channel mc) (mc_path mc) o (mc_serializer mc q) st st' answer ∧
    r = match answer with
        | inl e => inl e
        | inr bytes => match mc_deserializer mc bytes with
                       | Some resp => inr resp
                       | None => inl INTERNAL
                       end
        end.

(** [grpc.experimental.unary_unary]: the call over the channel these options describe. *)
Definition experimental_unary_unary (q : request) (target path : string)
    (serializer : request → string) (deserializer : string → option response)
    (options : list (string * Z)) (creds : option (channel_credentials St)) (insecure : bool)
    (call_creds : option (call_credentials St)) (comp : option (compression St))
    (wait_for_ready : option bool) (timeout : option Z) (meta : option (metadata St))
    (registered : bool) (st st' : St) (r : status + response) : Prop :=
  calls (Callable (channel_of target options creds insecure comp) path serializer deserializer registered)
    (Settings timeout meta call_creds wait_for_ready comp) q st st' r.

Definition WorkerService_RegisterWorker (q : request) (target : string) (options : list (string * Z))
    (creds : option (channel_credentials St)) (call_creds : option (call_credentials St))
    (insecure : bool) (comp : option (compression St)) (wait_for_ready : option bool)
    (timeout : option Z) (meta : option (metadata St)) : St → St → status + response → Prop :=
  experimental_unary_unary q target "/rungrid.v1.WorkerService/RegisterWorker"
    Request_SerializeToString Response_FromString
    options creds insecure call_creds comp wait_for_ready timeout meta true.

Definition WorkerService_LeaseJob (q : request) (target : string) (options : list (string * Z))
    (creds : option (channel_credentials St)) (call_creds : option (call_credentials St))
    (insecure : bool) (comp : option (compression St)) (wait_for_ready : option bool)
    (timeout : option Z) (meta : option (metadata St)) : St → St → status + response → Prop :=
  experimental_unary_unary q target "/rungrid.v1.WorkerService/LeaseJob"
    Request_SerializeToString Response_FromString
    options creds insecure call_creds comp wait_for_ready timeout meta true.

Definition WorkerService_StartAttempt (q : request) (target : string) (options : list (string * Z))
    (creds : option (channel_credentials St)) (call_creds : option (call_credentials St))
    (insecure : bool) (comp : option (compression St)) (wait_for_ready : option bool)
    (timeout : option Z) (meta : option (metadata St)) : St → St → status + response → Prop :=
  experimental_unary_unary q target "/rungrid.v1.WorkerService/StartAttempt"
    Request_SerializeToString Response_FromString
    options creds insecure call_creds comp wait_for_ready timeout meta true.

Definition WorkerService_Heartbeat (q : request) (target : string) (options : list (string * Z))
    (creds : option (channel_credentials St)) (call_creds : option (call_credentials St))
    (insecure : bool) (comp : option (compression St)) (wait_for_ready : option bool)
    (timeout : option Z) (meta : option (metadata St)) : St → St → status + response → Prop :=
  experimental_unary_unary q target "/rungrid.v1.WorkerService/Heartbeat"
    Request_SerializeToString Response_FromString
    options creds insecure call_creds comp wait_for_ready timeout meta true.

Definition WorkerService_ReportProgress (q : request) (target : string) (options : list (string * Z))
    (creds : option (channel_credentials St)) (call_creds : option (call_credentials St))
    (insecure : bool) (comp : option (compression St)) (wait_for_ready : option bool)
    (timeout : option Z) (meta : option (metadata St)) : St → St → status + response → Prop :=
  experimental_unary_unary q target "/rungrid.v1.WorkerService/ReportProgress"
    Request_SerializeToString Response_FromString
    options creds insecure call_creds comp wait_for_ready timeout meta true.

Definition WorkerService_CompleteAttempt (q : request) (target : string) (options : list (string * Z))
    (creds : option (channel_credentials St)) (call_creds : option (call_credentials St))
    (insecure : bool) (comp : option (compression St)) (wait_for_ready : option bool)
    (timeout : option Z) (meta : option (metadata St)) : St → St → status + response → Prop :=
  experimental_unary_unary q target "/rungrid.v1.WorkerService/CompleteAttempt"
    Request_SerializeToString Response_FromString
    options creds insecure call_creds comp wait_for_ready timeout meta true.

Definition WorkerService_FailAttempt (q : request) (target : string) (options : list (string * Z))
    (creds : option (channel_credentials St)) (call_creds : option (call_credentials St))
    (insecure : bool) (comp : option (compression St)) (wait_for_ready : option bool)
    (timeout : option Z) (meta : option (metadata St)) : St → St → status + response → Prop :=
  experimental_unary_unary q target "/rungrid.v1.WorkerService/FailAttempt"
    Request_SerializeToString Response_FromString
    options creds insecure call_creds comp wait_for_ready timeout meta true.

Definition WorkerService_ReleaseWorker (q : request) (target : string) (options : list (string * Z))
    (creds : option (channel_credentials St)) (call_creds : option (call_credentials St))
    (insecure : bool) (comp : option (compression St)) (wait_for_ready : option bool)
    (timeout : option Z) (meta : option (metadata St)) : St → St → status + response → Prop :=
  experimental_unary_unary q target "/rungrid.v1.WorkerService/ReleaseWorker"
    Request_SerializeToString Response_FromString
    options creds insecure call_creds comp wait_for_ready timeout meta true.

Definition WorkerService : per_method (request → string → list (string * Z) →
    option (channel_credentials St) → option (call_credentials St) → bool →
    option (compression St) → option bool → option Z → option (metadata St) →
    St → St → status + response → Prop) :=
  PerMethod WorkerService_RegisterWorker WorkerService_LeaseJob
    WorkerService_StartAttempt WorkerService_Heartbeat WorkerService_ReportProgress
    WorkerService_CompleteAttempt WorkerService_FailAttempt WorkerService_ReleaseWorker.

(** ** What the bindings promise *)
(** The servicer's method at work on a request: the state after it and the answer a caller gets. *)
Definition served (b : behaviour St) (q : request) (st : St) : St * (status + response) :=
  match b q (Context_ None None) st with
  | (st', c, inl _) => (st', inl (abort_code c))
  | (st', c, inr r) => (st', match ctx_code c with Some s => inl s | None => inr r end)
  end.

Lemma stub_attribute c m :
  attribute (WorkerServiceStub c) m
  = Callable c (full_path "rungrid.v1.WorkerService" (method_name m))
      Request_SerializeToString Response_FromString true.
Proof. by destruct m. Qed.

Lemma handlers_attribute sv m :
  rpc_method_handlers sv !! method_name m
  = Some (Handler (attribute sv m) Request_FromString Response_SerializeToString).
Proof. by destruct m. Qed.

Lemma method_of_name_name m : method_of_name (method_name m) = Some m.
Proof. by destruct m. Qed.

Lemma getattr_name {A} (o : per_method A) m : getattr o (method_name m) = Some (attribute o m).
Proof. unfold getattr. by rewrite method_of_name_name. Qed.
End Bindings.

(** ** The way of a call *)
Section Calls.
Context `{PL : ProtobufLaws} {St : Type} `{GL : GrpcLaws St}.

Lemma serves_servicer sv (s : server St) m :
  serves (add_WorkerServiceServicer_to_server sv s)
    (full_path "rungrid.v1.WorkerService" (method_name m))
  = Some (Handler (attribute sv m) Request_FromString Response_SerializeToString).
Proof using GL. apply serves_registered, handlers_attribute. Qed.

(** The bytes of a request at the handler of a method are the method at work on the request. *)
Lemma handle_served (b : behaviour St) q st :
  representable q = true →
  handle (Some (Handler b Request_FromString Response_SerializeToString))
    (Request_SerializeToString q) st
  = ((served b q st).1, match (served b q st).2 with
                        | inl e => inl e
                        | inr r => inr (Response_SerializeToString r)
                        end).
Proof using PL.
  intros Hq. unfold handle, served. simpl. rewrite request_roundtrip by done.
  by destruct (b q _ st) as [[st' [[]]] []].
Qed.

Lemma calls_served sv c s m o q st st' r :
  connected c (add_WorkerServiceServicer_to_server sv s) → representable q = true →
  calls (attribute (WorkerServiceStub c) m) o q st st' r →
  (st', r) = served (attribute sv m) q st ∨
  (∃ e, r = inl e ∧ transport_failure e = true) ∧
    (st' = st ∨ st' = (served (attribute sv m) q st).1).
Proof using PL GL.
  intros Hc Hq (answer & Hsend & ->). rewrite stub_attribute in *. simpl in *.
  apply (sends_connected _ _ _ _ _ _ _ _ Hc) in Hsend.
  rewrite serves_servicer, handle_served in Hsend by done.
  destruct Hsend as [[= -> ->]|[(e & -> & He) Hst]]; [left|right; eauto].
  destruct (served (attribute sv m) q st) as [st1 [e|resp]]; simpl; [done|].
  by rewrite response_roundtrip.
Qed.

(** C19. A call of the stub reaches the servicer's method of the same name.  Over a channel to a
    server on which the servicer was registered, [getattr(stub, method)] exists for every method
    of the service, and a call of it either runs the servicer's method of that name on the very
    request that was given, once, and returns its response or its error, or ends with a status
    of the transport, in which case the method ran on that request once or not at all. *)
Theorem stub_call_reaches_servicer sv c (s : server St) m o q st st' :
  connected c (add_WorkerServiceServicer_to_server sv s) → representable q = true →
  ∃ mc, getattr (WorkerServiceStub c) (method_name m) = Some mc ∧
    ∀ r, calls mc o q st st' r →
      (st', r) = served (attribute sv m) q st ∨
      (∃ e, r = inl e ∧ transport_failure e = true) ∧
        (st' = st ∨ st' = (served (attribute sv m) q st).1).
Proof using PL GL.
  intros. rewrite getattr_name. eexists. split; [done|]. intros r.
  by apply (calls_served sv c s).
Qed.

(** A method the servicer does not override answers UNIMPLEMENTED and changes nothing. *)
Theorem unimplemented_is_reported sv c (s : server St) m o q st st' r :
  connected c (add_WorkerServiceServicer_to_server sv s) → representable q = true →
  attribute sv m = attribute WorkerServiceServicer m →
  calls (attribute (WorkerServiceStub c) m) o q st st' r →
  st' = st ∧ ∃ e, r = inl e ∧ (e = UNIMPLEMENTED ∨ transport_failure e = true).
Proof using PL GL.
  intros Hc Hq Hm Hcall. apply (calls_served sv c s) in Hcall; [|done..].
  assert (served (attribute sv m) q st = (st, inl UNIMPLEMENTED)) as Hs.
  { rewrite Hm. by destruct m. }
  rewrite Hs in Hcall. destruct Hcall as [ [= -> ->] | [ (e & -> & He) [-> | ->] ] ]; eauto.
Qed.

(** The functions of [WorkerService] are the methods of a stub on the channel their options
    describe: the arguments reach the call in the places of that channel and call. *)
Theorem experimental_call_is_stub_call m q target options creds call_creds insecure comp wait
    timeout meta (st st' : St) r :
  attribute WorkerService m q target options creds call_creds insecure comp wait timeout meta st st' r
  ↔ calls (attribute (WorkerServiceStub (channel_of target options creds insecure comp)) m)
      (Settings timeout meta call_creds wait comp) q st st' r.
Proof. by destruct m. Qed.
End Calls.

(** ** An instance: a perfect transport and an exact codec *)
#[export] Instance request_countable : Countable request.
Proof.
  refine (inj_countable'
    (λ q, (rq_request_id q, rq_worker_id q, rq_session_id q, rq_attempt_id q, rq_lease_token q,
           rq_payload_json q, rq_wait_seconds q))
    (λ '(a, b, c, d, e, f, g), Request a b c d e f g) _).
  by intros [].
Defined.

#[export] Instance bit_codec : Protobuf := {|
  Request_SerializeToString q := bits (countable.encode q);
  Request_FromString s := countable.decode (of_bits s);
  Response_SerializeToString := rs_payload_json;
  Response_FromString s := Some (Response s) |}.

#[export] Instance bit_codec_laws : ProtobufLaws bit_codec.
Proof.
  split.
  - intros q _. simpl. by rewrite of_bits_bits, decode_encode.
  - by intros [].
Qed.

(** A server is the table of its handlers by path; a channel is a server. *)
Definition register_paths {St} (s : gmap string (rpc_method_handler St)) (service : string)
    (hs : gmap string (rpc_method_handler St)) : gmap string (rpc_method_handler St) :=
  list_to_map ((λ p, (full_path service p.1, p.2)) <$> map_to_list hs) ∪ s.

Lemma full_path_inj service n n' : full_path service n = full_path service n' → n = n'.
Proof. unfold full_path. by intros H%(inj _)%(inj _)%(inj _). Qed.

Lemma register_paths_lookup {St} (s : gmap string (rpc_method_handler St)) service hs name h :
  hs !! name = Some h → register_paths s service hs !! full_path service name = Some h.
Proof.
  intros Hh. apply lookup_union_Some_l, elem_of_list_to_map_1.
  - rewrite <- list_fmap_compose.
    change (NoDup (full_path service ∘ fst <$> map_to_list hs)). rewrite list_fmap_compose.
    apply NoDup_fmap_2; [intros ?? ?%full_path_inj; done|apply NoDup_fst_map_to_list].
  - apply list_elem_of_fmap. exists (name, h). by rewrite elem_of_map_to_list.
Qed.

Definition perfect (St : Type) : Grpc St := {|
  channel := gmap string (rpc_method_handler St);
  server := gmap string (rpc_method_handler St);
  channel_credentials := unit; call_credentials := unit; compression := unit; metadata := unit;
  channel_of _ _ _ _ _ := ∅;
  sends c path _ bytes st st' r := (st', r) = handle (c !! path) bytes st;
  add_generic_rpc_handlers s gs := fold_left (λ s g, register_paths s g.1 g.2) gs s;
  add_registered_method_handlers := register_paths;
  serves s path := s !! path;
  connected c s := c = s |}.

Lemma perfect_laws St : GrpcLaws St (perfect St).
Proof.
  split; simpl.
  - intros. by apply register_paths_lookup.
  - intros. by apply register_paths_lookup.
  - intros c s path o bytes st st' r -> Hs. by left.
Qed.

(** ** Witnesses: a servicer that overrides [Heartbeat] and counts the calls *)
Definition demo_beat : behaviour nat := λ q c n, (S n, c, inr (Response (rq_payload_json q))).
Definition demo_servicer : per_method (behaviour nat) :=
  {| at_RegisterWorker := WorkerServiceServicer_RegisterWorker;
     at_LeaseJob := WorkerServiceServicer_LeaseJob;
     at_StartAttempt := WorkerServiceServicer_StartAttempt;
     at_Heartbeat := demo_beat;
     at_ReportProgress := WorkerServiceServicer_ReportProgress;
     at_CompleteAttempt := WorkerServiceServicer_CompleteAttempt;
     at_FailAttempt := WorkerServiceServicer_FailAttempt;
     at_ReleaseWorker := WorkerServiceServicer_ReleaseWorker |}.
Definition demo_server : gmap string (rpc_method_handler nat) :=
  add_WorkerServiceServicer_to_server (G := perfect nat) demo_servicer ∅.
Definition demo_request : request := Request "r1" "w1" "s1" "a1" "t1" "{}" 0.
Definition demo_settings : call_settings unit unit unit := Settings None None None (Some true) None.

Lemma stub_call_reaches_servicer_witness :
  (∃ mc, getattr (WorkerServiceStub (G := perfect nat) demo_server) (method_name Heartbeat) = Some mc ∧
     calls (G := perfect nat) mc demo_settings demo_request 4 5 (inr (Response "{}"))) ∧
  ∃ mc, getattr (WorkerServiceStub (G := perfect nat) demo_server) (method_name Heartbeat) = Some mc ∧
    ∀ r, calls (G := perfect nat) mc demo_settings demo_request 4 5 r →
      (5, r) = served demo_beat demo_request 4 ∨
      (∃ e, r = inl e ∧ transport_failure e = true) ∧
        (5 = 4 ∨ 5 = (served demo_beat demo_request 4).1).
Proof.
  split.
  - eexists. split; [reflexivity|]. eexists. split; [vm_compute; reflexivity|reflexivity].
  - apply (stub_call_reaches_servicer (PL := bit_codec_laws) (GL := perfect_laws nat)
             demo_servicer demo_server ∅ Heartbeat demo_settings demo_request 4 5).
    + reflexivity.
    + vm_compute. reflexivity.
Defined.

Lemma unimplemented_is_reported_witness :
  4 = 4 ∧ ∃ e, @inl status response UNIMPLEMENTED = inl e ∧
    (e = UNIMPLEMENTED ∨ transport_failure e = true).
Proof.
  apply (unimplemented_is_reported (PL := bit_codec_laws) (GL := perfect_laws nat)
           demo_servicer demo_server ∅ LeaseJob demo_settings demo_request).
  - reflexivity.
  - vm_compute. reflexivity.
  - reflexivity.
  - eexists. split; [vm_compute; reflexivity|reflexivity].
Defined.
