(* ===== verification/World.v ===== *)
(** * World: what the worker relies on from the environment of an attempt

    [world h e] states, for each call that has a memory, which answers can follow the history
    [h]: the monotonic clock does not run backwards and [time.sleep] takes at least its
    argument; [process] is the child started by [Popen]; the exit status a finished child
    reported is reported again; an event that was seen set stays set.  The other answers
    (network, object store, file system, scheduling of the other threads) are arbitrary. *)
From S2P Require Import Prelude Effects PyStr Json Wire.
Local Open Scope Z_scope.

(** Case analysis on the call of an event, with its answer. *)
Definition on_event {B} (e : wevent) (f : ∀ o : wop, wans o → B) : B := f (projT1 e) (projT2 e).

(** ** Observations of a history *)
(** The earliest time the next reading of the clock can show. *)
Definition tick (b : option Z) (e : wevent) : option Z :=
  on_event e (λ o, match o return wans o → option Z with
                   | Monotonic => λ t, Some t
                   | Sleep d => λ _, (λ t, t + Z.max 0 d) <$> b
                   | _ => λ _, b
                   end).
Definition clock (h : list wevent) : option Z := foldl tick None h.

Definition is_popen (e : wevent) : bool :=
  on_event e (λ o, match o return wans o → bool with
                   | Popen _ _ => λ r, match r with inr _ => true | inl _ => false end
                   | _ => λ _, false
                   end).
(** A child has been started. *)
Definition popened (h : list wevent) : bool := existsb is_popen h.

Definition exit_status (b : option Z) (e : wevent) : option Z :=
  on_event e (λ o, match o return wans o → option Z with
                   | Poll => λ r, match b with Some c => Some c | None => r end
                   | _ => λ _, b
                   end).
(** The exit status the child has reported. *)
Definition exited (h : list wevent) : option Z := foldl exit_status None h.

Definition is_lost (e : wevent) : bool :=
  on_event e (λ o, match o return wans o → bool with
                   | LostIsSet => λ b, b
                   | LostSet => λ _, true
                   | _ => λ _, false
                   end).
(** The event [lost] is known to be set. *)
Definition lost (h : list wevent) : bool := existsb is_lost h.

(** ** The promises *)
(** The clock does not run backwards. *)
Definition timely (h : list wevent) (e : wevent) : bool :=
  on_event e (λ o, match o return wans o → bool with
                   | Monotonic => λ t, match clock h with Some b => b <=? t | None => true end
                   | _ => λ _, true
                   end).

Definition world (h : list wevent) (e : wevent) : bool :=
  timely h e &&
  on_event e (λ o, match o return wans o → bool with
                   | ProcessIsSet => λ b, Bool.eqb b (popened h)
                   | Poll => λ r, match exited h with
                                  | Some c => bool_decide (r = Some c)
                                  | None => true
                                  end
                   | ReturnCode => λ c, match exited h with Some c' => c =? c' | None => true end
                   | LostIsSet => λ b, implb (lost h) b
                   | _ => λ _, true
                   end).

(** An environment that promises nothing. *)
Definition anything (h : list wevent) (e : wevent) : bool := true.

(** ** Observations distribute over concatenation *)
Lemma clock_app h h' : clock (h ++ h') = foldl tick (clock h) h'.
Proof. apply foldl_app. Qed.
Lemma popened_app h h' : popened (h ++ h') = popened h || popened h'.
Proof. apply existsb_app. Qed.
Lemma exited_app h h' : exited (h ++ h') = foldl exit_status (exited h) h'.
Proof. apply foldl_app. Qed.
Lemma lost_app h h' : lost (h ++ h') = lost h || lost h'.
Proof. apply existsb_app. Qed.

Lemma exit_status_some c h : foldl exit_status (Some c) h = Some c.
Proof. induction h as [|[o x] h IH]; [done|]. simpl. by destruct o. Qed.

#[export] Hint Rewrite clock_app popened_app exited_app lost_app : rungrid.

(** *** The calls made to the control plane, and their answers *)
Definition stub_of (e : wevent) : option (method * request * (status + reply)) :=
  on_event e (λ o, match o return wans o → option (method * request * (status + reply)) with
                   | Stub m r _ => λ a, Some (m, r, a)
                   | _ => λ _, None
                   end).
Definition stubs (h : list wevent) : list (method * request * (status + reply)) := omap stub_of h.

Lemma stubs_app h h' : stubs (h ++ h') = stubs h ++ stubs h'.
Proof. apply omap_app. Qed.
#[export] Hint Rewrite stubs_app : rungrid.

Lemma consistent_mono (E E' : list wevent → wevent → bool) h tr :
  (∀ h e, E h e = true → E' h e = true) →
  consistent_from E h tr = true → consistent_from E' h tr = true.
Proof.
  intros HE. revert h. induction tr as [|e tr IH]; intros h; simpl; [done|].
  rewrite !andb_true_iff. naive_solver.
Qed.

Lemma world_timely h tr : consistent_from world h tr = true → consistent_from timely h tr = true.
Proof. apply consistent_mono. intros h' e [? _]%andb_true_iff. done. Qed.

Lemma consistent_clock h tr b :
  consistent_from timely h tr = true → clock h = Some b →
  ∃ b', clock (h ++ tr) = Some b' ∧ b ≤ b'.
Proof.
  revert h b. induction tr as [|[o x] tr IH]; intros h b Hc Hb.
  { exists b. by rewrite app_nil_r. }
  simpl in Hc. apply andb_true_iff in Hc as [Hw Hc].
  assert (∃ b1, clock (h ++ [existT o x]) = Some b1 ∧ b ≤ b1) as (b1 & Hb1 & Hle).
  { rewrite clock_app, Hb. destruct o; simpl in *; try (by eauto with lia).
    unfold timely, on_event in Hw. simpl in Hw. rewrite Hb in Hw. apply Z.leb_le in Hw. eauto. }
  destruct (IH _ _ Hc Hb1) as (b' & Hb' & ?). exists b'. rewrite <- app_assoc in Hb'. eauto with lia.
Qed.

Lemma consistent_cons E h (e : wevent) tr :
  consistent_from E h (e :: tr) = true → E h e = true ∧ consistent_from E (h ++ [e]) tr = true.
Proof. apply andb_true_iff. Qed.

Lemma clock_reading h t : clock (h ++ [ev Monotonic t]) = Some t.
Proof. by rewrite clock_app. Qed.

Lemma consistent_reading h t tr b :
  consistent_from timely h (ev Monotonic t :: tr) = true → clock h = Some b →
  b ≤ t ∧ consistent_from timely (h ++ [ev Monotonic t]) tr = true.
Proof.
  intros [Hw Htr]%consistent_cons Hb. split; [|done].
  unfold timely, on_event in Hw. simpl in Hw. rewrite Hb in Hw. by apply Z.leb_le.
Qed.

Definition submits (h : list wevent) : nat :=
  length (List.filter (λ e : wevent, match projT1 e with PoolSubmit _ => true | _ => false end) h).

(** ** A concrete environment

    A clock that advances one millisecond per call and by what was slept; a child that exits
    with status [code] at its second poll; empty directories; a control plane that answers
    [stub]; [files] gives the contents of the files; the worker is told to stop once it has
    submitted an attempt. *)
Definition demo_now (h : list wevent) : Z :=
  foldl (λ t e, on_event e (λ o, match o return wans o → Z with
                                 | Sleep d => λ _, t + Z.max 0 d + ms 1
                                 | _ => λ _, t + ms 1
                                 end)) 0 h.

Definition polls (h : list wevent) : nat :=
  length (List.filter (λ e : wevent, match projT1 e with Poll => true | _ => false end) h).

Section Demo.
Context (stub : nat → method → request → status + reply) (files : string → string) (code : Z)
        (ckpts : list string).

Definition demo_env (h : list wevent) (o : wop) : wans o :=
  match o return wans o with
  | Monotonic => demo_now h
  | DeadlineGet => sec 15
  | Uuid4 => ("uuid-" +:+ pretty (length h))%string
  | Stub m r _ => stub (length (stubs h)) m r
  | LostIsSet => lost h
  | ProcessIsSet => popened h
  | DoneWait _ | ReaderIsAlive | IsSymlink _ => false
  | IsFile _ => true
  | BotoClient _ | PutObject _ _ _ _ _ | DownloadFile _ _ _ | RmTree _ | Mkdir _
  | Popen _ _ | KillPg => inr tt
  | MkTemp => inr "/tmp/rungrid-1"%string
  | ReadFile p => inr (files p)
  | StatSize p => inr (Z.of_nat (String.length (files p)))
  | StatMtime _ => inr 0
  | GlobJson _ => inr ckpts
  | RGlob _ => inr []
  | Poll => match exited h with
            | Some c => Some c
            | None => if (polls h =? 0)%nat then None else Some code
            end
  | ReturnCode => match exited h with Some c => c | None => code end
  | LinesGetNowait => None
  | Sleep _ | Print _ | LostSet | DeadlineSet _ | DoneSet | HeartbeatStart | HeartbeatJoin _
  | UploadFailed | WaitProcess | CloseStdout | ReaderStart | ReaderJoin _
  | PoolShutdown | ChannelClose | InsecureChannel _ _ | Signal _ | MetricsStart
  | MetricsShutdown => tt
  | GetHostname => "host"%string
  | StoppingIsSet => (0 <? submits h)%nat
  | StoppingWait _ | FutureDone _ => false
  | FutureResult _ | MetricsServer _ _ => inr tt
  | PoolSubmit _ => submits h
  end.
End Demo.
