(* ===== verification/Rpc.v ===== *)
(** * Rpc: the worker's gRPC client (worker/python/rungrid_worker/rpc.py)

    [call] builds one request, sends it, and sends the same request again after a transport
    failure until its time is up.  A reply that grants or renews a lease gets the key
    [local_deadline]: the worker's own, conservative idea of when the lease ends. *)
From S2P Require Import Prelude Effects PyStr Json Wire World.
Local Open Scope Z_scope.

(** ** The client *)
Record RPC := MkRPC { worker_id : string; session_id : string }.

(** [exc.code() in (UNAVAILABLE, DEADLINE_EXCEEDED)] *)
Definition retryable (c : status) : bool :=
  match c with UNAVAILABLE | DEADLINE_EXCEEDED => true | _ => false end.

(** The part of the loop body after the stub has answered. *)
Definition decode_reply (started : Z) (rep : reply) : outcome result :=
  match rep with
  | Malformed => Raised (ValueError "malformed response")
  | Reply None _ idle body => Ok (Result idle body None)
  | Reply (Some _) None _ _ => Raised (KeyError "server_time")
  | Reply (Some expires) (Some server) idle body =>
      let ttl := expires - server in
      Ok (Result idle body (Some (started + ttl - ms 500)))
  end.

(** [timeout=max(0.01, min(5 + wait_seconds, end - time.monotonic()))] *)
Definition stub_timeout (wait_seconds end_ now : Z) : Z :=
  Z.max (ms 10) (Z.min (sec (5 + wait_seconds)) (end_ - now)).

(** The [while True] loop; [fuel] bounds the sends. *)
Fixpoint call_loop (fuel : nat) (m : method) (req : request) (started end_ delay : Z) : W result :=
  match fuel with
  | O => diverge
  | S fuel =>
      now <- do Monotonic;
      r <- do (Stub m req (stub_timeout (rq_wait_seconds req) end_ now));
      match r with
      | inr rep => Ret (decode_reply started rep)
      | inl code =>
          if retryable code then
            now <- do Monotonic;
            if now + delay >=? end_ then raise (RpcError code)
            else do (Sleep delay) ;;;
                 call_loop fuel m req started end_ (Z.min (delay * 2) (sec 1))
          else raise (RpcError code)
      end
  end.

(** [request_id or str(uuid.uuid4())] *)
Definition or_uuid (request_id : option string) : W string :=
  match request_id with
  | Some rid => if nonempty rid then ret rid else do Uuid4
  | None => do Uuid4
  end.

Definition make_request (self : RPC) (lease_ : option lease) (wait_seconds : Z) (rid : string)
    (payload : list (string * json)) : request :=
  {| rq_request_id := rid;
     rq_worker_id := worker_id self;
     rq_session_id := session_id self;
     rq_payload_json := dumps (JObj payload);
     rq_attempt_id := match lease_ with Some l => attempt_id (l_body l) | None => EmptyString end;
     rq_lease_token := match lease_ with Some l => lease_token (l_body l) | None => EmptyString end;
     rq_wait_seconds := wait_seconds |}.

(** Sends that fit in [timeout]: the delays double from 0.1 s up to 1 s. *)
Definition call_fuel (timeout : Z) : nat := Z.to_nat (5 + Z.max 0 (timeout / sec 1)).

Definition call (self : RPC) (m : method) (lease_ : option lease)
    (timeout wait_seconds : Z) (request_id : option string) (payload : list (string * json))
    : W result :=
  rid <- or_uuid request_id;
  let req := make_request self lease_ wait_seconds rid payload in
  started <- do Monotonic;
  call_loop (call_fuel timeout) m req started (started + timeout) (ms 100).

(** ** What a call does

    The calls [call] makes are readings of the clock, sleeps, and sends of one request; the
    answers before the last are transport failures and the last one decides the outcome. *)
Definition answer_outcome (started : Z) (a : status + reply) : outcome result :=
  match a with
  | inl code => Raised (RpcError code)
  | inr rep => decode_reply started rep
  end.

Definition rpc_op (m : method) (req : request) (o : wop) : Prop :=
  match o with
  | Monotonic | Sleep _ => True
  | Stub m' req' _ => m' = m ∧ req' = req
  | _ => False
  end.

Definition failures (m : method) (req : request) (errs : list status)
  : list (method * request * (status + reply)) := (λ c, (m, req, inl c)) <$> errs.

Definition sent (m : method) (req : request) (started : Z) (tr : list wevent)
    (r : outcome result) : Prop :=
  ∃ errs, Forall (λ c, retryable c = true) errs ∧
    match r with
    | OutOfFuel => stubs tr = failures m req errs
    | _ => ∃ a, stubs tr = failures m req errs ++ [(m, req, a)] ∧ r = answer_outcome started a
    end.

Lemma decode_reply_ended started rep : decode_reply started rep ≠ OutOfFuel.
Proof. by destruct rep as [|[?|] [?|] ??]. Qed.

Lemma answer_outcome_ended started a : answer_outcome started a ≠ OutOfFuel.
Proof. destruct a as [c|rep]; [done|]. apply decode_reply_ended. Qed.

Lemma sent_last m req started tr a :
  stubs tr = [(m, req, a)] → sent m req started tr (answer_outcome started a).
Proof.
  intros Htr. exists []. split; [constructor|].
  destruct (answer_outcome started a) eqn:Ho; [by exists a..|].
  by apply answer_outcome_ended in Ho.
Qed.

Lemma sent_retry m req started c tr0 tr r :
  stubs tr0 = [(m, req, inl c)] → retryable c = true →
  sent m req started tr r → sent m req started (tr0 ++ tr) r.
Proof.
  intros H0 Hc (errs & Herrs & Hr). exists (c :: errs). split; [by constructor|].
  destruct r; [destruct Hr as (a' & Hr & ?); exists a'; split; [|done]..|];
    by rewrite stubs_app, H0, Hr.
Qed.

Lemma call_loop_ops fuel m req started end_ delay :
  ops_in (S:=WorkerSig) (rpc_op m req) (call_loop fuel m req started end_ delay).
Proof.
  revert delay. induction fuel as [|fuel IH]; intros delay; simpl; [done|].
  split; [done|]. intros now. split; [done|]. intros [code|rep]; [|done].
  destruct (retryable code); [|done]. simpl. split; [done|]. intros now'.
  destruct (_ >=? _); [done|]. simpl. split; [done|]. intros _. apply IH.
Qed.

Lemma call_loop_sent fuel m req started end_ delay tr r :
  traces (call_loop fuel m req started end_ delay) tr r → sent m req started tr r.
Proof.
  revert delay tr. induction fuel as [|fuel IH]; intros delay tr; simpl.
  { intros [-> ->]. by exists []. }
  intros (now & tr1 & -> & a & tr2 & -> & Htr). destruct a as [code|rep].
  2: { destruct Htr as [-> ->]. by apply (sent_last _ _ _ _ (inr rep)). }
  destruct (retryable code) eqn:Hcode; simpl in Htr.
  2: { destruct Htr as [-> ->]. by apply (sent_last _ _ _ _ (inl code)). }
  destruct Htr as (now' & tr3 & -> & Htr). destruct (_ >=? _); simpl in Htr.
  { destruct Htr as [-> ->]. by apply (sent_last _ _ _ _ (inl code)). }
  destruct Htr as ([] & tr4 & -> & Htr).
  apply (sent_retry _ _ _ code [_; _; _; _] tr4); [done..|by eapply IH].
Qed.

(** *** The loop ends *)
Lemma call_loop_bounded c fuel m req started end_ delay tr r h b :
  traces (call_loop fuel m req started end_ delay) tr r →
  consistent_from timely h tr = true → clock h = Some b →
  (0 < c)%nat → 0 < delay ≤ sec 1 → sec 1 ≤ delay * 2 ^ Z.of_nat (c - 1) →
  Z.of_nat (length (stubs tr)) ≤ Z.of_nat c + Z.max 0 ((end_ - b) / sec 1) ∧
  (Z.of_nat c + Z.max 0 ((end_ - b) / sec 1) ≤ Z.of_nat fuel → r ≠ OutOfFuel).
Proof.
  revert c delay tr h b. induction fuel as [|fuel IH]; intros c delay tr h b; simpl.
  { intros [-> ->] _ _ ? _ _. simpl. lia. }
  intros (now & tr1 & -> & a & tr2 & -> & Htr) Hcons Hb Hc0 Hdelay Hpow.
  eapply consistent_reading in Hcons as [Hnow [_ Hcons]%consistent_cons]; [|done].
  destruct a as [code|rep].
  2: { destruct Htr as [-> ->]. simpl. split; [lia|]. intros _. apply decode_reply_ended. }
  destruct (retryable code) eqn:Hcode; simpl in Htr.
  2: { destruct Htr as [-> ->]. simpl. split; [lia|done]. }
  destruct Htr as (now' & tr3 & -> & Htr).
  eapply consistent_reading in Hcons as [Hnow' Hcons];
    [|by rewrite clock_app, clock_reading].
  destruct (now' + delay >=? end_) eqn:Hend; simpl in Htr.
  { destruct Htr as [-> ->]. simpl. split; [lia|done]. }
  destruct Htr as ([] & tr4 & -> & Htr). apply consistent_cons in Hcons as [_ Hcons].
  rewrite Z.geb_leb, Z.leb_gt in Hend.
  eapply (IH (Nat.max 1 (c - 1)) _ _ _ (now' + delay)) in Htr; [|done|..].
  - assert ((end_ - (now' + delay)) / sec 1 ≤ (end_ - b) / sec 1).
    { apply Z.div_le_mono; unfold sec; lia. }
    destruct (decide (c = 1%nat)) as [->|Hc].
    + simpl in Hpow. assert (delay = sec 1) as -> by lia.
      assert ((end_ - (now' + sec 1)) / sec 1 + 1 ≤ (end_ - b) / sec 1).
      { rewrite <- Z.div_add by (unfold sec; lia). apply Z.div_le_mono; unfold sec; lia. }
      assert (1 ≤ (end_ - b) / sec 1).
      { apply Z.div_le_lower_bound; unfold sec in *; lia. }
      simpl. split; [lia|]. intros. apply Htr. lia.
    + simpl. split; [lia|]. intros. apply Htr. lia.
  - rewrite clock_app, clock_reading. cbn -[Z.max]. by rewrite Z.max_r by lia.
  - lia.
  - unfold sec in *; lia.
  - destruct (decide (c ≤ 2)%nat) as [Hc|Hc].
    + replace (Nat.max 1 (c - 1) - 1)%nat with 0%nat by lia. simpl.
      destruct (decide (c = 2%nat)) as [->|]; simpl in Hpow; [|assert (c = 1%nat) as -> by lia;
        simpl in Hpow]; lia.
    + replace (Z.of_nat (c - 1)) with (Z.succ (Z.of_nat (Nat.max 1 (c - 1) - 1))) in Hpow by lia.
      rewrite Z.pow_succ_r in Hpow by lia.
      assert (1 ≤ 2 ^ Z.of_nat (Nat.max 1 (c - 1) - 1)).
      { apply (Z.pow_le_mono_r 2 0); lia. }
      destruct (Z.min_spec (delay * 2) (sec 1)) as [[_ ->]|[_ ->]]; nia.
Qed.

Lemma call_traces self m l timeout wait rid payload tr r :
  traces (call self m l timeout wait rid payload) tr r →
  ∃ rid' started tr0 tr1,
    (∀ s, rid = Some s → nonempty s = true → rid' = s) ∧
    tr = tr0 ++ ev Monotonic started :: tr1 ∧ (tr0 = [] ∨ tr0 = [ev Uuid4 rid']) ∧
    traces (call_loop (call_fuel timeout) m (make_request self l wait rid' payload)
              started (started + timeout) (ms 100)) tr1 r.
Proof.
  unfold call, bind at 1. rewrite traces_bind. intros (tr0 & a & tr1 & Hrid & Htr & ->).
  assert (∃ rid', a = Ok rid' ∧ (∀ s, rid = Some s → nonempty s = true → rid' = s) ∧
                  (tr0 = [] ∨ tr0 = [ev Uuid4 rid'])) as (rid' & -> & Hs & Htr0).
  { destruct rid as [s|]; simpl in Hrid; [destruct (nonempty s) eqn:Hs|].
    { destruct Hrid as [-> ->]. exists s. split_and!; [done|congruence|by left]. }
    all: destruct Hrid as (x & ? & -> & -> & ->); exists x;
      split_and!; [done|congruence|by right]. }
  destruct Htr as (started & tr2 & -> & Htr). by exists rid', started, tr0, tr2.
Qed.

(** One [RPC.call] is one request: every send carries the same method and the same envelope
    (identifier, fencing token, payload); every answer before the last is UNAVAILABLE or
    DEADLINE_EXCEEDED, and the last answer alone decides the outcome. *)
Theorem call_sends_one_request self m l timeout wait rid payload tr r :
  traces (call self m l timeout wait rid payload) tr r →
  ∃ rid' started,
    (∀ s, rid = Some s → nonempty s = true → rid' = s) ∧
    sent m (make_request self l wait rid' payload) started tr r.
Proof.
  intros (rid' & started & tr0 & tr1 & Hs & -> & Htr0 & Htr)%call_traces.
  exists rid', started. split; [done|]. apply call_loop_sent in Htr.
  destruct Htr as (errs & ? & Hr). exists errs. split; [done|].
  rewrite stubs_app. by destruct Htr0 as [->| ->].
Qed.

Lemma call_bounded h self m l timeout wait rid payload tr r :
  traces (call self m l timeout wait rid payload) tr r → consistent_from timely h tr = true →
  r ≠ OutOfFuel ∧ Z.of_nat (length (stubs tr)) ≤ 5 + Z.max 0 (timeout / sec 1).
Proof.
  intros (rid' & started & tr0 & tr1 & Hs & -> & Htr0 & Htr)%call_traces Hcons.
  rewrite snoc_app in Hcons. apply consistent_from_app in Hcons as [_ Hcons].
  rewrite app_assoc in Hcons.
  eapply (call_loop_bounded 5) in Htr as [Hlen Hr];
    [|exact Hcons|apply clock_reading|lia|unfold ms, sec; lia|unfold ms, sec; simpl; lia].
  replace (started + timeout - started) with timeout in * by lia. split.
  - apply Hr. unfold call_fuel. lia.
  - rewrite stubs_app. by destruct Htr0 as [->| ->].
Qed.

(** [RPC.call] ends: with the delays of the code (0.1 s doubling up to 1 s) and a clock that
    advances while it sleeps, at most [5 + timeout/1s] sends are made, and the loop is left. *)
Theorem call_terminates self m l timeout wait rid payload tr r :
  traces (call self m l timeout wait rid payload) tr r → consistent timely tr = true →
  r ≠ OutOfFuel ∧ Z.of_nat (length (stubs tr)) ≤ 5 + Z.max 0 (timeout / sec 1).
Proof. apply call_bounded. Qed.

(** The reply that granted the time until [d], and what is known of every send before it. *)
Definition granted (self : RPC) (m : method) (l : option lease) (h tr : list wevent) (d : Z)
  : Prop :=
  ∃ q expires server idle body,
    last (stubs tr) = Some (m, q, inr (Reply (Some expires) (Some server) idle body)) ∧
    rq_attempt_id q = match l with Some l => attempt_id (l_body l) | None => EmptyString end ∧
    ∀ tr1 e tr2, tr = tr1 ++ e :: tr2 → is_Some (stub_of e) →
      ∃ t, clock (h ++ tr1) = Some t ∧ d + ms 500 ≤ t + (expires - server).

Lemma call_granted h self m l timeout wait rid payload tr res d :
  traces (call self m l timeout wait rid payload) tr (Ok res) →
  consistent_from timely h tr = true → res_deadline res = Some d → granted self m l h tr d.
Proof.
  intros (rid' & started & tr0 & tr1 & Hs & -> & Htr0 & Htr)%call_traces Hcons Hd.
  apply call_loop_sent in Htr as (errs & _ & a & Hstubs & Ho).
  destruct a as [?|[|[expires|] [server|] idle body]]; simplify_eq/=.
  exists (make_request self l wait rid' payload), expires, server, idle, body. split_and!.
  - rewrite stubs_app. simpl. rewrite Hstubs, app_assoc. apply last_snoc.
  - done.
  - intros p e q Heq Hstub. apply app_cons_split in Heq as (p' & -> & ->).
    2: { intros Hin. destruct Hstub as [? He]. apply list_elem_of_In in Hin.
         by destruct Htr0 as [-> | ->]; simpl in Hin; destruct_or?; subst. }
    rewrite snoc_app in Hcons.
    apply consistent_from_app in Hcons as [_ [Hcons _]%consistent_from_app].
    rewrite app_assoc in Hcons.
    eapply consistent_clock in Hcons as (t & Ht & Hle); [|apply clock_reading].
    exists t. split; [|lia]. rewrite <- Ht. f_equal. by rewrite <- !app_assoc.
Qed.

(** C16. The [local_deadline] a reply gets is conservative: counted from any send of the request
    (so from before the server saw it), the time the server granted ends at least half a second
    after [local_deadline]. *)
Theorem local_deadline_conservative self m l timeout wait rid payload tr res d :
  traces (call self m l timeout wait rid payload) tr (Ok res) → consistent timely tr = true →
  res_deadline res = Some d →
  ∃ q expires server idle body,
    last (stubs tr) = Some (m, q, inr (Reply (Some expires) (Some server) idle body)) ∧
    ∀ tr1 e tr2, tr = tr1 ++ e :: tr2 → is_Some (stub_of e) →
      ∃ t, clock tr1 = Some t ∧ d + ms 500 ≤ t + (expires - server).
Proof.
  intros Htr Hc Hd.
  destruct (call_granted [] _ _ _ _ _ _ _ _ _ _ Htr Hc Hd) as (q & x & s & i & b & ? & _ & ?).
  by exists q, x, s, i, b.
Qed.

(** ** Calling [call] *)
(** The calls of one [call]. *)
Definition call_ops (self : RPC) (m : method) (l : option lease) (wait : Z)
    (payload : list (string * json)) (o : wop) : Prop :=
  match o with
  | Uuid4 | Monotonic | Sleep _ => True
  | Stub m' req _ => m' = m ∧ ∃ rid, req = make_request self l wait rid payload
  | _ => False
  end.

Lemma call_ops_in self m l timeout wait rid payload :
  ops_in (S:=WorkerSig) (call_ops self m l wait payload) (call self m l timeout wait rid payload).
Proof.
  apply ops_in_py_bind.
  - destruct rid as [s|]; simpl; [destruct (nonempty s)|]; simpl; auto.
  - intros rid'. simpl. split; [done|]. intros started.
    eapply ops_in_mono; [|apply call_loop_ops]. intros []; simpl; naive_solver.
Qed.
#[export] Hint Resolve call_ops_in : ops.

(** The call was answered: an answer that is not an RPC error reached the worker. *)
Definition acked (m : method) (h : list wevent) : Prop := ∃ q rep, (m, q, inr rep) ∈ stubs h.

Lemma acked_app m h h' : acked m h → acked m (h ++ h').
Proof. intros (q & rep & Hin). exists q, rep. rewrite stubs_app. set_solver. Qed.

Lemma call_acked self m l timeout wait rid payload tr res :
  traces (call self m l timeout wait rid payload) tr (Ok res) → acked m tr.
Proof.
  intros (rid' & started & tr0 & tr1 & _ & -> & _ & Htr)%call_traces.
  apply call_loop_sent in Htr as (errs & _ & [c|rep] & Hstubs & Ho); [done|].
  exists (make_request self l wait rid' payload), rep.
  rewrite stubs_app. simpl. rewrite Hstubs. set_solver.
Qed.

Lemma call_refused self m l timeout wait rid payload tr c :
  traces (call self m l timeout wait rid payload) tr (Raised (RpcError c)) →
  ∃ q, last (stubs tr) = Some (m, q, inl c).
Proof.
  intros (rid' & started & tr0 & tr1 & _ & -> & _ & Htr)%call_traces.
  apply call_loop_sent in Htr as (errs & _ & a & Hstubs & Ho).
  destruct a as [c'|[|[?|] [?|] ? ?]]; simplify_eq/=.
  exists (make_request self l wait rid' payload).
  rewrite stubs_app. simpl. rewrite Hstubs, app_assoc. apply last_snoc.
Qed.

(** The rules for [call]: the guard allows its calls wherever [I], which they keep, holds. *)
Lemma wp_call_traces E G I self m l timeout wait rid payload Q h :
  (∀ h e, E h e = true → timely h e = true) →
  stable (S:=WorkerSig) (call_ops self m l wait payload) I → I h →
  (∀ h' o, I h' → call_ops self m l wait payload o → G h' o) →
  (∀ tr r, traces (call self m l timeout wait rid payload) tr r →
     consistent_from timely h tr = true → r ≠ OutOfFuel → I (h ++ tr) → Q r (h ++ tr)) →
  wp (S:=WorkerSig) E G (call self m l timeout wait rid payload) Q h.
Proof.
  intros HE HI Hh HG HQ. eapply wp_inv; [apply call_ops_in|exact HI|done|done|].
  intros tr r Htr Hc Hh'. apply (consistent_mono _ timely) in Hc; [|done].
  apply HQ; [done|done|by eapply call_bounded|done].
Qed.

Lemma wp_call G I self m l timeout wait rid payload Q h :
  stable (S:=WorkerSig) (call_ops self m l wait payload) I → I h →
  (∀ h' o, I h' → call_ops self m l wait payload o → G h' o) →
  (∀ tr r, r ≠ OutOfFuel → (∀ res, r = Ok res → acked m (h ++ tr)) → I (h ++ tr) → Q r (h ++ tr)) →
  wp (S:=WorkerSig) world G (call self m l timeout wait rid payload) Q h.
Proof.
  intros HI Hh HG HQ. eapply (wp_call_traces world G I); [|done..|].
  { intros h' e [? _]%andb_true_iff. done. }
  intros tr r Htr _ Hr Hh'. apply HQ; [done| |done].
  intros res ->. apply call_acked in Htr as (q & rep & Hin). exists q, rep.
  rewrite stubs_app. set_solver.
Qed.

(** ** Witnesses: a first send that fails, then a lease of 15 s *)
Definition demo_self : RPC := MkRPC "w1" "s1".
Definition demo_stub (n : nat) (m : method) (r : request) : status + reply :=
  match n with
  | O => inl UNAVAILABLE
  | S _ => inr (Reply (Some (sec 115)) (Some (sec 100)) false None)
  end.
Definition demo_call : W result :=
  call demo_self Heartbeat None (sec 10) 0 None [("exit_code", JNum 0)].
Definition demo_run : outcome result * list wevent :=
  run (demo_env demo_stub (λ _, EmptyString) 0 []) demo_call [].

Lemma call_sends_one_request_witness :
  length (stubs demo_run.2) = 2%nat ∧
  ∃ rid' started,
    (∀ s, @None string = Some s → nonempty s = true → rid' = s) ∧
    sent Heartbeat (make_request demo_self None 0 rid' [("exit_code", JNum 0)]) started
      demo_run.2 demo_run.1.
Proof.
  split; [vm_compute; reflexivity|].
  apply (call_sends_one_request demo_self Heartbeat None (sec 10) 0 None [("exit_code", JNum 0)]).
  apply traces_run.
Defined.

Lemma call_terminates_witness :
  demo_run.1 ≠ OutOfFuel ∧ Z.of_nat (length (stubs demo_run.2)) ≤ 5 + Z.max 0 (sec 10 / sec 1).
Proof.
  apply (call_terminates demo_self Heartbeat None (sec 10) 0 None [("exit_code", JNum 0)]).
  - apply traces_run.
  - vm_compute. reflexivity.
Defined.

Lemma local_deadline_conservative_witness :
  ∃ q expires server idle body,
    last (stubs demo_run.2)
    = Some (Heartbeat, q, inr (Reply (Some expires) (Some server) idle body)) ∧
    ∀ tr1 e tr2, demo_run.2 = tr1 ++ e :: tr2 → is_Some (stub_of e) →
      ∃ t, clock tr1 = Some t ∧ (ms 14501) + ms 500 ≤ t + (expires - server).
Proof.
  apply (local_deadline_conservative demo_self Heartbeat None (sec 10) 0 None
           [("exit_code", JNum 0)] demo_run.2
           (Result false None (Some (ms 14501)))).
  - replace (Ok (Result false None (Some (ms 14501)))) with demo_run.1
      by (vm_compute; reflexivity).
    apply traces_run.
  - vm_compute. reflexivity.
  - reflexivity.
Defined.
