(* ===== verification/Artifacts.v ===== *)
(** * Artifacts: uploads and checkpoint restoration (worker/python/rungrid_worker/artifacts.py)

    [upload] stores a file under an attempt-scoped key, trying five times while the lease is
    alive; [restore] fetches a checkpoint and refuses one whose digest is not the recorded one.
    The object store itself (boto3) answers arbitrarily. *)
From S2P Require Import Prelude Effects PyStr Json Sha256 Wire World.
Local Open Scope string_scope.
Local Open Scope list_scope.
Local Open Scope Z_scope.

(** ** [digest] *)
Definition chunk_size : nat := N.to_nat 1048576.

Fixpoint str_take (n : nat) (s : string) : string :=
  match n, s with
  | S n, String c s => String c (str_take n s)
  | _, _ => EmptyString
  end.
Fixpoint str_drop (n : nat) (s : string) : string :=
  match n, s with
  | S n, String _ s => str_drop n s
  | _, _ => s
  end.

(** The chunks [iter(lambda: stream.read(n), b"")] yields for a stream at [s]. *)
Fixpoint read_chunks (fuel n : nat) (s : string) : list string :=
  match fuel with
  | O => []
  | S fuel => let chunk := str_take n s in
              if nonempty chunk then chunk :: read_chunks fuel n (str_drop n s) else []
  end.

Definition digest_of (content : string) : string :=
  hexdigest (fold_left update (read_chunks (String.length content) chunk_size content) sha256_new).

Definition digest (path : string) : W string :=
  r <- do (ReadFile path);
  content <- unwrap r;
  ret (digest_of content).

(** ** [upload] *)
(** [definition.get("artifact_prefix", "").strip("/")] *)
Definition get_prefix (f : field string) : W string :=
  match f with
  | Absent => ret EmptyString
  | Null => raise (AttributeError "strip")
  | Value p => ret (strip (is_char slash) p)
  end.

Definition artifact_key (prefix job attempt knd uuid name : string) : string :=
  join "/" (List.filter nonempty [prefix; job; attempt; knd; uuid +:+ "-" +:+ name]).

Definition octet_stream : string := "application/octet-stream".

(** The body of the [try] in the loop of [upload]. *)
Definition put_once (bucket path key sum knd : string) : W artifact :=
  body <- do (ReadFile path);
  body <- unwrap body;
  r <- do (PutObject bucket key body sum octet_stream);
  _ <- unwrap r;
  size <- do (StatSize path);
  size <- unwrap size;
  ret (Artifact key octet_stream size sum knd).

(** [for attempt in attempts: ...]; the last attempt, 4, raises, so [attempts] does not run out. *)
Fixpoint upload_loop (attempts : list Z) (alive : W bool) (bucket path key sum knd : string)
  : W artifact :=
  match attempts with
  | [] => diverge
  | attempt :: attempts =>
      a <- alive;
      if negb a then raise (RuntimeError "lease lost during upload")
      else
        try_except (put_once bucket path key sum knd)
          (λ exc, Some (
             do UploadFailed ;;;
             if attempt =? 4 then raise exc
             else do (Sleep (Z.min (ms 200 * 2 ^ attempt) (sec 2))) ;;;
                  upload_loop attempts alive bucket path key sum knd))
  end.

Definition upload (bucket path : string) (l : lease) (knd : string) (alive : W bool) : W artifact :=
  sum <- digest path;
  prefix <- get_prefix (artifact_prefix (job_definition (l_body l)));
  uuid <- do Uuid4;
  let key := artifact_key prefix (job_id (l_body l)) (attempt_id (l_body l)) knd uuid
               (basename path) in
  upload_loop [0; 1; 2; 3; 4] alive bucket path key sum knd.

(** ** [restore] *)
Definition restore (bucket : string) (a : artifact) (target : string) : W unit :=
  r <- do (DownloadFile bucket (object_key a) target);
  _ <- unwrap r;
  d <- digest target;
  if String.eqb d (checksum a) then ret tt
  else raise (ValueError "checkpoint checksum mismatch").

(** ** Hashing in chunks is hashing *)
Lemma str_take_drop n s : str_take n s +:+ str_drop n s = s.
Proof.
  revert s. induction n as [|n IH]; intros [|c s]; try done. simpl.
  change (String c (str_take n s +:+ str_drop n s) = String c s). by rewrite IH.
Qed.

Lemma length_str_drop n s : String.length (str_drop n s) = (String.length s - n)%nat.
Proof. revert s. induction n as [|n IH]; intros [|c s]; simpl; try done. Qed.

Lemma update_chunks fuel n s st :
  (0 < n)%nat → (String.length s ≤ fuel)%nat →
  fold_left update (read_chunks fuel n s) st = update st s.
Proof.
  intros Hn. revert s st. induction fuel as [|fuel IH]; intros s st Hs; simpl.
  { destruct s; [done|simpl in Hs; lia]. }
  destruct s as [|c s]; [by destruct n|].
  destruct n as [|n]; [lia|]. simpl.
  rewrite IH by (rewrite length_str_drop; simpl in Hs; lia).
  rewrite <- update_app. f_equal. apply (str_take_drop (S n) (String c s)).
Qed.

Lemma digest_of_hash content : digest_of content = sha256_hex content.
Proof.
  unfold digest_of, sha256_hex. f_equal. apply update_chunks; [|done].
  unfold chunk_size. lia.
Qed.

(** The digest computed from 1 MiB chunks is the SHA-256 of the whole file. *)
Theorem digest_of_sha256 content : digest_of content = sha256_hex content.
Proof. apply digest_of_hash. Qed.

(** ** What an upload does *)
(** The stores asked of the bucket: bucket, key, checksum, and the answer. *)
Definition put_of (e : wevent) : option (string * string * string * fallible unit) :=
  on_event e (λ o, match o return wans o → option (string * string * string * fallible unit) with
                   | PutObject b k _ s _ => λ a, Some (b, k, s, a)
                   | _ => λ _, None
                   end).
Definition puts (h : list wevent) : list (string * string * string * fallible unit) :=
  omap put_of h.

Definition failure_of (e : wevent) : option unit :=
  match projT1 e with UploadFailed => Some tt | _ => None end.
(** How many times [on_failure] was called. *)
Definition upload_failures (h : list wevent) : nat := length (omap failure_of h).

Lemma puts_app h h' : puts (h ++ h') = puts h ++ puts h'.
Proof. apply omap_app. Qed.
Lemma upload_failures_app h h' :
  upload_failures (h ++ h') = (upload_failures h + upload_failures h')%nat.
Proof. unfold upload_failures. by rewrite omap_app, length_app. Qed.
#[export] Hint Rewrite puts_app upload_failures_app : rungrid.

(** What [upload] needs of the [alive] it is given: it answers, and it only looks. *)
Definition probe_op (o : wop) : Prop :=
  match o with LostIsSet | Monotonic | DeadlineGet => True | _ => False end.

Class Probe (alive : W bool) : Prop := {
  probe_ops : ops_in (S:=WorkerSig) probe_op alive;
  probe_ok tr r : traces alive tr r → ∃ b, r = Ok b
}.

Lemma probe_quiet tr : Forall (λ e : wevent, probe_op (projT1 e)) tr →
  puts tr = [] ∧ upload_failures tr = 0%nat.
Proof.
  induction 1 as [|[o x] tr He Htr [IH1 IH2]]; [done|].
  unfold puts, upload_failures in *. simpl in *. by destruct o.
Qed.

(** One attempt: at most one store, with the given key and checksum; it succeeded when the
    attempt returns an entry. *)
Definition put_attempted (bucket key sum knd : string) (tr : list wevent) (r : outcome artifact)
  : Prop :=
  Forall (λ p, p.1 = (bucket, key, sum)) (puts tr) ∧ (length (puts tr) ≤ 1)%nat ∧
  upload_failures tr = 0%nat ∧ r ≠ OutOfFuel ∧
  ∀ a, r = Ok a →
    puts tr = [(bucket, key, sum, inr tt)] ∧ ∃ size, a = Artifact key octet_stream size sum knd.

Lemma put_once_spec bucket path key sum knd tr r :
  traces (put_once bucket path key sum knd) tr r → put_attempted bucket key sum knd tr r.
Proof.
  unfold put_attempted. simpl. intros ([e|body] & tr1 & -> & Htr); simpl in Htr.
  { destruct Htr as [-> ->]. by repeat split; try constructor. }
  destruct Htr as ([e|[]] & tr2 & -> & Htr); simpl in Htr.
  { destruct Htr as [-> ->]. repeat split; [by repeat constructor|simpl; lia|done|done|done..]. }
  destruct Htr as ([e|size] & tr3 & -> & Htr); simpl in Htr; destruct Htr as [-> ->];
    (repeat split; [by repeat constructor|simpl; lia|..]); try done; intros; simplify_eq; eauto.
Qed.

(** A loop of attempts: how its stores and failures relate to its outcome. *)
Definition uploaded_or_failed (n : nat) (bucket key sum knd : string) (tr : list wevent)
    (r : outcome artifact) : Prop :=
  Forall (λ p, p.1 = (bucket, key, sum)) (puts tr) ∧ (length (puts tr) ≤ n)%nat ∧
  match r with
  | Ok a => (upload_failures tr < n)%nat ∧ last (puts tr) = Some (bucket, key, sum, inr tt) ∧
            ∃ size, a = Artifact key octet_stream size sum knd
  | Raised e => (upload_failures tr < n)%nat ∧ e = RuntimeError "lease lost during upload" ∨
                upload_failures tr = n
  | OutOfFuel => False
  end.

Lemma upload_loop_spec alive `{!Probe alive} bucket path key sum knd pre tr r :
  4 ∉ pre →
  traces (upload_loop (pre ++ [4]) alive bucket path key sum knd) tr r →
  uploaded_or_failed (S (length pre)) bucket key sum knd tr r.
Proof.
  revert tr. induction pre as [|attempt pre IH]; intros tr Hpre.
  all: simpl; unfold bind at 1; rewrite traces_bind; intros (tr0 & a & tr1 & Halive & Htr & ->).
  all: pose proof (ops_in_traces _ _ _ _ probe_ops Halive) as [Hq1 Hq2]%probe_quiet.
  all: apply probe_ok in Halive as [b ->]; unfold uploaded_or_failed.
  all: rewrite puts_app, upload_failures_app, Hq1, Hq2; simpl.
  all: destruct b; cbn [negb] in Htr;
    [|destruct Htr as [-> ->]; split_and!; [by apply Forall_nil_2|simpl; lia|left; split; [cbn; lia|done]]].
  all: unfold try_except in Htr; rewrite traces_bind in Htr;
    destruct Htr as (tr2 & r2 & tr3 & Hput & Htr & ->).
  all: apply put_once_spec in Hput as (Hall & Hlen & Hf & Hr & Hok).
  all: destruct r2 as [a|e|]; [|simpl in Htr; destruct Htr as ([] & tr4 & -> & Htr)|done].
  1, 3: destruct Htr as [-> ->]; destruct (Hok a eq_refl) as [Hp Ha];
    rewrite app_nil_r, Hf, Hp in *; (split_and!; [done|simpl; lia..|done|done]).
  - destruct Htr as [-> ->]. rewrite puts_app, upload_failures_app, Hf.
    split_and!; [by apply Forall_app|rewrite length_app; simpl; lia|by right].
  - destruct (attempt =? 4) eqn:E4; [apply Z.eqb_eq in E4; set_solver|].
    simpl in Htr. destruct Htr as ([] & tr5 & -> & Htr).
    apply IH in Htr as (Hall' & Hlen' & Hr'); [|set_solver].
    rewrite puts_app, upload_failures_app, Hf. simpl.
    split_and!; [by apply Forall_app|rewrite length_app; simpl; unfold puts in *; simpl; lia|].
    change (puts (_ :: _ :: tr5)) with (puts tr5).
    change (upload_failures (_ :: _ :: tr5)) with (S (upload_failures tr5)).
    destruct r as [a|e'|]; [|naive_solver lia|done].
    destruct Hr' as (? & Hlast & ?). split_and!; [lia| |done].
    by rewrite last_app, Hlast.
Qed.

(** [get_prefix] looks at nothing. *)
Lemma get_prefix_traces f tr r :
  traces (get_prefix f) tr r → tr = [] ∧ ((∃ e, r = Raised e) ∨ ∃ p, r = Ok p ∧
    match f with Absent => p = EmptyString | Null => False | Value s => p = strip (is_char slash) s end).
Proof. destruct f; simpl; intros [-> ->]; eauto 6. Qed.

Lemma digest_traces path tr r :
  traces (digest path) tr r →
  (∃ e, tr = [ev (ReadFile path) (inl e)] ∧ r = Raised e) ∨
  (∃ content, tr = [ev (ReadFile path) (inr content)] ∧ r = Ok (sha256_hex content)).
Proof.
  simpl. intros ([e|content] & tr' & -> & Htr); simpl in Htr; destruct Htr as [-> ->]; [left|right].
  - eauto.
  - exists content. by rewrite digest_of_hash.
Qed.

(** An upload stores one file under one attempt-scoped key with one checksum, the SHA-256
    of what it read first, at most five times; it returns the entry of that key after a store
    that succeeded, and raises only for a lost lease or after five failures, each counted
    once.  Nothing is stored when the file cannot be read or the prefix is not a string. *)
Theorem upload_stores_one_object alive `{!Probe alive} bucket path l knd tr r :
  traces (upload bucket path l knd alive) tr r →
  (puts tr = [] ∧ upload_failures tr = 0%nat ∧ ∃ e, r = Raised e) ∨
  ∃ content prefix uuid,
    head tr = Some (ev (ReadFile path) (inr content)) ∧
    match artifact_prefix (job_definition (l_body l)) with
    | Absent => prefix = EmptyString
    | Null => False
    | Value s => prefix = strip (is_char slash) s
    end ∧
    uploaded_or_failed 5 bucket
      (artifact_key prefix (job_id (l_body l)) (attempt_id (l_body l)) knd uuid (basename path))
      (sha256_hex content) knd tr r.
Proof.
  unfold upload, bind at 1. rewrite traces_bind. intros (tr0 & d & tr1 & Hd & Htr & ->).
  apply digest_traces in Hd as [(e & -> & ->)|(content & -> & ->)].
  { destruct Htr as [-> ->]. left. eauto. }
  unfold bind at 1 in Htr. rewrite traces_bind in Htr.
  destruct Htr as (tr2 & p & tr3 & Hp & Htr & ->).
  apply get_prefix_traces in Hp as [-> [[e ->]|(prefix & -> & Hprefix)]].
  { destruct Htr as [-> ->]. left. eauto. }
  destruct Htr as (uuid & tr4 & -> & Htr). right. exists content, prefix, uuid.
  split_and!; [done|done|].
  change [0; 1; 2; 3; 4] with ([0; 1; 2; 3] ++ [4]) in Htr.
  apply (upload_loop_spec alive) in Htr; [exact Htr|set_solver by lia].
Qed.

(** What a restore does. *)
Lemma restore_traces bucket a target tr r :
  traces (restore bucket a target) tr r →
  (∃ content,
     tr = [ev (DownloadFile bucket (object_key a) target) (inr tt);
           ev (ReadFile target) (inr content)] ∧
     r = if decide (sha256_hex content = checksum a) then Ok tt
         else Raised (ValueError "checkpoint checksum mismatch")) ∨
  (∃ e, tr = [ev (DownloadFile bucket (object_key a) target) (inl e)] ∧ r = Raised e) ∨
  (∃ e, tr = [ev (DownloadFile bucket (object_key a) target) (inr tt);
              ev (ReadFile target) (inl e)] ∧ r = Raised e).
Proof.
  unfold restore. simpl. intros ([e|[]] & tr1 & -> & Htr); simpl in Htr.
  { destruct Htr as [-> ->]. eauto. }
  destruct Htr as ([e|content] & tr2 & -> & Htr); simpl in Htr.
  { destruct Htr as [-> ->]. eauto. }
  left. exists content. rewrite digest_of_hash in Htr.
  destruct (String.eqb_spec (sha256_hex content) (checksum a)), (decide _); try done;
    by destruct Htr as [-> ->].
Qed.

(** A checkpoint is restored only when the file downloaded has the recorded digest; any
    other content raises, and so does a failed download or read. *)
Theorem restore_verifies bucket a target tr r :
  traces (restore bucket a target) tr r →
  (∃ content,
     tr = [ev (DownloadFile bucket (object_key a) target) (inr tt);
           ev (ReadFile target) (inr content)] ∧
     r = if decide (sha256_hex content = checksum a) then Ok tt
         else Raised (ValueError "checkpoint checksum mismatch")) ∨
  (∃ e, tr = [ev (DownloadFile bucket (object_key a) target) (inl e)] ∧ r = Raised e) ∨
  (∃ e, tr = [ev (DownloadFile bucket (object_key a) target) (inr tt);
              ev (ReadFile target) (inl e)] ∧ r = Raised e).
Proof. apply restore_traces. Qed.

(** ** Witnesses *)
Definition demo_lease : lease :=
  Lease (LeaseBody "j1" (Definition_ ["true"] (Value ∅) (Value "/demo/")) "a1" 1 "t1" None)
        (Some (sec 15)).

#[export] Instance probe_true : Probe (ret true).
Proof. split; [done|]. intros tr r [_ ->]. eauto. Qed.

Definition demo_files (path : string) : string :=
  if String.eqb path "/tmp/out/model.bin" then "abc" else EmptyString.

Definition demo_upload : W artifact :=
  upload "rungrid" "/tmp/out/model.bin" demo_lease "output" (ret true).
Definition demo_upload_run : outcome artifact * list wevent :=
  run (demo_env (λ _ _ _, inl UNKNOWN) demo_files 0 []) demo_upload [].

Example demo_upload_key :
  object_key <$> (match demo_upload_run.1 with Ok a => Some a | _ => None end)
  = Some "demo/j1/a1/output/uuid-1-model.bin".
Proof. vm_compute. reflexivity. Qed.

Lemma upload_stores_one_object_witness :
  (puts demo_upload_run.2 = [] ∧ upload_failures demo_upload_run.2 = 0%nat ∧
     ∃ e, demo_upload_run.1 = Raised e) ∨
  ∃ content prefix uuid,
    head demo_upload_run.2 = Some (ev (ReadFile "/tmp/out/model.bin") (inr content)) ∧
    prefix = "demo" ∧
    uploaded_or_failed 5 "rungrid" (artifact_key prefix "j1" "a1" "output" uuid "model.bin")
      (sha256_hex content) "output" demo_upload_run.2 demo_upload_run.1.
Proof.
  apply (upload_stores_one_object (ret true) "rungrid" "/tmp/out/model.bin" demo_lease "output").
  apply traces_run.
Defined.

Definition demo_artifact : artifact :=
  Artifact "k" octet_stream 3 (sha256_hex "abc") "checkpoint".
Definition demo_target : string := "/tmp/out/model.bin".
Definition demo_restore_run : outcome unit * list wevent :=
  run (demo_env (λ _ _ _, inl UNKNOWN) demo_files 0 [])
      (restore "rungrid" demo_artifact demo_target) [].

Lemma restore_verifies_witness :
  demo_restore_run.1 = Ok tt ∧
  ((∃ content,
     demo_restore_run.2 = [ev (DownloadFile "rungrid" (object_key demo_artifact) demo_target) (inr tt);
                           ev (ReadFile demo_target) (inr content)] ∧
     demo_restore_run.1 = if decide (sha256_hex content = checksum demo_artifact) then Ok tt
         else Raised (ValueError "checkpoint checksum mismatch")) ∨
  (∃ e, demo_restore_run.2
        = [ev (DownloadFile "rungrid" (object_key demo_artifact) demo_target) (inl e)] ∧
        demo_restore_run.1 = Raised e) ∨
  (∃ e, demo_restore_run.2
        = [ev (DownloadFile "rungrid" (object_key demo_artifact) demo_target) (inr tt);
           ev (ReadFile demo_target) (inl e)] ∧ demo_restore_run.1 = Raised e)).
Proof.
  split; [vm_compute; reflexivity|].
  exact (restore_verifies "rungrid" demo_artifact demo_target demo_restore_run.2
           demo_restore_run.1 (traces_run _ _ _)).
Defined.
