(* ===== verification/Worker.v ===== *)
(** * Worker: one attempt of a job (worker/python/rungrid_worker/main.py, [Worker.execute])

    [execute] acknowledges the attempt, restores a checkpoint, starts the command, reports
    progress while it runs, and reports how it ended; [renew] is the body of the heartbeat
    thread that runs beside it.  The two threads share [lost], [deadline[0]] and [process]. *)
From S2P Require Import Prelude Effects PyStr Json Sha256 Wire World Rpc Artifacts.
Local Open Scope string_scope.
Local Open Scope list_scope.
Local Open Scope Z_scope.

(** ** State *)
Record worker := Worker {
  w_rpc : RPC;
  w_environ : gmap string string;   (* os.environ *)
  w_exn_str : exn → string          (* str(exc) *) }.

(** [Artifacts.__init__]: the bucket, and the client it opens. *)
Definition w_bucket (self : worker) : string :=
  default "rungrid" (w_environ self !! "RUNGRID_S3_BUCKET").
Definition open_client (self : worker) : W unit :=
  r <- do (BotoClient (w_environ self !! "RUNGRID_S3_ENDPOINT"));
  unwrap r.

(** ** Helpers *)
Definition kill_group : W unit :=
  r <- do KillPg;
  match r with
  | inl ProcessLookupError | inr _ => do WaitProcess
  | inl e => raise e
  end.

Definition log (self : worker) (message : string) (l : option lease) (request_id : string)
    (fields : list (string * json)) : W unit :=
  do (Print (dumps (JObj (
    [("message", JStr message);
     ("job_id", JStr (match l with Some l => job_id (l_body l) | None => EmptyString end));
     ("attempt_id", JStr (match l with Some l => attempt_id (l_body l) | None => EmptyString end));
     ("worker_id", JStr (worker_id (w_rpc self)));
     ("request_id", JStr request_id)] ++ fields)))).

(** [not lost.is_set() and time.monotonic() < deadline[0]] *)
Definition alive : W bool :=
  l <- do LostIsSet;
  if l then ret false
  else now <- do Monotonic; d <- do DeadlineGet; ret (now <? d).

(** ** The heartbeat thread *)
Definition renew_once (self : worker) (l : lease) : W unit :=
  try_except
    (d <- do DeadlineGet;
     now <- do Monotonic;
     res <- call (w_rpc self) Heartbeat (Some l)
              (Z.min (sec 2) (Z.max (ms 100) (d - now))) 0 None [];
     match res_deadline res with
     | Some d => do (DeadlineSet d)
     | None => raise (KeyError "local_deadline")
     end)
    (λ exc, match exc with
            | RpcError code =>
                Some (if bool_decide (code = FAILED_PRECONDITION ∨ code = NOT_FOUND)
                      then do LostSet else ret tt)
            | _ => None
            end).

Fixpoint renew (fuel : nat) (self : worker) (l : lease) : W unit :=
  match fuel with
  | O => diverge
  | S fuel =>
      d <- do (DoneWait (ms 500));
      if d then ret tt
      else
        a <- alive;
        if negb a then
          do LostSet ;;;
          p <- do ProcessIsSet;
          if p then kill_group else ret tt
        else renew_once self l ;;; renew fuel self l
  end.

(** ** The environment of the command *)
(** [lease["job"]["definition"].get("environment", {})], as the right operand of
    [os.environ | ...]. *)
Definition get_environment (f : field (gmap string string)) : W (gmap string string) :=
  match f with
  | Absent => ret ∅
  | Null => raise (TypeError "unsupported operand type(s) for |")
  | Value e => ret e
  end.

Definition child_env (environ extra : gmap string string) (l : lease)
    (outputs checkpoints : string) : gmap string string :=
  delete "RUNGRID_CHECKPOINT_PATH"
    (<["PYTHONUNBUFFERED" := "1"]>
    (<["RUNGRID_CHECKPOINT_DIR" := checkpoints]>
    (<["RUNGRID_OUTPUT_DIR" := outputs]>
    (<["RUNGRID_ATTEMPT_NUMBER" := pretty (attempt_number (l_body l))]>
    (<["RUNGRID_ATTEMPT_ID" := attempt_id (l_body l)]>
    (<["RUNGRID_JOB_ID" := job_id (l_body l)]> (extra ∪ environ))))))).

(** ** Progress reports *)
(** At most [n] lines of the log queue. *)
Fixpoint drain (n : nat) : W (list string) :=
  match n with
  | O => ret []
  | S n =>
      r <- do LinesGetNowait;
      match r with
      | None => ret []
      | Some line => rest <- drain n; ret (line :: rest)
      end
  end.

(** [sorted(paths, key=lambda p: p.stat().st_mtime_ns)]: a stable sort. *)
Fixpoint insert_by_key (x : Z * string) (l : list (Z * string)) : list (Z * string) :=
  match l with
  | [] => [x]
  | y :: l' => if x.1 <=? y.1 then x :: l else y :: insert_by_key x l'
  end.
Definition sort_by_key (l : list (Z * string)) : list (Z * string) := foldr insert_by_key [] l.

Fixpoint stat_all (paths : list string) : W (list (Z * string)) :=
  match paths with
  | [] => ret []
  | p :: ps => r <- do (StatMtime p); t <- unwrap r; rest <- stat_all ps; ret ((t, p) :: rest)
  end.

Fixpoint upload_new (self : worker) (l : lease) (uploaded : gset string) (paths : list string)
  : W (list (string * artifact)) :=
  match paths with
  | [] => ret []
  | p :: ps =>
      if bool_decide (p ∈ uploaded) then upload_new self l uploaded ps
      else e <- upload (w_bucket self) p l "checkpoint" alive;
           rest <- upload_new self l uploaded ps;
           ret ((p, e) :: rest)
  end.

Definition artifact_json (a : artifact) : json :=
  JObj [("object_key", JStr (object_key a)); ("content_type", JStr (content_type a));
        ("size_bytes", JNum (size_bytes a)); ("checksum", JStr (checksum a));
        ("kind", JStr (kind a))].

(** [self.rpc.call("ReportProgress", lease, artifacts=...)] *)
Definition report_artifacts (self : worker) (l : lease) (b : list artifact) : W result :=
  call (w_rpc self) ReportProgress (Some l) (sec 10) 0 None
    [("artifacts", JArr (artifact_json <$> b))].

Fixpoint report_new (self : worker) (l : lease) (bs : list (list (string * artifact)))
    (uploaded : gset string) : W (gset string) :=
  match bs with
  | [] => ret uploaded
  | b :: bs =>
      _ <- report_artifacts self l (snd <$> b);
      report_new self l bs (uploaded ∪ list_to_set (fst <$> b))
  end.

Fixpoint log_lines (self : worker) (l : lease) (rid : string) (lines : list string) : W unit :=
  match lines with
  | [] => ret tt
  | line :: lines => log self line (Some l) rid [] ;;; log_lines self l rid lines
  end.

Definition progress (self : worker) (l : lease) (checkpoints : string) (uploaded : gset string)
  : W (gset string) :=
  batch <- drain 100;
  r <- do (GlobJson checkpoints);
  paths <- unwrap r;
  stats <- stat_all paths;
  new <- upload_new self l uploaded (snd <$> sort_by_key stats);
  match batch, new with
  | [], [] => ret uploaded
  | _, _ =>
      rid <- do Uuid4;
      d <- do DeadlineGet;
      now <- do Monotonic;
      _ <- call (w_rpc self) ReportProgress (Some l)
             (Z.max (ms 100) (Z.min (sec 10) (d - now))) 0 (Some rid)
             [("logs", JArr (JStr <$> batch))];
      log_lines self l rid batch ;;;
      report_new self l (batches 100 new) uploaded
  end.

(** [while process.poll() is None]: [None] when the lease was lost and the child killed. *)
Fixpoint poll_loop (fuel : nat) (self : worker) (l : lease) (checkpoints : string)
    (uploaded : gset string) : W (option (gset string)) :=
  match fuel with
  | O => diverge
  | S fuel =>
      rc <- do Poll;
      match rc with
      | Some _ => ret (Some uploaded)
      | None =>
          a <- alive;
          if negb a then kill_group ;;; ret None
          else uploaded <- progress self l checkpoints uploaded;
               do (Sleep (ms 100)) ;;;
               poll_loop fuel self l checkpoints uploaded
      end
  end.

(** ** The end of the command *)
(** [os.killpg] with [ProcessLookupError] ignored, then the second join. *)
Definition join_reader : W unit :=
  do (ReaderJoin (sec 3)) ;;;
  b <- do ReaderIsAlive;
  if b then
    r <- do KillPg;
    match r with
    | inl ProcessLookupError | inr _ => do (ReaderJoin (sec 3))
    | inl e => raise e
    end
  else ret tt.

Fixpoint upload_outputs (self : worker) (l : lease) (paths : list string) : W (list artifact) :=
  match paths with
  | [] => ret []
  | p :: ps =>
      f <- do (IsFile p);
      s <- (if f then do (IsSymlink p) else ret true);
      if negb s then
        e <- upload (w_bucket self) p l "output" alive;
        rest <- upload_outputs self l ps;
        ret (e :: rest)
      else upload_outputs self l ps
  end.

Fixpoint report_all (self : worker) (l : lease) (bs : list (list artifact)) : W unit :=
  match bs with
  | [] => ret tt
  | b :: bs => _ <- report_artifacts self l b; report_all self l bs
  end.

Definition send_outcome (self : worker) (l : lease) (rc : Z) : W unit :=
  let m := if rc =? 0 then CompleteAttempt else FailAttempt in
  rid <- do Uuid4;
  _ <- call (w_rpc self) m (Some l) (sec 10) 0 (Some rid)
         [("exit_code", JNum rc);
          ("reason", JStr (if rc =? 0 then EmptyString else "command exited nonzero"))];
  log self (method_name m) (Some l) rid [("exit_code", JNum rc)].

Definition report_outcome (self : worker) (l : lease) : W unit :=
  rc <- do ReturnCode;
  send_outcome self l rc.

Definition finish (self : worker) (l : lease) (root : string) (uploaded : gset string) : W unit :=
  kill_group ;;;
  join_reader ;;;
  a <- alive;
  if negb a then ret tt
  else
    _ <- progress self l (root +:+ "/checkpoints") uploaded;
    e <- upload (w_bucket self) (root +:+ "/execution.log") l "log" alive;
    r <- do (RGlob (root +:+ "/outputs"));
    paths <- unwrap r;
    es <- upload_outputs self l (sort_paths paths);
    report_all self l (batches 100 (e :: es)) ;;;
    report_outcome self l.

(** ** [execute] *)
Definition resume (self : worker) (l : lease) (root : string) (env : gmap string string)
  : W (gmap string string) :=
  match lease_checkpoint (l_body l) with
  | None => ret env
  | Some a =>
      let restored := root +:+ "/resume.json" in
      restore (w_bucket self) a restored ;;;
      ret (<["RUNGRID_CHECKPOINT_PATH" := restored]> env)
  end.

(** From the start of the log reader to the end of the [with] block. *)
Definition run_child (fuel : nat) (self : worker) (l : lease) (root : string) : W unit :=
  do ReaderStart ;;;
  u <- poll_loop fuel self l (root +:+ "/checkpoints") ∅;
  match u with
  | None => ret tt
  | Some uploaded => finish self l root uploaded
  end.

(** The body of [with tempfile.TemporaryDirectory(...)]. *)
Definition in_directory (fuel : nat) (self : worker) (l : lease) (root : string) : W unit :=
  r <- do (Mkdir (root +:+ "/outputs"));
  _ <- unwrap r;
  r <- do (Mkdir (root +:+ "/checkpoints"));
  _ <- unwrap r;
  extra <- get_environment (environment (job_definition (l_body l)));
  let env := child_env (w_environ self) extra l (root +:+ "/outputs") (root +:+ "/checkpoints") in
  env <- resume self l root env;
  a <- alive;
  if negb a then ret tt
  else
    r <- do (Popen (command (job_definition (l_body l))) env);
    _ <- unwrap r;
    run_child fuel self l root.

(** The [try] block. *)
Definition attempt_body (fuel : nat) (self : worker) (l : lease) : W unit :=
  a <- alive;
  if negb a then ret tt
  else
    d <- do DeadlineGet;
    now <- do Monotonic;
    _ <- call (w_rpc self) StartAttempt (Some l) (Z.max (ms 100) (d - now)) 0 None [];
    _ <- open_client self;
    r <- do MkTemp;
    root <- unwrap r;
    try_finally (in_directory fuel self l root) (r <- do (RmTree root); unwrap r).

Definition reason_limit : nat := N.to_nat 8192.

(** [except Exception as exc] *)
Definition on_exception (self : worker) (l : lease) (exc : exn) : W unit :=
  log self "attempt error" (Some l) EmptyString [("error", JStr (w_exn_str self exc))] ;;;
  a <- alive;
  if a then
    try_except
      (_ <- call (w_rpc self) FailAttempt (Some l) (sec 10) 0 None
              [("exit_code", JNum (-1)); ("reason", JStr (py_take reason_limit (w_exn_str self exc)))];
       ret tt)
      (λ e, match e with RpcError _ => Some (ret tt) | _ => None end)
  else ret tt.

(** [finally] *)
Definition cleanup : W unit :=
  p <- do ProcessIsSet;
  (if p then kill_group ;;; do CloseStdout else ret tt) ;;;
  do DoneSet ;;;
  do (HeartbeatJoin (sec 4)).

Definition execute (fuel : nat) (self : worker) (l : lease) : W unit :=
  match local_deadline l with
  | None => raise (KeyError "local_deadline")
  | Some d =>
      do (DeadlineSet d) ;;;
      do HeartbeatStart ;;;
      try_finally
        (try_except (attempt_body fuel self l) (λ exc, Some (on_exception self l exc)))
        cleanup
  end.
