(* ===== verification/WorkerSafety.v ===== *)
(** * WorkerSafety: what an attempt never does, whatever its environment answers

    [guard] lists, for every call of [execute], the condition under which it may be made; the
    main lemma shows that [execute] respects it in every environment that keeps [world].  The
    properties are its consequences. *)
From S2P Require Import Prelude Effects PyStr Json Sha256 Wire World Rpc Artifacts Worker.
Local Open Scope string_scope.
Local Open Scope list_scope.
Local Open Scope Z_scope.

(** ** Facts of a history *)
(** The last calls were a test of [alive] that succeeded. *)
Definition alive_now (h : list wevent) : Prop :=
  ∃ h0 (t d : Z), h = h0 ++ [ev LostIsSet false; ev Monotonic t; ev DeadlineGet d] ∧ t < d.

(** The group of the child has been sent SIGKILL. *)
Definition killed (h : list wevent) : Prop :=
  ∃ h1 x h2, h = h1 ++ ev KillPg x :: h2 ∧ popened h1 = true.

(** How often [poll] found the child running. *)
Definition running_poll (e : wevent) : bool :=
  on_event e (λ o, match o return wans o → bool with
                   | Poll => λ r, match r with None => true | Some _ => false end
                   | _ => λ _, false
                   end).
Definition running_polls (h : list wevent) : nat := length (List.filter running_poll h).

(** ** The guard *)
Section Guard.
Context (self : worker) (l : lease).

(** A request that carries the worker's session and the attempt's fencing token. *)
Definition fenced (q : request) : Prop :=
  rq_worker_id q = worker_id (w_rpc self) ∧ rq_session_id q = session_id (w_rpc self) ∧
  rq_attempt_id q = attempt_id (l_body l) ∧ rq_lease_token q = lease_token (l_body l).

(** A progress report within the batch limits. *)
Definition limited (q : request) : Prop :=
  (∃ lines, (length lines ≤ 100)%nat ∧
     rq_payload_json q = dumps (JObj [("logs", JArr (JStr <$> lines))])) ∨
  (∃ arts, (length arts ≤ 100)%nat ∧
     rq_payload_json q = dumps (JObj [("artifacts", JArr (artifact_json <$> arts))])).

(** The checkpoint of the lease is at the path the command is given, verified; without a
    checkpoint the command is given no path. *)
Definition resumed (h : list wevent) (env : gmap string string) : Prop :=
  match lease_checkpoint (l_body l) with
  | None => env !! "RUNGRID_CHECKPOINT_PATH" = None
  | Some a => ∃ path content,
      env !! "RUNGRID_CHECKPOINT_PATH" = Some path ∧
      ev (ReadFile path) (inr content) ∈ h ∧ sha256_hex content = checksum a
  end.

Definition reserved_env (env : gmap string string) : Prop :=
  env !! "RUNGRID_JOB_ID" = Some (job_id (l_body l)) ∧
  env !! "RUNGRID_ATTEMPT_ID" = Some (attempt_id (l_body l)) ∧
  env !! "RUNGRID_ATTEMPT_NUMBER" = Some (pretty (attempt_number (l_body l))).

Definition guard (h : list wevent) (o : wop) : Prop :=
  match o with
  | Stub m q _ =>
      fenced q ∧
      match m with
      | StartAttempt | FailAttempt => True
      | ReportProgress => acked StartAttempt h ∧ limited q
      | CompleteAttempt =>
          acked StartAttempt h ∧ exited h = Some 0 ∧ acked ReportProgress h ∧
          rq_payload_json q = dumps (JObj [("exit_code", JNum 0); ("reason", JStr EmptyString)])
      | _ => False
      end
  | Popen argv env =>
      popened h = false ∧ acked StartAttempt h ∧ alive_now h ∧
      argv = command (job_definition (l_body l)) ∧ resumed h env ∧ reserved_env env
  | PutObject _ _ _ _ _ =>
      acked StartAttempt h ∧ ∃ h0 path body, h = h0 ++ [ev (ReadFile path) body] ∧ alive_now h0
  | KillPg | Poll | ReturnCode | CloseStdout => popened h = true
  | DownloadFile _ _ _ => popened h = false
  | DeadlineSet d => local_deadline l = Some d
  | LostSet | DoneWait _ => False
  | _ => True
  end.
End Guard.

(** ** Calls that start no child *)
Definition calm (o : wop) : Prop := match o with Popen _ _ => False | _ => True end.

Lemma calm_popened h e : calm (projT1 e) → popened (h ++ [e]) = popened h.
Proof.
  intros He. rewrite popened_app. destruct e as [o x]. simpl.
  destruct o; simpl; try done; by rewrite !orb_false_r.
Qed.

Lemma popened_stable b : stable (S:=WorkerSig) calm (λ h, popened h = b).
Proof. intros h e He Hh. by rewrite calm_popened. Qed.
Lemma acked_stable P m : stable (S:=WorkerSig) P (acked m).
Proof. intros h e _. apply acked_app. Qed.
Lemma exited_stable P c : stable (S:=WorkerSig) P (λ h, exited h = Some c).
Proof. intros h e _ Hh. rewrite exited_app, Hh. apply exit_status_some. Qed.
Lemma has_exited_stable P : stable (S:=WorkerSig) P (λ h, is_Some (exited h)).
Proof. intros h e He [c Hh]. exists c. by apply (exited_stable P c). Qed.
#[export] Hint Resolve popened_stable acked_stable exited_stable has_exited_stable : rungrid.

(** ** Triples with an invariant

    [keeps I p]: from a history that satisfies [I], [p] respects the guard and keeps [I]; it is
    left without fuel only where [F] holds. *)
Section Keeps.
Context (self : worker) (l : lease) (F : list wevent → Prop).
Local Abbreviation wpg := (wp (S:=WorkerSig) world (guard self l)).

Definition keeps {A} (I : list wevent → Prop) (p : W A) : Prop :=
  ∀ h, I h → wpg p (λ r h', (r = OutOfFuel → F h') ∧ I h') h.

Context (I : list wevent → Prop) (HI : stable (S:=WorkerSig) calm I).

Lemma keeps_ret {A} (a : A) : keeps I (ret a).
Proof. by intros h Hh. Qed.

Lemma keeps_raise {A} e : keeps I (raise (A:=A) e).
Proof. by intros h Hh. Qed.

Lemma keeps_unwrap {A} (r : exn + A) : keeps I (unwrap r).
Proof. destruct r; [apply keeps_raise|apply keeps_ret]. Qed.

Lemma keeps_bind_val {A B} (p : W A) (f : A → W B) :
  keeps I p → (∀ a tr, traces p tr (Ok a) → keeps I (f a)) → keeps I (bind p f).
Proof.
  intros Hp Hf h Hh. apply wp_bind. eapply wp_mono; [by apply wp_traces, Hp|].
  intros [a|e|] h' [[HF Hh'] (tr & -> & Htr)]; simpl in *; [by eapply Hf|done|by split; [auto|]].
Qed.

Lemma keeps_bind {A B} (p : W A) (f : A → W B) :
  keeps I p → (∀ a, keeps I (f a)) → keeps I (bind p f).
Proof. intros Hp Hf. apply keeps_bind_val; [done|]. intros a _ _. apply Hf. Qed.

Lemma keeps_try_except {A} (p : W A) hd :
  keeps I p → (∀ e q, hd e = Some q → keeps I q) → keeps I (try_except p hd).
Proof.
  intros Hp Hq h Hh. apply wp_try_except. eapply wp_mono; [by apply Hp|].
  intros [a|e|] h' [HF Hh']; simpl in *; [done| |by split].
  destruct (hd e) eqn:He; [by eapply Hq|done].
Qed.

Lemma keeps_op (o : wop) : calm o → (∀ h, I h → guard self l h o) → keeps I (do o).
Proof using HI.
  intros Ho HG h Hh. split; [by apply HG|]. intros x _. split; [done|]. by apply HI.
Qed.

Lemma call_ops_calm rpc m ol wait payload o : call_ops rpc m ol wait payload o → calm o.
Proof. by destruct o. Qed.

(** Of the calls of [call], only the send is guarded. *)
Lemma call_ops_guard m wait payload :
  (∀ h rid t, I h → guard self l h (Stub m (make_request (w_rpc self) (Some l) wait rid payload) t)) →
  ∀ h o, I h → call_ops (w_rpc self) m (Some l) wait payload o → guard self l h o.
Proof.
  intros HG h o Hh Ho. destruct o; try done. destruct Ho as [-> [rid ->]]. by apply HG.
Qed.

Lemma keeps_call m timeout wait rid payload :
  (∀ h rid t, I h → guard self l h (Stub m (make_request (w_rpc self) (Some l) wait rid payload) t)) →
  keeps I (call (w_rpc self) m (Some l) timeout wait rid payload).
Proof using HI.
  intros HG h Hh. apply (wp_call _ I); [|done|by apply call_ops_guard|by intros].
  eapply stable_mono; [|exact HI]. apply call_ops_calm.
Qed.
End Keeps.

Create HintDb keeps discriminated.
#[export] Hint Resolve keeps_ret keeps_raise keeps_unwrap : keeps.

(** Structural steps of a [keeps] goal; what is left are the guards of calls. *)
Ltac keeps_step :=
  lazymatch goal with
  | |- keeps _ _ _ _ (bind _ _) => apply keeps_bind; [|intros ?]
  | |- keeps _ _ _ _ (ret _) => apply keeps_ret
  | |- keeps _ _ _ _ (raise _) => apply keeps_raise
  | |- keeps _ _ _ _ (unwrap _) => apply keeps_unwrap
  | |- keeps _ _ _ _ (do _) => apply keeps_op; [done|done|try (by intros; simpl)]
  | |- keeps _ _ _ _ (if ?b then _ else _) => destruct b eqn:?
  | |- keeps _ _ _ _ (match ?x with _ => _ end) => destruct x
  | |- _ => progress eauto with keeps
  end.
Ltac keeps := repeat keeps_step.

Section Phases.
Context (self : worker) (l : lease) (F : list wevent → Prop).
Local Abbreviation wpg := (wp (S:=WorkerSig) world (guard self l)).
Local Abbreviation post I := (λ r h', (r = OutOfFuel → F h') ∧ I h').
Context (I : list wevent → Prop) (HI : stable (S:=WorkerSig) calm I).

(** *** Before and after the attempt has been acknowledged *)
Lemma keeps_alive : keeps self l F I alive.
Proof using HI. unfold alive. keeps. Qed.

Lemma wp_alive Q h :
  (∀ tr, Forall (λ e : wevent, calm (projT1 e)) tr → Q (Ok false) (h ++ tr)) →
  (∀ tr, Forall (λ e : wevent, calm (projT1 e)) tr → alive_now (h ++ tr) → Q (Ok true) (h ++ tr)) →
  wpg alive Q h.
Proof.
  intros Hf Ht. split; [done|]. intros [] _.
  { apply Hf. by repeat constructor. }
  split; [done|]. intros t _. split; [done|]. intros d _. rewrite <- !app_assoc. simpl.
  destruct (t <? d) eqn:Hlt; [apply Ht|apply Hf]; try by repeat constructor.
  apply Z.ltb_lt in Hlt. by exists h, t, d.
Qed.

Lemma keeps_log msg rid fields : keeps self l F I (log self msg (Some l) rid fields).
Proof using HI. unfold log. keeps. Qed.

Lemma fenced_request wait rid payload :
  fenced self l (make_request (w_rpc self) (Some l) wait rid payload).
Proof. done. Qed.

Lemma keeps_fail payload :
  keeps self l F I (call (w_rpc self) FailAttempt (Some l) (sec 10) 0 None payload).
Proof using HI. apply keeps_call; [done|]. by intros. Qed.

Hypothesis Hack : ∀ h, I h → acked StartAttempt h.

Lemma wp_put_once bucket path key sum knd h :
  I h → alive_now h → wpg (put_once bucket path key sum knd) (post I) h.
Proof using HI Hack.
  intros Hh Ha. split; [done|]. intros body _.
  assert (I (h ++ [ev (ReadFile path) body])) as Hh1 by by apply HI.
  destruct body as [e|body]; simpl; [by split|]. split.
  { split; [by apply Hack|]. by eexists _, _, _. }
  intros [e|[]] _; simpl; [split; [done|by apply HI]|]. split; [done|].
  intros [e|size] _; simpl; (split; [done|]); by repeat apply HI.
Qed.

Lemma keeps_upload_loop bucket path key sum knd pre :
  4 ∉ pre → keeps self l F I (upload_loop (pre ++ [4]) alive bucket path key sum knd).
Proof using HI Hack.
  intros Hpre. induction pre as [|attempt pre IH]; intros h Hh; cbn [upload_loop app];
    apply wp_bind, wp_alive.
  1, 3: intros tr Htr; cbn [negb]; apply wp_raise; split; [done|]; by eapply stable_app.
  all: intros tr Htr Ha; cbn [negb]; apply wp_try_except.
  all: eapply wp_mono; [by apply wp_put_once; [eapply stable_app|]|].
  all: intros [a|e|] h' [HF Hh']; [done| |done]; simpl; split; [done|]; intros [] _.
  - split; [done|]. by apply HI.
  - destruct (attempt =? 4) eqn:E4; [apply Z.eqb_eq in E4; set_solver|].
    split; [done|]. intros [] _. apply IH; [set_solver|]. by repeat apply HI.
Qed.

Lemma keeps_upload path knd :
  keeps self l F I (upload (w_bucket self) path l knd alive).
Proof using HI Hack.
  unfold upload, digest, get_prefix. keeps.
  apply (keeps_upload_loop _ _ _ _ _ [0; 1; 2; 3]). set_solver by lia.
Qed.

(** *** Progress *)
Lemma keeps_drain n : keeps self l F I (drain n).
Proof using HI. induction n as [|n IH]; simpl; keeps. Qed.

Lemma drain_length n tr lines : traces (drain n) tr (Ok lines) → (length lines ≤ n)%nat.
Proof.
  revert tr lines. induction n as [|n IH]; intros tr lines; simpl.
  { by intros [_ [= ->]]. }
  intros ([line|] & tr' & -> & Htr); [|destruct Htr as [_ [= ->]]; simpl; lia].
  unfold bind in Htr. rewrite traces_bind in Htr.
  destruct Htr as (tr1 & [rest|e|] & tr2 & Hrest & [_ [= ->]] & _). simpl.
  apply IH in Hrest. lia.
Qed.

Lemma keeps_stat_all paths : keeps self l F I (stat_all paths).
Proof using HI. induction paths as [|p ps IH]; simpl; keeps. Qed.

Lemma keeps_upload_new uploaded paths : keeps self l F I (upload_new self l uploaded paths).
Proof using HI Hack.
  induction paths as [|p ps IH]; simpl; keeps. apply keeps_upload.
Qed.

Lemma keeps_report b :
  (length b ≤ 100)%nat → keeps self l F I (report_artifacts self l b).
Proof using HI Hack.
  intros Hb. apply keeps_call; [done|]. intros h rid t Hh. split; [done|].
  split; [by apply Hack|]. right. by exists b.
Qed.

Lemma keeps_report_new bs uploaded :
  Forall (λ b, length b ≤ 100)%nat bs → keeps self l F I (report_new self l bs uploaded).
Proof using HI Hack.
  intros Hbs. revert uploaded. induction Hbs as [|b bs Hb Hbs IH]; intros uploaded; simpl; keeps.
  apply keeps_report. by rewrite length_fmap.
Qed.

Lemma keeps_log_lines rid lines : keeps self l F I (log_lines self l rid lines).
Proof using HI. induction lines as [|x lines IH]; simpl; keeps. apply keeps_log. Qed.

Lemma batches_forall {A} n (xs : list A) : Forall (λ b, length b ≤ n)%nat (batches n xs).
Proof. apply Forall_forall. intros b. apply batches_length. Qed.

Lemma keeps_progress checkpoints uploaded :
  keeps self l F I (progress self l checkpoints uploaded).
Proof using HI Hack.
  unfold progress. apply keeps_bind_val; [apply keeps_drain|].
  intros batch tr Hbatch%drain_length. keeps.
  1: apply keeps_stat_all. 1: apply keeps_upload_new.
  all: try (apply keeps_log_lines || apply keeps_report_new, batches_forall).
  all: apply keeps_call; [done|]; intros h rid t Hh; split; [done|];
    split; [by apply Hack|]; left; by eexists.
Qed.
End Phases.

Lemma running_polls_app h h' : running_polls (h ++ h') = (running_polls h + running_polls h')%nat.
Proof. unfold running_polls. by rewrite List.filter_app, length_app. Qed.

Lemma running_polls_stable P n : stable (S:=WorkerSig) P (λ h, (n ≤ running_polls h)%nat).
Proof. intros h e _ Hh. rewrite running_polls_app. lia. Qed.
#[export] Hint Resolve running_polls_stable : rungrid.

Section Child.
Context (self : worker) (l : lease) (F : list wevent → Prop).
Local Abbreviation wpg := (wp (S:=WorkerSig) world (guard self l)).
Context (I : list wevent → Prop) (HI : stable (S:=WorkerSig) calm I).
Hypothesis Hack : ∀ h, I h → acked StartAttempt h.
Hypothesis Hpop : ∀ h, I h → popened h = true.

Lemma keeps_kill_group : keeps self l F I kill_group.
Proof using HI Hpop. unfold kill_group. keeps. Qed.

Lemma keeps_join_reader : keeps self l F I join_reader.
Proof using HI Hpop. unfold join_reader. keeps. Qed.

(** *** The polling loop *)
Lemma wp_poll_loop fuel k checkpoints uploaded h :
  I h → (k ≤ running_polls h)%nat → (∀ h', (k + fuel ≤ running_polls h')%nat → F h') →
  wpg (poll_loop fuel self l checkpoints uploaded)
    (λ r h', (r = OutOfFuel → F h') ∧ I h' ∧ ∀ u, r = Ok (Some u) → is_Some (exited h')) h.
Proof using HI Hack Hpop.
  revert k uploaded h. induction fuel as [|fuel IH]; intros k uploaded h Hh Hk HF.
  { split; [|by split]. intros _. apply HF. lia. }
  cbn [poll_loop]. apply wp_bind. split; [by apply Hpop|]. intros rc Hrc.
  assert (I (h ++ [ev Poll rc])) as Hh1 by by apply HI.
  destruct rc as [c|].
  { apply wp_ret. split; [done|]. split; [done|]. intros u [= ->].
    rewrite exited_app. simpl. by destruct (exited h). }
  set (I' h := I h ∧ (S k ≤ running_polls h)%nat).
  assert (stable (S:=WorkerSig) calm I') as HI' by (apply stable_and; auto with rungrid).
  assert (I' (h ++ [ev Poll None])) as Hh1'.
  { split; [done|]. rewrite running_polls_app. cbn. lia. }
  apply wp_bind. eapply wp_mono; [by apply (keeps_alive self l F I')|].
  intros [a|e|] h2 [HF2 [Hh2 Hk2]]; [|by repeat split|by repeat split; auto].
  destruct a; cbn [negb].
  - apply wp_bind. eapply wp_mono;
      [by apply (keeps_progress self l F I' HI'); [intros ? []; auto|]|].
    intros [u|e|] h3 [HF3 [Hh3 Hk3]]; [|by repeat split|by repeat split; auto].
    apply wp_bind. split; [done|]. intros [] _. apply (IH (S k)).
    + by apply HI.
    + rewrite running_polls_app. lia.
    + intros h' Hh'. apply HF. lia.
  - apply wp_bind. eapply wp_mono; [by apply keeps_kill_group|].
    intros [[]|e|] h3 [HF3 Hh3]; by repeat split; auto.
Qed.

(** *** After the command *)
Lemma keeps_upload_outputs paths : keeps self l F I (upload_outputs self l paths).
Proof using HI Hack.
  induction paths as [|p ps IH]; simpl; keeps. by apply keeps_upload.
Qed.

Lemma keeps_report_all bs :
  Forall (λ b, length b ≤ 100)%nat bs → keeps self l F I (report_all self l bs).
Proof using HI Hack.
  induction 1 as [|b bs Hb Hbs IH]; simpl; keeps. by apply keeps_report.
Qed.
End Child.

(** The outcome is reported after the child has exited and its files have been reported. *)
Section Outcome.
Context (self : worker) (l : lease) (F : list wevent → Prop).
Local Abbreviation wpg := (wp (S:=WorkerSig) world (guard self l)).
Context (I : list wevent → Prop) (HI : stable (S:=WorkerSig) calm I).
Hypothesis Hack : ∀ h, I h → acked StartAttempt h.
Hypothesis Hpop : ∀ h, I h → popened h = true.
Hypothesis Hexit : ∀ h, I h → is_Some (exited h).

Lemma keeps_send_outcome c :
  keeps self l F (λ h, (I h ∧ acked ReportProgress h) ∧ exited h = Some c)
    (send_outcome self l c).
Proof using HI Hack.
  assert (stable (S:=WorkerSig) calm (λ h, (I h ∧ acked ReportProgress h) ∧ exited h = Some c))
    as HI' by auto with rungrid.
  unfold send_outcome. cbv zeta. keeps; [|by apply keeps_log].
  apply keeps_call; [done|]. intros h rid t [[Hh Hrep] Hc].
  destruct (c =? 0) eqn:E; [apply Z.eqb_eq in E as ->|]; split; try done.
  split_and!; [by apply Hack|done..].
Qed.

Lemma keeps_report_outcome :
  keeps self l F (λ h, I h ∧ acked ReportProgress h) (report_outcome self l).
Proof using HI Hack Hpop Hexit.
  intros h [Hh Hrep]. apply wp_bind. split; [by apply Hpop|]. intros rc Hrc.
  destruct (Hexit h Hh) as [c Hc].
  assert (rc = c) as ->.
  { unfold world, on_event in Hrc. simpl in Hrc. rewrite Hc in Hrc. by apply Z.eqb_eq. }
  apply wp_ret. eapply wp_mono; [apply (keeps_send_outcome c)|].
  - split; [split|]; [by apply HI|by apply acked_app|by apply (exited_stable calm)].
  - intros r h' [HF [Hh' _]]. by split.
Qed.

Lemma keeps_report_files e es :
  keeps self l F I (report_all self l (batches 100 (e :: es)) ;;; report_outcome self l).
Proof using HI Hack Hpop Hexit.
  pose proof (batches_forall 100 (e :: es)) as Hbs.
  assert (∃ b bs, batches 100 (e :: es) = b :: bs) as (b & bs & Heq) by by eexists _, _.
  rewrite Heq in *. apply Forall_cons in Hbs as [Hb Hbs].
  assert (stable (S:=WorkerSig) calm (λ h, I h ∧ acked ReportProgress h)) as HI'
    by auto with rungrid.
  intros h Hh. apply wp_bind. cbn [report_all]. apply wp_bind.
  apply (wp_call _ I); [|done| |].
  - eapply stable_mono; [|exact HI]. apply call_ops_calm.
  - apply call_ops_guard. intros h' rid t Hh'.
    split; [done|]. split; [by apply Hack|]. right. by exists b.
  - intros tr [res|e'|] Hr Hacked Hh'; [|by split..].
    eapply wp_mono; [apply (keeps_report_all self l F _ HI'); [by intros ? []; auto|done|]|].
    { split; [done|]. by eapply Hacked. }
    intros [[]|e'|] h' [HF Hh'']; [|by split; [|apply Hh'']..].
    eapply wp_mono; [by apply keeps_report_outcome|]. intros r h'' [? [? _]]. by split.
Qed.

Lemma keeps_finish root uploaded : keeps self l F I (finish self l root uploaded).
Proof using HI Hack Hpop Hexit.
  unfold finish.
  apply keeps_bind; [by apply keeps_kill_group|intros _].
  apply keeps_bind; [by apply keeps_join_reader|intros _].
  apply keeps_bind; [by apply keeps_alive|intros a].
  destruct (negb a); [apply keeps_ret|].
  apply keeps_bind; [by apply keeps_progress|intros _].
  apply keeps_bind; [by apply keeps_upload|intros e].
  apply keeps_bind; [keeps|intros r].
  apply keeps_bind; [keeps|intros paths].
  apply keeps_bind; [by apply keeps_upload_outputs|intros es].
  apply keeps_report_files.
Qed.
End Outcome.

(** ** Starting the command *)
Lemma child_env_reserved environ extra l outputs checkpoints :
  reserved_env l (child_env environ extra l outputs checkpoints) ∧
  child_env environ extra l outputs checkpoints !! "RUNGRID_CHECKPOINT_PATH" = None.
Proof. unfold reserved_env, child_env. split_and!; by simplify_map_eq. Qed.

Lemma resumed_app l h tr env : resumed l h env → resumed l (h ++ tr) env.
Proof.
  unfold resumed. destruct (lease_checkpoint (l_body l)); [|done].
  intros (path & content & ? & ? & ?). exists path, content. set_solver.
Qed.

Section Start.
Context (self : worker) (l : lease) (F : list wevent → Prop).
Local Abbreviation wpg := (wp (S:=WorkerSig) world (guard self l)).

(** The attempt has been acknowledged and no child has been started. *)
Definition ready (h : list wevent) : Prop := acked StartAttempt h ∧ popened h = false.
Lemma ready_stable : stable (S:=WorkerSig) calm ready.
Proof. unfold ready. auto with rungrid. Qed.
Hint Resolve ready_stable : core.

Lemma keeps_restore a path : keeps self l F ready (restore (w_bucket self) a path).
Proof. unfold restore, digest. keeps. by intros h []. Qed.

Lemma wp_resume root extra h :
  let env := child_env (w_environ self) extra l (root +:+ "/outputs") (root +:+ "/checkpoints") in
  ready h →
  wpg (resume self l root env)
    (λ r h', (r = OutOfFuel → F h') ∧ ready h' ∧
             ∀ env', r = Ok env' → resumed l h' env' ∧ reserved_env l env') h.
Proof.
  intros env Hh. destruct (child_env_reserved (w_environ self) extra l
    (root +:+ "/outputs") (root +:+ "/checkpoints")) as [Hres Hpath].
  unfold resume, resumed. destruct (lease_checkpoint (l_body l)) as [a|] eqn:Hck.
  2: { split; [done|]. split; [done|]. intros env' [= <-]. by split. }
  apply wp_bind. eapply wp_mono; [by apply wp_traces, keeps_restore|].
  intros [[]|e|] h' [[HF Hh'] (tr & -> & Htr)]; [|by split; [auto|split]..].
  apply wp_ret. split; [done|]. split; [done|]. intros env' [= <-]. split.
  - apply restore_traces in Htr as [(content & -> & Hr)|[(e & _ & ?)|(e & _ & ?)]]; [|done..].
    destruct (decide _) as [Hsum|]; [|done]. eexists _, content.
    split; [by apply lookup_insert_eq|]. set_solver.
  - unfold reserved_env in *. rewrite !lookup_insert_ne by done. done.
Qed.

(** The child runs, and the attempt has been acknowledged. *)
Definition running (h : list wevent) : Prop := acked StartAttempt h ∧ popened h = true.
Lemma running_stable : stable (S:=WorkerSig) calm running.
Proof. unfold running. auto with rungrid. Qed.
Hint Resolve running_stable : core.

Lemma wp_child fuel root h :
  running h → (∀ h', (fuel ≤ running_polls h')%nat → F h') →
  wpg (run_child fuel self l root) (λ r h', r = OutOfFuel → F h') h.
Proof.
  intros Hh HF. apply wp_bind. split; [done|]. intros [] _. apply wp_ret, wp_bind.
  eapply wp_mono; [apply (wp_poll_loop self l F running running_stable) with (k := 0%nat)|].
  - by intros ? [].
  - by intros ? [].
  - by apply running_stable.
  - lia.
  - done.
  - intros [[uploaded|]|e|] h' (HF' & Hh' & Hex); try done; [|by intros _; apply HF'].
    assert (stable (S:=WorkerSig) calm (λ h, running h ∧ is_Some (exited h))) as HI
      by auto with rungrid.
    eapply wp_mono; [apply (keeps_finish self l F _ HI)|]; [by intros ? [[]]..|by intros ? []| |].
    + split; [done|]. by eapply Hex.
    + by intros r h'' [? _].
Qed.

Lemma wp_in_directory fuel root h :
  ready h → (∀ h', (fuel ≤ running_polls h')%nat → F h') →
  wpg (in_directory fuel self l root) (λ r h', r = OutOfFuel → F h') h.
Proof.
  intros Hh HF.
  assert (∀ A (p : W A) (f : A → W unit) h, keeps self l F ready p → ready h →
    (∀ a h', ready h' → wpg (f a) (λ r h', r = OutOfFuel → F h') h') →
    wpg (bind p f) (λ r h', r = OutOfFuel → F h') h) as Hseq.
  { intros A p f h0 Hp Hh0 Hf. apply wp_bind. eapply wp_mono; [by apply Hp|].
    intros [a|e|] h' [HF' Hh']; [by apply Hf|by intros|intros _; by apply HF']. }
  unfold in_directory. do 5 (apply Hseq; [unfold get_environment; keeps|done|clear h Hh; intros ? h Hh]).
  cbv zeta. apply wp_bind. eapply wp_mono; [by apply wp_resume|].
  intros [env|e|] h1 (HF1 & Hh1 & Henv); [|by intros|intros _; by apply HF1].
  destruct (Henv env eq_refl) as [Hres Hrsv]. apply wp_bind, wp_alive; [done|].
  intros tr Htr Ha. cbn [negb].
  assert (ready (h1 ++ tr)) as [Hack Hpop] by by eapply stable_app.
  apply wp_bind. split.
  { split_and!; [done|done|done|done|by apply resumed_app|done]. }
  intros [e|[]] _; apply wp_ret, wp_bind; [done|]. apply wp_ret, wp_child; [|done].
  split; [by apply acked_app|]. rewrite popened_app. simpl. by rewrite orb_true_r.
Qed.
End Start.

(** ** The attempt *)
Section Attempt.
Context (self : worker) (l : lease) (fuel : nat).
Local Abbreviation wpg := (wp (S:=WorkerSig) world (guard self l)).
Let F h := (fuel ≤ running_polls h)%nat.
Let nothing (h : list wevent) : Prop := popened h = false.

Lemma F_stable P : stable (S:=WorkerSig) P F.
Proof. apply running_polls_stable. Qed.

Lemma wp_attempt_body h :
  nothing h → wpg (attempt_body fuel self l) (λ r h', r = OutOfFuel → F h') h.
Proof.
  intros Hh. assert (stable (S:=WorkerSig) calm nothing) as HI by apply popened_stable.
  unfold attempt_body. apply wp_bind, wp_alive; [done|]. intros tr Htr Ha. cbn [negb].
  assert (nothing (h ++ tr)) as Hh1 by by eapply stable_app.
  apply wp_bind. split; [done|]. intros d _. apply wp_ret, wp_bind. split; [done|]. intros now _.
  apply wp_ret, wp_bind. apply (wp_call _ nothing); [|by repeat apply HI|by apply call_ops_guard|].
  { eapply stable_mono; [|exact HI]. apply call_ops_calm. }
  intros tr1 [res|e|] Hr Hack Hh2; [|by intros|by intros].
  apply wp_bind, wp_bind. split; [done|]. intros [e|[]] _; apply wp_ret; [by intros|].
  apply wp_ret, wp_bind. split; [done|]. intros [e|root] _; apply wp_ret, wp_bind; [done|].
  apply wp_ret, wp_try_finally. eapply wp_mono; [apply (wp_in_directory self l F)|].
  - split; [do 2 apply acked_app; by eapply Hack|apply HI; [done|by apply HI]].
  - done.
  - intros [[]|e|] h' HF; [| |by auto]; apply wp_bind; (split; [done|]);
      intros [e'|[]] _; by apply wp_ret.
Qed.

Lemma wp_on_exception exc h :
  wpg (on_exception self l exc) (λ r h', r ≠ OutOfFuel) h.
Proof.
  assert (stable (S:=WorkerSig) calm (λ _, True)) as HI by done.
  assert (keeps self l (λ _, False) (λ _, True) (on_exception self l exc)) as Hk.
  { unfold on_exception. apply keeps_bind; [by apply keeps_log|intros _].
    apply keeps_bind; [by apply keeps_alive|intros []]; [|apply keeps_ret].
    apply keeps_try_except; [apply keeps_bind; [by apply keeps_fail|intros; apply keeps_ret]|].
    intros [] q; try done. intros [= <-]. apply keeps_ret. }
  eapply wp_mono; [by apply Hk|]. intros r h' [Hr _] ->. by apply Hr.
Qed.
End Attempt.

(** ** [execute] *)
Section Execute.
Context (self : worker) (l : lease) (fuel : nat).
Local Abbreviation wpg := (wp (S:=WorkerSig) world (guard self l)).

Lemma killed_app h tr : killed h → killed (h ++ tr).
Proof.
  intros (h1 & x & h2 & -> & ?). exists h1, x, (h2 ++ tr). by rewrite <- app_assoc.
Qed.

Lemma wp_cleanup h :
  wpg cleanup (λ r h', r ≠ OutOfFuel ∧ (popened h' = true → killed h')) h.
Proof.
  unfold cleanup. apply wp_bind. split; [done|]. intros b Hb. apply wp_ret.
  unfold world, on_event in Hb. simpl in Hb. apply Bool.eqb_prop in Hb as ->.
  set (h1 := h ++ _).
  assert (popened h1 = popened h) as Hh1 by by apply calm_popened.
  rewrite <- Hh1. clearbody h1. clear h Hh1.
  assert (∀ h2, (popened h2 = true → killed h2) →
    wpg (do DoneSet ;;; do (HeartbeatJoin (sec 4)))
      (λ r h', r ≠ OutOfFuel ∧ (popened h' = true → killed h')) h2) as Hend.
  { intros h2 Hk. split; [done|]. intros [] _. split; [done|]. intros [] _. split; [done|].
    rewrite !calm_popened by done. intros Hp. by do 2 apply killed_app; apply Hk. }
  apply wp_bind. destruct (popened h1) eqn:Hp.
  2: { apply wp_ret, Hend. congruence. }
  assert (∀ x, killed (h1 ++ [ev KillPg x])) as Hk.
  { intros x. by exists h1, x, []. }
  assert (stable (S:=WorkerSig) calm (λ h, popened h = true ∧ killed h)) as HI.
  { apply stable_and; [apply popened_stable|]. intros h e _. apply killed_app. }
  apply wp_bind. split; [done|]. intros x _.
  assert (popened (h1 ++ [ev KillPg x]) = true) as Hp1 by by rewrite calm_popened.
  specialize (Hk x).
  destruct x as [[]|[]]; try (split; [done|intros _; exact Hk]).
  all: split; [done|]; intros [] _; split; [by apply (popened_stable true)|]; intros [] _.
  all: apply wp_ret, Hend; intros _; by do 2 apply killed_app.
Qed.

Lemma execute_safe :
  wpg (execute fuel self l)
    (λ r h', (r = OutOfFuel → (fuel ≤ running_polls h')%nat) ∧
             (r ≠ OutOfFuel → popened h' = true → killed h')) [].
Proof.
  unfold execute. destruct (local_deadline l) as [d|] eqn:Hd; [|by split].
  apply wp_bind. split; [exact Hd|]. intros [] _. apply wp_ret, wp_bind. split; [done|].
  intros [] _. apply wp_ret, wp_try_finally, wp_try_except.
  eapply wp_mono; [by apply wp_attempt_body|].
  assert (∀ (r : outcome unit) h, r ≠ OutOfFuel → wpg cleanup (λ r' h',
    let safe (r : outcome unit) := (r = OutOfFuel → (fuel ≤ running_polls h')%nat) ∧
                                   (r ≠ OutOfFuel → popened h' = true → killed h') in
    match r' with Ok _ => safe r | Raised e => safe (Raised e) | OutOfFuel => safe OutOfFuel end) h)
    as Hclean.
  { intros r h Hr. eapply wp_mono; [apply wp_cleanup|]. intros [[]|e|] h' [? ?]; by split. }
  intros [[]|e|] h HF; [by apply Hclean| |].
  - eapply wp_mono; [apply wp_on_exception|]. intros [[]|e'|] h' Hr; try done; by apply Hclean.
  - split; [by auto|done].
Qed.
End Execute.

(** ** Properties *)
Lemma execute_guarded fuel self l tr r tr1 e tr2 :
  traces (execute fuel self l) tr r → consistent world tr = true → tr = tr1 ++ e :: tr2 →
  guard self l tr1 (projT1 e).
Proof.
  intros Htr Hc Heq. eapply (wp_sound _ _ _ _ [] tr r) in Htr as [_ HG];
    [|apply execute_safe|done]. by eapply HG.
Qed.


(** C15. The command is started at most once, after [StartAttempt] was acknowledged and right
    after the lease was found alive; it gets its identifiers whatever the job's environment
    sets, and the path of a checkpoint exactly when the lease has one, whose content was
    verified against the recorded digest. *)
Theorem command_started_once_and_verified fuel self l tr r tr1 argv env a tr2 :
  traces (execute fuel self l) tr r → consistent world tr = true →
  tr = tr1 ++ ev (Popen argv env) a :: tr2 →
  popened tr1 = false ∧ acked StartAttempt tr1 ∧ alive_now tr1 ∧
  argv = command (job_definition (l_body l)) ∧ resumed l tr1 env ∧ reserved_env l env.
Proof. intros Htr Hc Heq. by eapply (execute_guarded fuel self l) in Heq. Qed.

(** Nothing is stored without a live lease: each store directly follows a test that found
    the lease alive and the opening of the file. *)
Theorem stores_only_while_alive fuel self l tr r tr1 b k body s c a tr2 :
  traces (execute fuel self l) tr r → consistent world tr = true →
  tr = tr1 ++ ev (PutObject b k body s c) a :: tr2 →
  acked StartAttempt tr1 ∧
  ∃ h0 path content, tr1 = h0 ++ [ev (ReadFile path) content] ∧ alive_now h0.
Proof. intros Htr Hc Heq. by eapply (execute_guarded fuel self l) in Heq. Qed.

(** Every request of an attempt is one of the four attempt mutations and carries the
    worker's session and the lease's token; a progress report holds at most 100 log lines or
    100 artifacts, and follows an acknowledged [StartAttempt]. *)
Theorem attempt_requests_fenced_and_limited fuel self l tr r tr1 m q t a tr2 :
  traces (execute fuel self l) tr r → consistent world tr = true →
  tr = tr1 ++ ev (Stub m q t) a :: tr2 →
  fenced self l q ∧ m ∈ [StartAttempt; ReportProgress; CompleteAttempt; FailAttempt] ∧
  (m = ReportProgress → acked StartAttempt tr1 ∧ limited q).
Proof.
  intros Htr Hc Heq.
  destruct (execute_guarded fuel self l tr r tr1 _ tr2 Htr Hc Heq) as [Hf Hm].
  split; [done|]. destruct m; try done; by split; [set_solver|intros].
Qed.

(** C14. However the attempt ends, a started child does not outlive it: its process group has
    been sent SIGKILL when [execute] returns or raises. *)
Theorem no_child_survives fuel self l tr r :
  traces (execute fuel self l) tr r → consistent world tr = true →
  r ≠ OutOfFuel → popened tr = true → killed tr.
Proof.
  intros Htr Hc.
  destruct (wp_sound _ _ _ _ [] tr r (execute_safe self l fuel) Htr Hc) as [[_ HQ] _]. exact HQ.
Qed.

(** C36. [execute] returns once the child has exited: the only unbounded wait is for the child,
    so a child found running fewer than [fuel] times makes [execute fuel] end. *)
Theorem execute_ends_with_child fuel self l tr r :
  traces (execute fuel self l) tr r → consistent world tr = true →
  (running_polls tr < fuel)%nat → r ≠ OutOfFuel.
Proof.
  intros Htr Hc Hp ->.
  destruct (wp_sound _ _ _ _ [] tr _ (execute_safe self l fuel) Htr Hc) as [[HQ _] _].
  specialize (HQ eq_refl). simpl in HQ. lia.
Qed.

(** ** A job without an environment

    The API stores a job submitted without [environment] with the value [null] for that key. *)
Definition starts_or_completes (o : wop) : Prop :=
  match o with Popen _ _ | Stub CompleteAttempt _ _ => True | _ => False end.
Local Abbreviation idle_op := (λ o, ¬ starts_or_completes o).

Lemma idle_call self m l timeout wait rid payload :
  m ≠ CompleteAttempt → ops_in (S:=WorkerSig) idle_op (call self m l timeout wait rid payload).
Proof.
  intros Hm. eapply ops_in_mono; [|apply call_ops_in]. intros [] Ho; try done; try (by intros []).
  destruct Ho as [-> _]. destruct m; by try intros [].
Qed.

Lemma idle_alive : ops_in (S:=WorkerSig) idle_op alive.
Proof.
  split; [by intros []|]. intros []; [done|].
  split; [by intros []|]. intros t. split; [by intros []|]. done.
Qed.

Lemma idle_kill_group : ops_in (S:=WorkerSig) idle_op kill_group.
Proof. split; [by intros []|]. intros [[]|[]]; try done; (split; [by intros []|]); by intros []. Qed.
#[local] Hint Resolve idle_call idle_alive idle_kill_group : ops.

Ltac idle :=
  repeat first
    [ apply idle_alive | apply idle_kill_group | apply idle_call; discriminate
    | apply ops_in_unwrap | apply ops_in_try_finally
    | apply (ops_in_call_op (S:=WorkerSig)); by intros []
    | match goal with
      | |- ops_in _ (bind (raise _) _) => exact I
      | |- ops_in _ (bind _ _) => apply ops_in_py_bind; [|intros ?]
      | |- ops_in _ (match ?b with _ => _ end) => destruct b
      end
    | done ].

(** Such a job never runs: its attempts end in the exception of the dictionary merge, so no
    command is started and no attempt is ever reported complete, whatever the environment does. *)
Lemma null_environment_stops fuel self l tr r :
  environment (job_definition (l_body l)) = Null →
  traces (execute fuel self l) tr r → Forall (λ e, ¬ starts_or_completes (projT1 e)) tr.
Proof.
  intros Hnull Htr. apply (ops_in_traces (S:=WorkerSig) idle_op _ _ _) in Htr; [exact Htr|]. clear Htr.
  unfold execute. destruct (local_deadline l) as [d|]; [|done].
  apply ops_in_py_bind; [by idle|intros _]. apply ops_in_py_bind; [by idle|intros _].
  apply ops_in_try_finally; [apply ops_in_try_except|].
  - unfold attempt_body, in_directory, open_client. rewrite Hnull. unfold get_environment. by idle.
  - intros e q [= <-]. unfold on_exception, log. idle. apply ops_in_try_except; [by idle|].
    intros [] q; try done. intros [= <-]. done.
  - unfold cleanup. by idle.
Qed.

(** ** A concrete attempt

    A resumed attempt whose command exits with status 0 and leaves one checkpoint. *)
Definition demo_worker : worker :=
  Worker (MkRPC "w1" "s1") {["PATH" := "/bin"]} (λ _, "error").
Definition demo_checkpoint : artifact :=
  Artifact "demo/j1/a0/checkpoint/u-c.json" octet_stream 3
    "ba7816bf8f01cfea414140de5dae2223b00361a396177a9cb410ff61f20015ad" "checkpoint".
Definition demo_attempt : lease :=
  Lease (LeaseBody "j1"
           (Definition_ ["true"] (Value {["RUNGRID_JOB_ID" := "fake"]}) (Value "/demo/"))
           "a1" 2 "t1" (Some demo_checkpoint)) (Some (sec 15)).
Definition demo_ack (n : nat) (m : method) (r : request) : status + reply :=
  inr (Reply None None false None).
Definition demo_exec : outcome unit * list wevent :=
  run (demo_env demo_ack (λ _, "abc") 0 ["/tmp/rungrid-1/checkpoints/c.json"])
      (execute 5 demo_worker demo_attempt) [].

Lemma demo_exec_traces : traces (execute 5 demo_worker demo_attempt) demo_exec.2 demo_exec.1.
Proof. apply traces_run. Qed.
Lemma demo_exec_consistent : consistent world demo_exec.2 = true.
Proof. by vm_compute. Qed.


Lemma command_started_once_and_verified_witness :
  ∃ env, popened (take 20 demo_exec.2) = false ∧ alive_now (take 20 demo_exec.2) ∧
         resumed demo_attempt (take 20 demo_exec.2) env ∧ reserved_env demo_attempt env.
Proof.
  pose (env := <["RUNGRID_CHECKPOINT_PATH" := "/tmp/rungrid-1/resume.json"]>
    (child_env {["PATH" := "/bin"]} {["RUNGRID_JOB_ID" := "fake"]} demo_attempt
       "/tmp/rungrid-1/outputs" "/tmp/rungrid-1/checkpoints")).
  exists env.
  assert (demo_exec.2 = take 20 demo_exec.2 ++ ev (Popen ["true"] env) (inr tt) :: drop 21 demo_exec.2)
    as Heq by by vm_compute.
  destruct (command_started_once_and_verified 5 demo_worker demo_attempt demo_exec.2 demo_exec.1
    _ _ env _ _ demo_exec_traces demo_exec_consistent Heq) as (? & _ & ? & _ & ? & ?).
  by split_and!.
Defined.

Lemma stores_only_while_alive_witness :
  ∃ h0 path content,
    take 35 demo_exec.2 = h0 ++ [ev (ReadFile path) content] ∧ alive_now h0.
Proof.
  assert (∃ b k body s c, demo_exec.2 =
    take 35 demo_exec.2 ++ ev (PutObject b k body s c) (inr tt) :: drop 36 demo_exec.2)
    as (b & k & body & s & c & Heq) by (do 5 eexists; by vm_compute).
  destruct (stores_only_while_alive 5 demo_worker demo_attempt demo_exec.2 demo_exec.1
    _ _ _ _ _ _ _ _ demo_exec_traces demo_exec_consistent Heq) as [_ ?].
  done.
Defined.

Lemma attempt_requests_fenced_and_limited_witness :
  ∃ q, fenced demo_worker demo_attempt q ∧ limited q ∧ acked StartAttempt (take 46 demo_exec.2).
Proof.
  assert (∃ q t, demo_exec.2 = take 46 demo_exec.2 ++
    ev (Stub ReportProgress q t) (inr (Reply None None false None)) :: drop 47 demo_exec.2)
    as (q & t & Heq) by (do 2 eexists; by vm_compute).
  exists q.
  destruct (attempt_requests_fenced_and_limited 5 demo_worker demo_attempt demo_exec.2 demo_exec.1
    _ _ _ _ _ _ demo_exec_traces demo_exec_consistent Heq) as (? & _ & Hp).
  destruct (Hp eq_refl). by split_and!.
Defined.

Lemma no_child_survives_witness : demo_exec.1 = Ok tt ∧ killed demo_exec.2.
Proof.
  assert (demo_exec.1 = Ok tt) as Hr by by vm_compute.
  split; [exact Hr|].
  apply (no_child_survives 5 demo_worker demo_attempt demo_exec.2 demo_exec.1
    demo_exec_traces demo_exec_consistent); [by rewrite Hr|by vm_compute].
Defined.

Lemma execute_ends_with_child_witness : running_polls demo_exec.2 = 1%nat ∧ demo_exec.1 ≠ OutOfFuel.
Proof.
  assert (running_polls demo_exec.2 = 1%nat) as Hp by by vm_compute.
  split; [exact Hp|].
  apply (execute_ends_with_child 5 demo_worker demo_attempt demo_exec.2 demo_exec.1
    demo_exec_traces demo_exec_consistent). rewrite Hp. lia.
Defined.
