(* ===== verification/Heartbeat.v ===== *)
(** * Heartbeat: the thread that renews a lease, and its interleaving with the attempt

    [renew] (the closure in [Worker.execute]) runs beside the attempt and shares [lost],
    [deadline[0]] and [process] with it.  The first part shows what the thread does on its own;
    the second takes any interleaving of the two threads in which the shared cells hold what was
    last written, and shows that the attempt acts only under a grant of the server. *)
From S2P Require Import Prelude Effects PyStr Json Sha256 Wire World Rpc Artifacts Worker WorkerSafety.
Local Open Scope string_scope.
Local Open Scope list_scope.
Local Open Scope Z_scope.

(** ** The thread on its own *)
(** The last calls were a test of [alive] that failed. *)
Definition dead_now (h : list wevent) : Prop :=
  (∃ h0, h = h0 ++ [ev LostIsSet true]) ∨
  (∃ h0 (t d : Z), h = h0 ++ [ev LostIsSet false; ev Monotonic t; ev DeadlineGet d] ∧ d ≤ t).

Definition waited (e : wevent) : bool :=
  on_event e (λ o, match o return wans o → bool with
                   | DoneWait _ => λ b, negb b
                   | _ => λ _, false
                   end).
(** How often [done.wait] timed out. *)
Definition waits (h : list wevent) : nat := length (List.filter waited h).

Lemma waits_app h h' : waits (h ++ h') = (waits h + waits h')%nat.
Proof. unfold waits. by rewrite List.filter_app, length_app. Qed.

Section Beat.
Context (self : worker) (l : lease).

Definition beat_guard (h : list wevent) (o : wop) : Prop :=
  match o with
  | Stub m q _ => m = Heartbeat ∧ fenced self l q
  | DeadlineSet d => ∃ h1 tr, h = h1 ++ tr ∧ granted (w_rpc self) Heartbeat (Some l) h1 tr d
  | LostSet => dead_now h ∨
               ∃ q c, last (stubs h) = Some (Heartbeat, q, inl c) ∧
                      (c = FAILED_PRECONDITION ∨ c = NOT_FOUND)
  | KillPg | WaitProcess => lost h = true
  | DoneWait _ | LostIsSet | Monotonic | DeadlineGet | ProcessIsSet | Uuid4 | Sleep _ => True
  | _ => False
  end.

Local Abbreviation wpb := (wp (S:=WorkerSig) timely beat_guard).

Lemma wp_alive_beat Q h :
  (∀ h', dead_now h' → Q (Ok false) h') → (∀ h', (waits h ≤ waits h')%nat → Q (Ok true) h') →
  wpb alive Q h.
Proof.
  intros Hf Ht. split; [done|]. intros [] _.
  { apply Hf. left. by eexists. }
  split; [done|]. intros t _. split; [done|]. intros d _. rewrite <- !app_assoc. simpl.
  destruct (t <? d) eqn:Hlt; [apply Ht; rewrite waits_app; lia|].
  apply Hf. right. apply Z.ltb_ge in Hlt. by eexists _, t, d.
Qed.

Lemma wp_renew_once n h :
  (n ≤ waits h)%nat →
  wpb (renew_once self l) (λ r h', r ≠ OutOfFuel ∧ (n ≤ waits h')%nat) h.
Proof.
  assert (∀ P, stable (S:=WorkerSig) P (λ h, (n ≤ waits h)%nat)) as HI.
  { intros P h' e _ ?. rewrite waits_app. lia. }
  intros Hh. apply wp_try_except, wp_bind. split; [done|]. intros d _.
  apply wp_ret, wp_bind. split; [done|]. intros now _. apply wp_ret, wp_bind.
  eapply (wp_call_traces timely beat_guard (λ h, (n ≤ waits h)%nat)); [done|apply HI| | |].
  { rewrite !waits_app. lia. }
  { intros h' [] Hh' Ho; try done. by destruct Ho as [-> [rid ->]]. }
  intros tr [res|e|] Htr Hc Hr Hw; [| |done].
  - destruct (res_deadline res) as [d'|] eqn:Hd; [|by split].
    split; [|intros [] _; split; [done|]; by apply (HI (λ _, True))].
    eexists _, tr. split; [done|]. by eapply call_granted.
  - destruct e; try by split. destruct (bool_decide _) eqn:Hc'; [|by split].
    apply call_refused in Htr as [q Hq]. apply bool_decide_eq_true in Hc'. split.
    + right. exists q, code. split; [|done]. rewrite stubs_app. by rewrite last_app, Hq.
    + intros [] _. split; [done|]. by apply (HI (λ _, True)).
Qed.

(** How the thread ends: told to stop, or the lease is lost and the child, if any, killed. *)
Definition beat_ended (h : list wevent) : Prop :=
  (∃ h0, h = h0 ++ [ev (DoneWait (ms 500)) true]) ∨
  (∃ h0, lost h = true ∧ h = h0 ++ [ev LostSet tt; ev ProcessIsSet false]) ∨
  (∃ h0 x, lost h = true ∧
     h = h0 ++ [ev LostSet tt; ev ProcessIsSet true; ev KillPg x; ev WaitProcess tt]).

Lemma lost_set h tr : lost ((h ++ [ev LostSet tt]) ++ tr) = true.
Proof. rewrite !lost_app. simpl. by rewrite orb_true_r. Qed.

Lemma renew_safe fuel n h :
  (n ≤ waits h)%nat →
  wpb (renew fuel self l)
    (λ r h', (r = OutOfFuel → (n + fuel ≤ waits h')%nat) ∧ (r = Ok tt → beat_ended h')) h.
Proof.
  revert n h. induction fuel as [|fuel IH]; intros n h Hn.
  { split; [|done]. intros _. lia. }
  cbn [renew]. apply wp_bind. split; [done|]. intros [] _.
  { split; [done|]. intros _. left. by eexists. }
  apply wp_ret, wp_bind, wp_alive_beat.
  - intros h' Hd. cbn [negb]. apply wp_bind. split; [by left|]. intros [] _. apply wp_ret, wp_bind.
    split; [done|]. intros [] _; apply wp_ret.
    2: { split; [done|]. intros _. right; left. exists h'. split; [apply lost_set|].
         by rewrite <- app_assoc. }
    split; [apply lost_set|]. intros x _. rewrite <- app_assoc.
    assert (wpb (do WaitProcess) (λ r h'0, (r = OutOfFuel → (n + S fuel ≤ waits h'0)%nat) ∧
      (r = Ok tt → beat_ended h'0)) ((h' ++ [ev LostSet tt]) ++ [ev ProcessIsSet true; ev KillPg x]))
      as Hw.
    { split; [apply lost_set|]. intros [] _. split; [done|]. intros _. right; right.
      exists h', x. split; [rewrite <- app_assoc; apply lost_set|]. by rewrite <- !app_assoc. }
    destruct x as [[]|[]]; try exact Hw; by split.
  - intros h' Hh'. cbn [negb]. apply wp_bind.
    eapply wp_mono; [apply (wp_renew_once (S n))|].
    { rewrite waits_app in Hh'. cbn in Hh'. lia. }
    intros [[]|e|] h'' [Hr Hw]; [|by split|done]. eapply wp_mono; [by apply (IH (S n))|].
    intros r h3 [? ?]. split; [|done]. intros. rewrite <- Nat.add_succ_comm. auto.
Qed.
End Beat.

(** C17. The heartbeat thread sends only heartbeats with the attempt's token; it moves the
    deadline only to the time a reply granted, and declares the lease lost only after a failed
    test or a FAILED_PRECONDITION or NOT_FOUND answer.  When it stops on its own the lease is
    marked lost and a started child has been sent SIGKILL; it is left running only while
    [done.wait] keeps timing out. *)
Theorem heartbeat_thread_safe fuel self l tr r :
  traces (renew fuel self l) tr r → consistent timely tr = true →
  (∀ tr1 e tr2, tr = tr1 ++ e :: tr2 → beat_guard self l tr1 (projT1 e)) ∧
  (r = OutOfFuel → (fuel ≤ waits tr)%nat) ∧ (r = Ok tt → beat_ended tr).
Proof.
  intros Htr Hc.
  destruct (wp_sound _ _ _ _ [] tr r (renew_safe self l fuel 0 [] (le_n 0)) Htr Hc) as [[HF HO] HG].
  split_and!; [apply HG|intros Hr; by apply HF|done].
Qed.

(** ** Two threads *)
Inductive thread := Main | Beat.
#[export] Instance thread_eq_dec : EqDecision thread.
Proof. solve_decision. Defined.

Abbreviation tevent := (thread * wevent)%type.

(** The calls of one thread. *)
Definition own (th : thread) (p : tevent) : option wevent :=
  if decide (p.1 = th) then Some p.2 else None.
Definition calls_of (th : thread) (tr : list tevent) : list wevent := omap (own th) tr.

(** [deadline[0]]: what was last written, by either thread. *)
Definition write_deadline (c : option Z) (p : tevent) : option Z :=
  on_event p.2 (λ o, match o return wans o → option Z with
                     | DeadlineSet d => λ _, Some d
                     | _ => λ _, c
                     end).
Definition deadline_cell (h : list tevent) : option Z := foldl write_deadline None h.

Definition sets_lost (p : tevent) : bool :=
  match projT1 p.2 with LostSet => true | _ => false end.
(** [lost] has been set, by either thread. *)
Definition lost_cell (h : list tevent) : bool := existsb sets_lost h.

(** The shared cells answer what they hold. *)
Definition shared (h : list tevent) (p : tevent) : bool :=
  on_event p.2 (λ o, match o return wans o → bool with
                     | DeadlineGet => λ d, bool_decide (deadline_cell h = Some d)
                     | LostIsSet => λ b, Bool.eqb b (lost_cell h)
                     | ProcessIsSet => λ b, Bool.eqb b (popened (calls_of Main h))
                     | _ => λ _, true
                     end).
Fixpoint coherent_from (h tr : list tevent) : bool :=
  match tr with
  | [] => true
  | p :: tr => shared h p && coherent_from (h ++ [p]) tr
  end.
Definition coherent (tr : list tevent) : bool := coherent_from [] tr.

Lemma calls_of_app th tr tr' : calls_of th (tr ++ tr') = calls_of th tr ++ calls_of th tr'.
Proof. apply omap_app. Qed.

Lemma calls_of_cons th e tr : calls_of th ((th, e) :: tr) = e :: calls_of th tr.
Proof. unfold calls_of, own. simpl. by rewrite decide_True by done. Qed.

(** A call of one thread has its place in the interleaving. *)
Lemma calls_of_split th tr h1 e h2 :
  calls_of th tr = h1 ++ e :: h2 →
  ∃ tr1 tr2, tr = tr1 ++ (th, e) :: tr2 ∧ calls_of th tr1 = h1 ∧ calls_of th tr2 = h2.
Proof.
  revert h1. induction tr as [|[th' e'] tr IH]; intros h1; [by destruct h1|].
  destruct (decide (th' = th)) as [->|Hne].
  - rewrite calls_of_cons. destruct h1 as [|e1 h1]; intros [= -> Heq].
    + by exists [], tr.
    + destruct (IH _ Heq) as (tr1 & tr2 & -> & <- & <-).
      exists ((th, e1) :: tr1), tr2. by rewrite calls_of_cons.
  - assert (calls_of th ((th', e') :: tr) = calls_of th tr) as ->.
    { unfold calls_of, own. simpl. by rewrite decide_False by done. }
    intros Heq. destruct (IH _ Heq) as (tr1 & tr2 & -> & <- & <-).
    exists ((th', e') :: tr1), tr2. split_and!; [done| |done].
    unfold calls_of, own. simpl. by rewrite decide_False by done.
Qed.

Lemma coherent_from_at h tr tr1 p tr2 :
  coherent_from h tr = true → tr = tr1 ++ p :: tr2 → shared (h ++ tr1) p = true.
Proof.
  revert h tr. induction tr1 as [|p1 tr1 IH]; intros h tr Hc ->; simpl in Hc;
    apply andb_true_iff in Hc as [Hs Hc].
  - by rewrite app_nil_r.
  - rewrite snoc_app. by eapply IH.
Qed.

Lemma deadline_cell_written tr d :
  deadline_cell tr = Some d → ∃ tr1 th tr2, tr = tr1 ++ (th, ev (DeadlineSet d) tt) :: tr2.
Proof.
  induction tr as [|[th [o x]] tr IH] using rev_ind; [done|].
  unfold deadline_cell. rewrite foldl_snoc. unfold write_deadline at 1, on_event. simpl.
  assert (∀ c, foldl write_deadline None tr = Some c → c = d →
    ∃ tr1 th' tr2, tr ++ [(th, existT o x)] = tr1 ++ (th', ev (DeadlineSet d) tt) :: tr2) as Hold.
  { intros c Hc ->. destruct (IH Hc) as (tr1 & th' & tr2 & ->). exists tr1, th', (tr2 ++ [(th, existT o x)]).
    by rewrite <- app_assoc. }
  destruct o; try (intros Hc; by eapply Hold). intros [= ->]. destruct x. by exists tr, th, [].
Qed.

(** ** Acting under a grant *)
Section Interleaved.
Context (self : worker) (l : lease) (fuel fuel' : nat) (tr : list tevent) (r r' : outcome unit).
Hypothesis (Hmain : traces (execute fuel self l) (calls_of Main tr) r).
Hypothesis (Hworld : consistent world (calls_of Main tr) = true).
Hypothesis (Hbeat : traces (renew fuel' self l) (calls_of Beat tr) r').
Hypothesis (Htime : consistent timely (calls_of Beat tr) = true).
Hypothesis (Hcells : coherent tr = true).

(** A deadline that can be read is the lease's own or was granted by a heartbeat reply. *)
Definition authorised (tr0 : list tevent) (d : Z) : Prop :=
  local_deadline l = Some d ∨
  ∃ h1 trc h2, calls_of Beat tr0 = h1 ++ trc ++ h2 ∧
               granted (w_rpc self) Heartbeat (Some l) h1 trc d.

Lemma deadline_authorised tr1 th d tr2 :
  tr = tr1 ++ (th, ev DeadlineGet d) :: tr2 → authorised tr1 d.
Proof using Hmain Hworld Hbeat Htime Hcells.
  intros Heq. pose proof (coherent_from_at [] tr tr1 _ tr2 Hcells Heq) as Hs.
  apply bool_decide_eq_true in Hs. cbn [app] in Hs. apply deadline_cell_written in Hs as (ta & th' & tb & ->).
  rewrite <- app_assoc in Heq. cbn [app] in Heq. destruct th'.
  - left. eapply (execute_guarded fuel self l _ r (calls_of Main ta) (ev (DeadlineSet d) tt));
      [done|done|]. by rewrite Heq, calls_of_app, calls_of_cons.
  - right.
    destruct (wp_sound _ _ _ _ [] _ _ (renew_safe self l fuel' 0 [] (le_n 0)) Hbeat Htime)
      as [_ HG].
    destruct (HG (calls_of Beat ta) (ev (DeadlineSet d) tt)
      (calls_of Beat (tb ++ (th, ev DeadlineGet d) :: tr2))) as (h1 & trc & Hta & Hg).
    { by rewrite Heq, calls_of_app, calls_of_cons. }
    simpl in Hta. exists h1, trc, (ev (DeadlineSet d) tt :: calls_of Beat tb).
    by rewrite calls_of_app, calls_of_cons, Hta, <- app_assoc.
Qed.
End Interleaved.

(** The calls by which an attempt acts on the outside: starting the command, storing a file. *)
Definition acts (o : wop) : Prop :=
  match o with Popen _ _ | PutObject _ _ _ _ _ => True | _ => False end.

Lemma acts_after_test self l h o :
  acts o → guard self l h o →
  ∃ h0 (t d : Z) h2, h = h0 ++ ev LostIsSet false :: ev Monotonic t :: ev DeadlineGet d :: h2 ∧
                     t < d ∧ (length h2 ≤ 1)%nat.
Proof.
  destruct o; try done; intros _.
  - intros (_ & h0 & path' & body' & -> & h1 & t & d & -> & Hlt).
    exists h1, t, d, [ev (ReadFile path') body']. split_and!; [|done|done]. by rewrite <- app_assoc.
  - intros (_ & _ & (h0 & t & d & -> & Hlt) & _). exists h0, t, d, []. split_and!; [done|done|simpl; lia].
Qed.

(** C2. In every interleaving of the attempt with its heartbeat thread, the command is started
    and a file is stored only under a grant of the server: at most four of the attempt's own
    steps earlier the lease was not marked lost by either thread and the clock was before a
    deadline that is the lease's own or one a heartbeat reply had granted. *)
Theorem attempt_acts_under_a_grant self l fuel fuel' tr r r' tr1 o a tr2 :
  traces (execute fuel self l) (calls_of Main tr) r → consistent world (calls_of Main tr) = true →
  traces (renew fuel' self l) (calls_of Beat tr) r' → consistent timely (calls_of Beat tr) = true →
  coherent tr = true → tr = tr1 ++ (Main, ev o a) :: tr2 → acts o →
  ∃ tra trb (t d : Z),
    tr1 = tra ++ (Main, ev LostIsSet false) :: trb ∧ lost_cell tra = false ∧
    (length (calls_of Main trb) ≤ 3)%nat ∧ ev Monotonic t ∈ calls_of Main trb ∧ t < d ∧
    authorised self l tr1 d.
Proof.
  intros Hmain Hworld Hbeat Htime Hcells Heq Ho.
  assert (guard self l (calls_of Main tr1) o) as HG.
  { eapply (execute_guarded fuel self l _ r (calls_of Main tr1) (ev o a) (calls_of Main tr2)); [done..|].
    by rewrite Heq, calls_of_app, calls_of_cons. }
  destruct (acts_after_test _ _ _ _ Ho HG) as (h0 & t & d & h2 & Hh & Hlt & Hlen).
  apply calls_of_split in Hh as (tra & trb & -> & Ha & Hb).
  pose proof Hb as (trc & tre & -> & Hc & Hd)%(calls_of_split _ _ [ev Monotonic t]).
  exists tra, (trc ++ (Main, ev DeadlineGet d) :: tre), t, d. split_and!; [done| | | |done|].
  - assert (shared tra (Main, ev LostIsSet false) = true) as Hs.
    { eapply (coherent_from_at [] tr tra); [done|]. rewrite Heq, <- app_assoc. done. }
    apply Bool.eqb_prop in Hs. done.
  - rewrite Hb. simpl. lia.
  - rewrite Hb. set_solver.
  - destruct (deadline_authorised self l fuel fuel' tr r r' Hmain Hworld Hbeat Htime Hcells
      (tra ++ (Main, ev LostIsSet false) :: trc) Main d (tre ++ (Main, ev o a) :: tr2))
      as [?|(h1 & trg & h3 & Hof & Hg)].
    { rewrite Heq. rewrite <- !app_assoc. simpl. by rewrite <- !app_assoc. }
    { by left. }
    right. exists h1, trg, (h3 ++ calls_of Beat ((Main, ev DeadlineGet d) :: tre)). split; [|done].
    replace (tra ++ _ :: trc ++ _ :: tre)
      with ((tra ++ (Main, ev LostIsSet false) :: trc) ++ (Main, ev DeadlineGet d) :: tre)
      by by rewrite <- app_assoc.
    by rewrite calls_of_app, Hof, <- !app_assoc.
Qed.

(** ** Concrete threads *)
(** A control plane that no longer knows the attempt. *)
Definition demo_refused : outcome unit * list wevent :=
  run (demo_env (λ _ _ _, inl NOT_FOUND) (λ _, EmptyString) 0 []) (renew 3 demo_worker demo_attempt) [].

Lemma heartbeat_thread_safe_witness :
  demo_refused.1 = Ok tt ∧ beat_ended demo_refused.2.
Proof.
  assert (demo_refused.1 = Ok tt) as Hr by by vm_compute.
  split; [exact Hr|].
  apply (heartbeat_thread_safe 3 demo_worker demo_attempt demo_refused.2 demo_refused.1);
    [apply traces_run|by vm_compute|exact Hr].
Defined.

(** One renewal, whose reply grants the deadline again, between the first and the second call of
    the attempt. *)
Definition demo_beat : outcome unit * list wevent :=
  run (demo_env (λ _ _ _, inr (Reply (Some (ms 15493)) (Some 0) false None)) (λ _, EmptyString) 0 [])
      (renew 1 demo_worker demo_attempt) [].
Definition demo_threads : list tevent :=
  (pair Main <$> take 1 demo_exec.2) ++ (pair Beat <$> demo_beat.2) ++
  (pair Main <$> drop 1 demo_exec.2).

Lemma attempt_acts_under_a_grant_witness :
  ∃ tra trb (t d : Z),
    take 31 demo_threads = tra ++ (Main, ev LostIsSet false) :: trb ∧ lost_cell tra = false ∧
    t < d ∧ authorised demo_worker demo_attempt (take 31 demo_threads) d.
Proof.
  assert (∃ argv env, demo_threads =
    take 31 demo_threads ++ (Main, ev (Popen argv env) (inr tt)) :: drop 32 demo_threads)
    as (argv & env & Heq) by (do 2 eexists; by vm_compute).
  assert (calls_of Main demo_threads = demo_exec.2) as Hm by by vm_compute.
  assert (calls_of Beat demo_threads = demo_beat.2) as Hb by by vm_compute.
  destruct (attempt_acts_under_a_grant demo_worker demo_attempt 5 1 demo_threads
    demo_exec.1 demo_beat.1 (take 31 demo_threads) (Popen argv env) (inr tt) (drop 32 demo_threads))
    as (tra & trb & t & d & ? & ? & _ & _ & ? & ?);
    [rewrite Hm; apply demo_exec_traces|rewrite Hm; apply demo_exec_consistent
    |rewrite Hb; apply traces_run|rewrite Hb; by vm_compute|by vm_compute|exact Heq|exact I|].
  exists tra, trb, t, d. split_and!; assumption.
Defined.
