(* ===== verification/Logs.v ===== *)
(** * Logs: the reader of the command's output (main.py, [read_logs] in [Worker.execute])

    The reader thread copies the output, in chunks of at most one line and 4096 bytes, to
    execution.log and offers each chunk, decoded and stripped, to a queue of 1000 lines from
    which [progress] takes; a full queue drops the line.  The two threads are a step relation.
    Text is decoded as [bytes.decode(errors="replace")] does. *)
From S2P Require Import Prelude PyStr Utf8.
Local Open Scope string_scope.
Local Open Scope list_scope.

(** ** Text *)
Local Abbreviation in_range lo hi n := ((lo <=? n) && (n <=? hi))%N.

(** [str.isspace] of one character. *)
Definition is_space_cp (n : N) : bool :=
  (in_range 9 13 n || in_range 28 32 n || (n =? 133) || (n =? 160) || (n =? 5760)
   || in_range 8192 8202 n || (n =? 8232) || (n =? 8233) || (n =? 8239) || (n =? 8287)
   || (n =? 12288))%N.
Fixpoint rstrip_cps (l : list N) : list N :=
  match l with
  | [] => []
  | n :: l => match rstrip_cps l with
              | [] => if is_space_cp n then [] else [n]
              | l' => n :: l'
              end
  end.

(** [chunk.decode(errors="replace").rstrip()] *)
Definition line_text (chunk : string) : string := encode (rstrip_cps (decode chunk)).

(** ** The reader *)
Definition newline : ascii := "010"%char.
Definition readline_limit : nat := N.to_nat 4096.
Definition queue_size : nat := N.to_nat 1000.

(** [readline(n)]: up to a newline, included, and at most [n] bytes; and what is left. *)
Fixpoint readline (n : nat) (s : string) : string * string :=
  match n, s with
  | S n, String c r =>
      if Ascii.eqb c newline then (String c EmptyString, r)
      else let '(a, b) := readline n r in (String c a, b)
  | _, _ => (EmptyString, s)
  end.

Record logs := Logs {
  pipe : string;          (* what the command has written and the reader has not read *)
  stream : string;        (* execution.log *)
  lines : list string     (* queue.Queue(maxsize=1000) *) }.

(** [lines.put_nowait(x)], with [queue.Full] ignored. *)
Definition put_nowait (q : list string) (x : string) : list string :=
  if (length q <? queue_size)%nat then q ++ [x] else q.

(** One iteration of [while chunk := process.stdout.readline(4096)]; [None] ends the loop. *)
Definition read_chunk (st : logs) : option logs :=
  let '(chunk, rest) := readline readline_limit (pipe st) in
  if nonempty chunk
  then Some (Logs rest (stream st +:+ chunk) (put_nowait (lines st) (line_text chunk)))
  else None.

(** [lines.get_nowait()]; [None] is [queue.Empty]. *)
Definition get_nowait (st : logs) : option (string * logs) :=
  match lines st with
  | [] => None
  | x :: q => Some (x, Logs (pipe st) (stream st) q)
  end.

(** The two threads: [lsteps st outs st'] when [progress] took the lines [outs]. *)
Inductive lsteps : logs → list string → logs → Prop :=
| lsteps_refl st : lsteps st [] st
| lsteps_read st outs st1 st2 :
    lsteps st outs st1 → read_chunk st1 = Some st2 → lsteps st outs st2
| lsteps_get st outs st1 x st2 :
    lsteps st outs st1 → get_nowait st1 = Some (x, st2) → lsteps st (outs ++ [x]) st2.

Definition start (output : string) : logs := Logs output EmptyString [].

(** ** The chunks of an output *)
Fixpoint chunks_fuel (fuel : nat) (s : string) : list string :=
  match fuel with
  | O => []
  | S fuel => let '(chunk, rest) := readline readline_limit s in
              if nonempty chunk then chunk :: chunks_fuel fuel rest else []
  end.
Definition chunks (s : string) : list string := chunks_fuel (String.length s) s.

(** ** Lengths *)
Lemma rstrip_cps_prefix l : ∃ t, l = rstrip_cps l ++ t.
Proof.
  induction l as [|n l [t IH]]; [by exists []|]. simpl.
  destruct (rstrip_cps l) as [|m l'] eqn:E.
  - case_match; eexists; [done|]. by rewrite IH at 1.
  - exists t. by rewrite IH at 1.
Qed.

Lemma length_line_text chunk : (String.length (line_text chunk) ≤ 3 * String.length chunk)%nat.
Proof.
  unfold line_text. destruct (rstrip_cps_prefix (decode chunk)) as [t Ht].
  pose proof (length_encode_decode_fuel (String.length chunk) chunk) as Hle.
  fold (decode chunk) in Hle. rewrite Ht in Hle at 1. rewrite encode_app, string_length_app in Hle. lia.
Qed.

(** ** Reading *)
Lemma readline_app n s : (readline n s).1 +:+ (readline n s).2 = s.
Proof.
  revert s. induction n as [|n IH]; intros [|c s]; try done. simpl.
  destruct (Ascii.eqb c newline); [done|]. specialize (IH s).
  destruct (readline n s) as [a b]. simpl in *. unfold String.app in *. simpl. by rewrite IH.
Qed.

Lemma readline_length n s : (String.length (readline n s).1 ≤ n)%nat.
Proof.
  revert s. induction n as [|n IH]; intros [|c s]; simpl; try lia.
  destruct (Ascii.eqb c newline); [simpl; lia|]. specialize (IH s).
  destruct (readline n s) as [a b]. simpl in *. lia.
Qed.

Lemma readline_nonempty n c s : (0 < n)%nat → nonempty (readline n (String c s)).1 = true.
Proof.
  destruct n as [|n]; [lia|]. intros _. simpl. destruct (Ascii.eqb c newline); [done|].
  by destruct (readline n s).
Qed.

Lemma readline_limit_pos : (0 < readline_limit)%nat.
Proof. unfold readline_limit. lia. Qed.

Lemma read_chunk_cases st :
  (pipe st = EmptyString ∧ read_chunk st = None) ∨
  ∃ chunk rest, pipe st = chunk +:+ rest ∧ (0 < String.length chunk ≤ readline_limit)%nat ∧
    readline readline_limit (pipe st) = (chunk, rest) ∧
    read_chunk st = Some (Logs rest (stream st +:+ chunk) (put_nowait (lines st) (line_text chunk))).
Proof.
  unfold read_chunk. destruct (pipe st) as [|c s] eqn:Hp.
  { left. split; [done|]. by destruct readline_limit. }
  right. pose proof (readline_app readline_limit (String c s)) as Happ.
  pose proof (readline_length readline_limit (String c s)) as Hlen.
  pose proof (readline_nonempty readline_limit c s readline_limit_pos) as Hne.
  destruct (readline readline_limit (String c s)) as [chunk rest]. simpl in *.
  exists chunk, rest. rewrite Hne. split_and!; try done. destruct chunk; [done|simpl; lia].
Qed.

(** *** The reader ends, with the whole output in the file *)
Lemma chunks_fuel_enough fuel fuel' s :
  (String.length s ≤ fuel)%nat → (String.length s ≤ fuel')%nat →
  chunks_fuel fuel s = chunks_fuel fuel' s.
Proof.
  revert fuel' s. induction fuel as [|fuel IH]; intros [|fuel'] s Hf Hf'; cbn [chunks_fuel]; try done.
  - destruct s; [|simpl in *; lia]. by destruct readline_limit.
  - destruct s; [|simpl in *; lia]. by destruct readline_limit.
  - destruct (readline readline_limit s) as [chunk rest] eqn:E.
    destruct (nonempty chunk) eqn:Hne; [|done]. f_equal.
    pose proof (readline_app readline_limit s) as Happ. rewrite E in Happ. simpl in Happ. subst s.
    rewrite string_length_app in *. destruct chunk; [done|simpl in *]. apply IH; lia.
Qed.

(** What has been read, as chunks; what reached [progress] or waits in the queue; and the room
    left for the rest. *)
Record logs_inv (output : string) (outs : list string) (st : logs) : Prop := {
  inv_bytes : stream st +:+ pipe st = output;
  inv_queue : (length (lines st) ≤ queue_size)%nat;
  inv_lines : ∃ read, chunks output = read ++ chunks (pipe st) ∧
                (outs ++ lines st) `sublist_of` (line_text <$> read) ∧
                ((length read ≤ queue_size)%nat → outs ++ lines st = line_text <$> read)
}.

Lemma chunks_step s chunk rest :
  readline readline_limit s = (chunk, rest) → nonempty chunk = true →
  chunks s = chunk :: chunks rest.
Proof.
  intros E Hne. pose proof (readline_app readline_limit s) as Happ. rewrite E in Happ. simpl in Happ.
  unfold chunks. destruct (String.length s) as [|n] eqn:Hn.
  { subst s. rewrite string_length_app in Hn. destruct chunk; [done|simpl in Hn; lia]. }
  cbn [chunks_fuel]. rewrite E, Hne. f_equal. apply chunks_fuel_enough; [|done].
  subst s. rewrite string_length_app in Hn. destruct chunk; [done|simpl in Hn; lia].
Qed.

Lemma logs_inv_start output : logs_inv output [] (start output).
Proof. split; [reflexivity|simpl; lia|]. exists []. split_and!; [reflexivity|constructor|done]. Qed.

Lemma logs_inv_get output outs st x st' :
  logs_inv output outs st → get_nowait st = Some (x, st') → logs_inv output (outs ++ [x]) st'.
Proof.
  intros [Hb Hq (read & Hr & Hs & He)] Hg. unfold get_nowait in Hg.
  destruct (lines st) as [|y q] eqn:Hl; simplify_eq. split; simpl in *; [done|lia|].
  exists read. by rewrite <- (app_assoc outs [x] q).
Qed.

Lemma logs_inv_read output outs st st' :
  logs_inv output outs st → read_chunk st = Some st' → logs_inv output outs st'.
Proof.
  intros [Hb Hq (read & Hr & Hs & He)] Hst.
  destruct (read_chunk_cases st) as [[_ Hn]|(chunk & rest & Hp & [Hpos _] & Hrl & Hrc)]; [congruence|].
  rewrite Hrc in Hst. injection Hst as <-.
  assert (nonempty chunk = true) as Hne by (destruct chunk; [simpl in Hpos; lia|done]).
  split; cbn [stream pipe lines].
  - by rewrite string_app_assoc, <- Hp.
  - unfold put_nowait. destruct (Nat.ltb_spec (length (lines st)) queue_size); [|done].
    rewrite length_app. simpl. lia.
  - exists (read ++ [chunk]). rewrite Hr, (chunks_step _ _ _ Hrl Hne), <- app_assoc. split; [done|].
    rewrite fmap_app. unfold put_nowait. split.
    + case_match; [rewrite app_assoc; by apply sublist_app|by apply sublist_inserts_r].
    + rewrite length_app. cbn [length]. intros Hlen. specialize (He ltac:(lia)).
      destruct (Nat.ltb_spec (length (lines st)) queue_size) as [|Hfull].
      * by rewrite app_assoc, He.
      * apply (f_equal length) in He. rewrite length_app, length_fmap in He. lia.
Qed.

Lemma logs_inv_steps output outs st : lsteps (start output) outs st → logs_inv output outs st.
Proof.
  remember (start output) as s0. induction 1; subst; eauto using logs_inv_start, logs_inv_get, logs_inv_read.
Qed.

(** C35. However the two threads interleave, the durable log is what the command wrote: at every
    moment execution.log followed by the unread output is the whole output, the queue holds at
    most 1000 lines, and the lines reported or waiting are lines of the log, in order and without
    repetition; none is missing while at most 1000 lines have been read. *)
Theorem log_is_complete_and_ordered output outs st :
  lsteps (start output) outs st →
  stream st +:+ pipe st = output ∧ (length (lines st) ≤ queue_size)%nat ∧
  ∃ read, chunks output = read ++ chunks (pipe st) ∧
    (outs ++ lines st) `sublist_of` (line_text <$> read) ∧
    ((length read ≤ queue_size)%nat → outs ++ lines st = line_text <$> read).
Proof. intros [? ? ?]%logs_inv_steps. by split_and!. Qed.

(** The reader cannot stop early: as long as output is unread it takes a step, each step
    shortens what is unread, and when it has no step left execution.log is the output. *)
Theorem reader_reads_everything output outs st :
  lsteps (start output) outs st →
  match read_chunk st with
  | Some st' => (String.length (pipe st') < String.length (pipe st))%nat
  | None => stream st = output
  end.
Proof.
  intros [Hb _ _]%logs_inv_steps.
  destruct (read_chunk_cases st) as [[Hp ->]|(chunk & rest & Hp & [Hpos _] & _ & ->)].
  - by rewrite Hp, string_app_nil_r in Hb.
  - rewrite Hp, string_length_app. simpl. lia.
Qed.

Lemma elem_of_chunks x s : x ∈ chunks s → (String.length x ≤ readline_limit)%nat.
Proof.
  unfold chunks. generalize (String.length s) as f. intros f. revert s.
  induction f as [|f IH]; intros s; cbn [chunks_fuel]; [by intros ?%not_elem_of_nil|].
  pose proof (readline_length readline_limit s). destruct (readline readline_limit s) as [chunk rest].
  destruct (nonempty chunk); [|by intros ?%not_elem_of_nil]. intros [->|?]%elem_of_cons; eauto.
Qed.

(** A line taken from the queue is at most 12288 bytes long, whatever bytes the command
    wrote, so it is within the 16384 bytes the server accepts for a log line. *)
Theorem reported_line_within_server_limit output outs st x :
  lsteps (start output) outs st → x ∈ outs → (String.length x ≤ 3 * readline_limit ≤ N.to_nat 16384)%nat.
Proof.
  intros [_ _ (read & Hr & Hs & _)]%logs_inv_steps Hx. split; [|unfold readline_limit; lia].
  assert (x ∈ line_text <$> read) as (chunk & -> & Hc)%list_elem_of_fmap.
  { eapply elem_of_sublist; [|exact Hs]. set_solver. }
  assert (chunk ∈ chunks output) as Hin%elem_of_chunks by (rewrite Hr; set_solver).
  pose proof (length_line_text chunk). lia.
Qed.

(** ** A concrete interleaving: two lines, of which the second is not valid UTF-8 *)
Definition demo_output : string :=
  "a " +:+ String newline (String "195"%char (String "b" (String newline EmptyString))).
Definition demo_line1 : logs :=
  Logs (String "195"%char (String "b" (String newline EmptyString)))
       ("a " +:+ String newline EmptyString) [].
Definition demo_end : logs :=
  Logs EmptyString demo_output [String "239"%char (String "191"%char (String "189"%char "b"))].

Example demo_lines : line_text <$> chunks demo_output
  = ["a"; String "239"%char (String "191"%char (String "189"%char "b"))].
Proof. vm_compute. reflexivity. Qed.

Lemma demo_lsteps : lsteps (start demo_output) ["a"] demo_end.
Proof.
  eapply lsteps_read; [eapply (lsteps_get _ [] _ "a" demo_line1); [eapply lsteps_read; [apply lsteps_refl|]|]|];
    vm_compute; reflexivity.
Qed.

Lemma log_is_complete_and_ordered_witness :
  stream demo_end +:+ pipe demo_end = demo_output ∧
  ∃ read, chunks demo_output = read ++ chunks (pipe demo_end) ∧
    (["a"] ++ lines demo_end) `sublist_of` (line_text <$> read).
Proof.
  destruct (log_is_complete_and_ordered demo_output ["a"] demo_end demo_lsteps)
    as (H1 & _ & read & H2 & H3 & _).
  split; [exact H1|]. exists read. split; [exact H2|exact H3].
Defined.

Lemma reader_reads_everything_witness : stream demo_end = demo_output.
Proof. exact (reader_reads_everything demo_output ["a"] demo_end demo_lsteps). Defined.

Lemma reported_line_within_server_limit_witness :
  (String.length "a" ≤ 3 * readline_limit ≤ N.to_nat 16384)%nat.
Proof.
  apply (reported_line_within_server_limit demo_output ["a"] demo_end "a" demo_lsteps).
  apply list_elem_of_singleton. reflexivity.
Defined.
