(* ===== verification/WorkerRun.v ===== *)
(** * WorkerRun: the loop of the worker process (main.py, [Worker.run])

    The worker registers, leases jobs while it has a free slot, runs each in a thread of a pool,
    sends a worker heartbeat every three seconds, and releases itself when it is told to stop.
    Transport errors of the loop are logged and the loop goes on. *)
From S2P Require Import Prelude Effects PyStr Json Wire World Rpc Worker.
Local Open Scope string_scope.
Local Open Scope list_scope.
Local Open Scope Z_scope.

Record resources := Resources { res_cpu : Z; res_memory_mb : Z; res_gpu : Z }.

Definition resources_json (r : resources) : json :=
  JObj [("cpu", JNum (res_cpu r)); ("memory_mb", JNum (res_memory_mb r)); ("gpu", JNum (res_gpu r))].

(** [for future in list(futures): if future.done(): future.result(); futures.remove(future)] *)
Fixpoint reap_futures (futures : list nat) : W (list nat) :=
  match futures with
  | [] => ret []
  | f :: fs =>
      d <- do (FutureDone f);
      if (d : bool) then
        r <- do (FutureResult f);
        _ <- unwrap r;
        reap_futures fs
      else rest <- reap_futures fs; ret (f :: rest)
  end.

(** [try: p except grpc.RpcError as exc]: the status, or what [p] returned. *)
Definition catch_rpc {A} (p : W A) : W (status + A) :=
  try_except (a <- p; ret (inr a))
    (λ e, match e with RpcError c => Some (ret (inl c)) | _ => None end).

(** The worker's heartbeat, when the last one is more than three seconds old; the time of the
    last heartbeat. *)
Definition beat_if_due (self : worker) (last_heartbeat : Z) : W Z :=
  now <- do Monotonic;
  if now - last_heartbeat >? sec 3 then
    _ <- call (w_rpc self) Heartbeat None (sec 3) 0 None [];
    do Monotonic
  else ret last_heartbeat.

(** [except grpc.RpcError as exc] *)
Definition unavailable (self : worker) (c : status) : W unit :=
  log self "control plane unavailable" None EmptyString [("error", JStr (w_exn_str self (RpcError c)))] ;;;
  _ <- do (StoppingWait (sec 1));
  ret tt.

(** A lease is taken and submitted, or the worker waits. *)
Definition lease_one (self : worker) (futures : list nat) : W (list nat) :=
  res <- call (w_rpc self) LeaseJob None (sec 5) 2 None [];
  if res_idle res then _ <- do (StoppingWait (ms 200)); ret futures
  else f <- do (PoolSubmit res); ret (f :: futures).

(** The [while] loop; it ends with the release of the worker. *)
Fixpoint run_loop (fuel : nat) (self : worker) (r : resources) (futures : list nat)
    (last_heartbeat : Z) : W unit :=
  match fuel with
  | O => diverge
  | S fuel =>
      stop <- do StoppingIsSet;
      if (stop : bool) then _ <- call (w_rpc self) ReleaseWorker None (sec 5) 0 None []; ret tt
      else
        futures <- reap_futures futures;
        b <- catch_rpc (beat_if_due self last_heartbeat);
        match b with
        | inl c => unavailable self c ;;; run_loop fuel self r futures last_heartbeat
        | inr last_heartbeat =>
            if Z.of_nat (length futures) >=? res_cpu r then
              _ <- do (StoppingWait (ms 100));
              run_loop fuel self r futures last_heartbeat
            else
              b <- catch_rpc (lease_one self futures);
              match b with
              | inl c => unavailable self c ;;; run_loop fuel self r futures last_heartbeat
              | inr futures => run_loop fuel self r futures last_heartbeat
              end
        end
  end.

Definition run_worker (fuel : nat) (self : worker) (r : resources) : W unit :=
  hostname <- do GetHostname;
  _ <- call (w_rpc self) RegisterWorker None (sec 60) 0 None
         [("hostname", JStr hostname); ("resources", resources_json r)];
  log self "registered" None EmptyString [("resources", resources_json r)] ;;;
  try_finally (run_loop fuel self r [] 0) (do PoolShutdown) ;;;
  do ChannelClose.

(** ** Facts of a history *)
Definition submitted_of (e : wevent) : Z :=
  on_event e (λ o, match o return wans o → Z with
                   | PoolSubmit _ => λ _, 1
                   | FutureDone _ => λ b, if b then -1 else 0
                   | _ => λ _, 0
                   end).
(** Attempts submitted to the pool and not yet seen done. *)
Definition in_flight (h : list wevent) : Z := foldr (λ e n, submitted_of e + n) 0 h.

Definition is_stop (e : wevent) : bool :=
  on_event e (λ o, match o return wans o → bool with
                   | StoppingIsSet => λ b, b
                   | _ => λ _, false
                   end).
(** The loop has seen [self.stopping] set. *)
Definition stopped (h : list wevent) : bool := existsb is_stop h.

Definition is_turn (e : wevent) : bool :=
  on_event e (λ o, match o return wans o → bool with
                   | StoppingIsSet => λ b, negb b
                   | _ => λ _, false
                   end).
(** How often the loop found [self.stopping] not set. *)
Definition turns (h : list wevent) : nat := length (List.filter is_turn h).

Lemma in_flight_app h h' : in_flight (h ++ h') = in_flight h + in_flight h'.
Proof. induction h as [|e h IH]; simpl; [done|]. rewrite IH. lia. Qed.
Lemma stopped_app h h' : stopped (h ++ h') = stopped h || stopped h'.
Proof. apply existsb_app. Qed.
Lemma turns_app h h' : turns (h ++ h') = (turns h + turns h')%nat.
Proof. unfold turns. by rewrite List.filter_app, length_app. Qed.

(** ** What the loop may do *)
Section Guard.
Context (self : worker) (r : resources).

(** A request of the worker itself: its session, no attempt. *)
Definition sessional (q : request) : Prop :=
  rq_worker_id q = worker_id (w_rpc self) ∧ rq_session_id q = session_id (w_rpc self) ∧
  rq_attempt_id q = EmptyString ∧ rq_lease_token q = EmptyString.

Definition run_guard (h : list wevent) (o : wop) : Prop :=
  match o with
  | Stub m q _ =>
      sessional q ∧
      match m with
      | RegisterWorker => stopped h = false
      | Heartbeat | LeaseJob =>
          acked RegisterWorker h ∧ stopped h = false ∧
          (m = LeaseJob → in_flight h < res_cpu r)
      | ReleaseWorker => acked RegisterWorker h ∧ stopped h = true
      | _ => False
      end
  | PoolSubmit _ => acked LeaseJob h ∧ stopped h = false ∧ in_flight h < res_cpu r
  | ChannelClose => acked ReleaseWorker h ∧ ev PoolShutdown tt ∈ h
  | Popen _ _ | PutObject _ _ _ _ _ | KillPg => False
  | _ => True
  end.

Local Abbreviation wpr := (wp (S:=WorkerSig) timely run_guard).

(** The registered worker, with [n] attempts in flight, that has not been told to stop after at
    least [k] turns. *)
Definition serving (n : Z) (k : nat) (h : list wevent) : Prop :=
  acked RegisterWorker h ∧ stopped h = false ∧ in_flight h = n ∧ (k ≤ turns h)%nat.

(** Calls that leave these facts alone. *)
Definition neutral (o : wop) : Prop :=
  match o with PoolSubmit _ | FutureDone _ | StoppingIsSet => False | _ => True end.

Lemma neutral_event (e : wevent) :
  neutral (projT1 e) → submitted_of e = 0 ∧ is_stop e = false ∧ is_turn e = false.
Proof. destruct e as [o x]. by destruct o. Qed.

Lemma serving_event n k h e :
  serving n k h → is_stop e = false → serving (n + submitted_of e) k (h ++ [e]).
Proof.
  intros (Ha & Hs & Hf & Hk) He. unfold serving. rewrite stopped_app, in_flight_app, turns_app.
  split_and!; [by apply acked_app|by simpl; rewrite Hs, He|simpl; lia|lia].
Qed.

Lemma serving_stable n k : stable (S:=WorkerSig) neutral (serving n k).
Proof.
  intros h e He Hh. destruct (neutral_event e He) as (H0 & H1 & _).
  replace n with (n + submitted_of e) by lia. by apply serving_event.
Qed.

Lemma call_ops_neutral m ol wait payload o :
  call_ops (w_rpc self) m ol wait payload o → neutral o.
Proof. by destruct o. Qed.

(** A call of the loop: what is known before it is known after it, and its answer. *)
Lemma wp_run_call n k m timeout wait payload Q h :
  serving n k h →
  (∀ h' q t, serving n k h' → sessional q → run_guard h' (Stub m q t)) →
  (∀ res h', serving n k h' → acked m h' → Q (Ok res) h') →
  (∀ e h', serving n k h' → Q (Raised e) h') →
  wpr (call (w_rpc self) m None timeout wait None payload) Q h.
Proof.
  intros Hh HG Hok Hraise.
  eapply (wp_call_traces timely run_guard (serving n k)); [done| |done| |].
  - eapply stable_mono; [|apply serving_stable]. apply call_ops_neutral.
  - intros h' [] Hh' Ho; try done. destruct Ho as [-> [rid ->]]. by apply HG.
  - intros tr [res|e|] Htr Hc Hr Hh'; [apply Hok; [done|]|by apply Hraise|done].
    apply call_acked in Htr as (q & rep & Hin). exists q, rep. rewrite stubs_app. set_solver.
Qed.

Lemma wp_reap n k futures h :
  serving n k h →
  wpr (reap_futures futures)
    (λ r' h', r' ≠ OutOfFuel ∧
      ∀ fs, r' = Ok fs → serving (n - Z.of_nat (length futures) + Z.of_nat (length fs)) k h') h.
Proof.
  revert n h. induction futures as [|f fs IH]; intros n h Hh.
  { split; [done|]. intros fs [= ->]. by replace (n - _ + _) with n by (simpl; lia). }
  cbn [reap_futures]. apply wp_bind. split; [done|]. intros d _. apply wp_ret. destruct d.
  - assert (serving (n - 1) k (h ++ [ev (FutureDone f) true])) as Hh1 by by apply serving_event.
    apply wp_bind. split; [done|]. intros x _. apply wp_ret, wp_bind.
    destruct x as [e|[]]; [by split|]. apply wp_ret.
    eapply wp_mono; [apply (IH (n - 1)); by apply serving_stable|].
    intros r' h' [Hr Hfs]. split; [done|]. intros fs' ->. specialize (Hfs fs' eq_refl).
    by replace (n - _ + _) with (n - 1 - Z.of_nat (length fs) + Z.of_nat (length fs'))
      by (simpl; lia).
  - assert (serving n k (h ++ [ev (FutureDone f) false])) as Hh1.
    { replace n with (n + 0) by lia. by apply (serving_event n k h (ev (FutureDone f) false)). }
    apply wp_bind. eapply wp_mono; [by apply IH|].
    intros [rest|e|] h' [Hr Hfs]; [|by split|done]. split; [done|].
    intros fs' [= <-]. specialize (Hfs rest eq_refl).
    by replace (n - _ + _) with (n - Z.of_nat (length fs) + Z.of_nat (length rest))
      by (simpl; lia).
Qed.

Lemma wp_catch_rpc {A} (p : W A) Q h :
  wpr p (λ r' h', match r' with
                  | Ok a => Q (Ok (inr a)) h'
                  | Raised (RpcError c) => Q (Ok (inl c)) h'
                  | Raised e => Q (Raised e) h'
                  | OutOfFuel => Q OutOfFuel h'
                  end) h →
  wpr (catch_rpc p) Q h.
Proof.
  intros Hp. apply wp_try_except, wp_bind. eapply wp_mono; [exact Hp|].
  intros [a|e|] h' H; [done| |done]. by destruct e.
Qed.

Lemma wp_beat n k last h :
  serving n k h →
  wpr (beat_if_due self last) (λ r' h', r' ≠ OutOfFuel ∧ serving n k h') h.
Proof.
  intros Hh. apply wp_bind. split; [done|]. intros now _. apply wp_ret.
  assert (serving n k (h ++ [ev Monotonic now])) as Hh1 by by apply serving_stable.
  destruct (now - last >? sec 3); [|by split]. apply wp_bind.
  eapply (wp_run_call n k); [done| | |by split].
  - intros h' q t (? & ? & ?) Hq. split; [done|]. split_and!; [done|done|discriminate].
  - intros res h' Hh' _. split; [done|]. intros t _. split; [done|]. by apply serving_stable.
Qed.

Lemma wp_lease n k futures h :
  serving n k h → n = Z.of_nat (length futures) → n < res_cpu r →
  wpr (lease_one self futures)
    (λ r' h', r' ≠ OutOfFuel ∧
      match r' with
      | Ok fs => serving (Z.of_nat (length fs)) k h'
      | _ => serving n k h'
      end) h.
Proof.
  intros Hh Hn Hcpu. apply wp_bind. eapply (wp_run_call n k); [done| | |by split].
  - intros h' q t (? & ? & Hf & _) Hq. split; [done|]. split_and!; [done|done|lia].
  - intros res h' Hh' Hack. destruct (res_idle res); apply wp_bind.
    + split; [done|]. intros b _. split; [done|]. rewrite <- Hn. by apply serving_stable.
    + destruct Hh' as (Ha & Hs & Hf & Hk). split; [split_and!; [done|done|lia]|].
      intros f _. split; [done|].
      assert (Z.of_nat (S (length futures)) = n + submitted_of (ev (PoolSubmit res) f)) as Hlen
        by (cbn; lia).
      cbn [length]. rewrite Hlen. by apply serving_event.
Qed.

Lemma wp_unavailable n k c Q h :
  serving n k h → (∀ h', serving n k h' → Q (Ok tt) h') → wpr (unavailable self c) Q h.
Proof.
  intros Hh HQ. split; [done|]. intros [] _. split; [done|]. intros b _.
  apply HQ. apply serving_stable; [done|]. by apply serving_stable.
Qed.

(** The end of the loop: out of fuel after that many turns, or released. *)
Definition run_ended (k : nat) (r' : outcome unit) (h : list wevent) : Prop :=
  match r' with
  | Ok _ => acked ReleaseWorker h
  | Raised _ => True
  | OutOfFuel => (k ≤ turns h)%nat
  end.

Lemma wp_release n k h : serving n k h →
  wpr (_ <- call (w_rpc self) ReleaseWorker None (sec 5) 0 None []; ret tt)
    (λ r' h', r' ≠ OutOfFuel ∧ run_ended 0 r' h') (h ++ [ev StoppingIsSet true]).
Proof.
  intros (Ha & Hs & _). apply wp_bind.
  set (I h := acked RegisterWorker h ∧ stopped h = true).
  assert (∀ P, stable (S:=WorkerSig) P I) as HI.
  { intros P h' e _ [? Hs']. split; [by apply acked_app|]. by rewrite stopped_app, Hs'. }
  eapply (wp_call_traces timely run_guard I); [done|apply HI| | |].
  - split; [by apply acked_app|]. rewrite stopped_app. by rewrite orb_true_r.
  - intros h' [] [? ?] Ho; try done. destruct Ho as [-> [rid ->]]. done.
  - intros tr [res|e|] Htr _ Hr Hh'; [|by split|done]. split; [done|].
    apply call_acked in Htr as (q & rep & Hin). exists q, rep. rewrite stubs_app. set_solver.
Qed.

Lemma wp_run_loop fuel k futures last h :
  serving (Z.of_nat (length futures)) k h →
  wpr (run_loop fuel self r futures last) (run_ended (k + fuel)) h.
Proof.
  revert k futures last h. induction fuel as [|fuel IH]; intros k futures last h Hh.
  { destruct Hh as (_ & _ & _ & Hk). simpl. lia. }
  cbn [run_loop]. apply wp_bind. split; [done|]. intros [] _; apply wp_ret.
  { eapply wp_mono; [by eapply wp_release|]. intros [[]|e|] h' [? ?]; done. }
  assert (serving (Z.of_nat (length futures)) (S k) (h ++ [ev StoppingIsSet false])) as Hh1.
  { destruct Hh as (Ha & Hs & Hf & Hk). unfold serving.
    rewrite stopped_app, in_flight_app, turns_app. split_and!; [by apply acked_app|by rewrite Hs| |].
    - rewrite Hf. cbn. lia.
    - cbn. lia. }
  assert (∀ last futures h', serving (Z.of_nat (length futures)) (S k) h' →
    wpr (run_loop fuel self r futures last) (run_ended (k + S fuel)) h') as Hloop.
  { intros. rewrite <- Nat.add_succ_comm. by apply IH. }
  apply wp_bind. eapply wp_mono; [by apply (wp_reap (Z.of_nat (length futures)) (S k))|].
  intros [fs|e|] h2 [Hr Hfs]; [|done|done]. specialize (Hfs fs eq_refl).
  replace (_ - _ + _) with (Z.of_nat (length fs)) in Hfs by lia.
  apply wp_bind, wp_catch_rpc. eapply wp_mono; [by apply (wp_beat (Z.of_nat (length fs)) (S k))|].
  intros [last'|[]|] h3 [Hr3 Hh3]; try done.
  2: { apply wp_bind. eapply wp_unavailable; [done|]. by auto. }
  destruct (_ >=? _) eqn:Hcpu.
  { apply wp_bind. split; [done|]. intros b _. apply wp_ret, Hloop. by apply serving_stable. }
  rewrite Z.geb_leb, Z.leb_gt in Hcpu.
  apply wp_bind, wp_catch_rpc. eapply wp_mono; [by apply (wp_lease (Z.of_nat (length fs)) (S k))|].
  intros [fs'|[]|] h4 [Hr4 Hh4]; try done; [by apply Hloop|].
  apply wp_bind. eapply wp_unavailable; [done|]. by auto.
Qed.

Lemma run_worker_safe fuel h0 :
  stopped h0 = false → in_flight h0 = 0 → wpr (run_worker fuel self r) (run_ended fuel) h0.
Proof.
  intros Hstop0 Hflight0. unfold run_worker. apply wp_bind. split; [done|].
  intros hostname _. apply wp_ret, wp_bind.
  set (I h := stopped h = false ∧ in_flight h = 0).
  assert (stable (S:=WorkerSig) neutral I) as HI.
  { intros h e He [Hs Hf]. destruct (neutral_event e He) as (H0 & H1 & _). split.
    - by rewrite stopped_app; simpl; rewrite Hs, H1.
    - rewrite in_flight_app; simpl; lia. }
  eapply (wp_call_traces timely run_guard I); [done| |by apply HI| |].
  { eapply stable_mono; [|exact HI]. apply call_ops_neutral. }
  { intros h' [] [? ?] Ho; try done. by destruct Ho as [-> [rid ->]]. }
  intros tr [res|e|] Htr _ Hr Hh'; [|done|done].
  assert (acked RegisterWorker ((h0 ++ [ev GetHostname hostname]) ++ tr)) as Hack.
  { apply call_acked in Htr as (q & rep & Hin). exists q, rep. rewrite stubs_app. set_solver. }
  clear Htr. apply wp_bind. split; [done|]. intros [] _. apply wp_ret.
  match goal with |- wp _ _ _ _ ?h => set (h1 := h) end.
  assert (serving 0 0 h1) as Hh1.
  { destruct Hh' as [Hs Hf]. unfold serving, h1. rewrite stopped_app, in_flight_app, Hs, Hf.
    split_and!; [by apply acked_app|done|done|lia]. }
  clearbody h1. apply wp_bind, wp_try_finally.
  eapply wp_mono; [by apply (wp_run_loop fuel 0 [] 0)|].
  intros [[]|e|] h2 Hend; [| |by simpl in *; lia].
  - split; [done|]. intros [] _. split; [split; [by apply acked_app|set_solver]|].
    intros [] _. by do 2 apply acked_app.
  - split; [done|]. by intros [] _.
Qed.
End Guard.

Lemma run_worker_guarded fuel self rs tr r tr1 e tr2 :
  traces (run_worker fuel self rs) tr r → consistent timely tr = true → tr = tr1 ++ e :: tr2 →
  run_guard self rs tr1 (projT1 e).
Proof.
  intros Htr Hc Heq. eapply (wp_sound _ _ _ _ [] tr r) in Htr as [_ HG];
    [|by apply run_worker_safe|done]. by eapply HG.
Qed.

(** The worker never runs more attempts than it has CPUs, and takes no work it was not
    given: an attempt is submitted to the pool only after a lease was answered, while fewer than
    [cpu] attempts are in flight and no stop was seen; a lease is only asked for then. *)
Theorem leases_only_into_free_slots fuel self rs tr r tr1 e tr2 :
  traces (run_worker fuel self rs) tr r → consistent timely tr = true → tr = tr1 ++ e :: tr2 →
  match projT1 e with
  | PoolSubmit _ => acked LeaseJob tr1 ∧ stopped tr1 = false ∧ in_flight tr1 < res_cpu rs
  | Stub LeaseJob q _ => acked RegisterWorker tr1 ∧ stopped tr1 = false ∧ in_flight tr1 < res_cpu rs
  | _ => True
  end.
Proof.
  intros Htr Hc Heq. eapply run_worker_guarded in Heq; [|done..].
  destruct (projT1 e); try done. destruct m; try done. by destruct Heq as (_ & ? & ? & ?); auto.
Qed.

(** The session of a worker: every request of the loop carries the session and no attempt;
    registration comes first, nothing but the release follows a stop, the channel is closed only
    after the pool was shut down and the release was answered; the worker returns normally only
    released, and is left running only while no stop is seen. *)
Theorem worker_session_protocol fuel self rs tr r :
  traces (run_worker fuel self rs) tr r → consistent timely tr = true →
  (∀ tr1 e tr2, tr = tr1 ++ e :: tr2 → run_guard self rs tr1 (projT1 e)) ∧
  match r with
  | Ok _ => acked ReleaseWorker tr
  | Raised _ => True
  | OutOfFuel => (fuel ≤ turns tr)%nat
  end.
Proof.
  intros Htr Hc. split.
  - intros tr1 e tr2 Heq. by eapply run_worker_guarded.
  - by eapply (wp_sound _ _ _ _ [] tr r) in Htr as [? _]; [|by apply run_worker_safe|done].
Qed.

(** ** A worker that leases one job and is then told to stop *)
Definition demo_session : outcome unit * list wevent :=
  run (demo_env (λ _ _ _, inr (Reply (Some (sec 115)) (Some (sec 100)) false None)) (λ _, EmptyString) 0 [])
      (run_worker 5 (Worker (MkRPC "w1" "s1") ∅ (λ _, "error")) (Resources 2 4096 0)) [].
Definition demo_session_worker : worker := Worker (MkRPC "w1" "s1") ∅ (λ _, "error").

Lemma demo_session_traces :
  traces (run_worker 5 demo_session_worker (Resources 2 4096 0)) demo_session.2 demo_session.1.
Proof. apply traces_run. Qed.

Lemma leases_only_into_free_slots_witness :
  acked LeaseJob (take 12 demo_session.2) ∧ in_flight (take 12 demo_session.2) < 2.
Proof.
  assert (∃ q f, demo_session.2 =
    take 12 demo_session.2 ++ ev (PoolSubmit q) f :: drop 13 demo_session.2) as (q & f & Heq)
    by (do 2 eexists; vm_compute; reflexivity).
  assert (consistent timely demo_session.2 = true) as Hc by (vm_compute; reflexivity).
  destruct (leases_only_into_free_slots 5 demo_session_worker (Resources 2 4096 0) demo_session.2
    demo_session.1 _ _ _ demo_session_traces Hc Heq) as (? & _ & ?).
  split; assumption.
Defined.

Lemma worker_session_protocol_witness : demo_session.1 = Ok tt ∧ acked ReleaseWorker demo_session.2.
Proof.
  assert (demo_session.1 = Ok tt) as Hr by (vm_compute; reflexivity).
  assert (consistent timely demo_session.2 = true) as Hc by (vm_compute; reflexivity).
  split; [exact Hr|].
  pose proof (worker_session_protocol 5 demo_session_worker (Resources 2 4096 0) demo_session.2
    demo_session.1 demo_session_traces Hc) as [_ H].
  rewrite Hr in H. exact H.
Defined.
