(* ===== verification/WorkerMain.v ===== *)
(** * WorkerMain: the worker process and its metrics endpoint (main.py, [Worker.__init__], [main])

    How a worker process is put together from its environment variables, what it does before the
    first request and after the last one, and the counter of failed uploads: the threads of the
    attempts increment it under a lock, the threads of the metrics server read it. *)
From S2P Require Import Prelude Effects PyStr Utf8 Json JsonParse JsonRound PyInt Wire World Rpc Worker WorkerRun.
Local Open Scope string_scope.
Local Open Scope list_scope.
Local Open Scope Z_scope.

(** ** The process *)
(** [RPC.__init__] *)
Definition channel_options : list (string * Z) :=
  [("grpc.initial_reconnect_backoff_ms", 100);
   ("grpc.min_reconnect_backoff_ms", 100);
   ("grpc.max_reconnect_backoff_ms", 1000);
   ("grpc.dns_min_time_between_resolutions_ms", 1000)].

Definition new_rpc (address worker_id session_id : string) : W RPC :=
  do (InsecureChannel address channel_options) ;;; ret (MkRPC worker_id session_id).

(** [Worker.__init__]; the default of [RUNGRID_WORKER_ID] is computed whether it is used or not. *)
Definition Worker_init (environ : gmap string string) (exn_str : exn → string)
    : W (worker * resources) :=
  hostname <- do GetHostname;
  u <- do Uuid4;
  let worker_id := default (hostname +:+ "-" +:+ u) (environ !! "RUNGRID_WORKER_ID") in
  session_id <- do Uuid4;
  rpc <- new_rpc (default "localhost:9090" (environ !! "RUNGRID_GRPC_ADDR")) worker_id session_id;
  cpu <- unwrap (env_int environ "RUNGRID_CPU" "2");
  memory_mb <- unwrap (env_int environ "RUNGRID_MEMORY_MB" "4096");
  gpu <- unwrap (env_int environ "RUNGRID_GPU" "0");
  ret (Worker rpc environ exn_str, Resources cpu memory_mb gpu).

Definition SIGINT : Z := 2.
Definition SIGTERM : Z := 15.

Definition main (fuel : nat) (environ : gmap string string) (exn_str : exn → string) : W unit :=
  p <- Worker_init environ exn_str;
  do (Signal SIGINT) ;;;
  do (Signal SIGTERM) ;;;
  port <- unwrap (env_int environ "RUNGRID_METRICS_PORT" "9101");
  m <- do (MetricsServer "0.0.0.0" port);
  _ <- unwrap m;
  do MetricsStart ;;;
  try_finally (run_worker fuel p.1 p.2) (do MetricsShutdown).

(** *** What the settings say *)
(** The resources and the port, or the first error. *)
Definition configuration (environ : gmap string string) : exn + (resources * Z) :=
  match env_int environ "RUNGRID_CPU" "2" with
  | inl e => inl e
  | inr cpu =>
      match env_int environ "RUNGRID_MEMORY_MB" "4096" with
      | inl e => inl e
      | inr memory_mb =>
          match env_int environ "RUNGRID_GPU" "0" with
          | inl e => inl e
          | inr gpu =>
              match env_int environ "RUNGRID_METRICS_PORT" "9101" with
              | inl e => inl e
              | inr port => inr (Resources cpu memory_mb gpu, port)
              end
          end
      end
  end.

(** The calls of the process before the loop of the worker. *)
Definition setup (environ : gmap string string) (hostname u session_id : string) (port : Z)
    : list wevent :=
  [ev GetHostname hostname; ev Uuid4 u; ev Uuid4 session_id;
   ev (InsecureChannel (default "localhost:9090" (environ !! "RUNGRID_GRPC_ADDR")) channel_options) tt;
   ev (Signal SIGINT) tt; ev (Signal SIGTERM) tt;
   ev (MetricsServer "0.0.0.0" port) (inr tt); ev MetricsStart tt].

Definition configured (environ : gmap string string) (exn_str : exn → string)
    (hostname u session_id : string) : worker :=
  Worker (MkRPC (default (hostname +:+ "-" +:+ u) (environ !! "RUNGRID_WORKER_ID")) session_id)
    environ exn_str.

(** A failed start: nothing was sent and no metrics were served. *)
Definition is_serving (e : wevent) : bool :=
  match projT1 e with MetricsStart => true | _ => false end.
Definition not_started (tr : list wevent) : Prop := stubs tr = [] ∧ existsb is_serving tr = false.

Lemma init_traces environ exn_str tr r :
  traces (Worker_init environ exn_str) tr r →
  ∃ hostname u session_id, tr = take 4 (setup environ hostname u session_id 0) ∧
    r = match env_int environ "RUNGRID_CPU" "2", env_int environ "RUNGRID_MEMORY_MB" "4096",
              env_int environ "RUNGRID_GPU" "0" with
        | inl e, _, _ | inr _, inl e, _ | inr _, inr _, inl e => Raised e
        | inr cpu, inr memory_mb, inr gpu =>
            Ok (configured environ exn_str hostname u session_id, Resources cpu memory_mb gpu)
        end.
Proof.
  intros (hostname & ? & -> & u & ? & -> & session & ? & -> & [] & ? & -> & H).
  exists hostname, u, session. revert H.
  destruct (env_int _ "RUNGRID_CPU" _), (env_int _ "RUNGRID_MEMORY_MB" _), (env_int _ "RUNGRID_GPU" _);
    by intros [-> ->].
Qed.

Lemma shutdown_traces (p : W unit) tr r :
  traces (try_finally p (do MetricsShutdown)) tr r →
  ∃ tr', tr = tr' ++ match r with OutOfFuel => [] | _ => [ev MetricsShutdown tt] end ∧ traces p tr' r.
Proof.
  intros (tr' & r' & fin & Hp & Hfin & ->)%traces_bind. exists tr'.
  destruct r' as [[]|e|]; [| |by destruct Hfin as [-> ->]];
    by destruct Hfin as ([] & ? & -> & [-> ->]).
Qed.

Lemma main_traces fuel environ exn_str tr r :
  traces (main fuel environ exn_str) tr r →
  match configuration environ with
  | inl e => r = Raised e ∧ not_started tr
  | inr (rs, port) =>
      (∃ e, r = Raised e ∧ not_started tr) ∨
      ∃ hostname u session_id tr',
        tr = setup environ hostname u session_id port ++ tr' ++
             match r with OutOfFuel => [] | _ => [ev MetricsShutdown tt] end ∧
        traces (run_worker fuel (configured environ exn_str hostname u session_id) rs) tr' r
  end.
Proof.
  unfold main, configuration.
  intros (tr0 & r0 & tr1 & (hostname & u & session & -> & ->)%init_traces & H & ->)%traces_bind.
  destruct (env_int _ "RUNGRID_CPU" _) as [e|cpu]; [destruct H as [-> ->]; split; [done|by split]|].
  destruct (env_int _ "RUNGRID_MEMORY_MB" _) as [e|mem];
    [destruct H as [-> ->]; split; [done|by split]|].
  destruct (env_int _ "RUNGRID_GPU" _) as [e|gpu]; [destruct H as [-> ->]; split; [done|by split]|].
  destruct H as ([] & ? & -> & [] & ? & -> & H).
  destruct (env_int _ "RUNGRID_METRICS_PORT" _) as [e|port];
    [destruct H as [-> ->]; split; [done|by split]|].
  destruct H as ([e|[]] & ? & -> & H); [left; destruct H as [-> ->]; eexists; split; [done|by split]|].
  destruct H as ([] & ? & -> & (tr' & -> & H)%shutdown_traces). right.
  by exists hostname, u, session, tr'.
Qed.

Definition harmless (e : wevent) : Prop :=
  stub_of e = None ∧ ∀ self rs h, run_guard self rs h (projT1 e).

Lemma setup_harmless environ hostname u session_id port e :
  e ∈ setup environ hostname u session_id port → harmless e.
Proof. apply Forall_forall. repeat (constructor; [by split|]). constructor. Qed.

Definition closing (r : outcome unit) : list wevent :=
  match r with OutOfFuel => [] | _ => [ev MetricsShutdown tt] end.

Lemma shutdown_harmless r e : e ∈ closing r → harmless e.
Proof. apply Forall_forall. destruct r; repeat (constructor; [by split|]); constructor. Qed.

(** C18. The life of a worker process.  Settings that are not integers end it before anything is
    sent.  Otherwise, unless the metrics port cannot be opened, every request is sent after the
    handlers of SIGINT and SIGTERM were installed and the metrics are served, under the worker id
    of the environment and one session id; every call keeps the protocol of the session with the
    resources of the environment; whatever ends the loop, the metrics server is shut down last;
    and the process returns normally only after the control plane acknowledged its release. *)
Theorem worker_process_lifecycle fuel environ exn_str tr r :
  traces (main fuel environ exn_str) tr r → consistent timely tr = true →
  match configuration environ with
  | inl e => r = Raised e ∧ not_started tr
  | inr (rs, port) =>
      (∃ e, r = Raised e ∧ not_started tr) ∨
      ∃ hostname u session_id, let self := configured environ exn_str hostname u session_id in
        (∀ tr1 e tr2, tr = tr1 ++ e :: tr2 → is_Some (stub_of e) →
           setup environ hostname u session_id port `prefix_of` tr1) ∧
        (∀ tr1 e tr2, tr = tr1 ++ e :: tr2 → run_guard self rs tr1 (projT1 e)) ∧
        (r ≠ OutOfFuel → last tr = Some (ev MetricsShutdown tt)) ∧
        (r = Ok tt → acked ReleaseWorker tr)
  end.
Proof.
  intros Htr%main_traces Hc. destruct (configuration environ) as [e|[rs port]]; [done|].
  destruct Htr as [?|(hostname & u & session & tr' & -> & Htr)]; [by left|].
  right. exists hostname, u, session. cbv zeta.
  apply consistent_from_app in Hc as [_ [Hc _]%consistent_from_app].
  rewrite app_nil_l in Hc. set (h0 := setup _ _ _ _ _) in *.
  assert (run_ended fuel r (h0 ++ tr') ∧
    ∀ tr1 e tr2, tr' = tr1 ++ e :: tr2 → run_guard (configured environ exn_str hostname u session) rs (h0 ++ tr1) (projT1 e))
    as [Hend HG].
  { eapply (wp_sound _ _ _ _ h0 tr' r) in Htr as [? HG]; [|by apply run_worker_safe|done].
    split; [done|]. intros. by eapply HG. }
  fold (closing r). set (fin := closing r).
  assert (∀ tr1 e tr2, h0 ++ tr' ++ fin = tr1 ++ e :: tr2 →
    (∃ tr3, tr1 = h0 ++ tr3 ∧ run_guard (configured environ exn_str hostname u session) rs tr1 (projT1 e)) ∨
    harmless e) as Hcases.
  { intros tr1 e tr2 [(q & Heq & _)|(p & -> & Heq)]%app_cons_cases.
    { right. apply (setup_harmless environ hostname u session port). fold h0. rewrite Heq. apply elem_of_middle. }
    apply app_cons_cases in Heq as [(q & Heq & _)|(p' & _ & Hfin)]; [left; by eauto|right].
    assert (e ∈ fin) as Hin by (rewrite Hfin; apply elem_of_middle).
    apply (shutdown_harmless r). exact Hin. }
  split_and!.
  - intros tr1 e tr2 Heq [? Hstub]. apply Hcases in Heq as [(tr3 & -> & _)|[? _]]; [by eexists|congruence].
  - intros tr1 e tr2 Heq. by apply Hcases in Heq as [(tr3 & -> & ?)|[_ ?]].
  - intros Hr. rewrite app_assoc. unfold fin. destruct r; [apply last_snoc..|done].
  - intros ->. rewrite app_assoc. apply acked_app. done.
Qed.

(** ** The metrics endpoint *)
Inductive http_answer :=
| SendError (code : Z)
| Page (code : Z) (headers : list (string * string)) (body : string).

Definition newline : string := String "010" EmptyString.

(** [Metrics.do_GET] *)
Definition do_GET (path : string) (upload_failures : Z) : http_answer :=
  if negb (String.eqb path "/metrics") then SendError 404
  else Page 200 [("Content-Type", "text/plain; version=0.0.4")]
         ("# TYPE rungrid_artifact_upload_failures_total counter" +:+ newline +:+
          "rungrid_artifact_upload_failures_total " +:+ pretty upload_failures +:+ newline).

(** ** The counter of failed uploads

    [Worker.upload_failed] in the threads of the attempts, one step at a time: take the lock, load
    the counter, store it plus one, release the lock; and [do_GET] in the threads of the server,
    which reads the counter without the lock. *)
Inductive pc := Outside | Locked | Loaded (v : Z) | Stored.

Record counter := Counter {
  upload_failures : Z;
  metric_lock : option nat;
  pcs : nat → pc }.

Definition no_failures : counter := Counter 0 None (λ _, Outside).

Definition set_pc (t : nat) (p : pc) (s : counter) : nat → pc :=
  λ t', if decide (t' = t) then p else pcs s t'.

Inductive mark := Enter (t : nat) | Load (t : nat) | Store_ (t : nat) | Leave (t : nat)
                | Blocked (t : nat) | Answer (path : string) (a : http_answer).

(** The next step of thread [t] in [upload_failed]. *)
Definition upload_failed (t : nat) (s : counter) : mark * counter :=
  match pcs s t with
  | Outside =>
      match metric_lock s with
      | None => (Enter t, Counter (upload_failures s) (Some t) (set_pc t Locked s))
      | Some _ => (Blocked t, s)
      end
  | Locked => (Load t, Counter (upload_failures s) (metric_lock s) (set_pc t (Loaded (upload_failures s)) s))
  | Loaded v => (Store_ t, Counter (v + 1) (metric_lock s) (set_pc t Stored s))
  | Stored => (Leave t, Counter (upload_failures s) None (set_pc t Outside s))
  end.

Inductive action := Advance (t : nat) | Get (path : string).

Definition act (a : action) (s : counter) : mark * counter :=
  match a with
  | Advance t => upload_failed t s
  | Get path => (Answer path (do_GET path (upload_failures s)), s)
  end.

(** Any interleaving of the threads. *)
Fixpoint schedule (l : list action) (s : counter) : list mark * counter :=
  match l with
  | [] => ([], s)
  | a :: l => let '(m, s1) := act a s in
              let '(ms, s2) := schedule l s1 in
              (m :: ms, s2)
  end.

Definition entered (m : mark) : bool := match m with Enter _ => true | _ => false end.
Definition left_ (m : mark) : bool := match m with Leave _ => true | _ => false end.
Definition count (p : mark → bool) (tr : list mark) : Z := Z.of_nat (length (List.filter p tr)).

Lemma count_snoc p tr m : count p (tr ++ [m]) = count p tr + (if p m then 1 else 0).
Proof. unfold count. rewrite List.filter_app, length_app. simpl. destruct (p m); simpl; lia. Qed.

(** The lock is held by the one thread inside; what it loaded is still the counter, and the calls
    that have stored or left are the ones counted. *)
Definition counted (tr : list mark) (s : counter) : Prop :=
  match metric_lock s with
  | None => (∀ t, pcs s t = Outside) ∧
            upload_failures s = count left_ tr ∧ count entered tr = count left_ tr
  | Some t => (∀ t', t' ≠ t → pcs s t' = Outside) ∧ count entered tr = count left_ tr + 1 ∧
              match pcs s t with
              | Outside => False
              | Locked => upload_failures s = count left_ tr
              | Loaded v => upload_failures s = count left_ tr ∧ v = upload_failures s
              | Stored => upload_failures s = count left_ tr + 1
              end
  end.

Lemma counted_upload tr s t :
  counted tr s → counted (tr ++ [(upload_failed t s).1]) (upload_failed t s).2.
Proof.
  unfold counted, upload_failed. intros Hc. destruct s as [n lock pcs]. simpl in *.
  assert (∀ p t', t' ≠ t → set_pc t p (Counter n lock pcs) t' = pcs t') as Hother.
  { intros p t' Hne. unfold set_pc. by rewrite decide_False. }
  assert (∀ p, set_pc t p (Counter n lock pcs) t = p) as Hself.
  { intros p. unfold set_pc. by rewrite decide_True. }
  destruct lock as [u|].
  - destruct Hc as (Hout & Hent & Hu). destruct (decide (t = u)) as [<-|Hne].
    + assert (∀ p t', t' ≠ t → set_pc t p (Counter n (Some t) pcs) t' = Outside) as Hrest.
      { intros p t' Hne. rewrite Hother by done. by apply Hout. }
      destruct (pcs t) as [| |v|] eqn:Ht; [done|..]; cbn; rewrite ?Hself, !count_snoc; cbn.
      * split; [by apply Hrest|]. lia.
      * destruct Hu as [-> ->]. split; [by apply Hrest|]. lia.
      * split; [|lia]. intros t'. destruct (decide (t' = t)) as [->|?]; [apply Hself|by apply Hrest].
    + rewrite (Hout t Hne). cbn. rewrite !count_snoc. cbn. rewrite !Z.add_0_r. done.
  - destruct Hc as (Hout & Hn & Hent). rewrite (Hout t). cbn. rewrite Hself, !count_snoc. cbn.
    split; [|lia]. intros t' Hne. rewrite Hother by done. apply Hout.
Qed.

Lemma counted_bounds tr s :
  counted tr s → count left_ tr ≤ upload_failures s ≤ count entered tr.
Proof.
  unfold counted. destruct (metric_lock s) as [t|]; [|lia].
  intros (_ & ? & H). destruct (pcs s t); lia.
Qed.

Lemma schedule_counted l s tr0 :
  counted tr0 s →
  counted (tr0 ++ (schedule l s).1) (schedule l s).2 ∧
  ∀ tr1 path a tr2, (schedule l s).1 = tr1 ++ Answer path a :: tr2 →
    ∃ n, a = do_GET path n ∧ count left_ (tr0 ++ tr1) ≤ n ≤ count entered (tr0 ++ tr1).
Proof.
  revert s tr0. induction l as [|x l IH]; intros s tr0 Hs; simpl.
  { rewrite app_nil_r. split; [done|]. by intros []. }
  assert (counted (tr0 ++ [(act x s).1]) (act x s).2) as Hs1.
  { destruct x as [t|path]; [by apply counted_upload|]. simpl. unfold counted in *.
    rewrite !count_snoc. cbn. by rewrite !Z.add_0_r. }
  destruct (act x s) as [m s1] eqn:Hact. simpl in *.
  destruct (IH s1 _ Hs1) as [H1 H2]. destruct (schedule l s1) as [ms s2]. simpl in *.
  split; [by rewrite <- app_assoc in H1|]. intros [|m' tr1] path a tr2.
  - intros [= -> ->]. rewrite app_nil_r. exists (upload_failures s). split; [|by apply counted_bounds].
    destruct x; simpl in Hact; [|by simplify_eq]. unfold upload_failed in Hact. repeat case_hyp Hact.
  - intros [= <- ->]. destruct (H2 tr1 path a tr2 eq_refl) as (n & ? & Hn). exists n.
    by rewrite <- app_assoc in Hn.
Qed.

(** No failed upload is lost from the metrics, however the threads interleave: every answer of
    the endpoint is the page for a number between the failures that had been counted completely
    and the failures whose counting had begun when it was given.  When no thread is inside, both
    are the number of failures. *)
Theorem failures_are_counted l tr1 path a tr2 :
  (schedule l no_failures).1 = tr1 ++ Answer path a :: tr2 →
  ∃ n, a = do_GET path n ∧ count left_ tr1 ≤ n ≤ count entered tr1.
Proof. intros H. by eapply (schedule_counted l no_failures []). Qed.

Definition demo_schedule : list action :=
  [Advance 1; Advance 2; Advance 1; Get "/metrics"; Advance 1; Advance 2; Advance 1;
   Advance 2; Advance 2; Advance 2; Advance 2; Get "/metrics"].

Lemma failures_are_counted_witness :
  last (schedule demo_schedule no_failures).1 = Some (Answer "/metrics" (do_GET "/metrics" 2)) ∧
  ∃ n, do_GET "/metrics" 2 = do_GET "/metrics" n ∧
    count left_ (take 11 (schedule demo_schedule no_failures).1) ≤ n
    ≤ count entered (take 11 (schedule demo_schedule no_failures).1).
Proof.
  split; [vm_compute; reflexivity|].
  apply (failures_are_counted demo_schedule _ _ _ []). vm_compute. reflexivity.
Defined.

(** ** A process configured by its environment *)
Definition demo_environ : gmap string string := {["RUNGRID_WORKER_ID" := "w7"; "RUNGRID_CPU" := " 1 "]}.
Definition demo_process : outcome unit * list wevent :=
  run (demo_env (λ _ _ _, inr (Reply (Some (sec 115)) (Some (sec 100)) false None)) (λ _, EmptyString) 0 [])
      (main 5 demo_environ (λ _, "error")) [].

Lemma worker_process_lifecycle_witness :
  demo_process.1 = Ok tt ∧ configuration demo_environ = inr (Resources 1 4096 0, 9101) ∧
  ((∃ e, demo_process.1 = Raised e ∧ not_started demo_process.2) ∨
   ∃ hostname u session_id,
     let self := configured demo_environ (λ _, "error") hostname u session_id in
     worker_id (w_rpc self) = "w7" ∧
     (demo_process.1 ≠ OutOfFuel → last demo_process.2 = Some (ev MetricsShutdown tt)) ∧
     (demo_process.1 = Ok tt → acked ReleaseWorker demo_process.2)).
Proof.
  split; [vm_compute; reflexivity|]. split; [vm_compute; reflexivity|].
  assert (consistent timely demo_process.2 = true) as Hc by (vm_compute; reflexivity).
  pose proof (worker_process_lifecycle 5 demo_environ (λ _, "error") demo_process.2 demo_process.1
    (traces_run _ _ _) Hc) as H.
  replace (configuration demo_environ) with (@inr exn _ (Resources 1 4096 0, 9101)) in H
    by (vm_compute; reflexivity).
  destruct H as [H|(hostname & u & session & _ & _ & H1 & H2)]; [left; exact H|right].
  exists hostname, u, session. split; [vm_compute; reflexivity|]. split; assumption.
Defined.
