(* ===== verification/Checkpoint.v ===== *)
(** * Checkpoint: atomic checkpoints (sdk/python/rungrid/checkpoint.py, examples/checkpoint_counter.py)

    [checkpoint] writes a temporary file, forces it to the disk and renames it, so that the worker
    that lists [*.json] sees complete files only.  A file remembers whether its content has been
    forced to the disk; the calls made before the process stops, by an error, a signal or a power
    loss, are a prefix of the calls of a complete run. *)
From S2P Require Import Prelude Effects PyStr Utf8 Json JsonParse JsonRound.
Local Open Scope string_scope.
Local Open Scope list_scope.

(** ** Files *)
Record file := File { data : string; synced : bool }.
Abbreviation fs := (gmap string file).

Inductive fsop :=
| MkdirP (p : string)                 (* p.mkdir(parents=True, exist_ok=True) *)
| OpenWrite (p : string)              (* p.open("w"): created, or emptied *)
| Write (p : string) (chunk : string)
| Fsync (p : string)
| Replace (p q : string).             (* p.replace(q) *)

Definition apply_op (f : fs) (o : fsop) : fs :=
  match o with
  | MkdirP _ => f
  | OpenWrite p => <[p := File EmptyString false]> f
  | Write p chunk => match f !! p with
                     | Some x => <[p := File (data x +:+ chunk) false]> f
                     | None => f
                     end
  | Fsync p => match f !! p with
               | Some x => <[p := File (data x) true]> f
               | None => f
               end
  | Replace p q => match f !! p with
                   | Some x => <[q := x]> (delete p f)
                   | None => f
                   end
  end.
Definition apply_ops (f : fs) (ops : list fsop) : fs := foldl apply_op f ops.

(** A power loss: what was forced to the disk is kept, a file with other content can hold
    anything or be gone. *)
Definition power_loss (f f' : fs) : Prop :=
  ∀ p, match f !! p with
       | Some (File d true) => f' !! p = Some (File d true)
       | Some (File _ false) => True
       | None => f' !! p = None
       end.

(** ** [checkpoint.py] *)
Definition output_dir (env : gmap string string) : exn + (list fsop * string) :=
  match env !! "RUNGRID_OUTPUT_DIR" with
  | Some d => inr ([MkdirP d], d)
  | None => inl (KeyError "RUNGRID_OUTPUT_DIR")
  end.

(** [Path(value) if value else None] *)
Definition resume_path (env : gmap string string) : option string :=
  match env !! "RUNGRID_CHECKPOINT_PATH" with
  | Some v => if nonempty v then Some v else None
  | None => None
  end.

(** The name before its last dot. *)
Fixpoint cut_dot (s : string) : option string :=
  match s with
  | EmptyString => None
  | String c r => match cut_dot r with
                  | Some t => Some (String c t)
                  | None => if Ascii.eqb c "." then Some EmptyString else None
                  end
  end.
(** The name [name] with the suffix [suffix]: [Path.with_suffix]. *)
Definition with_suffix (name suffix : string) : string :=
  match cut_dot name with Some stem => stem +:+ suffix | None => name +:+ suffix end.

(** The calls of [checkpoint(state)], whose [json.dump] writes the text as [chunks], and the path
    it returns.  Directories are not files: making one changes no file. *)
Definition checkpoint (env : gmap string string) (uuid : string) (chunks : list string)
  : exn + (list fsop * string) :=
  match env !! "RUNGRID_CHECKPOINT_DIR" with
  | None => inl (KeyError "RUNGRID_CHECKPOINT_DIR")
  | Some directory =>
      let name := uuid +:+ ".json" in
      let target := directory +:+ "/" +:+ name in
      let temporary := directory +:+ "/" +:+ with_suffix name ".tmp" in
      inr (MkdirP directory :: OpenWrite temporary :: (Write temporary <$> chunks)
             ++ [Fsync temporary; Replace temporary target], target)
  end.

(** What [checkpoints.glob("*.json")] can list. *)
Definition listed (p : string) : bool := ends_with ".json" p.

(** ** Names *)
Lemma cut_dot_none s : contains "." s = false → cut_dot s = None.
Proof.
  induction s as [|c s IH]; [done|]. cbn [contains has_prefix]. intros [Hc Hs]%orb_false_iff.
  cbn [cut_dot]. rewrite IH by done. rewrite andb_true_r, Ascii.eqb_sym in Hc. by rewrite Hc.
Qed.

Lemma cut_dot_suffix u t : contains "." t = false → cut_dot (u +:+ String "." t) = Some u.
Proof.
  intros Ht. induction u as [|c u IH].
  - change (EmptyString +:+ String "." t) with (String "." t). cbn [cut_dot].
    by rewrite cut_dot_none.
  - rewrite string_cons_app. cbn [cut_dot]. by rewrite IH.
Qed.

Lemma tmp_not_listed p : listed (p +:+ ".tmp") = false.
Proof.
  apply not_true_is_false. intros [q Hq]%ends_with_spec.
  apply (f_equal last_char) in Hq. by rewrite !last_char_app in Hq.
Qed.

(** ** Atomicity *)
Section Atomic.
Context (f : fs) (tmp target : string) (chunks : list string).
Local Abbreviation ops :=
  (OpenWrite tmp :: (Write tmp <$> chunks) ++ [Fsync tmp; Replace tmp target]).

Lemma writes_effect cs d (g : fs) :
  g !! tmp = Some (File d false) →
  apply_ops g (Write tmp <$> cs) = <[tmp := File (d +:+ foldr String.app EmptyString cs) false]> g.
Proof.
  revert d g. induction cs as [|c cs IH]; intros d g Hg; cbn [fmap list_fmap apply_ops foldl foldr].
  - rewrite string_app_nil_r. by rewrite insert_id.
  - change (foldl apply_op ?g ?l) with (apply_ops g l). cbn [apply_op]. rewrite Hg. cbn [data].
    rewrite (IH (d +:+ c)) by by simplify_map_eq. by rewrite insert_insert_eq, string_app_assoc.
Qed.

Local Abbreviation text cs := (foldr String.app EmptyString cs).

Lemma open_writes_effect cs :
  apply_ops f (OpenWrite tmp :: (Write tmp <$> cs)) = <[tmp := File (text cs) false]> f.
Proof.
  change (apply_ops f (OpenWrite tmp :: (Write tmp <$> cs)))
    with (apply_ops (<[tmp := File EmptyString false]> f) (Write tmp <$> cs)).
  rewrite (writes_effect cs EmptyString) by by simplify_map_eq. by rewrite insert_insert_eq.
Qed.

Lemma fsync_effect :
  apply_ops f (OpenWrite tmp :: (Write tmp <$> chunks) ++ [Fsync tmp])
  = <[tmp := File (text chunks) true]> f.
Proof.
  rewrite app_comm_cons. unfold apply_ops at 1. rewrite foldl_app. fold (apply_ops f).
  change (foldl apply_op f) with (apply_ops f). rewrite open_writes_effect.
  cbn [foldl apply_op]. rewrite lookup_insert_eq. cbn [data]. by rewrite insert_insert_eq.
Qed.

Lemma ops_effect :
  apply_ops f ops = <[target := File (text chunks) true]> (delete tmp f).
Proof.
  replace ops with ((OpenWrite tmp :: (Write tmp <$> chunks) ++ [Fsync tmp]) ++ [Replace tmp target])
    by (simpl; by rewrite <- app_assoc).
  unfold apply_ops. rewrite foldl_app. change (foldl apply_op f) with (apply_ops f).
  rewrite fsync_effect. cbn [foldl apply_op]. rewrite lookup_insert_eq.
  by rewrite delete_insert_eq.
Qed.

(** Every prefix leaves the other files alone, and either has an unfinished temporary file or
    has put the whole text, forced to the disk, at the target. *)
Lemma prefix_effect pre :
  pre `prefix_of` ops →
  apply_ops f pre = f ∨ (∃ x, apply_ops f pre = <[tmp := x]> f) ∨ pre = ops.
Proof.
  intros Hpre. destruct pre as [|o pre]; [by left|right].
  apply prefix_cons_inv_1 in Hpre as Ho. subst o. apply prefix_cons_inv_2 in Hpre.
  apply prefix_app_cases in Hpre as [[l Hl]|(l' & -> & Hl')].
  - left. apply fmap_app_inv in Hl as (c1 & c2 & -> & _ & _). eexists.
    apply open_writes_effect.
  - destruct l' as [|o1 [|o2 l']].
    + left. rewrite app_nil_r. eexists. apply open_writes_effect.
    + apply prefix_cons_inv_1 in Hl' as ->. left. eexists. apply fsync_effect.
    + right. apply prefix_cons_inv_1 in Hl' as Ho1. apply prefix_cons_inv_2 in Hl'. subst o1.
      apply prefix_cons_inv_1 in Hl' as Ho2. apply prefix_cons_inv_2, prefix_nil_inv in Hl'.
      by subst.
Qed.
End Atomic.

Lemma power_loss_synced f f' p d : power_loss f f' → f !! p = Some (File d true) → f' !! p = Some (File d true).
Proof. intros Hl Hp. specialize (Hl p). by rewrite Hp in Hl. Qed.

Lemma power_loss_none f f' p : power_loss f f' → f !! p = None → f' !! p = None.
Proof. intros Hl Hp. specialize (Hl p). by rewrite Hp in Hl. Qed.

(** A listed file after a power loss, when the listed files were on the disk before it. *)
Lemma power_loss_listed (f f' : fs) p :
  power_loss f f' → (∀ x, f !! p = Some x → synced x = true) → f' !! p = f !! p.
Proof.
  intros Hl Hs. destruct (f !! p) as [[d s]|] eqn:Hp.
  - specialize (Hs _ eq_refl). simpl in Hs. subst s. by eapply power_loss_synced.
  - by eapply power_loss_none.
Qed.


(** ** Resuming: examples/checkpoint_counter.py

    What the program publishes and writes at its end, from the text of the checkpoint it is given;
    [None] when the checkpoint is not JSON or has no integer [step]. *)
Definition step_of (state : json) : option Z :=
  match state with
  | JObj d => match List.find (λ kv, String.eqb kv.1 "step") d with
              | Some (_, JNum z) => Some z
              | _ => None
              end
  | _ => None
  end.

Definition counter_state (step : Z) : json := JObj [("step", JNum step)].
(** [for step in range(start, 20): checkpoint({"step": step + 1})] *)
Definition counter_from (start : Z) : list json :=
  (λ step, counter_state (step + 1)) <$> seqZ start (20 - start).

Definition counter (resume : option string) : option (list json * json) :=
  state ← match resume with None => Some (counter_state 0) | Some text => loads text end;
  start ← step_of state;
  Some (counter_from start, JObj [("completed_steps", JNum 20)]).

(** What a chain of attempts publishes: each attempt but the last is killed after some of its
    checkpoints were acknowledged, and its successor is given the last of those. *)
Fixpoint counter_chain (resume : option string) (kills : list nat) : option (list json * json) :=
  match kills with
  | [] => counter resume
  | k :: kills =>
      '(published, _) ← counter resume;
      let kept := take k published in
      '(rest, metrics) ← counter_chain
         (match last kept with Some state => Some (dumps state) | None => resume end) kills;
      Some (kept ++ rest, metrics)
  end.

Lemma counter_resumes z : counter (Some (dumps (counter_state z)))
  = Some (counter_from z, JObj [("completed_steps", JNum 20)]).
Proof. unfold counter. by rewrite loads_dumps_eq. Qed.

Lemma counter_from_lookup z k s :
  counter_from z !! k = Some s → s = counter_state (z + Z.of_nat k + 1) ∧ (z + Z.of_nat k < 20)%Z.
Proof.
  unfold counter_from. rewrite list_lookup_fmap. intros (y & Hy & ->)%fmap_Some.
  apply lookup_seqZ in Hy as [-> ?]. split; [done|lia].
Qed.

Lemma counter_from_split z k s :
  counter_from z !! k = Some s →
  take (S k) (counter_from z) ++ counter_from (z + Z.of_nat k + 1) = counter_from z.
Proof.
  intros [-> Hlt]%counter_from_lookup. unfold counter_from. rewrite <- fmap_take, <- fmap_app. f_equal.
  apply list_eq. intros i. destruct (decide (i < S k)%nat) as [Hi|Hi].
  - rewrite lookup_app_l by (rewrite length_take, length_seqZ; lia). by rewrite lookup_take_lt.
  - rewrite lookup_app_r by (rewrite length_take, length_seqZ; lia).
    rewrite length_take, length_seqZ. replace (S k `min` Z.to_nat (20 - z))%nat with (S k) by lia.
    destruct (decide (z + Z.of_nat i < 20)%Z).
    + rewrite !lookup_seqZ_lt by lia. f_equal. lia.
    + rewrite !lookup_seqZ_ge by lia. done.
Qed.

Lemma last_take_cases {A} (l : list A) k :
  (take k l = [] ∧ last (take k l) = None) ∨
  ∃ i x, take k l = take (S i) l ∧ l !! i = Some x ∧ last (take k l) = Some x.
Proof.
  destruct (last (take k l)) as [x|] eqn:Hl; [right|left; by apply last_None in Hl].
  rewrite last_lookup in Hl. rewrite length_take in *.
  destruct (k `min` length l)%nat as [|i] eqn:Hk.
  { exfalso. assert (take k l = []) as Ht by (apply nil_length_inv; rewrite length_take; lia).
    by rewrite Ht in Hl. }
  exists i, x. simpl in Hl. apply lookup_take_Some in Hl as [Hl _]. split_and!; [|done|done].
  rewrite <- (firstn_all (take k l)), length_take, Hk, take_take. f_equal. lia.
Qed.

Lemma counter_chain_from kills resume z :
  counter resume = Some (counter_from z, JObj [("completed_steps", JNum 20)]) →
  counter_chain resume kills = Some (counter_from z, JObj [("completed_steps", JNum 20)]).
Proof.
  revert resume z. induction kills as [|k kills IH]; intros resume z Hz; [done|].
  cbn [counter_chain]. rewrite Hz. cbn [mbind option_bind].
  destruct (last_take_cases (counter_from z) k) as [[Ht ->]|(i & s & Ht & Hi & ->)].
  - rewrite (IH resume z) by done. cbn [mbind option_bind]. by rewrite Ht.
  - apply counter_from_split in Hi as Hsplit. apply counter_from_lookup in Hi as [-> _].
    rewrite (IH _ (z + Z.of_nat i + 1)%Z) by apply counter_resumes. cbn [mbind option_bind].
    by rewrite Ht, Hsplit.
Qed.

(** A job that checkpoints loses no work and repeats none that was acknowledged: however
    often and wherever its attempts are killed, a chain of attempts that resume from the last
    acknowledged checkpoint publishes the steps 1 to 20 once each, in order, and ends with the
    same metrics as an attempt that is never killed. *)
Theorem resumed_counter_is_uninterrupted kills :
  counter_chain None kills = counter None ∧
  counter None = Some (counter_state <$> seqZ 1 20, JObj [("completed_steps", JNum 20)]).
Proof.
  split; [|vm_compute; reflexivity].
  rewrite (counter_chain_from kills None 0) by done. done.
Qed.

