(* ===== verification/Control.v ===== *)
(** * Control: the store of the control plane (internal/store, internal/scheduler/model.go)

    The Go server keeps jobs, attempts, workers, artifacts, events and request receipts in
    PostgreSQL and changes them in transactions.  A transaction is a computation of the monad
    [Tx] over the tables [db]: it reads the database clock and draws identifiers from its
    environment, and an error undoes it.  The row locks every transaction takes in the order
    worker, job, attempt (and the lock of the receipt of its request) make the transactions
    serial, so one runs at a time; the jobs whose rows another transaction has locked when a
    [SKIP LOCKED] query runs are given by the environment.

    A [timestamptz] is an integer in microseconds, a [uuid] its lower-case text. *)
From S2P Require Import Prelude Effects PyStr Json Sha256 Wire.
Local Open Scope string_scope.
Local Open Scope list_scope.
Local Open Scope Z_scope.

Module Store.

(** ** scheduler/model.go *)
Record Resources := MkResources { CPU : Z; MemoryMB : Z; GPU : Z }.

#[export] Instance resources_eq_dec : EqDecision Resources.
Proof. solve_decision. Defined.

Definition Valid (r : Resources) : bool :=
  (0 <=? CPU r) && (0 <=? MemoryMB r) && (0 <=? GPU r) &&
  (CPU r <=? 1000000) && (MemoryMB r <=? 1000000000) && (GPU r <=? 1000000).

Record Job := MkJob {
  Name : string;
  Command : list string;
  Environment : option (gmap string string);  (* None: the nil map *)
  JobResources : Resources;
  JobMaxAttempts : Z;
  TimeoutSeconds : Z;
  IdempotencyKey : string;
  ArtifactPrefix : string }.

#[export] Instance job_eq_dec : EqDecision Job.
Proof. solve_decision. Defined.

(** [len(s)], in bytes. *)
Definition len (s : string) : Z := Z.of_nat (String.length s).

(** No character 0: what [strings.ContainsRune(a, 0)] tests and what a PostgreSQL text accepts. *)
Definition NUL : string := String Ascii.zero EmptyString.
Definition text_ok (s : string) : bool := negb (contains NUL s).

Definition between (lo hi c : ascii) : bool :=
  (N_of_ascii lo <=? N_of_ascii c)%N && (N_of_ascii c <=? N_of_ascii hi)%N.
Definition letter (c : ascii) : bool :=
  between "a" "z" c || between "A" "Z" c || Ascii.eqb c "_".
Fixpoint all_chars (p : ascii → bool) (s : string) : bool :=
  match s with EmptyString => true | String c r => p c && all_chars p r end.
(** [^[A-Za-z_][A-Za-z0-9_]*$] *)
Definition envKey (s : string) : bool :=
  match s with
  | EmptyString => false
  | String c r => letter c && all_chars (λ c, letter c || between "0" "9" c) r
  end.

(** [Validate] returns nil. *)
Definition Validate (j : Job) : bool :=
  (1 <=? len (Name j)) && (len (Name j) <=? 256) &&
  (1 <=? len (IdempotencyKey j)) && (len (IdempotencyKey j) <=? 256) &&
  match Command j with [] => false | c :: _ => nonempty c end &&
  (Z.of_nat (length (Command j)) <=? 1024) &&
  forallb text_ok (Command j) &&
  Valid (JobResources j) && (1 <=? CPU (JobResources j)) && (1 <=? MemoryMB (JobResources j)) &&
  (1 <=? JobMaxAttempts j) && (JobMaxAttempts j <=? 100) &&
  (1 <=? TimeoutSeconds j) && (TimeoutSeconds j <=? 604800) &&
  forallb (λ kv : string * string,
             envKey kv.1 && text_ok kv.2 && negb (has_prefix "RUNGRID_" kv.1))
    (map_to_list (default ∅ (Environment j))) &&
  negb (has_prefix "/" (ArtifactPrefix j)) && negb (contains ".." (ArtifactPrefix j)) &&
  (len (ArtifactPrefix j) <=? 512).

(** ** Tables *)
Inductive job_state := QUEUED | LEASED | RUNNING | SUCCEEDED | FAILED | CANCELLED.
#[export] Instance job_state_eq_dec : EqDecision job_state.
Proof. solve_decision. Defined.

Inductive attempt_state := ALeased | ARunning | ASucceeded | AFailed | AExpired | ACancelled.
#[export] Instance attempt_state_eq_dec : EqDecision attempt_state.
Proof. solve_decision. Defined.

Inductive worker_state := ACTIVE | DRAINING.
#[export] Instance worker_state_eq_dec : EqDecision worker_state.
Proof. solve_decision. Defined.

Definition RetryState (number max : Z) : job_state := if number <? max then QUEUED else FAILED.

(** A row of [jobs]; [cols] are the columns [cpu], [memory_mb], [gpu]. *)
Record JobRow := MkJobRow {
  ID : string;
  Definition_ : Job;
  State : job_state;
  MaxAttempts : Z;
  CreatedAt : Z;
  UpdatedAt : Z;
  cols : Resources }.

Record AttemptRow := MkAttemptRow {
  at_job : string;
  at_number : Z;
  at_worker : string;
  at_state : attempt_state;
  at_token : string;
  at_expires : Z;
  at_deadline : Z;
  at_created : Z;
  at_started : option Z;
  at_finished : option Z;
  at_exit_code : option Z;
  at_reason : option string }.

Record WorkerRow := MkWorkerRow {
  wk_session : string;
  wk_hostname : string;
  wk_cap : Resources;
  wk_state : worker_state;
  wk_registered : Z;
  wk_heartbeat : Z }.

Record ArtifactRow := MkArtifactRow {
  ar_id : string;
  ar_job : string;
  ar_attempt : string;
  ar_data : artifact;
  ar_created : Z }.

Record EventRow := MkEventRow {
  ev_job : string;
  ev_attempt : option string;
  ev_type : string;
  ev_payload : json;
  ev_created : Z }.

(** What the store answers. *)
Record LeaseAnswer := MkLease {
  l_job : JobRow;
  l_attempt : string;
  l_number : Z;
  l_token : string;
  l_expires : Z;
  l_server : Z;
  l_checkpoint : option artifact }.

Inductive response :=
| Registered
| Idle
| Leased (l : LeaseAnswer)
| Released
| Alive
| Renewed (lease_expires_at server_time : Z)
| Accepted
| JobAnswer (j : JobRow).

(** [requests]: the payload hash and, once the transaction is committed, the response. *)
Record db := Db {
  jobs : gmap string JobRow;
  attempts : gmap string AttemptRow;
  workers : gmap string WorkerRow;
  artifacts : list ArtifactRow;
  events : list EventRow;
  requests : gmap (string * string) (string * option response) }.

Definition empty_db : db := Db ∅ ∅ ∅ [] [] ∅.

Definition set_jobs (f : gmap string JobRow → gmap string JobRow) (d : db) : db :=
  Db (f (jobs d)) (attempts d) (workers d) (artifacts d) (events d) (requests d).
Definition set_attempts (f : gmap string AttemptRow → gmap string AttemptRow) (d : db) : db :=
  Db (jobs d) (f (attempts d)) (workers d) (artifacts d) (events d) (requests d).
Definition set_workers (f : gmap string WorkerRow → gmap string WorkerRow) (d : db) : db :=
  Db (jobs d) (attempts d) (f (workers d)) (artifacts d) (events d) (requests d).
Definition add_artifact (a : ArtifactRow) (d : db) : db :=
  Db (jobs d) (attempts d) (workers d) (artifacts d ++ [a]) (events d) (requests d).
Definition add_event (e : EventRow) (d : db) : db :=
  Db (jobs d) (attempts d) (workers d) (artifacts d) (events d ++ [e]) (requests d).
Definition set_request (k : string * string) (v : string * option response) (d : db) : db :=
  Db (jobs d) (attempts d) (workers d) (artifacts d) (events d) (<[k := v]> (requests d)).

(** [state IN ('LEASED','RUNNING')] *)
Definition active (s : attempt_state) : bool :=
  match s with ALeased | ARunning => true | _ => false end.
Definition in_progress (s : job_state) : bool :=
  match s with LEASED | RUNNING => true | _ => false end.

Definition job_set (st : job_state) (max now : Z) (j : JobRow) : JobRow :=
  MkJobRow (ID j) (Definition_ j) st max (CreatedAt j) now (cols j).
Definition attempt_end (st : attempt_state) (now : Z) (code : option Z) (reason : string)
    (a : AttemptRow) : AttemptRow :=
  MkAttemptRow (at_job a) (at_number a) (at_worker a) st (at_token a) (at_expires a)
    (at_deadline a) (at_created a) (at_started a) (Some now)
    (match code with Some _ => code | None => at_exit_code a end) (Some reason).
Definition attempt_start (now : Z) (a : AttemptRow) : AttemptRow :=
  MkAttemptRow (at_job a) (at_number a) (at_worker a) ARunning (at_token a) (at_expires a)
    (at_deadline a) (at_created a) (Some now) (at_finished a) (at_exit_code a) (at_reason a).
Definition attempt_renew (expires : Z) (a : AttemptRow) : AttemptRow :=
  MkAttemptRow (at_job a) (at_number a) (at_worker a) (at_state a) (at_token a) expires
    (at_deadline a) (at_created a) (at_started a) (at_finished a) (at_exit_code a) (at_reason a).
Definition worker_beat (now : Z) (w : WorkerRow) : WorkerRow :=
  MkWorkerRow (wk_session w) (wk_hostname w) (wk_cap w) (wk_state w) (wk_registered w) now.
Definition worker_drain (w : WorkerRow) : WorkerRow :=
  MkWorkerRow (wk_session w) (wk_hostname w) (wk_cap w) DRAINING (wk_registered w) (wk_heartbeat w).

(** ** Transactions *)
Inductive error := ErrConflict | ErrNotFound | ErrInvalid | ErrInternal.
#[export] Instance error_eq_dec : EqDecision error.
Proof. solve_decision. Defined.

(** The n-th reading of [clock_timestamp()] of a transaction, the n-th [scheduler.ID()], and the
    jobs whose rows are locked by other transactions. *)
Record env := Env { now : nat → Z; new_id : nat → string; locked : string → bool }.

Definition Tx (A : Type) : Type := env → nat → db → error + (A * nat * db).

#[global] Instance tx_ret : MRet Tx := λ A a e n d, inr (a, n, d).
#[global] Instance tx_bind : MBind Tx := λ A B f p e n d,
  match p e n d with
  | inl x => inl x
  | inr (a, n', d') => f a e n' d'
  end.

Definition throw {A} (x : error) : Tx A := λ e n d, inl x.
Definition guard (b : bool) (x : error) : Tx unit := λ e n d, if b then inr (tt, n, d) else inl x.
Definition read {A} (f : db → A) : Tx A := λ e n d, inr (f d, n, d).
Definition modify (f : db → db) : Tx unit := λ e n d, inr (tt, n, f d).
Definition clock_timestamp : Tx Z := λ e n d, inr (now e n, S n, d).
Definition fresh_id : Tx string := λ e n d, inr (new_id e n, S n, d).
Definition is_locked (j : string) : Tx bool := λ e n d, inr (locked e j, n, d).
(** A row that must exist: [pgx.ErrNoRows] becomes the error. *)
Definition must {A} (o : option A) (x : error) : Tx A :=
  match o with Some a => mret a | None => throw x end.

(** [Begin], the body, and [Commit], or [Rollback] after an error. *)
Definition transact {A} (t : Tx A) (e : env) (d : db) : (error + A) * db :=
  match t e 0%nat d with
  | inl x => (inl x, d)
  | inr (a, _, d') => (inr a, d')
  end.

(** *** JSON *)
(** [json.Marshal] of a string: quotes, backslashes, control characters, [<], [>], [&] and the
    separators U+2028 and U+2029 are escaped. *)
Definition go_char (c : ascii) : string :=
  let n := N_of_ascii c in
  if (n =? 34)%N then short_escape dquote
  else if (n =? 92)%N then short_escape backslash
  else if (n =? 8)%N then short_escape "b"
  else if (n =? 12)%N then short_escape "f"
  else if (n =? 10)%N then short_escape "n"
  else if (n =? 13)%N then short_escape "r"
  else if (n =? 9)%N then short_escape "t"
  else if (n <? 32)%N || (n =? 60)%N || (n =? 62)%N || (n =? 38)%N then u_escape n
  else String c EmptyString.
Fixpoint go_escape (s : string) : string :=
  match s with
  | EmptyString => EmptyString
  | String c r =>
      match r with
      | String c1 (String c2 r') =>
          if (N_of_ascii c =? 226)%N && (N_of_ascii c1 =? 128)%N &&
             ((N_of_ascii c2 =? 168)%N || (N_of_ascii c2 =? 169)%N)
          then u_escape (8192 + (N_of_ascii c2 - 128))%N +:+ go_escape r'
          else go_char c +:+ go_escape r
      | _ => go_char c +:+ go_escape r
      end
  end.
Definition go_quote (s : string) : string :=
  String dquote (go_escape s +:+ String dquote EmptyString).
Fixpoint Marshal (v : json) : string :=
  match v with
  | JNull => "null"
  | JBool true => "true"
  | JBool false => "false"
  | JNum z => pretty z
  | JStr s => go_quote s
  | JArr l => "[" +:+ join "," (map Marshal l) +:+ "]"
  | JObj l => "{" +:+ join "," (map (λ kv, go_quote (kv.1) +:+ ":" +:+ Marshal (kv.2)) l) +:+ "}"
  end.

(** A map is marshalled with its keys in order. *)
Fixpoint insert_pair (x : string * string) (l : list (string * string)) : list (string * string) :=
  match l with
  | [] => [x]
  | y :: l' => if String.leb x.1 y.1 then x :: l else y :: insert_pair x l'
  end.
Definition map_json (m : gmap string string) : json :=
  JObj ((λ kv, (kv.1, JStr kv.2)) <$> foldr insert_pair [] (map_to_list m)).
Definition resources_json (r : Resources) : json :=
  JObj [("cpu", JNum (CPU r)); ("memory_mb", JNum (MemoryMB r)); ("gpu", JNum (GPU r))].
Definition job_json (j : Job) : json :=
  JObj [("name", JStr (Name j)); ("command", JArr (JStr <$> Command j));
        ("environment", match Environment j with Some m => map_json m | None => JNull end);
        ("resources", resources_json (JobResources j));
        ("max_attempts", JNum (JobMaxAttempts j)); ("timeout_seconds", JNum (TimeoutSeconds j));
        ("idempotency_key", JStr (IdempotencyKey j)); ("artifact_prefix", JStr (ArtifactPrefix j))].

(** What a [jsonb] column accepts: no string with a character 0. *)
Fixpoint storable (v : json) : bool :=
  match v with
  | JStr s => text_ok s
  | JArr l => forallb storable l
  | JObj l => forallb (λ kv, text_ok (kv.1) && storable (kv.2)) l
  | _ => true
  end.

(** *** [event] *)
Definition event (job : string) (attempt : option string) (kind : string) (payload : json)
  : Tx unit :=
  guard (storable payload) ErrInternal;;
  t ← clock_timestamp;
  modify (add_event (MkEventRow job attempt kind payload t)).

(** ** [Submit] *)
Definition by_key (key : string) (d : db) : option JobRow :=
  snd <$> List.find (λ kv : string * JobRow, String.eqb (IdempotencyKey (Definition_ kv.2)) key)
            (map_to_list (jobs d)).

(** [INSERT INTO jobs ... ON CONFLICT(idempotency_key) DO NOTHING]: the rows affected. *)
Definition insert_job (id : string) (j : Job) : Tx bool :=
  guard (text_ok (Name j) && text_ok (IdempotencyKey j) && text_ok (ArtifactPrefix j)) ErrInternal;;
  old ← read (by_key (IdempotencyKey j));
  match old with
  | Some _ => mret false
  | None =>
      k ← read jobs;
      guard (bool_decide (k !! id = None)) ErrInternal;;
      created ← clock_timestamp;
      updated ← clock_timestamp;
      modify (set_jobs (insert id (MkJobRow id j QUEUED (JobMaxAttempts j) created updated
                                     (JobResources j))));;
      mret true
  end.

Definition submit_one (j : Job) : Tx JobRow :=
  id ← fresh_id;
  inserted ← insert_job id j;
  found ← read (by_key (IdempotencyKey j));
  row ← must found ErrNotFound;
  guard (String.eqb (Marshal (job_json (Definition_ row))) (Marshal (job_json j))) ErrConflict;;
  (if inserted : bool then event id None "SUBMITTED" (JObj []) else mret tt);;
  mret row.

Fixpoint submit_all (js : list Job) : Tx (list JobRow) :=
  match js with
  | [] => mret []
  | j :: js => row ← submit_one j; rows ← submit_all js; mret (row :: rows)
  end.

Definition Submit (js : list Job) : Tx (list JobRow) :=
  guard ((1 <=? length js)%nat && (length js <=? N.to_nat 1000)%nat) ErrInvalid;;
  guard (forallb Validate js) ErrInvalid;;
  submit_all js.

(** ** [Mutate]: a transaction with a receipt *)
(** Run [fn] and keep its response under the request. *)
Definition with_receipt (scope id hash : string) (fn : Tx response) : Tx response :=
  result ← fn;
  modify (set_request (scope, id) (hash, Some result));;
  mret result.

Definition Mutate (scope id : string) (payload : json) (fn : Tx response) : Tx response :=
  guard (nonempty id && (len id <=? 256)) ErrInvalid;;
  let hash := sha256_hex (Marshal payload) in
  guard (text_ok scope && text_ok id) ErrInternal;;
  rs ← read requests;
  match rs !! (scope, id) with
  | Some (old, response) =>
      guard (String.eqb old hash) ErrConflict;;
      match response with
      | Some r => mret r
      | None => with_receipt scope id hash fn
      end
  | None =>
      modify (set_request (scope, id) (hash, None));;
      with_receipt scope id hash fn
  end.

(** A [uuid] parameter. *)
Definition lower_char (c : ascii) : ascii :=
  if between "A" "Z" c then ascii_of_N (N_of_ascii c + 32) else c.
Fixpoint lower (s : string) : string :=
  match s with EmptyString => EmptyString | String c r => String (lower_char c) (lower r) end.

(** ** [Action] *)
Definition max_int32 : Z := 2147483647.

(** [UPDATE jobs SET state=$2,max_attempts=$3,updated_at=clock_timestamp()] *)
Definition update_job (id : string) (st : job_state) (max : Z) : Tx unit :=
  guard (max <=? max_int32) ErrInternal;;
  t ← clock_timestamp;
  modify (set_jobs (alter (job_set st max t) id)).

(** [UPDATE jobs SET state=$2,updated_at=clock_timestamp()] *)
Definition set_state (id : string) (st : job_state) : Tx unit :=
  t ← clock_timestamp;
  modify (set_jobs (alter (λ j, job_set st (MaxAttempts j) t j) id)).

Definition end_active (job : string) (t : Z) (a : AttemptRow) : AttemptRow :=
  if bool_decide (at_job a = job) && active (at_state a)
  then attempt_end ACancelled t None "cancelled" a else a.

Definition act (id action request_id : string) : Tx response :=
  found ← read (λ d, jobs d !! lower id);
  j ← must found ErrNotFound;
  '(st, max) ← (if String.eqb action "cancel" then
                  match State j with
                  | SUCCEEDED | FAILED => throw ErrConflict
                  | CANCELLED => mret (CANCELLED, MaxAttempts j)
                  | _ =>
                      t ← clock_timestamp;
                      modify (set_attempts (fmap (end_active (lower id) t)));;
                      mret (CANCELLED, MaxAttempts j)
                  end
                else if String.eqb action "retry" then
                  match State j with
                  | FAILED => mret (QUEUED, MaxAttempts j + 1)
                  | _ => throw ErrConflict
                  end
                else throw ErrInvalid);
  update_job (lower id) st max;;
  event (lower id) None action (JObj [("request_id", JStr request_id)]);;
  found ← read (λ d, jobs d !! lower id);
  row ← must found ErrNotFound;
  mret (JobAnswer row).

Definition Action (id action request_id : string) : Tx response :=
  Mutate ("job:" +:+ action) request_id (JStr id) (act id action request_id).

(** ** [RPC] *)
Record Request := MkRequest {
  RequestID : string;
  WorkerID : string;
  SessionID : string;
  AttemptID : string;
  LeaseToken : string;
  Hostname : string;
  RqResources : Resources;
  ExitCode : Z;
  Reason : string;
  Logs : option (list string);       (* None: the nil slice *)
  Artifacts : option (list artifact) }.

#[export] Instance Request_eq_dec : EqDecision Request.
Proof. solve_decision. Defined.

Definition artifact_json (a : artifact) : json :=
  JObj [("object_key", JStr (object_key a)); ("content_type", JStr (content_type a));
        ("size_bytes", JNum (size_bytes a)); ("checksum", JStr (checksum a));
        ("kind", JStr (kind a))].
Definition slice_json {A} (f : A → json) (l : option (list A)) : json :=
  match l with Some l => JArr (f <$> l) | None => JNull end.
Definition request_json (r : Request) : json :=
  JObj [("request_id", JStr (RequestID r)); ("worker_id", JStr (WorkerID r));
        ("session_id", JStr (SessionID r)); ("attempt_id", JStr (AttemptID r));
        ("lease_token", JStr (LeaseToken r)); ("hostname", JStr (Hostname r));
        ("resources", resources_json (RqResources r)); ("exit_code", JNum (ExitCode r));
        ("reason", JStr (Reason r)); ("logs", slice_json JStr (Logs r));
        ("artifacts", slice_json artifact_json (Artifacts r))].

(** *** [lease] *)
(** A sum over the rows of a table. *)
Definition msum {A} (f : A → Z) (m : gmap string A) : Z := map_fold (λ _ x acc, f x + acc) 0 m.

(** What an attempt adds to [sum(j.cpu)] and the like for the worker [w]. *)
Definition share (c : Resources → Z) (js : gmap string JobRow) (w : string) (a : AttemptRow) : Z :=
  if bool_decide (at_worker a = w) && active (at_state a)
  then match js !! at_job a with Some j => c (cols j) | None => 0 end else 0.
Definition usage (c : Resources → Z) (d : db) (w : string) : Z :=
  msum (share c (jobs d) w) (attempts d).

(** [ORDER BY created_at,id LIMIT 1] *)
Definition older (a b : JobRow) : bool :=
  (CreatedAt a <? CreatedAt b) ||
  ((CreatedAt a =? CreatedAt b) && String.leb (ID a) (ID b)).
Fixpoint oldest (l : list JobRow) : option JobRow :=
  match l with
  | [] => None
  | j :: l => match oldest l with
              | Some k => Some (if older j k then j else k)
              | None => Some j
              end
  end.

Definition leasable (free : Resources) (skip : string → bool) (j : JobRow) : bool :=
  bool_decide (State j = QUEUED) && (CPU (cols j) <=? CPU free) &&
  (MemoryMB (cols j) <=? MemoryMB free) && (GPU (cols j) <=? GPU free) && negb (skip (ID j)).
Definition queue_head (free : Resources) (skip : string → bool) (d : db) : option JobRow :=
  oldest (List.filter (leasable free skip) (map_to_list (jobs d)).*2).

(** [(SELECT coalesce(max(attempt_number),0) FROM attempts WHERE job_id=$2)] *)
Definition last_number (d : db) (job : string) : Z :=
  map_fold (λ _ a m, if bool_decide (at_job a = job) then Z.max (at_number a) m else m) 0 (attempts d).

(** The constraints of the table [attempts]: primary key, one number per job, one active attempt
    per job. *)
Definition attempt_allowed (d : db) (id : string) (a : AttemptRow) : bool :=
  bool_decide (attempts d !! id = None) &&
  forallb (λ kb : string * AttemptRow,
             negb (bool_decide (at_job kb.2 = at_job a) &&
                   ((at_number kb.2 =? at_number a) ||
                    (active (at_state kb.2) && active (at_state a)))))
    (map_to_list (attempts d)).

(** [ORDER BY created_at DESC,id DESC LIMIT 1] among the checkpoints of a job. *)
Definition newer (a b : ArtifactRow) : bool :=
  (ar_created b <? ar_created a) ||
  ((ar_created b =? ar_created a) && String.leb (ar_id b) (ar_id a)).
Fixpoint newest (l : list ArtifactRow) : option ArtifactRow :=
  match l with
  | [] => None
  | a :: l => match newest l with
              | Some b => Some (if newer a b then a else b)
              | None => Some a
              end
  end.
Definition latest_checkpoint (d : db) (job : string) : option artifact :=
  ar_data <$> newest (List.filter (λ a, String.eqb (ar_job a) job &&
                                        String.eqb (kind (ar_data a)) "checkpoint") (artifacts d)).

Section Lease.
Context (LeaseSeconds : Z).

Definition insert_attempt (id token : string) (j : JobRow) (w : string) : Tx LeaseAnswer :=
  number ← read (λ d, last_number d (ID j) + 1);
  t1 ← clock_timestamp;
  t2 ← clock_timestamp;
  t3 ← clock_timestamp;
  let expires := t1 + sec (Z.min LeaseSeconds (TimeoutSeconds (Definition_ j))) in
  let row := MkAttemptRow (ID j) number w ALeased token expires
               (t2 + sec (TimeoutSeconds (Definition_ j))) t3 None None None None in
  ok ← read (λ d, attempt_allowed d id row);
  guard ok ErrInternal;;
  modify (set_attempts (insert id row));;
  t4 ← clock_timestamp;
  mret (MkLease j id number token expires t4 None).

Definition lease (r : Request) (cap : Resources) : Tx response :=
  free ← read (λ d, MkResources (CPU cap - usage CPU d (WorkerID r))
                                (MemoryMB cap - usage MemoryMB d (WorkerID r))
                                (GPU cap - usage GPU d (WorkerID r)));
  head ← (λ e n d, inr (queue_head free (locked e) d, n, d));
  match head with
  | None => mret Idle
  | Some j =>
      id ← fresh_id;
      token ← fresh_id;
      l ← insert_attempt id token j (WorkerID r);
      guard (negb (l_number l >? MaxAttempts j)) ErrInternal;;
      set_state (ID j) LEASED;;
      checkpoint ← read (λ d, latest_checkpoint d (ID j));
      event (ID j) (Some id) "LEASED"
        (JObj [("attempt_number", JNum (l_number l)); ("request_id", JStr (RequestID r));
               ("worker_id", JStr (WorkerID r))]);;
      mret (Leased (MkLease (MkJobRow (ID j) (Definition_ j) LEASED (MaxAttempts j) (CreatedAt j)
                               (UpdatedAt j) (cols j))
                      id (l_number l) token (l_expires l) (l_server l) checkpoint))
  end.

(** *** [attempt] *)
Definition hex (c : ascii) : bool := between "0" "9" c || between "a" "f" c || between "A" "F" c.
(** The characters of [s] satisfy the predicates of [ps], one by one. *)
Fixpoint matches (ps : list (ascii → bool)) (s : string) : bool :=
  match ps, s with
  | [], EmptyString => true
  | p :: ps, String c s => p c && matches ps s
  | _, _ => false
  end.
Definition idPattern : string → bool :=
  matches (replicate 8 hex ++ [is_char "-"] ++ replicate 4 hex ++ [is_char "-"] ++
           replicate 4 hex ++ [is_char "-"] ++ replicate 4 hex ++ [is_char "-"] ++ replicate 12 hex).
Definition checksumPattern : string → bool :=
  matches (replicate 64 (λ c, between "0" "9" c || between "a" "f" c)).

Definition key_prefix (j : JobRow) (attempt : string) : string :=
  let prefix := strip (is_char slash) (ArtifactPrefix (Definition_ j)) in
  (if nonempty prefix then prefix +:+ "/" else prefix) +:+ ID j +:+ "/" +:+ attempt +:+ "/".

Definition artifact_ok (j : JobRow) (attempt : string) (a : artifact) : bool :=
  has_prefix (key_prefix j attempt) (object_key a) && negb (contains ".." (object_key a)) &&
  checksumPattern (checksum a) && negb (size_bytes a <? 0) &&
  (String.eqb (kind a) "checkpoint" || String.eqb (kind a) "output" || String.eqb (kind a) "log").

Definition store_artifact (j : JobRow) (attempt : string) (a : artifact) : Tx unit :=
  guard (artifact_ok j attempt a) ErrInvalid;;
  guard (text_ok (object_key a)) ErrInternal;;
  existing ← read (λ d, List.find (λ x, String.eqb (object_key (ar_data x)) (object_key a)) (artifacts d));
  match existing with
  | Some x => guard (bool_decide (ar_data x = a)) ErrConflict
  | None =>
      id ← fresh_id;
      guard (text_ok (content_type a)) ErrInternal;;
      used ← read (λ d, existsb (λ x, String.eqb (ar_id x) id) (artifacts d));
      guard (negb used) ErrInternal;;
      t ← clock_timestamp;
      modify (add_artifact (MkArtifactRow id (ID j) (lower attempt) a t))
  end.

Fixpoint store_artifacts (j : JobRow) (attempt : string) (l : list artifact) : Tx unit :=
  match l with
  | [] => mret tt
  | a :: l => store_artifact j attempt a;; store_artifacts j attempt l
  end.

(** The limits of a report. *)
Definition within_limits (r : Request) : bool :=
  (length (default [] (Logs r)) <=? 100)%nat && (length (default [] (Artifacts r)) <=? 100)%nat &&
  (len (Reason r) <=? 8192) && forallb (λ line, len line <=? 16384) (default [] (Logs r)).

(** [CompleteAttempt] and [FailAttempt] after the artifacts. *)
Definition finish_attempt (m : method) (r : Request) (j : JobRow) (number : Z) : Tx unit :=
  guard (negb (bool_decide (m = CompleteAttempt) && negb (ExitCode r =? 0))) ErrInvalid;;
  let '(next, state) := if bool_decide (m = FailAttempt)
                        then (RetryState number (MaxAttempts j), AFailed)
                        else (SUCCEEDED, ASucceeded) in
  guard (text_ok (Reason r) && (- max_int32 - 1 <=? ExitCode r) && (ExitCode r <=? max_int32)) ErrInternal;;
  t ← clock_timestamp;
  modify (set_attempts (alter (attempt_end state t (Some (ExitCode r)) (Reason r)) (lower (AttemptID r))));;
  set_state (ID j) next.

(** The row of an attempt and whether [lease_expires_at>clock_timestamp() AND
    deadline_at>clock_timestamp()]. *)
Definition locked_attempt (id : string) : Tx (AttemptRow * bool) :=
  found ← read (λ d, attempts d !! id);
  a ← must found ErrInternal;
  t1 ← clock_timestamp;
  t2 ← clock_timestamp;
  mret (a, (t1 <? at_expires a) && (t2 <? at_deadline a)).

Definition attempt_event (m : method) (r : Request) (job : string) : Tx response :=
  event job (Some (lower (AttemptID r))) (method_name m)
    (JObj [("exit_code", JNum (ExitCode r)); ("logs", slice_json JStr (Logs r));
           ("reason", JStr (Reason r)); ("request_id", JStr (RequestID r));
           ("worker_id", JStr (WorkerID r))]);;
  mret Accepted.

Definition renew (r : Request) (a : AttemptRow) : Tx response :=
  t1 ← clock_timestamp;
  let expires := Z.min (at_deadline a) (t1 + sec LeaseSeconds) in
  modify (set_attempts (alter (attempt_renew expires) (lower (AttemptID r))));;
  t2 ← clock_timestamp;
  mret (Renewed expires t2).

Definition start (r : Request) (j : JobRow) (a : AttemptRow) : Tx unit :=
  match at_state a with
  | ALeased =>
      t ← clock_timestamp;
      modify (set_attempts (alter (attempt_start t) (lower (AttemptID r))));;
      set_state (ID j) RUNNING
  | _ => mret tt
  end.

Definition report (m : method) (r : Request) (j : JobRow) (a : AttemptRow) : Tx unit :=
  guard (bool_decide (at_state a = ARunning)) ErrConflict;;
  guard (within_limits r) ErrInvalid;;
  store_artifacts j (AttemptID r) (default [] (Artifacts r));;
  if bool_decide (m = ReportProgress) then mret tt else finish_attempt m r j (at_number a).

(** [worker != r.WorkerID || token != r.LeaseToken || !valid || ...], negated. *)
Definition fence (r : Request) (j : JobRow) (a : AttemptRow) (valid : bool) : bool :=
  String.eqb (at_worker a) (WorkerID r) && String.eqb (at_token a) (LeaseToken r) && valid &&
  in_progress (State j) && active (at_state a).

Definition attempt (m : method) (r : Request) : Tx response :=
  guard (idPattern (AttemptID r) && idPattern (LeaseToken r)) ErrInvalid;;
  found ← read (λ d, at_job <$> attempts d !! lower (AttemptID r));
  job_id ← must found ErrNotFound;
  found ← read (λ d, jobs d !! job_id);
  j ← must found ErrNotFound;
  '(a, valid) ← locked_attempt (lower (AttemptID r));
  guard (fence r j a valid) ErrConflict;;
  match m with
  | Heartbeat => renew r a
  | StartAttempt => start r j a;; attempt_event m r (ID j)
  | _ => report m r j a;; attempt_event m r (ID j)
  end.

Definition register (r : Request) : Tx response :=
  guard (Valid (RqResources r) && (1 <=? CPU (RqResources r)) && (1 <=? MemoryMB (RqResources r)))
    ErrInvalid;;
  guard (text_ok (WorkerID r) && text_ok (SessionID r) && text_ok (Hostname r)) ErrInternal;;
  known ← read (λ d, workers d !! WorkerID r);
  match known with
  | Some w => guard (String.eqb (wk_session w) (SessionID r) && bool_decide (wk_cap w = RqResources r))
                ErrConflict
  | None =>
      t1 ← clock_timestamp;
      t2 ← clock_timestamp;
      modify (set_workers (insert (WorkerID r)
        (MkWorkerRow (SessionID r) (Hostname r) (RqResources r) ACTIVE t1 t2)))
  end;;
  mret Registered.

(** The [switch] of [RPC], for the worker [w]. *)
Definition serve (m : method) (r : Request) (w : WorkerRow) : Tx response :=
  match m with
  | LeaseJob =>
      guard (bool_decide (wk_state w = ACTIVE)) ErrConflict;;
      lease r (wk_cap w)
  | ReleaseWorker =>
      modify (set_workers (alter worker_drain (WorkerID r)));;
      mret Released
  | Heartbeat => if nonempty (AttemptID r) then attempt m r else mret Alive
  | _ => attempt m r
  end.

(** The body of [RPC] for a registered worker. *)
Definition dispatch (m : method) (r : Request) : Tx response :=
  known ← read (λ d, workers d !! WorkerID r);
  w ← must known ErrNotFound;
  guard (String.eqb (wk_session w) (SessionID r)) ErrConflict;;
  t ← clock_timestamp;
  modify (set_workers (alter (worker_beat t) (WorkerID r)));;
  serve m r w.

Definition RPC (m : method) (r : Request) : Tx response :=
  guard (nonempty (WorkerID r) && nonempty (SessionID r) && (len (WorkerID r) <=? 256) &&
         (len (SessionID r) <=? 256)) ErrInvalid;;
  Mutate ("rpc:" +:+ method_name m +:+ ":" +:+ WorkerID r) (RequestID r) (request_json r)
    (match m with RegisterWorker => register r | _ => dispatch m r end).
End Lease.

(** ** [Reap] *)
Definition expired (t : Z) (a : AttemptRow) : bool := active (at_state a) && (at_expires a <=? t).

(** The attempts of a job, with their identifiers. *)
Definition attempts_of (d : db) (job : string) : list (string * AttemptRow) :=
  List.filter (λ ka, bool_decide (at_job ka.2 = job)) (map_to_list (attempts d)).

(** The first query: each candidate row is tested at its own reading of the clock. *)
Fixpoint select_expired (js : list JobRow) : Tx (list string) :=
  match js with
  | [] => mret []
  | j :: js =>
      t ← clock_timestamp;
      late ← read (λ d, existsb (λ ka, expired t ka.2) (attempts_of d (ID j)));
      skip ← is_locked (ID j);
      rest ← select_expired js;
      mret (if in_progress (State j) && late && negb skip then ID j :: rest else rest)
  end.

(** Rows in the order of their identifiers. *)
Fixpoint insert_row (j : JobRow) (l : list JobRow) : list JobRow :=
  match l with
  | [] => [j]
  | k :: l' => if String.leb (ID j) (ID k) then j :: l else k :: insert_row j l'
  end.
Definition rows_by_id (d : db) : list JobRow := foldr insert_row [] (map_to_list (jobs d)).*2.

(** The body of the loop: 1 when the attempt was expired, 0 for [continue]. *)
Definition reap_one (id : string) : Tx nat :=
  t ← clock_timestamp;
  found ← read (λ d, List.find (λ ka, expired t ka.2) (attempts_of d id));
  row ← read (λ d, jobs d !! id);
  match found, row with
  | Some (aid, a), Some j =>
      t ← clock_timestamp;
      modify (set_attempts (alter (attempt_end AExpired t None "lease or attempt deadline expired") aid));;
      set_state id (RetryState (at_number a) (MaxAttempts j));;
      event id (Some aid) "LEASE_EXPIRED"
        (JObj [("reason", JStr "lease or attempt deadline expired")]);;
      mret 1%nat
  | _, _ => mret 0%nat
  end.

Fixpoint reap_all (ids : list string) : Tx nat :=
  match ids with
  | [] => mret 0%nat
  | id :: ids => k ← reap_one id; rest ← reap_all ids; mret (k + rest)%nat
  end.

Definition Reap : Tx nat :=
  rows ← read rows_by_id;
  ids ← select_expired rows;
  reap_all (take 100 ids).
End Store.
