(* ===== verification/ControlSpec.v ===== *)
(** * ControlSpec: what the transactions of the store do to jobs, attempts and workers

    [step L d l d'] is the abstract specification of the store: the changes the tables [jobs],
    [attempts] and [workers] can make at once, each with the conditions it needs.  The file
    shows that [Inv] (one active attempt per job, states of job and attempt that agree, the
    attempt budget, the capacity of every worker, unique keys) is kept by every step, and that
    every committed transaction is a sequence of steps. *)
From S2P Require Import Prelude Effects PyStr Json Sha256 Wire Control.
Import Store.
Local Open Scope string_scope.
Local Open Scope list_scope.
Local Open Scope Z_scope.

(** ** Sums over tables *)
Lemma msum_insert {A} (f : A → Z) m i x :
  m !! i = None → msum f (<[i := x]> m) = f x + msum f m.
Proof.
  intros Hi. unfold msum. rewrite map_fold_insert_L; [done| |done]. intros. lia.
Qed.

Lemma msum_delete {A} (f : A → Z) m i x :
  m !! i = Some x → msum f m = f x + msum f (delete i m).
Proof.
  intros Hi. rewrite <- (msum_insert f (delete i m) i x) by apply lookup_delete_eq.
  by rewrite insert_delete_id.
Qed.

Lemma msum_le {A} (f g : A → Z) m1 m2 :
  (∀ i, option_Forall2 (λ x y, f x ≤ g y) (m1 !! i) (m2 !! i)) → msum f m1 ≤ msum g m2.
Proof.
  revert m2. induction m1 as [|i x m1 Hi IH] using map_ind; intros m2 H.
  - assert (m2 = ∅) as ->; [|done]. apply map_empty. intros i. specialize (H i).
    rewrite lookup_empty in H. by inversion H.
  - pose proof (H i) as Hx. rewrite lookup_insert_eq in Hx. inversion Hx as [? y Hle Heq Hy|]; subst.
    rewrite msum_insert by done. rewrite (msum_delete g m2 i y) by done.
    apply Z.add_le_mono; [done|]. apply IH. intros k. specialize (H k).
    destruct (decide (k = i)) as [->|Hk].
    + rewrite Hi, lookup_delete_eq. constructor.
    + rewrite lookup_insert_ne in H by done. by rewrite lookup_delete_ne.
Qed.

Lemma msum_nonneg {A} (f : A → Z) m : (∀ i x, m !! i = Some x → 0 ≤ f x) → 0 ≤ msum f m.
Proof.
  induction m as [|i x m Hi IH] using map_ind; intros H; [done|].
  rewrite msum_insert by done. specialize (H i x) as Hx. rewrite lookup_insert_eq in Hx.
  specialize (Hx eq_refl). assert (0 ≤ msum f m); [|lia]. apply IH. intros k y Hk. apply (H k).
  rewrite lookup_insert_ne; [done|]. intros ->. congruence.
Qed.

Lemma msum_zero {A} (f : A → Z) m : (∀ i x, m !! i = Some x → f x = 0) → msum f m = 0.
Proof.
  intros H. apply Z.le_antisymm; [|apply msum_nonneg; intros i x Hx; by rewrite (H i x Hx)].
  transitivity (msum (λ _ : A, 0) m).
  - apply msum_le. intros i. destruct (m !! i) eqn:Hi; constructor. by rewrite (H i).
  - clear H. induction m as [|i x m Hi IH] using map_ind; [done|]. by rewrite msum_insert.
Qed.

Definition components : list (Resources → Z) := [CPU; MemoryMB; GPU].

(** ** Steps *)
Inductive label :=
| Noted | Submitted (job : string) | Seen (w : string)
| Leases (i : string) (t : Z) | Renews (i : string) (t : Z) | Starts (i : string)
| Finishes (i : string) (t : Z) (st : attempt_state) | Expires (i : string) (t : Z)
| Cancels (job : string) | Retries (job : string).

(** An attempt in state [s] belongs to a job in state [js]. *)
Definition agrees (s : attempt_state) (js : job_state) : bool :=
  match s with
  | ALeased => bool_decide (js = LEASED)
  | ARunning => bool_decide (js = RUNNING)
  | ASucceeded => bool_decide (js = SUCCEEDED)
  | ACancelled => bool_decide (js = CANCELLED)
  | AFailed | AExpired => true
  end.

(** [UPDATE jobs SET state=...,updated_at=...]. *)
Definition with_state (job : string) (st : job_state) (t : Z) (d : db) : db :=
  set_jobs (alter (λ j, job_set st (MaxAttempts j) t j) job) d.

Inductive step (L : Z) (d : db) : label → db → Prop :=
| step_noted ars evs rqs :
    step L d Noted (Db (jobs d) (attempts d) (workers d) ars evs rqs)
| step_submitted id j t1 t2 :
    jobs d !! id = None → by_key (IdempotencyKey j) d = None → Validate j = true →
    step L d (Submitted id)
      (set_jobs (insert id (MkJobRow id j QUEUED (JobMaxAttempts j) t1 t2 (JobResources j))) d)
| step_registered w row :
    workers d !! w = None → Valid (wk_cap row) = true → step L d (Seen w) (set_workers (insert w row) d)
| step_seen w f :
    (∀ x, wk_cap (f x) = wk_cap x ∧ wk_session (f x) = wk_session x) →
    step L d (Seen w) (set_workers (alter f w) d)
| step_leases i row j wk t t' :
    jobs d !! at_job row = Some j → State j = QUEUED → workers d !! at_worker row = Some wk →
    Forall (λ c, c (cols j) + usage c d (at_worker row) ≤ c (wk_cap wk)) components →
    attempts d !! i = None → at_state row = ALeased →
    at_number row = last_number d (at_job row) + 1 → at_number row ≤ MaxAttempts j →
    at_expires row ≤ at_deadline row → at_expires row ≤ t + sec L →
    (∀ i' a', attempts d !! i' = Some a' → at_job a' = at_job row → active (at_state a') = false) →
    step L d (Leases i t) (with_state (at_job row) LEASED t' (set_attempts (insert i row) d))
| step_renews i a t t' :
    attempts d !! i = Some a → active (at_state a) = true → t < at_expires a → t ≤ t' →
    step L d (Renews i t')
      (set_attempts (alter (attempt_renew (Z.min (at_deadline a) (t' + sec L))) i) d)
| step_starts i a t t' :
    attempts d !! i = Some a → at_state a = ALeased →
    step L d (Starts i) (with_state (at_job a) RUNNING t' (set_attempts (alter (attempt_start t) i) d))
| step_finishes i a j t t' t'' st next code reason :
    attempts d !! i = Some a → at_state a = ARunning → jobs d !! at_job a = Some j →
    t < at_expires a →
    st = ASucceeded ∧ next = SUCCEEDED ∨
    st = AFailed ∧ next = RetryState (at_number a) (MaxAttempts j) →
    step L d (Finishes i t st)
      (with_state (at_job a) next t'' (set_attempts (alter (attempt_end st t' code reason) i) d))
| step_expires i a j t t' t'' reason :
    attempts d !! i = Some a → active (at_state a) = true → jobs d !! at_job a = Some j →
    at_expires a ≤ t →
    step L d (Expires i t)
      (with_state (at_job a) (RetryState (at_number a) (MaxAttempts j)) t''
         (set_attempts (alter (attempt_end AExpired t' None reason) i) d))
| step_cancels job j t t' :
    jobs d !! job = Some j → State j = QUEUED ∨ in_progress (State j) = true →
    step L d (Cancels job)
      (set_jobs (alter (job_set CANCELLED (MaxAttempts j) t') job)
         (set_attempts (fmap (end_active job t)) d))
| step_cancelled job j t :
    jobs d !! job = Some j → State j = CANCELLED →
    step L d (Cancels job) (set_jobs (alter (job_set CANCELLED (MaxAttempts j) t) job) d)
| step_retries job j t :
    jobs d !! job = Some j → State j = FAILED →
    step L d (Retries job) (set_jobs (alter (job_set QUEUED (MaxAttempts j + 1) t) job) d).

(** ** The invariant *)
Record Inv (d : db) : Prop := {
  inv_job k j : jobs d !! k = Some j →
    ID j = k ∧ cols j = JobResources (Definition_ j) ∧ Validate (Definition_ j) = true ∧
    1 ≤ MaxAttempts j;
  inv_key k k' j j' : jobs d !! k = Some j → jobs d !! k' = Some j' →
    IdempotencyKey (Definition_ j) = IdempotencyKey (Definition_ j') → k = k';
  inv_attempt i a : attempts d !! i = Some a →
    is_Some (workers d !! at_worker a) ∧ at_expires a ≤ at_deadline a ∧
    ∃ j, jobs d !! at_job a = Some j ∧ 1 ≤ at_number a ≤ MaxAttempts j ∧
         (State j = QUEUED → at_number a < MaxAttempts j) ∧
         agrees (at_state a) (State j) = true;
  inv_number i i' a a' : attempts d !! i = Some a → attempts d !! i' = Some a' →
    at_job a = at_job a' → at_number a = at_number a' → i = i';
  inv_latest i i' a a' : attempts d !! i = Some a → attempts d !! i' = Some a' →
    at_job a = at_job a' → active (at_state a) = true → at_number a' ≤ at_number a;
  inv_progress k j : jobs d !! k = Some j → in_progress (State j) = true →
    ∃ i a, attempts d !! i = Some a ∧ at_job a = k ∧ active (at_state a) = true;
  inv_capacity w wk : workers d !! w = Some wk →
    Forall (λ c, usage c d w ≤ c (wk_cap wk)) components }.

(** ** Steps that change rows in place *)
(** [G] and [H] are what a step does to the attempts and jobs there are. *)
Record pointwise (d d' : db) (G : string → AttemptRow → AttemptRow)
    (H : string → JobRow → JobRow) : Prop := {
  pw_attempts i : attempts d' !! i = G i <$> attempts d !! i;
  pw_jobs k : jobs d' !! k = H k <$> jobs d !! k;
  pw_workers w : wk_cap <$> (workers d' !! w) = wk_cap <$> (workers d !! w);
  pw_attempt i a : attempts d !! i = Some a →
    at_job (G i a) = at_job a ∧ at_number (G i a) = at_number a ∧
    at_worker (G i a) = at_worker a ∧
    (active (at_state (G i a)) = true → active (at_state a) = true) ∧
    at_expires (G i a) ≤ at_deadline (G i a);
  pw_job k j : jobs d !! k = Some j →
    ID (H k j) = ID j ∧ Definition_ (H k j) = Definition_ j ∧ cols (H k j) = cols j ∧
    MaxAttempts j ≤ MaxAttempts (H k j);
  pw_states i a j : attempts d !! i = Some a → jobs d !! at_job a = Some j →
    (State (H (at_job a) j) = QUEUED → at_number a < MaxAttempts (H (at_job a) j)) ∧
    agrees (at_state (G i a)) (State (H (at_job a) j)) = true;
  pw_progress k j : jobs d !! k = Some j → in_progress (State (H k j)) = true →
    ∃ i a, attempts d !! i = Some a ∧ at_job a = k ∧ active (at_state (G i a)) = true }.

Lemma usage_pointwise d d' G H c w :
  pointwise d d' G H → Forall (λ c, ∀ k j, jobs d !! k = Some j → 0 ≤ c (cols j)) components →
  c ∈ components → usage c d' w ≤ usage c d w.
Proof.
  intros Hpw Hnn Hc. apply msum_le. intros i. rewrite (pw_attempts _ _ _ _ Hpw).
  destruct (attempts d !! i) as [a|] eqn:Ha; simpl; constructor.
  destruct (pw_attempt _ _ _ _ Hpw _ _ Ha) as (Hjob & _ & Hw & Hact & _). unfold share.
  rewrite Hjob, Hw, (pw_jobs _ _ _ _ Hpw). rewrite Forall_forall in Hnn.
  destruct (jobs d !! at_job a) as [j|] eqn:Hj; simpl.
  - destruct (pw_job _ _ _ _ Hpw _ _ Hj) as (_ & _ & -> & _). specialize (Hnn c Hc _ _ Hj).
    destruct (bool_decide _); simpl; [|done].
    destruct (active (at_state (G i a))), (active (at_state a)); naive_solver lia.
  - by destruct (_ && _), (_ && _).
Qed.

Lemma valid_resources r c : Valid r = true → c ∈ components → 0 ≤ c r.
Proof.
  unfold Valid, components. rewrite !andb_true_iff, !Z.leb_le. intros Hv Hc.
  apply list_elem_of_In in Hc. simpl in Hc. destruct_or?; subst; naive_solver.
Qed.

Lemma validate_valid j : Validate j = true → Valid (JobResources j) = true.
Proof. unfold Validate. rewrite !andb_true_iff. naive_solver. Qed.
Lemma validate_attempts j : Validate j = true → 1 ≤ JobMaxAttempts j.
Proof. unfold Validate. rewrite !andb_true_iff, !Z.leb_le. naive_solver. Qed.

Lemma inv_nonneg d : Inv d → Forall (λ c, ∀ k j, jobs d !! k = Some j → 0 ≤ c (cols j)) components.
Proof.
  intros HI. apply Forall_forall. intros c Hc k j Hj.
  destruct (inv_job _ HI _ _ Hj) as (_ & -> & Hv & _). apply valid_resources; [by apply validate_valid|done].
Qed.

Lemma inv_pointwise d d' G H : Inv d → pointwise d d' G H → Inv d'.
Proof.
  intros HI Hpw.
  assert (∀ i b, attempts d' !! i = Some b → ∃ a, attempts d !! i = Some a ∧ b = G i a) as HA.
  { intros i b Hb. rewrite (pw_attempts _ _ _ _ Hpw) in Hb. by apply fmap_Some in Hb. }
  assert (∀ k b, jobs d' !! k = Some b → ∃ j, jobs d !! k = Some j ∧ b = H k j) as HJ.
  { intros k b Hb. rewrite (pw_jobs _ _ _ _ Hpw) in Hb. by apply fmap_Some in Hb. }
  assert (∀ w, wk_cap <$> (workers d' !! w) = wk_cap <$> (workers d !! w)) as HW by apply Hpw.
  split.
  - intros k b (j & Hj & ->)%HJ. destruct (pw_job _ _ _ _ Hpw _ _ Hj) as (-> & -> & -> & Hmax).
    destruct (inv_job _ HI _ _ Hj) as (? & ? & ? & ?). split_and!; [done..|lia].
  - intros k k' b b' (j & Hj & ->)%HJ (j' & Hj' & ->)%HJ.
    destruct (pw_job _ _ _ _ Hpw _ _ Hj) as (_ & -> & _ & _).
    destruct (pw_job _ _ _ _ Hpw _ _ Hj') as (_ & -> & _ & _). by eapply inv_key.
  - intros i b (a & Ha & ->)%HA. destruct (inv_attempt _ HI _ _ Ha) as ([wk Hwk] & _ & j & Hj & Hn & _).
    destruct (pw_attempt _ _ _ _ Hpw _ _ Ha) as (-> & -> & -> & _ & Hexp).
    destruct (pw_states _ _ _ _ Hpw _ _ _ Ha Hj) as [Hq Hs].
    split_and!; [|done|].
    + specialize (HW (at_worker a)). rewrite Hwk in HW. by apply fmap_Some in HW as (? & -> & _).
    + exists (H (at_job a) j). rewrite (pw_jobs _ _ _ _ Hpw), Hj.
      destruct (pw_job _ _ _ _ Hpw _ _ Hj) as (_ & _ & _ & Hmax).
      split_and!; [done|lia|lia|done|done].
  - intros i i' b b' (a & Ha & ->)%HA (a' & Ha' & ->)%HA.
    destruct (pw_attempt _ _ _ _ Hpw _ _ Ha) as (-> & -> & _).
    destruct (pw_attempt _ _ _ _ Hpw _ _ Ha') as (-> & -> & _). by eapply inv_number.
  - intros i i' b b' (a & Ha & ->)%HA (a' & Ha' & ->)%HA.
    destruct (pw_attempt _ _ _ _ Hpw _ _ Ha) as (-> & -> & _ & Hact & _).
    destruct (pw_attempt _ _ _ _ Hpw _ _ Ha') as (-> & -> & _). intros. eapply inv_latest; eauto.
  - intros k b (j & Hj & ->)%HJ Hp. destruct (pw_progress _ _ _ _ Hpw _ _ Hj Hp) as (i & a & Ha & Hk & Hact).
    exists i, (G i a). rewrite (pw_attempts _ _ _ _ Hpw), Ha.
    by destruct (pw_attempt _ _ _ _ Hpw _ _ Ha) as (-> & _).
  - intros w wk' Hwk'. specialize (HW w). rewrite Hwk' in HW. symmetry in HW.
    apply fmap_Some in HW as (wk & Hwk & Hcap). apply Forall_forall. intros c Hc.
    pose proof (inv_capacity _ HI _ _ Hwk) as Hall. rewrite Forall_forall in Hall.
    specialize (Hall c Hc). pose proof (usage_pointwise _ _ _ _ c w Hpw (inv_nonneg _ HI) Hc).
    simpl in Hall. rewrite <- Hcap in Hall. lia.
Qed.

(** [f] at the row [i], nothing elsewhere. *)
Definition at_row {A} (i : string) (f : A → A) (k : string) (x : A) : A :=
  if decide (k = i) then f x else x.

Lemma lookup_alter_row {A} (f : A → A) i k (m : gmap string A) :
  alter f i m !! k = at_row i f k <$> m !! k.
Proof.
  unfold at_row. destruct (decide (k = i)) as [->|Hk].
  - by rewrite lookup_alter_eq.
  - rewrite lookup_alter_ne by done. by destruct (m !! k).
Qed.

Lemma fmap_none {A} (m : gmap string A) k : m !! k = (λ _ x, x) k <$> m !! k.
Proof. by destruct (m !! k). Qed.

(** An ended attempt of a job that was not finished or cancelled failed. *)
Lemma agrees_ended s js js' :
  active s = false → agrees s js = true → js = QUEUED ∨ js = FAILED ∨ in_progress js = true →
  agrees s js' = true.
Proof.
  destruct s, js; simpl; intros; try done; destruct_or?; done.
Qed.

Lemma agrees_active s js : active s = true → agrees s js = true → in_progress js = true.
Proof. by destruct s, js. Qed.

(** A step that moves the active attempt [i], and its job, to new states. *)
Lemma inv_move d i a j (g : AttemptRow → AttemptRow) next t :
  Inv d → attempts d !! i = Some a → active (at_state a) = true → jobs d !! at_job a = Some j →
  (∀ x, at_job (g x) = at_job x ∧ at_number (g x) = at_number x ∧ at_worker (g x) = at_worker x ∧
        at_expires (g x) = at_expires x ∧ at_deadline (g x) = at_deadline x) →
  agrees (at_state (g a)) next = true → active (at_state (g a)) = in_progress next →
  (next = QUEUED → at_number a < MaxAttempts j) →
  Inv (with_state (at_job a) next t (set_attempts (alter g i) d)).
Proof.
  intros HI Ha Hact Hj Hg Hnext Hprog Hbud.
  assert (in_progress (State j) = true) as Hjp.
  { destruct (inv_attempt _ HI _ _ Ha) as (_ & _ & j2 & Hj2 & _ & _ & Hs).
    replace j with j2 by congruence. by eapply agrees_active. }
  assert (∀ i' a', attempts d !! i' = Some a' → at_job a' = at_job a → i' ≠ i →
    active (at_state a') = false ∧ at_number a' ≤ at_number a) as Hother.
  { intros i' a' Ha' Hjob Hne. pose proof (inv_latest _ HI _ _ _ _ Ha Ha' (eq_sym Hjob) Hact).
    split; [|done]. apply not_true_is_false. intros Hact'. apply Hne.
    eapply (inv_number _ HI _ _ a' a); [done..|].
    pose proof (inv_latest _ HI _ _ _ _ Ha' Ha Hjob Hact'). lia. }
  eapply (inv_pointwise d _ (at_row i g) (at_row (at_job a) (λ j, job_set next (MaxAttempts j) t j)));
    [done|]. split; simpl.
  - intros. apply lookup_alter_row.
  - intros. apply lookup_alter_row.
  - done.
  - intros i' a' Ha'. destruct (inv_attempt _ HI _ _ Ha') as (_ & Hexp & _). unfold at_row.
    destruct (decide (i' = i)) as [->|]; [|done]. assert (a' = a) as -> by congruence.
    destruct (Hg a) as (-> & -> & -> & -> & ->). done.
  - intros k j' _. unfold at_row. destruct (decide _); simpl; split_and!; try done; lia.
  - intros i' a' j' Ha' Hj'. destruct (inv_attempt _ HI _ _ Ha') as (_ & _ & j2 & Hj2 & _ & Hq & Hs).
    assert (j2 = j') as -> by congruence. unfold at_row.
    destruct (decide (at_job a' = at_job a)) as [Hjob|Hjob].
    + rewrite Hjob in Hj'. assert (j' = j) as -> by congruence. simpl.
      destruct (decide (i' = i)) as [->|Hne].
      * by assert (a' = a) as -> by congruence.
      * destruct (Hother _ _ Ha' Hjob Hne) as [Hina Hle]. split; [intros ?%Hbud; lia|].
        apply (agrees_ended _ (State j)); auto.
    + destruct (decide (i' = i)) as [->|]; [congruence|done].
  - intros k j' Hj' Hp. unfold at_row in *. destruct (decide (k = at_job a)) as [->|Hk].
    + exists i, a. split_and!; [done|done|]. destruct (decide (i = i)); [|done]. simpl in Hp.
      congruence.
    + destruct (inv_progress _ HI _ _ Hj' Hp) as (i' & a' & Ha' & Hk' & Hact').
      exists i', a'. split_and!; [done..|]. destruct (decide (i' = i)) as [->|]; [congruence|done].
Qed.

Lemma retry_state_spec n max :
  in_progress (RetryState n max) = false ∧ (RetryState n max = QUEUED → n < max).
Proof. unfold RetryState. by destruct (n <? max) eqn:E; [apply Z.ltb_lt in E|]. Qed.

(** A step that changes one job only. *)
Lemma inv_job_only d job j st max t :
  Inv d → jobs d !! job = Some j → in_progress (State j) = false →
  st = State j ∧ st ≠ QUEUED ∨ State j = FAILED ∧ st = QUEUED →
  MaxAttempts j ≤ max → (st = QUEUED → MaxAttempts j < max) →
  Inv (set_jobs (alter (job_set st max t) job) d).
Proof.
  intros HI Hj Hold Hnew Hmax Hq.
  eapply (inv_pointwise d _ (λ _ a, a) (at_row job (job_set st max t))); [done|]. split; simpl.
  - intros. apply fmap_none.
  - intros. apply lookup_alter_row.
  - done.
  - intros i a Ha. by destruct (inv_attempt _ HI _ _ Ha) as (_ & ? & _).
  - intros k j' Hj'. unfold at_row. destruct (decide _) as [->|]; simpl; split_and!; try done.
    by replace j' with j by congruence.
  - intros i a j' Ha Hj'. destruct (inv_attempt _ HI _ _ Ha) as (_ & _ & j2 & Hj2 & Hn & Hq2 & Hs).
    assert (j2 = j') as -> by congruence. unfold at_row. destruct (decide _) as [Hk|]; [|done].
    rewrite Hk in Hj'. assert (j' = j) as -> by congruence. simpl. split; [intros ?%Hq; lia|].
    destruct Hnew as [[-> _]|[Hf ->]]; [done|]. apply (agrees_ended _ (State j)); [|done|auto].
    apply not_true_is_false. intros Hact. rewrite (agrees_active _ _ Hact Hs) in Hold. done.
  - intros k j' Hj' Hp. unfold at_row in Hp. destruct (decide _) as [->|]; [|by eapply inv_progress].
    simpl in Hp. destruct Hnew as [[-> _]|[_ ->]]; [congruence|done].
Qed.

Lemma inv_cancels d job j t t' :
  Inv d → jobs d !! job = Some j → State j = QUEUED ∨ in_progress (State j) = true →
  Inv (set_jobs (alter (job_set CANCELLED (MaxAttempts j) t') job)
         (set_attempts (fmap (end_active job t)) d)).
Proof.
  intros HI Hj Hst.
  assert (∀ a, at_job a = job → active (at_state (end_active job t a)) = false) as Hend.
  { intros a Hjob. unfold end_active. rewrite bool_decide_true by done. simpl.
    by destruct (active (at_state a)) eqn:E. }
  assert (∀ a, at_job a ≠ job → end_active job t a = a) as Hkeep.
  { intros a Hjob. unfold end_active. by rewrite bool_decide_false. }
  eapply (inv_pointwise d _ (λ _, end_active job t) (at_row job (job_set CANCELLED (MaxAttempts j) t')));
    [done|]. split; simpl.
  - intros. apply lookup_fmap.
  - intros. apply lookup_alter_row.
  - done.
  - intros i a Ha. destruct (inv_attempt _ HI _ _ Ha) as (_ & ? & _). unfold end_active.
    by destruct (bool_decide _ && active (at_state a)).
  - intros k j' Hj'. unfold at_row. destruct (decide _) as [->|]; simpl; split_and!; try done.
    by replace j' with j by congruence.
  - intros i a j' Ha Hj'. destruct (inv_attempt _ HI _ _ Ha) as (_ & _ & j2 & Hj2 & _ & Hq & Hs).
    assert (j2 = j') as -> by congruence. unfold at_row. destruct (decide _) as [Hk|Hk].
    + split; [done|]. simpl. rewrite Hk in Hj'. assert (j' = j) as -> by congruence.
      unfold end_active. rewrite bool_decide_true by done. simpl.
      destruct (active (at_state a)) eqn:Hact; [done|].
      apply (agrees_ended _ (State j)); naive_solver.
    + by rewrite Hkeep.
  - intros k j' Hj' Hp. unfold at_row in Hp. destruct (decide _) as [|Hk]; [done|].
    destruct (inv_progress _ HI _ _ Hj' Hp) as (i & a & Ha & Hjob & Hact).
    exists i, a. split_and!; [done..|]. rewrite Hkeep by congruence. done.
Qed.

Lemma by_key_none key d k j :
  by_key key d = None → jobs d !! k = Some j → IdempotencyKey (Definition_ j) ≠ key.
Proof.
  unfold by_key. intros Hf%fmap_None Hj Hkey.
  eapply List.find_none in Hf; [|apply list_elem_of_In, elem_of_map_to_list, Hj].
  simpl in Hf. by apply String.eqb_neq in Hf.
Qed.

Lemma inv_submitted d id j t1 t2 :
  Inv d → jobs d !! id = None → by_key (IdempotencyKey j) d = None → Validate j = true →
  Inv (set_jobs (insert id (MkJobRow id j QUEUED (JobMaxAttempts j) t1 t2 (JobResources j))) d).
Proof.
  intros HI Hid Hkey Hv. set (row := MkJobRow _ _ _ _ _ _ _).
  assert (∀ i a, attempts d !! i = Some a → at_job a ≠ id) as Hfk.
  { intros i a Ha Hjob. destruct (inv_attempt _ HI _ _ Ha) as (_ & _ & j' & Hj' & _). congruence. }
  split; simpl.
  - intros k j'. rewrite lookup_insert_Some. intros [[<- <-]|[Hne Hj']]; [|by apply HI].
    pose proof (validate_attempts _ Hv). done.
  - intros k k' j1 j2. rewrite !lookup_insert_Some.
    intros [[<- <-]|[Hne Hj1]] [[<- <-]|[Hne' Hj2]] Heq; simpl in *; [done| | |by eapply inv_key].
    + by destruct (by_key_none _ _ _ _ Hkey Hj2).
    + by destruct (by_key_none _ _ _ _ Hkey Hj1).
  - intros i a Ha. specialize (Hfk _ _ Ha). rewrite lookup_insert_ne by done. by eapply inv_attempt.
  - apply HI.
  - apply HI.
  - intros k j'. rewrite lookup_insert_Some. intros [[<- <-]|[Hne Hj']]; [done|by eapply inv_progress].
  - intros w wk Hwk. pose proof (inv_capacity _ HI _ _ Hwk) as Hall. eapply Forall_impl; [exact Hall|].
    simpl. intros c Hc. etrans; [|exact Hc]. apply msum_le. intros i. simpl.
    destruct (attempts d !! i) as [a|] eqn:Ha; constructor. unfold share. simpl.
    rewrite lookup_insert_ne by (by apply not_eq_sym, (Hfk i)). done.
Qed.

Lemma inv_registered d w row :
  Inv d → workers d !! w = None → Valid (wk_cap row) = true → Inv (set_workers (insert w row) d).
Proof.
  intros HI Hw Hv.
  assert (∀ i a, attempts d !! i = Some a → at_worker a ≠ w) as Hfk.
  { intros i a Ha Hwk. destruct (inv_attempt _ HI _ _ Ha) as ([wk ?] & _). congruence. }
  destruct HI as [H1 H2 H3 H4 H5 H6 H7]. split; simpl; [done|done| |done|done|done|].
  - intros i a Ha. specialize (Hfk _ _ Ha). rewrite lookup_insert_ne by done. by apply (H3 i a).
  - intros w' wk. rewrite lookup_insert_Some. intros [[<- <-]|[Hne Hwk]]; [|by apply H7].
    apply Forall_forall. intros c Hc. unfold usage. simpl. rewrite msum_zero.
    + by apply (valid_resources (wk_cap row)).
    + intros i a Ha. unfold share. by rewrite (bool_decide_false _ (Hfk _ _ Ha)).
Qed.

Lemma last_number_le d i a : attempts d !! i = Some a → at_number a ≤ last_number d (at_job a).
Proof.
  intros Ha. unfold last_number.
  rewrite (map_fold_delete_L _ _ i a) by (done || intros; repeat case_bool_decide; lia).
  rewrite bool_decide_true by done. lia.
Qed.

Lemma last_number_nonneg d k : 0 ≤ last_number d k.
Proof.
  unfold last_number. apply (map_fold_weak_ind (λ m _, 0 ≤ m)); [done|].
  intros i a m r _ Hr. case_bool_decide; lia.
Qed.

(** The capacity of the workers after a lease: the row takes what was found to be left. *)
Lemma leased_capacity d i row j wk t w wk' :
  Inv d → jobs d !! at_job row = Some j → workers d !! at_worker row = Some wk →
  Forall (λ c, c (cols j) + usage c d (at_worker row) ≤ c (wk_cap wk)) components →
  attempts d !! i = None → at_state row = ALeased → workers d !! w = Some wk' →
  Forall (λ c, usage c (with_state (at_job row) LEASED t (set_attempts (insert i row) d)) w ≤ c (wk_cap wk')) components.
Proof.
  intros HI Hj Hwk Hcap Hi Hst Hwk'. rewrite Forall_forall in Hcap. apply Forall_forall. intros c Hc.
  assert (∀ k j', cols (at_row (at_job row) (λ j, job_set LEASED (MaxAttempts j) t j) k j') = cols j') as Hcols.
  { intros k j'. unfold at_row. by destruct (decide _). }
  unfold usage. simpl. rewrite msum_insert by done.
  assert (msum (share c (alter (λ j, job_set LEASED (MaxAttempts j) t j) (at_job row) (jobs d)) w) (attempts d) ≤
          usage c d w) as Hle.
  { apply msum_le. intros i'. destruct (attempts d !! i') as [a|] eqn:Ha; constructor.
    unfold share. rewrite lookup_alter_row.
    destruct (jobs d !! at_job a) as [j'|] eqn:Hj'; simpl; [|done]. by rewrite Hcols. }
  unfold share at 1. rewrite lookup_alter_row, Hj. simpl. rewrite Hcols, Hst, andb_true_r. case_bool_decide as Hw.
  - subst w. specialize (Hcap c Hc). simpl in Hcap. replace wk' with wk by congruence. lia.
  - pose proof (inv_capacity _ HI _ _ Hwk') as Hall. rewrite Forall_forall in Hall.
    specialize (Hall c Hc). simpl in Hall. lia.
Qed.

Lemma inv_leases d i row j wk t :
  Inv d →
  jobs d !! at_job row = Some j → State j = QUEUED → workers d !! at_worker row = Some wk →
  Forall (λ c, c (cols j) + usage c d (at_worker row) ≤ c (wk_cap wk)) components →
  attempts d !! i = None → at_state row = ALeased →
  at_number row = last_number d (at_job row) + 1 → at_number row ≤ MaxAttempts j →
  at_expires row ≤ at_deadline row →
  (∀ i' a', attempts d !! i' = Some a' → at_job a' = at_job row → active (at_state a') = false) →
  Inv (with_state (at_job row) LEASED t (set_attempts (insert i row) d)).
Proof.
  intros HI Hj Hq Hwk Hcap Hi Hst Hnum Hmax Hexp Hnone.
  assert (∀ k, jobs (with_state (at_job row) LEASED t (set_attempts (insert i row) d)) !! k =
    at_row (at_job row) (λ j, job_set LEASED (MaxAttempts j) t j) k <$> jobs d !! k) as HJ.
  { intros k. apply lookup_alter_row. }
  assert (∀ k j', jobs d !! k = Some j' →
    let j2 := at_row (at_job row) (λ j, job_set LEASED (MaxAttempts j) t j) k j' in
    ID j2 = ID j' ∧ Definition_ j2 = Definition_ j' ∧ cols j2 = cols j' ∧
    MaxAttempts j2 = MaxAttempts j') as Hsame.
  { intros k j' _. unfold at_row. by destruct (decide _). }
  split; try setoid_rewrite HJ; simpl.
  - intros k b (j' & Hj' & ->)%fmap_Some. destruct (Hsame _ _ Hj') as (-> & -> & -> & ->).
    by apply HI.
  - intros k k' b b' (j1 & Hj1 & ->)%fmap_Some (j2 & Hj2 & ->)%fmap_Some.
    destruct (Hsame _ _ Hj1) as (_ & -> & _). destruct (Hsame _ _ Hj2) as (_ & -> & _).
    by eapply inv_key.
  - intros i' a. rewrite lookup_insert_Some. intros [[<- <-]|[Hne Ha]].
    + split_and!; [by exists wk|done|]. eexists. rewrite Hj. split; [done|].
      destruct (Hsame _ _ Hj) as (_ & _ & _ & ->). unfold at_row. destruct (decide _); [|done].
      pose proof (last_number_nonneg d (at_job row)). rewrite Hst. simpl. split_and!; [lia|lia|done|done].
    + destruct (inv_attempt _ HI _ _ Ha) as (? & ? & j' & Hj' & Hn & Hq' & Hs).
      split_and!; [done..|]. eexists. rewrite Hj'. split; [done|].
      destruct (Hsame _ _ Hj') as (_ & _ & _ & ->). unfold at_row. destruct (decide _) as [Hk|]; [|done].
      simpl. split_and!; [lia|lia|done|]. apply (agrees_ended _ (State j')); [by eapply Hnone|done|].
      rewrite Hk in Hj'. replace j' with j by congruence. auto.
  - intros i1 i2 a1 a2. rewrite !lookup_insert_Some.
    intros [[<- <-]|[Hne Ha]] [[<- <-]|[Hne' Ha']] Hjob Heq; [done| | |by eapply inv_number].
    + apply last_number_le in Ha'. rewrite <- Hjob in Ha'. lia.
    + apply last_number_le in Ha. rewrite Hjob in Ha. lia.
  - intros i1 i2 a1 a2. rewrite !lookup_insert_Some.
    intros [[<- <-]|[Hne Ha]] [[<- <-]|[Hne' Ha']] Hjob Hact; [done| | |by eapply inv_latest].
    + apply last_number_le in Ha'. rewrite <- Hjob in Ha'. lia.
    + by rewrite (Hnone _ _ Ha Hjob) in Hact.
  - intros k b (j' & Hj' & ->)%fmap_Some Hp. unfold at_row in Hp. destruct (decide _) as [->|Hk].
    + exists i, row. rewrite lookup_insert_eq, Hst. done.
    + destruct (inv_progress _ HI _ _ Hj' Hp) as (i' & a & Ha & ? & ?). exists i', a.
      rewrite lookup_insert_ne by congruence. done.
  - intros w wk' Hwk'. by eapply leased_capacity.
Qed.

(** ** Every step keeps the invariant *)
Lemma step_inv L d l d' : Inv d → step L d l d' → Inv d'.
Proof.
  intros HI Hs.
  destruct Hs as [ars evs rqs|id j t1 t2|w row|w f Hf|i row j wk t t'|i a t t' Ha Hact Ht Htt
    |i a t t' Ha Hst|i a j t t' t'' st next code reason Ha Hst Hj Ht Hnext
    |i a j t t' t'' reason Ha Hact Hj Ht|job j t t' Hj Hst|job j t Hj Hst|job j t Hj Hst].
  - by destruct HI.
  - by apply inv_submitted.
  - by apply inv_registered.
  - eapply (inv_pointwise d _ (λ _ a, a) (λ _ j, j)); [done|]. split; simpl; try apply fmap_none.
    + intros w'. rewrite lookup_alter_row. destruct (workers d !! w') as [x|]; [|done]. simpl.
      unfold at_row. destruct (decide _); [|done]. by destruct (Hf x) as [-> _].
    + intros i a Ha. by destruct (inv_attempt _ HI _ _ Ha) as (_ & ? & _).
    + done.
    + intros i a j Ha Hj. destruct (inv_attempt _ HI _ _ Ha) as (_ & _ & j2 & Hj2 & _ & ? & ?).
      by replace j with j2 by congruence.
    + intros. by eapply inv_progress.
  - by eapply inv_leases.
  - eapply (inv_pointwise d _ (at_row i (attempt_renew (Z.min (at_deadline a) (t' + sec L))))
             (λ _ j, j)); [done|].
    split; simpl; try apply fmap_none; try done.
    + intros. apply lookup_alter_row.
    + intros i' a' Ha'. destruct (inv_attempt _ HI _ _ Ha') as (_ & ? & _). unfold at_row.
      destruct (decide _) as [->|]; [|done]. replace a' with a by congruence. simpl. split_and!; lia || done.
    + intros i' a' j Ha' Hj. destruct (inv_attempt _ HI _ _ Ha') as (_ & _ & j2 & Hj2 & _ & Hq & Hs).
      replace j with j2 by congruence. unfold at_row. by destruct (decide _).
    + intros k j Hj Hp. destruct (inv_progress _ HI _ _ Hj Hp) as (i' & a' & ? & ? & ?).
      exists i', a'. unfold at_row. by destruct (decide _).
  - destruct (inv_attempt _ HI _ _ Ha) as (_ & _ & j & Hj & _).
    eapply inv_move; [done|done|by rewrite Hst|done..].
  - destruct (retry_state_spec (at_number a) (MaxAttempts j)).
    eapply inv_move; [done|done|by rewrite Hst|done|done|..];
      by destruct Hnext as [[-> ->]|[-> ->]].
  - destruct (retry_state_spec (at_number a) (MaxAttempts j)). by eapply inv_move.
  - by eapply inv_cancels.
  - apply (inv_job_only d job j); [done|done|by rewrite Hst|auto|lia|done].
  - apply (inv_job_only d job j); [done|done|by rewrite Hst|auto|lia|lia].
Qed.

Lemma empty_inv : Inv empty_db.
Proof. by split. Qed.

(** Sequences of steps. *)
Inductive steps (L : Z) : db → list label → db → Prop :=
| steps_nil d : steps L d [] d
| steps_cons d l d1 ls d2 : step L d l d1 → steps L d1 ls d2 → steps L d (l :: ls) d2.

Lemma steps_app L d ls d1 ls' d2 : steps L d ls d1 → steps L d1 ls' d2 → steps L d (ls ++ ls') d2.
Proof. induction 1; [done|]. intros. simpl. econstructor; eauto. Qed.

Lemma steps_one L d l d' : step L d l d' → steps L d [l] d'.
Proof. intros. econstructor; [done|constructor]. Qed.

Lemma steps_inv L d ls d' : Inv d → steps L d ls d' → Inv d'.
Proof. induction 2; [done|]. eauto using step_inv. Qed.
