(* ===== verification/ControlRefine.v ===== *)
(** * ControlRefine: the transactions of the store implement its specification

    Every committed transaction ([Submit], [Action], [RPC], [Reap]) is a sequence of the steps of
    ControlSpec, at times read from the database clock. *)
From S2P Require Import Prelude Effects PyStr Json Sha256 Wire Control ControlSpec.
Import Store.
Local Open Scope string_scope.
Local Open Scope list_scope.
Local Open Scope Z_scope.

(** ** Inverting a transaction that did not fail *)
Lemma bind_inr {A B} (f : A → Tx B) (p : Tx A) e n d r :
  (p ≫= f) e n d = inr r → ∃ a n1 d1, p e n d = inr (a, n1, d1) ∧ f a e n1 d1 = inr r.
Proof.
  unfold mbind, tx_bind. destruct (p e n d) as [|[[a n1] d1]]; [done|]. eauto 6.
Qed.

Lemma guard_inr b x e n d a n' d' : guard b x e n d = inr (a, n', d') → b = true ∧ n' = n ∧ d' = d.
Proof. unfold guard. destruct b; naive_solver. Qed.

Lemma must_inr {A} (o : option A) x e n d a n' d' :
  must o x e n d = inr (a, n', d') → o = Some a ∧ n' = n ∧ d' = d.
Proof. destruct o; [|done]. intros [= -> -> ->]. done. Qed.

(** One operation of a transaction that did not fail. *)
Ltac tx_atom H :=
  lazymatch type of H with
  | guard _ _ _ _ _ = inr _ => let Hb := fresh "Hg" in apply guard_inr in H as (Hb & -> & ->)
  | must _ _ _ _ _ = inr _ => let Hb := fresh "Hm" in apply must_inr in H as (Hb & -> & ->)
  | read _ _ _ _ = inr _ => injection H; clear H; repeat intros <-
  | modify _ _ _ _ = inr _ => injection H; clear H; repeat intros <-
  | clock_timestamp _ _ _ = inr _ => injection H; clear H; repeat intros <-
  | fresh_id _ _ _ = inr _ => injection H; clear H; repeat intros <-
  | is_locked _ _ _ _ = inr _ => injection H; clear H; repeat intros <-
  | mret _ _ _ _ = inr _ => injection H; clear H; repeat intros <-
  | throw _ _ _ _ = inr _ => discriminate H
  | inr _ = inr _ => injection H; clear H; repeat intros <-
  | inl _ = inr _ => discriminate H
  | _ => idtac
  end.
(** The first operation of a sequence, then the rest. *)
Ltac tx_step H :=
  let a := fresh "a" in let n := fresh "n" in let d := fresh "d" in let Hp := fresh "Hp" in
  apply bind_inr in H as (a & n & d & Hp & H); tx_atom Hp.
Ltac tx H := repeat tx_step H; tx_atom H.

(** ** Refinement *)
Definition label_time (l : label) : option Z :=
  match l with
  | Leases _ t | Renews _ t | Finishes _ t _ | Expires _ t => Some t
  | _ => None
  end.
(** The times of [ls] do not go backwards and lie between [T] and [T']. *)
Fixpoint timeline (T : Z) (ls : list label) (T' : Z) : Prop :=
  match ls with
  | [] => T ≤ T'
  | l :: ls => match label_time l with
               | Some t => T ≤ t ∧ timeline t ls T'
               | None => timeline T ls T'
               end
  end.
Definition ticking (e : env) : Prop := ∀ k, now e k ≤ now e (S k).

(** Steps at times read from the clock between the readings [n] and [n']. *)
Definition evolves (L : Z) (e : env) (n n' : nat) (d d' : db) : Prop :=
  (n ≤ n')%nat ∧ ∃ ls, steps L d ls d' ∧ timeline (now e n) ls (now e n').
Definition refines {A} (L : Z) (t : Tx A) : Prop :=
  ∀ e n d a n' d', ticking e → Inv d → t e n d = inr (a, n', d') → evolves L e n n' d d'.

Lemma ticking_le e k k' : ticking e → (k ≤ k')%nat → now e k ≤ now e k'.
Proof. intros He. induction 1 as [|k' _ IH]; [done|]. etrans; [exact IH|apply He]. Qed.

Lemma timeline_le T T' ls T1 T1' : T1 ≤ T → T' ≤ T1' → timeline T ls T' → timeline T1 ls T1'.
Proof.
  revert T T1. induction ls as [|l ls IH]; intros T T1 H1 H2; simpl; [lia|].
  destruct (label_time l) as [t|]; [|by apply IH]. intros [? ?]. split; [lia|]. by eapply IH.
Qed.
Lemma timeline_app T ls T1 ls' T2 :
  timeline T ls T1 → timeline T1 ls' T2 → timeline T (ls ++ ls') T2.
Proof.
  revert T. induction ls as [|l ls IH]; intros T; simpl; [intros; by eapply timeline_le|].
  destruct (label_time l); naive_solver.
Qed.

Lemma evolves_refl L e n n' d : ticking e → (n ≤ n')%nat → evolves L e n n' d d.
Proof. intros. split; [done|]. exists []. split; [constructor|]. by apply ticking_le. Qed.
Lemma evolves_trans L e n1 n2 n3 d1 d2 d3 :
  evolves L e n1 n2 d1 d2 → evolves L e n2 n3 d2 d3 → evolves L e n1 n3 d1 d3.
Proof.
  intros (? & ls & ? & ?) (? & ls' & ? & ?). split; [lia|]. exists (ls ++ ls').
  split; [by eapply steps_app|by eapply timeline_app].
Qed.
Lemma evolves_one L e n n' k d l d' :
  ticking e → step L d l d' → label_time l = Some (now e k) → (n ≤ k ≤ n')%nat → evolves L e n n' d d'.
Proof.
  intros He Hs Hl Hk. split; [lia|]. exists [l]. split; [by apply steps_one|]. simpl. rewrite Hl.
  split; apply ticking_le; [done|lia|done|lia].
Qed.
Lemma evolves_untimed L e n n' d l d' :
  ticking e → (n ≤ n')%nat → step L d l d' → label_time l = None → evolves L e n n' d d'.
Proof.
  intros He Hn Hs Hl. split; [done|]. exists [l]. split; [by apply steps_one|]. simpl. rewrite Hl.
  by apply ticking_le.
Qed.
Lemma evolves_inv L e n n' d d' : Inv d → evolves L e n n' d d' → Inv d'.
Proof. intros ? (_ & ls & ? & _). by eapply steps_inv. Qed.

Lemma refines_bind {A B} L (p : Tx A) (f : A → Tx B) :
  refines L p → (∀ a, refines L (f a)) → refines L (p ≫= f).
Proof.
  intros Hp Hf e n d b n' d' He HI (a & n1 & d1 & H1 & H2)%bind_inr.
  apply Hp in H1; [|done..]. eapply evolves_trans; [exact H1|].
  eapply Hf; [done| |exact H2]. by eapply evolves_inv.
Qed.

(** The tables of the specification are the same. *)
Definition same_core (d d' : db) : Prop :=
  jobs d' = jobs d ∧ attempts d' = attempts d ∧ workers d' = workers d.
Lemma same_core_refl d : same_core d d.
Proof. done. Qed.
Lemma same_core_trans d1 d2 d3 : same_core d1 d2 → same_core d2 d3 → same_core d1 d3.
Proof. intros (? & ? & ?) (? & ? & ?). split_and!; congruence. Qed.
Lemma same_core_noted L d d' : same_core d d' → step L d Noted d'.
Proof.
  destruct d', d. intros (Hj & Ha & Hw). simpl in *. subst. apply (step_noted L (Db _ _ _ _ _ _)).
Qed.

(** A transaction that only writes artifacts, events or receipts. *)
Definition quiet {A} (t : Tx A) : Prop :=
  ∀ e n d a n' d', t e n d = inr (a, n', d') → (n ≤ n')%nat ∧ same_core d d'.
Lemma quiet_evolves L e n n' d d' :
  ticking e → (n ≤ n')%nat ∧ same_core d d' → evolves L e n n' d d'.
Proof. intros ? [? ?]. by eapply evolves_untimed; [..|by apply same_core_noted|]. Qed.
Lemma quiet_refines {A} L (t : Tx A) : quiet t → refines L t.
Proof. intros Ht e n d a n' d' ? _ H. by eapply quiet_evolves, Ht. Qed.
Lemma quiet_bind {A B} (p : Tx A) (f : A → Tx B) : quiet p → (∀ a, quiet (f a)) → quiet (p ≫= f).
Proof.
  intros Hp Hf e n d b n' d' (a & n1 & d1 & H1 & H2)%bind_inr.
  apply Hp in H1 as [? ?]. apply Hf in H2 as [? ?]. split; [lia|by eapply same_core_trans].
Qed.

Create HintDb quiet discriminated.
Lemma quiet_ret {A} (a : A) : quiet (mret a).
Proof. intros e n d ??? [= <- <- <-]. auto using same_core_refl. Qed.
Lemma quiet_throw {A} x : quiet (throw x : Tx A).
Proof. by intros e n d ???. Qed.
Lemma quiet_guard b x : quiet (guard b x).
Proof. intros e n d ??? (_ & -> & ->)%guard_inr. auto using same_core_refl. Qed.
Lemma quiet_must {A} (o : option A) x : quiet (must o x).
Proof. intros e n d ??? (_ & -> & ->)%must_inr. auto using same_core_refl. Qed.
Lemma quiet_read {A} (f : db → A) : quiet (read f).
Proof. intros e n d ??? [= <- <- <-]. split; [lia|done]. Qed.
Lemma quiet_clock : quiet clock_timestamp.
Proof. intros e n d ??? [= <- <- <-]. split; [lia|done]. Qed.
Lemma quiet_fresh : quiet fresh_id.
Proof. intros e n d ??? [= <- <- <-]. split; [lia|done]. Qed.
Lemma quiet_locked j : quiet (is_locked j).
Proof. intros e n d ??? [= <- <- <-]. split; [lia|done]. Qed.
Lemma quiet_add_event r : quiet (modify (add_event r)).
Proof. intros e n d ??? [= <- <- <-]. split; [lia|done]. Qed.
Lemma quiet_add_artifact r : quiet (modify (add_artifact r)).
Proof. intros e n d ??? [= <- <- <-]. split; [lia|done]. Qed.
Lemma quiet_set_request k v : quiet (modify (set_request k v)).
Proof. intros e n d ??? [= <- <- <-]. split; [lia|done]. Qed.
#[export] Hint Resolve quiet_ret quiet_throw quiet_guard quiet_must quiet_read quiet_clock
  quiet_fresh quiet_locked quiet_add_event quiet_add_artifact quiet_set_request : quiet.
Ltac quiet :=
  repeat lazymatch goal with |- quiet (_ ≫= _) => apply quiet_bind; [|intros ?] end;
  eauto with quiet.

(** [H], the run of a quiet rest, says that the tables are the same. *)
Ltac quiet_run H :=
  lazymatch type of H with
  | ?t ?e ?n ?d = inr (?a, ?n', ?d') =>
      let Hq := fresh in assert (quiet t) as Hq; [quiet|exact (Hq e n d a n' d' H)]
  end.

Lemma quiet_event j a k p : quiet (event j a k p).
Proof. unfold event. quiet. Qed.
#[export] Hint Resolve quiet_event : quiet.

Lemma quiet_store_artifact j i a : quiet (store_artifact j i a).
Proof. unfold store_artifact. quiet. case_match; quiet. Qed.
#[export] Hint Resolve quiet_store_artifact : quiet.

Lemma quiet_store_artifacts j i l : quiet (store_artifacts j i l).
Proof. induction l as [|a l IH]; cbn [store_artifacts]; quiet. Qed.
#[export] Hint Resolve quiet_store_artifacts : quiet.

Lemma quiet_select_expired js : quiet (select_expired js).
Proof. induction js as [|j js IH]; cbn [select_expired]; quiet. Qed.
#[export] Hint Resolve quiet_select_expired : quiet.

(** ** [Submit] *)
Lemma submit_one_refines L j : Validate j = true → refines L (submit_one j).
Proof.
  intros Hv e n d row n' d' He HI H. unfold submit_one in H. tx_step H. apply bind_inr in H
    as (ins & n1 & d1 & Hins & H).
  assert (evolves L e n n1 d d1) as Hd1.
  { unfold insert_job in Hins. tx_step Hins. tx_step Hins. destruct (by_key _ d) eqn:Hkey.
    { tx Hins. apply evolves_refl; [done|lia]. }
    tx Hins. eapply evolves_untimed; [done|lia|apply (step_submitted L d (new_id e n) j)|]; try done.
    by apply bool_decide_eq_true in Hg0. }
  eapply evolves_trans; [exact Hd1|]. apply quiet_evolves; [done|].
  destruct ins; quiet_run H.
Qed.

Lemma submit_all_refines L js : forallb Validate js = true → refines L (submit_all js).
Proof.
  induction js as [|j js IH]; cbn [submit_all forallb].
  { intros _. apply quiet_refines. quiet. }
  intros [Hj Hjs]%andb_true_iff. apply refines_bind; [by apply submit_one_refines|]. intros row.
  apply refines_bind; [by apply IH|]. intros rows. apply quiet_refines. quiet.
Qed.

Lemma Submit_refines L js : refines L (Submit js).
Proof.
  intros e n d a n' d' He HI H. unfold Submit in H. tx_step H. tx_step H.
  by eapply (submit_all_refines L js).
Qed.

(** ** [Mutate] *)
Lemma with_receipt_refines L scope id hash fn : refines L fn → refines L (with_receipt scope id hash fn).
Proof.
  intros Hfn. apply refines_bind; [done|]. intros r. apply quiet_refines. quiet.
Qed.

Lemma Mutate_refines L scope id payload fn : refines L fn → refines L (Mutate scope id payload fn).
Proof.
  intros Hfn. unfold Mutate.
  apply refines_bind; [apply quiet_refines; quiet|intros _].
  apply refines_bind; [apply quiet_refines; quiet|intros _].
  apply refines_bind; [apply quiet_refines; quiet|intros rs].
  destruct (rs !! (scope, id)) as [[old [r|]]|]; apply refines_bind;
    try (by apply quiet_refines; quiet); intros []; try (by apply quiet_refines; quiet);
    by apply with_receipt_refines.
Qed.

(** ** [Action] *)
Lemma set_attempts_core f d d' : same_core d d' → same_core (set_attempts f d) (set_attempts f d').
Proof. intros (? & Ha & ?). split_and!; simpl; [done|by rewrite Ha|done]. Qed.

Lemma act_refines L id action rid : refines L (act id action rid).
Proof.
  intros e n d resp n' d' He HI H. unfold act in H. tx_step H. tx_step H.
  apply bind_inr in H as ([st max] & n1 & d1 & Hst & H).
  apply bind_inr in H as (u & n2 & d2 & Hup & H).
  assert ((n2 ≤ n')%nat ∧ same_core d2 d') as Hq.
  { quiet_run H. }
  eapply evolves_trans; [|by apply quiet_evolves].
  unfold update_job in Hup. tx Hup. clear H Hq d' n'.
  destruct (String.eqb action "cancel"); [|destruct (String.eqb action "retry"); [|tx Hst]].
  - destruct (State a) eqn:Hs; tx Hst.
    1-3: eapply evolves_untimed; [done|lia|apply (step_cancels L d (lower id) a); [done|rewrite Hs; auto]|done].
    eapply evolves_untimed; [done|lia|by apply (step_cancelled L d (lower id) a)|done].
  - destruct (State a) eqn:Hs; tx Hst.
    eapply evolves_untimed; [done|lia|by apply (step_retries L d (lower id) a)|done].
Qed.

Lemma Action_refines L id action rid : refines L (Action id action rid).
Proof. apply Mutate_refines, act_refines. Qed.

(** ** [lease] *)
Lemma oldest_in l j : oldest l = Some j → j ∈ l.
Proof.
  revert j. induction l as [|k l IH]; intros j; simpl; [done|].
  destruct (oldest l) as [k'|]; intros [= <-]; [|by left].
  destruct (older k k'); [by left|right; by apply IH].
Qed.

Lemma queue_head_spec free skip d j :
  queue_head free skip d = Some j →
  leasable free skip j = true ∧ ∃ k, jobs d !! k = Some j.
Proof.
  intros Hj%oldest_in. apply list_elem_of_In, List.filter_In in Hj as [Hin Hl]. split; [done|].
  apply list_elem_of_In, list_elem_of_fmap in Hin as ([k j'] & -> & Hk).
  exists k. by apply elem_of_map_to_list.
Qed.

Lemma attempt_allowed_spec d id a :
  attempt_allowed d id a = true →
  attempts d !! id = None ∧
  ∀ i' a', attempts d !! i' = Some a' → at_job a' = at_job a →
    at_number a' ≠ at_number a ∧ (active (at_state a) = true → active (at_state a') = false).
Proof.
  unfold attempt_allowed. rewrite andb_true_iff, bool_decide_eq_true, forallb_forall.
  intros [Hid Hall]. split; [done|]. intros i' a' Ha' Hjob.
  specialize (Hall (i', a')). simpl in Hall.
  rewrite <- list_elem_of_In, elem_of_map_to_list in Hall. specialize (Hall Ha').
  rewrite bool_decide_true in Hall by done. simpl in Hall.
  apply negb_true_iff, orb_false_iff in Hall as [Hn Hact]. split; [by apply Z.eqb_neq|].
  intros Ha. rewrite Ha, andb_true_r in Hact. done.
Qed.

Lemma lease_refines L r cap wk d0 :
  workers d0 !! WorkerID r = Some wk → wk_cap wk = cap →
  ∀ e n d a n' d', same_core d0 d → ticking e → Inv d →
    lease L r cap e n d = inr (a, n', d') → evolves L e n n' d d'.
Proof.
  intros Hwk Hcap e n d resp n' d' (_ & _ & Hw) He HI H. unfold lease in H. tx_step H.
  apply bind_inr in H as (head & n1 & d1 & Hhead & H). injection Hhead as <- <- <-.
  destruct (queue_head _ _ d) as [j|] eqn:Hj; [|tx H; apply evolves_refl; [done|lia]].
  apply queue_head_spec in Hj as [Hl [k Hk]].
  unfold leasable in Hl. simpl in Hl. rewrite !andb_true_iff, !Z.leb_le in Hl.
  destruct Hl as ((((Hq & Hc) & Hm) & Hg) & _). apply bool_decide_eq_true in Hq.
  destruct (inv_job _ HI _ _ Hk) as (Hid & _ & _).
  tx_step H. tx_step H. apply bind_inr in H as (l & n2 & d2 & Hins & H).
  unfold insert_attempt in Hins. tx_step Hins. tx_step Hins. tx_step Hins. tx_step Hins.
  cbv zeta in Hins. tx Hins. apply attempt_allowed_spec in Hg0 as [Hfree Hnone]. simpl in Hnone.
  tx_step H. apply bind_inr in H as (u & n3 & d3 & Hset & H). unfold set_state in Hset. tx Hset.
  cbn [l_number] in Hg0.
  apply negb_true_iff in Hg0. rewrite Z.gtb_ltb, Z.ltb_ge in Hg0.
  eapply evolves_trans.
  2: { apply quiet_evolves; [done|]. quiet_run H. }
  eapply (evolves_one L e _ _ (S (S n)) d (Leases (new_id e n) (now e (S (S n))))); [done| |done|lia].
  match goal with |- step _ _ _ (set_jobs _ (set_attempts (insert _ ?row) _)) =>
    apply (step_leases L d (new_id e n) row j wk (now e (S (S n)))) end; simpl.
  - by rewrite Hid.
  - done.
  - by rewrite Hw.
  - subst cap. repeat constructor; simpl; lia.
  - done.
  - done.
  - done.
  - done.
  - assert (now e (S (S n)) ≤ now e (S (S (S n)))) by apply He. unfold sec. lia.
  - unfold sec. lia.
  - intros i' a' Ha' Hjob. by apply (Hnone i' a').
Qed.

(** ** [attempt] *)
(** What the guards of [attempt] have established when the switch is reached. *)
Record fenced (e : env) (n : nat) (d : db) (r : Request) (j : JobRow) (a : AttemptRow) : Prop := {
  fenced_attempt : attempts d !! lower (AttemptID r) = Some a;
  fenced_job : jobs d !! at_job a = Some j;
  fenced_worker : at_worker a = WorkerID r;
  fenced_token : at_token a = LeaseToken r;
  fenced_active : active (at_state a) = true;
  fenced_state : in_progress (State j) = true;
  fenced_time : now e n < at_expires a ∧ now e (S n) < at_deadline a }.

Lemma locked_attempt_inr id e n d x n' d' :
  locked_attempt id e n d = inr (x, n', d') →
  attempts d !! id = Some x.1 ∧ n' = S (S n) ∧ d' = d ∧
  x.2 = (now e n <? at_expires x.1) && (now e (S n) <? at_deadline x.1).
Proof. unfold locked_attempt. intros H. tx H. done. Qed.

Lemma attempt_inr L m r e n d resp n' d' :
  attempt L m r e n d = inr (resp, n', d') →
  ∃ j a, fenced e n d r j a ∧
    match m with
    | Heartbeat => renew L r a e (S (S n)) d = inr (resp, n', d')
    | StartAttempt => (start r j a;; attempt_event m r (ID j)) e (S (S n)) d = inr (resp, n', d')
    | _ => (report m r j a;; attempt_event m r (ID j)) e (S (S n)) d = inr (resp, n', d')
    end.
Proof.
  unfold attempt. intros H. tx_step H. tx_step H. tx_step H. tx_step H. tx_step H.
  apply bind_inr in H as ([x valid] & n1 & d1 & Hl & H). apply locked_attempt_inr in Hl as (Hx & -> & -> & Hv).
  simpl in *. subst valid. tx_step H. apply fmap_Some in Hm as (a' & Ha' & ->). assert (a' = x) as -> by congruence.
  eexists _, x. split; [|by destruct m]. unfold fence in Hg0.
  rewrite !andb_true_iff, !String.eqb_eq, !Z.ltb_lt in Hg0. by split; naive_solver.
Qed.

Lemma set_state_inr j st e n d a n' d' :
  set_state j st e n d = inr (a, n', d') → n' = S n ∧ d' = with_state j st (now e n) d.
Proof. intros H. unfold set_state in H. tx H. done. Qed.

Lemma with_state_core j st t d d' : same_core d d' → same_core (with_state j st t d) (with_state j st t d').
Proof. intros (Hj & ? & ?). split_and!; simpl; [by rewrite Hj|done|done]. Qed.

Lemma quiet_attempt_event m r j : quiet (attempt_event m r j).
Proof. unfold attempt_event. quiet. Qed.
#[export] Hint Resolve quiet_attempt_event : quiet.

Lemma start_refines L e n d r j a x n' d' :
  fenced e n d r j a → Inv d → ticking e →
  start r j a e (S (S n)) d = inr (x, n', d') → evolves L e n n' d d'.
Proof.
  intros Hf HI He H. unfold start in H.
  destruct (inv_job _ HI _ _ (fenced_job _ _ _ _ _ _ Hf)) as (Hid & _).
  destruct (at_state a) eqn:Hst; try (tx H; apply evolves_refl; [done|lia]).
  tx_step H. tx_step H. apply set_state_inr in H as [-> ->]. rewrite Hid.
  eapply evolves_untimed; [done|lia|eapply (step_starts L d (lower (AttemptID r)) a); [apply Hf|done]|done].
Qed.

Lemma report_refines L e n d m r j a x n' d' :
  m = ReportProgress ∨ m = CompleteAttempt ∨ m = FailAttempt →
  fenced e n d r j a → Inv d → ticking e →
  report m r j a e (S (S n)) d = inr (x, n', d') → evolves L e n n' d d'.
Proof.
  intros Hm Hf HI He H. unfold report in H. tx_step H. tx_step H.
  apply bind_inr in H as (u & n1 & d1 & Hart & H). apply quiet_store_artifacts in Hart as [Hn1 Hq].
  destruct (inv_job _ HI _ _ (fenced_job _ _ _ _ _ _ Hf)) as (Hid & _).
  case_bool_decide as Hp; [tx H; apply quiet_evolves; [done|split; [lia|done]]|].
  apply bool_decide_eq_true in Hg.
  unfold finish_attempt in H. tx_step H. destruct (if bool_decide _ then _ else _) as [next st] eqn:Hn.
  tx_step H. tx_step H. tx_step H. apply set_state_inr in H as [-> ->]. rewrite Hid.
  destruct Hq as (Hj1 & Ha1 & Hw1). split; [lia|].
  exists [Noted; Finishes (lower (AttemptID r)) (now e n) st].
  split; [|simpl; split; [done|apply ticking_le; [done|lia]]].
  eapply steps_cons; [by apply (same_core_noted L d d1)|apply steps_one].
  eapply (step_finishes L d1 (lower (AttemptID r)) a j).
  - rewrite Ha1. apply Hf.
  - done.
  - rewrite Hj1. apply Hf.
  - apply Hf.
  - case_bool_decide; simplify_eq; auto.
Qed.

Lemma reported_refines L e n d m r j a x n' d' :
  m = ReportProgress ∨ m = CompleteAttempt ∨ m = FailAttempt →
  fenced e n d r j a → Inv d → ticking e →
  (report m r j a;; attempt_event m r (ID j)) e (S (S n)) d = inr (x, n', d') → evolves L e n n' d d'.
Proof.
  intros Hm Hf HI He (u & n1 & d1 & H1 & H2)%bind_inr. eapply evolves_trans.
  - by eapply report_refines.
  - apply quiet_evolves; [done|]. quiet_run H2.
Qed.

Lemma attempt_refines L m r :
  m = Heartbeat ∨ m = StartAttempt ∨ m = ReportProgress ∨ m = CompleteAttempt ∨ m = FailAttempt →
  refines L (attempt L m r).
Proof.
  intros Hm e n d resp n' d' He HI (j & a & Hf & H)%attempt_inr.
  destruct m; try (exfalso; naive_solver).
  - apply bind_inr in H as (x & n1 & d1 & H1 & H2). eapply evolves_trans.
    + by eapply start_refines.
    + apply quiet_evolves; [done|]. quiet_run H2.
  - unfold renew in H. tx H.
    eapply (evolves_one L e _ _ (S (S n)) d (Renews (lower (AttemptID r)) (now e (S (S n)))));
      [done| |done|lia].
    eapply (step_renews L d (lower (AttemptID r)) a (now e n)); [apply Hf..|].
    apply ticking_le; [done|lia].
  - eapply reported_refines; [|done..|exact H]. auto.
  - eapply reported_refines; [|done..|exact H]. auto.
  - eapply reported_refines; [|done..|exact H]. auto.
Qed.

(** ** [RPC] *)
Lemma register_refines L r : refines L (register r).
Proof.
  intros e n d resp n' d' He HI H. unfold register in H. tx_step H. tx_step H. tx_step H.
  apply bind_inr in H as (u & n1 & d1 & Hreg & H). tx H.
  destruct (workers d !! WorkerID r) as [w|] eqn:Hw; [tx Hreg; apply evolves_refl; [done|lia]|].
  tx Hreg. eapply evolves_untimed; [done|lia|apply step_registered; [done|]|done].
  apply andb_true_iff in Hg as [[Hv _]%andb_true_iff _]. done.
Qed.

(** [UPDATE workers SET last_heartbeat_at=...] *)
Definition beaten (w : string) (t : Z) (d : db) : db := set_workers (alter (worker_beat t) w) d.

Lemma dispatch_inr L m r e n d x :
  dispatch L m r e n d = inr x →
  ∃ w, workers d !! WorkerID r = Some w ∧ wk_session w = SessionID r ∧
       serve L m r w e (S n) (beaten (WorkerID r) (now e n) d) = inr x.
Proof.
  destruct x as [[resp n'] d']. intros H. unfold dispatch in H.
  tx_step H. tx_step H. tx_step H. tx_step H. tx_step H. apply String.eqb_eq in Hg. eauto.
Qed.

Lemma step_beaten L w t d : step L d (Seen w) (beaten w t d).
Proof. by apply step_seen. Qed.

Lemma dispatch_refines L m r : m ≠ RegisterWorker → refines L (dispatch L m r).
Proof.
  intros Hm e n d resp n' d' He HI (w & Hw & _ & H)%dispatch_inr.
  pose proof (step_beaten L (WorkerID r) (now e n) d) as Hbeat.
  eapply evolves_trans; [eapply (evolves_untimed L e n (S n)); [done|lia|exact Hbeat|done]|].
  eapply step_inv in Hbeat as HI1; [|done]. clear Hbeat HI.
  destruct m; try done; cbn [serve] in H; try (eapply attempt_refines; [|done..|exact H]; auto).
  - tx_step H. eapply (lease_refines L r (wk_cap w) (worker_beat (now e n) w)); [|done|done|done|done|exact H].
    simpl. by rewrite lookup_alter_eq, Hw.
  - destruct (nonempty _).
    + eapply attempt_refines; [|done..|exact H]. auto.
    + tx H. apply evolves_refl; [done|lia].
  - tx H. eapply evolves_untimed; [done|lia|by apply step_seen|done].
Qed.

Lemma RPC_refines L m r : refines L (RPC L m r).
Proof.
  unfold RPC. apply refines_bind; [apply quiet_refines; quiet|intros _]. apply Mutate_refines.
  destruct m; try (by apply dispatch_refines). apply register_refines.
Qed.

(** ** [Reap] *)
Lemma attempts_of_spec d job i a : (i, a) ∈ attempts_of d job ↔ attempts d !! i = Some a ∧ at_job a = job.
Proof.
  unfold attempts_of. rewrite list_elem_of_In, List.filter_In, <- list_elem_of_In, elem_of_map_to_list.
  by rewrite bool_decide_eq_true.
Qed.

Lemma reap_one_refines L id : refines L (reap_one id).
Proof.
  intros e n d k n' d' He HI H. unfold reap_one in H. tx_step H. tx_step H. tx_step H.
  destruct (List.find _ _) as [[i a]|] eqn:Hf; [|tx H; apply evolves_refl; [done|lia]].
  destruct (jobs d !! id) as [j|] eqn:Hj; [|tx H; apply evolves_refl; [done|lia]].
  apply List.find_some in Hf as [Hin Hexp]. apply list_elem_of_In, attempts_of_spec in Hin as [Ha <-].
  simpl in Hexp. unfold expired in Hexp. apply andb_true_iff in Hexp as [Hact Hle]. apply Z.leb_le in Hle.
  tx_step H. tx_step H. apply bind_inr in H as (u & n1 & d1 & Hset & H).
  apply set_state_inr in Hset as [-> ->].
  eapply evolves_trans; [|apply quiet_evolves; [done|quiet_run H]].
  eapply (evolves_one L e _ _ n d (Expires i (now e n))); [done| |done|lia].
  by apply (step_expires L d i a j).
Qed.

Lemma reap_all_refines L ids : refines L (reap_all ids).
Proof.
  induction ids as [|id ids IH]; cbn [reap_all]; [apply quiet_refines; quiet|].
  apply refines_bind; [apply reap_one_refines|intros k].
  apply refines_bind; [done|intros rest]. apply quiet_refines. quiet.
Qed.

Lemma Reap_refines L : refines L Reap.
Proof.
  unfold Reap. apply refines_bind; [apply quiet_refines; quiet|intros rows].
  apply refines_bind; [apply quiet_refines; quiet|intros ids]. apply reap_all_refines.
Qed.
