(* ===== verification/ControlProps.v ===== *)
(** * ControlProps: what the control plane guarantees

    Theorems about runs of committed transactions, proved from the steps of ControlSpec and the
    refinement of ControlRefine: the invariant of the tables, the exclusivity of a lease until
    it expires, fencing of ended attempts, replay of receipts, final states, the order of the
    queue, and what the reaper does. *)
From S2P Require Import Prelude Effects PyStr Json Sha256 Wire Control ControlSpec ControlRefine.
Import Store.
Local Open Scope string_scope.
Local Open Scope list_scope.
Local Open Scope Z_scope.

(** ** Runs *)
Inductive operation :=
| OpSubmit (js : list Job)
| OpAction (id action request_id : string)
| OpRpc (m : method) (r : Request)
| OpReap.

Inductive answer :=
| Rows (l : list JobRow)
| Answered (r : response)
| Count (n : nat).

(** The transaction a call of the store runs. *)
Definition perform (L : Z) (o : operation) : Tx answer :=
  match o with
  | OpSubmit js => rows ← Submit js; mret (Rows rows)
  | OpAction id action rid => r ← Action id action rid; mret (Answered r)
  | OpRpc m r => r ← RPC L m r; mret (Answered r)
  | OpReap => n ← Reap; mret (Count n)
  end.

Record call := Call { c_env : env; c_op : operation }.
Definition result_of (L : Z) (c : call) (d : db) : error + answer :=
  (transact (perform L (c_op c)) (c_env c) d).1.
Definition after (L : Z) (c : call) (d : db) : db :=
  (transact (perform L (c_op c)) (c_env c) d).2.

(** The readings of the clock of a call lie between [T] and [T'] and do not go backwards. *)
Definition during (T T' : Z) (c : call) : Prop :=
  ticking (c_env c) ∧ ∀ k, T ≤ now (c_env c) k ≤ T'.

(** [runs L T d cs T' d']: from [d] at time [T], the calls [cs] lead to [d'] at time [T']. *)
Inductive runs (L : Z) : Z → db → list call → Z → db → Prop :=
| runs_nil T d : runs L T d [] T d
| runs_cons T T1 T2 d c cs d2 :
    T ≤ T1 → during T T1 c → runs L T1 (after L c d) cs T2 d2 → runs L T d (c :: cs) T2 d2.

Lemma perform_refines L o : refines L (perform L o).
Proof.
  destruct o; (apply refines_bind; [|intros ?; apply quiet_refines; quiet]).
  - apply Submit_refines.
  - apply Action_refines.
  - apply RPC_refines.
  - apply Reap_refines.
Qed.

Lemma after_steps L T T' c d :
  T ≤ T' → during T T' c → Inv d → ∃ ls, steps L d ls (after L c d) ∧ timeline T ls T'.
Proof.
  intros HT [He Hb] HI. unfold after, transact.
  destruct (perform L (c_op c) (c_env c) 0%nat d) as [x|[[a n] d']] eqn:Hp; simpl.
  - exists []. split; [constructor|simpl; lia].
  - apply perform_refines in Hp as (_ & ls & Hs & Hd); [|done..]. exists ls. split; [done|].
    eapply timeline_le; [..|exact Hd]; apply Hb.
Qed.

Lemma runs_le L T d cs T' d' : runs L T d cs T' d' → T ≤ T'.
Proof. induction 1; lia. Qed.

Lemma runs_steps L T d cs T' d' :
  runs L T d cs T' d' → Inv d → ∃ ls, steps L d ls d' ∧ timeline T ls T'.
Proof.
  induction 1 as [T d|T T1 T2 d c cs d2 Hle Hd Hr IH]; intros HI.
  - exists []. split; [constructor|simpl; lia].
  - destruct (after_steps L _ _ _ _ Hle Hd HI) as (ls1 & Hs1 & Ht1).
    destruct IH as (ls2 & Hs2 & Ht2); [by eapply steps_inv|].
    exists (ls1 ++ ls2). split; [by eapply steps_app|by eapply timeline_app].
Qed.

Lemma runs_app L T d cs T1 d1 cs' T2 d2 :
  runs L T d cs T1 d1 → runs L T1 d1 cs' T2 d2 → runs L T d (cs ++ cs') T2 d2.
Proof. induction 1; [done|]. intros. simpl. econstructor; eauto. Qed.

Lemma runs_inv L T d cs T' d' : runs L T d cs T' d' → Inv d → Inv d'.
Proof. intros Hr HI. destruct (runs_steps _ _ _ _ _ _ Hr HI) as (ls & Hs & _). by eapply steps_inv. Qed.

(** C8. The store implements its specification: whatever a call of the store does, committed or
    refused, is a sequence of steps of ControlSpec, each with its conditions, at times that do not
    go backwards and lie within the call. *)
Theorem store_refines_spec L T T' c d :
  T ≤ T' → during T T' c → Inv d → ∃ ls, steps L d ls (after L c d) ∧ timeline T ls T'.
Proof. apply after_steps. Qed.

(** ** The life of an attempt *)
(** What a step does to a row of [attempts]. *)
Definition aged (L : Z) (l : label) (i : string) (a a' : AttemptRow) : Prop :=
  (at_job a' = at_job a ∧ at_number a' = at_number a ∧ at_worker a' = at_worker a ∧
   at_token a' = at_token a ∧ at_deadline a' = at_deadline a) ∧
  (active (at_state a) = false → a' = a) ∧
  (active (at_state a) = true →
   active (at_state a') = true ∧
   (at_expires a' = at_expires a ∨
    ∃ t, l = Renews i t ∧ at_expires a' = Z.min (at_deadline a) (t + sec L)) ∨
   active (at_state a') = false ∧ at_expires a' = at_expires a ∧
   ((∃ t, l = Finishes i t (at_state a') ∧ (at_state a' = ASucceeded ∨ at_state a' = AFailed)) ∨
    (∃ t, l = Expires i t ∧ at_state a' = AExpired ∧ at_expires a ≤ t) ∨
    (l = Cancels (at_job a) ∧ at_state a' = ACancelled))).

Lemma aged_refl L l i a : aged L l i a a.
Proof. split_and!; try done. destruct (active (at_state a)); auto. Qed.

(** A step at the row [k]. *)
Lemma aged_row L l i k a b (g : AttemptRow → AttemptRow) :
  active (at_state b) = true → (i = k → a = b) → aged L l k b (g b) →
  aged L l i a (at_row k g i a).
Proof.
  intros Hb Hi Hg. unfold at_row. destruct (decide _) as [->|]; [|apply aged_refl].
  by rewrite Hi.
Qed.

Lemma step_attempt L d l d' i a :
  step L d l d' → attempts d !! i = Some a →
  ∃ a', attempts d' !! i = Some a' ∧ aged L l i a a'.
Proof.
  intros Hs Ha.
  destruct Hs as [| | | |i' row j wk t t' Hj Hq Hwk Hcap Hi'|i' b t t' Hb Hact Ht Htt|i' b t t' Hb Hst
    |i' b j t t' t'' st next code reason Hb Hst Hj Ht Hnext
    |i' b j t t' t'' reason Hb Hact Hj Ht|job j t t' Hj Hst| |]; simpl;
    try (exists a; split; [done|apply aged_refl]).
  - exists a. rewrite lookup_insert_ne by congruence. split; [done|apply aged_refl].
  - rewrite lookup_alter_row, Ha. eexists. split; [done|].
    apply (aged_row _ _ _ _ _ b); [done|congruence|]. split_and!; try done; [congruence|].
    intros _. left. split; [done|]. right. eauto.
  - rewrite lookup_alter_row, Ha. eexists. split; [done|].
    apply (aged_row _ _ _ _ _ b); [by rewrite Hst|congruence|].
    split_and!; try done; [by rewrite Hst|]. intros _. left. split; [done|]. by left.
  - rewrite lookup_alter_row, Ha. eexists. split; [done|].
    apply (aged_row _ _ _ _ _ b); [by rewrite Hst|congruence|].
    split_and!; try done; [by rewrite Hst|]. intros _. right.
    destruct Hnext as [[-> _]|[-> _]]; (split_and!; [done|done|]); left; eauto.
  - rewrite lookup_alter_row, Ha. eexists. split; [done|].
    apply (aged_row _ _ _ _ _ b); [done|congruence|]. split_and!; try done; [congruence|].
    intros _. right. split_and!; [done|done|]. right. left. eauto.
  - rewrite lookup_fmap, Ha. eexists. split; [done|]. unfold end_active.
    case_bool_decide as Hjob; simpl; [|apply aged_refl].
    destruct (active (at_state a)) eqn:Hact; [|apply aged_refl]. split_and!; try done; [congruence|].
    intros _. right. split_and!; [done|done|]. right. right. by subst.
Qed.

(** No lease reaches further than [L] seconds from now. *)
Definition leashed (L T : Z) (d : db) : Prop :=
  ∀ i a, attempts d !! i = Some a → at_expires a ≤ T + sec L.

Lemma step_new_attempt L d l d' i a :
  step L d l d' → attempts d !! i = None → attempts d' !! i = Some a →
  ∃ t, l = Leases i t ∧ at_expires a ≤ t + sec L.
Proof.
  intros Hs Hn. destruct Hs; simpl; try congruence.
  - rewrite lookup_insert_Some. intros [[<- <-]|[? ?]]; [eauto|congruence].
  - rewrite lookup_alter_row, Hn. done.
  - rewrite lookup_alter_row, Hn. done.
  - rewrite lookup_alter_row, Hn. done.
  - rewrite lookup_alter_row, Hn. done.
  - rewrite lookup_fmap, Hn. done.
Qed.

(** The time after a step at time [T] or later. *)
Definition later (T : Z) (l : label) : Z := default T (label_time l).

Lemma step_leashed L T d l d' :
  T ≤ later T l → leashed L T d → step L d l d' → leashed L (later T l) d'.
Proof.
  intros HT Hd Hs i a' Ha'. destruct (attempts d !! i) as [a|] eqn:Ha.
  - destruct (step_attempt _ _ _ _ _ _ Hs Ha) as (a2 & Ha2 & _ & Hina & Hact).
    assert (a2 = a') as -> by congruence. specialize (Hd _ _ Ha).
    destruct (active (at_state a)).
    + destruct (Hact eq_refl) as [[_ [->|(t & -> & ->)]]|(_ & -> & _)]; [lia| |lia].
      unfold later in *. simpl in *. lia.
    + rewrite (Hina eq_refl). lia.
  - destruct (step_new_attempt _ _ _ _ _ _ Hs Ha Ha') as (t & -> & Hle). done.
Qed.

(** [a] was leased as [i]; until [X] only a report of its worker or a cancellation ends it. *)
Definition held (i : string) (a : AttemptRow) (X : Z) (d : db) : Prop :=
  ∃ a', attempts d !! i = Some a' ∧ at_job a' = at_job a ∧ at_number a' = at_number a ∧
        at_worker a' = at_worker a ∧ at_token a' = at_token a ∧
        (active (at_state a') = true ∧ X ≤ at_expires a' ∨
         at_state a' = ASucceeded ∨ at_state a' = AFailed ∨ at_state a' = ACancelled).

Lemma step_held L T d l d' i a X :
  T ≤ later T l → leashed L T d → Inv d → step L d l d' → later T l < X →
  held i a X d → held i a X d'.
Proof.
  intros HT Hd HI Hs HX (b & Hb & Hj & Hn & Hw & Htok & Hst).
  destruct (step_attempt _ _ _ _ _ _ Hs Hb) as (b' & Hb' & (E1 & E2 & E3 & E4 & E5) & Hina & Hact).
  exists b'. split_and!; [done|congruence..|].
  destruct Hst as [[Ha HXb]|Hst].
  - destruct (Hact Ha) as [[Ha' [->|(t & -> & ->)]]|(_ & _ & [(t & _ & ?)|[(t & -> & _ & Hle)|(_ & ?)]])].
    + auto.
    + left. split; [done|]. specialize (Hd _ _ Hb). unfold later in *. simpl in *.
      destruct (inv_attempt _ HI _ _ Hb) as (_ & ? & _). lia.
    + naive_solver.
    + unfold later in *. simpl in *. lia.
    + auto.
  - right. rewrite Hina; [done|]. by destruct Hst as [->|[->| ->]].
Qed.

Lemma timeline_cons T l ls T' : timeline T (l :: ls) T' → T ≤ later T l ∧ timeline (later T l) ls T'.
Proof. simpl. unfold later. destruct (label_time l); simpl; [naive_solver|done]. Qed.

Lemma timeline_end T ls T' : timeline T ls T' → T ≤ T'.
Proof.
  revert T. induction ls as [|l ls IH]; intros T; [done|].
  intros [? ?%IH]%timeline_cons. lia.
Qed.

Lemma steps_leashed L T ls T' d d' :
  timeline T ls T' → leashed L T d → steps L d ls d' → leashed L T' d'.
Proof.
  intros Ht Hd Hs. revert T Ht Hd. induction Hs as [|d l d1 ls d2 Hs Hss IH]; intros T Ht Hd.
  - intros i a Ha. specialize (Hd _ _ Ha). apply timeline_end in Ht. lia.
  - apply timeline_cons in Ht as [HT Ht]. eapply IH; [exact Ht|]. by eapply step_leashed.
Qed.

Lemma steps_held L T ls T' d d' i a X :
  timeline T ls T' → leashed L T d → Inv d → steps L d ls d' → T' < X →
  held i a X d → held i a X d'.
Proof.
  intros Ht Hd HI Hs HX. revert T Ht Hd HI.
  induction Hs as [|d l d1 ls d2 Hs Hss IH]; intros T Ht Hd HI Hh; [done|].
  apply timeline_cons in Ht as [HT Ht]. pose proof (timeline_end _ _ _ Ht).
  eapply IH; [exact Ht|by eapply step_leashed|by eapply step_inv|].
  eapply step_held; [exact HT|done|done|done|lia|done].
Qed.

(** ** The tables of a run *)
Lemma empty_leashed L T : leashed L T empty_db.
Proof. by intros i a. Qed.

(** In a reachable state, the clock of the last transaction included. *)
Definition reached (L T : Z) (d : db) : Prop := ∃ T0 cs, runs L T0 empty_db cs T d.

Lemma reached_inv L T d : reached L T d → Inv d ∧ leashed L T d.
Proof.
  intros (T0 & cs & Hr). destruct (runs_steps _ _ _ _ _ _ Hr empty_inv) as (ls & Hs & Ht).
  split; [by eapply steps_inv, Hs; apply empty_inv|].
  eapply steps_leashed; [done|apply empty_leashed|done].
Qed.

Lemma active_unique d i i' a a' :
  Inv d → attempts d !! i = Some a → attempts d !! i' = Some a' → at_job a = at_job a' →
  active (at_state a) = true → active (at_state a') = true → i = i'.
Proof.
  intros HI Ha Ha' Hj H1 H2. eapply (inv_number _ HI); [done..|].
  pose proof (inv_latest _ HI _ _ _ _ Ha Ha' Hj H1).
  pose proof (inv_latest _ HI _ _ _ _ Ha' Ha (eq_sym Hj) H2). lia.
Qed.

(** C4. In every state the store reaches, job and attempt states agree, a job has at most one
    active attempt and it is the latest, a job in progress has one, attempt numbers stay within
    the budget (with room left while the job is queued), no worker holds more than its capacity,
    keys are unique, and no lease reaches further than [LeaseSeconds] from now. *)
Theorem store_invariant L T d : reached L T d → Inv d ∧ leashed L T d.
Proof. apply reached_inv. Qed.

(** The attempt [i] and the others of its job, at a time before [X], to which its lease reached. *)
Definition reserved (i : string) (a : AttemptRow) (X : Z) (d : db) : Prop :=
  ∃ a', attempts d !! i = Some a' ∧ at_job a' = at_job a ∧ at_worker a' = at_worker a ∧
    at_token a' = at_token a ∧
    (active (at_state a') = true ∧ X ≤ at_expires a' ∨
     at_state a' = ASucceeded ∨ at_state a' = AFailed ∨ at_state a' = ACancelled) ∧
    ∀ i' b, attempts d !! i' = Some b → at_job b = at_job a → active (at_state b) = true →
      i' = i ∨ at_state a' = AFailed.

Lemma runs_reserved L T d cs T' d' i a X :
  reached L T d → attempts d !! i = Some a → active (at_state a) = true → X ≤ at_expires a →
  runs L T d cs T' d' → T' < X → reserved i a X d'.
Proof.
  intros [HI Hl]%reached_inv Ha Hact HXa Hr HX.
  destruct (runs_steps _ _ _ _ _ _ Hr HI) as (ls & Hs & Ht).
  assert (held i a X d') as (a' & Ha' & Hj & Hn & Hw & Htok & Hst).
  { eapply (steps_held L T ls T'); try done. exists a. split_and!; try done. by left. }
  exists a'. split_and!; [done..|]. pose proof (steps_inv _ _ _ _ HI Hs) as HI'.
  intros i' b Hb Hjb Hactb. destruct Hst as [[Hact' _]|Hst].
  { left. eapply (active_unique d' i' i b a'); [done|done|done|congruence|done|done]. }
  destruct (inv_attempt _ HI' _ _ Ha') as (_ & _ & j & Hjob & _ & _ & Hagree).
  destruct (inv_attempt _ HI' _ _ Hb) as (_ & _ & j2 & Hjob2 & _ & _ & Hagree2).
  rewrite Hjb, <- Hj, Hjob in Hjob2. injection Hjob2 as <-.
  pose proof (agrees_active _ _ Hactb Hagree2) as Hp.
  right. destruct Hst as [Hs1|[Hs1|Hs1]]; [| |]; rewrite Hs1 in Hagree; simpl in Hagree;
    [apply bool_decide_eq_true in Hagree|done|apply bool_decide_eq_true in Hagree];
    by rewrite Hagree in Hp.
Qed.

(** C6. Until the expiry time of a lease has come, whatever calls the store gets: the attempt stays
    active and its lease is not shortened, unless its worker reported its end or the job was
    cancelled; and no other attempt of the job becomes active unless this one was reported
    failed. *)
Theorem lease_exclusive L T d cs T' d' i a :
  reached L T d → attempts d !! i = Some a → active (at_state a) = true →
  runs L T d cs T' d' → T' < at_expires a → reserved i a (at_expires a) d'.
Proof. intros. by eapply runs_reserved. Qed.

(** ** Final states *)
Lemma step_job L d l d' k j :
  step L d l d' → Inv d → jobs d !! k = Some j →
  ∃ j', jobs d' !! k = Some j' ∧ Definition_ j' = Definition_ j ∧ ID j' = ID j ∧
        (State j = SUCCEEDED ∨ State j = CANCELLED → State j' = State j).
Proof.
  intros Hs HI Hj.
  assert (∀ job st max t, (job = k → State j ≠ SUCCEEDED ∧ State j ≠ CANCELLED ∨ st = State j) →
    ∃ j', alter (λ j, job_set st (max j) t j) job (jobs d) !! k = Some j' ∧
      Definition_ j' = Definition_ j ∧ ID j' = ID j ∧
      (State j = SUCCEEDED ∨ State j = CANCELLED → State j' = State j)) as Halter.
  { intros job st max t Hst. rewrite lookup_alter_row, Hj. eexists. split; [done|]. unfold at_row.
    destruct (decide _) as [->|]; simpl; [|done]. split_and!; [done|done|]. naive_solver. }
  assert (∀ i b, attempts d !! i = Some b → active (at_state b) = true → at_job b = k →
    State j ≠ SUCCEEDED ∧ State j ≠ CANCELLED) as Hactive.
  { intros i b Hb Hact <-. destruct (inv_attempt _ HI _ _ Hb) as (_ & _ & j2 & Hj2 & _ & _ & Hag).
    assert (j2 = j) as -> by congruence. pose proof (agrees_active _ _ Hact Hag) as Hp.
    by split; intros Heq; rewrite Heq in Hp. }
  destruct Hs; simpl; try (by eauto); try (apply Halter; intros <-).
  - exists j. rewrite lookup_insert_ne by congruence. done.
  - left. assert (j0 = j) as -> by congruence. by rewrite H0.
  - left. eapply Hactive; [done| |done]. by rewrite H0.
  - left. eapply Hactive; [done| |done]. by rewrite H0.
  - assert (j0 = j) as -> by congruence. left.
    destruct H0 as [Heq|Heq]; [by rewrite Heq|]. by destruct (State j).
  - assert (j0 = j) as -> by congruence. by right.
  - assert (j0 = j) as -> by congruence. left. by rewrite H0.
Qed.

Lemma steps_job L d ls d' k j :
  steps L d ls d' → Inv d → jobs d !! k = Some j →
  ∃ j', jobs d' !! k = Some j' ∧ Definition_ j' = Definition_ j ∧ ID j' = ID j ∧
        (State j = SUCCEEDED ∨ State j = CANCELLED → State j' = State j).
Proof.
  intros Hs. revert j. induction Hs as [|d l d1 ls d2 Hs Hss IH]; intros j HI Hj; [by eauto|].
  destruct (step_job _ _ _ _ _ _ Hs HI Hj) as (j1 & Hj1 & Hd1 & Hi1 & Hs1).
  destruct (IH j1) as (j2 & Hj2 & Hd2 & Hi2 & Hs2); [by eapply step_inv|done|].
  exists j2. split_and!; [done|congruence|congruence|]. intros H. rewrite Hs2; [by apply Hs1|].
  rewrite Hs1 by done. done.
Qed.

Lemma steps_ended L d ls d' i a :
  steps L d ls d' → attempts d !! i = Some a → active (at_state a) = false → attempts d' !! i = Some a.
Proof.
  induction 1 as [|d l d1 ls d2 Hs Hss IH]; intros Ha Hact; [done|].
  destruct (step_attempt _ _ _ _ _ _ Hs Ha) as (a' & Ha' & _ & Hina & _).
  apply IH; [|done]. rewrite Ha'. f_equal. by apply Hina.
Qed.

(** Final states are final: a job keeps its definition for ever, a job that succeeded or was
    cancelled stays so, and the row of an ended attempt never changes again. *)
Theorem final_states_are_final L T d cs T' d' :
  reached L T d → runs L T d cs T' d' →
  (∀ k j, jobs d !! k = Some j →
     ∃ j', jobs d' !! k = Some j' ∧ Definition_ j' = Definition_ j ∧
           (State j = SUCCEEDED ∨ State j = CANCELLED → State j' = State j)) ∧
  (∀ i a, attempts d !! i = Some a → active (at_state a) = false → attempts d' !! i = Some a).
Proof.
  intros [HI _]%reached_inv Hr. destruct (runs_steps _ _ _ _ _ _ Hr HI) as (ls & Hs & _). split.
  - intros k j Hj. destruct (steps_job _ _ _ _ _ _ Hs HI Hj) as (j' & ? & ? & _ & ?). eauto.
  - intros i a. by eapply steps_ended.
Qed.

(** ** Receipts *)
(** A transaction that leaves the receipts alone. *)
Definition unreceipted {A} (t : Tx A) : Prop :=
  ∀ e n d a n' d', t e n d = inr (a, n', d') → requests d' = requests d.

Lemma unreceipted_bind {A B} (p : Tx A) (f : A → Tx B) :
  unreceipted p → (∀ a, unreceipted (f a)) → unreceipted (p ≫= f).
Proof.
  intros Hp Hf e n d b n' d' (a & n1 & d1 & H1 & H2)%bind_inr.
  rewrite (Hf _ _ _ _ _ _ _ H2). by eapply Hp.
Qed.
Lemma unreceipted_modify f : (∀ d, requests (f d) = requests d) → unreceipted (modify f).
Proof. by intros Hf e n d ??? [= <- <- <-]. Qed.
Ltac unreceipted :=
  repeat match goal with
  | |- unreceipted (_ ≫= _) => apply unreceipted_bind; [|intros ?]
  | |- unreceipted (match ?x with _ => _ end) => destruct x
  | |- unreceipted (if ?x then _ else _) => destruct x
  | |- unreceipted (let '(_, _) := ?x in _) => destruct x
  | |- unreceipted (modify _) => by apply unreceipted_modify
  | |- unreceipted (guard _ _) => by intros ?????? (_ & _ & ->)%guard_inr
  | |- unreceipted (must _ _) => by intros ?????? (_ & _ & ->)%must_inr
  | |- unreceipted (throw _) => by intros ??????
  | |- unreceipted (mret _) => by intros ?????? [= <- <- <-]
  | |- unreceipted (read _) => by intros ?????? [= <- <- <-]
  | |- unreceipted clock_timestamp => by intros ?????? [= <- <- <-]
  | |- unreceipted fresh_id => by intros ?????? [= <- <- <-]
  | |- unreceipted (is_locked _) => by intros ?????? [= <- <- <-]
  | |- unreceipted (λ e n d, inr _) => by intros ?????? [= <- <- <-]
  end; eauto.

Lemma unreceipted_event j a k p : unreceipted (event j a k p).
Proof. unfold event. unreceipted. Qed.
Lemma unreceipted_set_state j st : unreceipted (set_state j st).
Proof. unfold set_state. unreceipted. Qed.
#[local] Hint Resolve unreceipted_event unreceipted_set_state : core.

Lemma unreceipted_Submit js : unreceipted (Submit js).
Proof.
  assert (∀ j, unreceipted (submit_one j)).
  { intros j. unfold submit_one, insert_job. unreceipted. }
  assert (∀ js, unreceipted (submit_all js)).
  { clear js. intros js. induction js; cbn [submit_all]; unreceipted. }
  unfold Submit. unreceipted.
Qed.

Lemma unreceipted_act id action rid : unreceipted (act id action rid).
Proof. unfold act, update_job. unreceipted. Qed.

Lemma unreceipted_store_artifacts j i l : unreceipted (store_artifacts j i l).
Proof.
  assert (∀ a, unreceipted (store_artifact j i a)).
  { intros a. unfold store_artifact. unreceipted. }
  induction l; cbn [store_artifacts]; unreceipted.
Qed.
#[local] Hint Resolve unreceipted_store_artifacts : core.

Lemma unreceipted_attempt L m r : unreceipted (attempt L m r).
Proof.
  unfold attempt, locked_attempt, renew, start, report, finish_attempt, attempt_event. unreceipted.
Qed.
Lemma unreceipted_lease L r cap : unreceipted (lease L r cap).
Proof. unfold lease, insert_attempt. unreceipted. Qed.
#[local] Hint Resolve unreceipted_attempt unreceipted_lease : core.

Lemma unreceipted_register r : unreceipted (register r).
Proof. unfold register. unreceipted. Qed.
Lemma unreceipted_dispatch L m r : unreceipted (dispatch L m r).
Proof. unfold dispatch, serve. unreceipted. Qed.
#[local] Hint Resolve unreceipted_register unreceipted_dispatch unreceipted_act : core.

Lemma unreceipted_Reap : unreceipted Reap.
Proof.
  assert (∀ js, unreceipted (select_expired js)).
  { intros js. induction js; cbn [select_expired]; unreceipted. }
  assert (∀ id, unreceipted (reap_one id)).
  { intros id. unfold reap_one. unreceipted. }
  assert (∀ ids, unreceipted (reap_all ids)).
  { intros ids. induction ids; cbn [reap_all]; unreceipted. }
  unfold Reap. unreceipted.
Qed.

Definition hash_of (payload : json) : string := sha256_hex (Marshal payload).

(** A request that was not answered before. *)
Definition unanswered (d : db) (k : string * string) : Prop := ∀ h r, requests d !! k ≠ Some (h, Some r).

Lemma Mutate_inr scope id payload fn e n d resp n' d' :
  Mutate scope id payload fn e n d = inr (resp, n', d') →
  (requests d !! (scope, id) = Some (hash_of payload, Some resp) ∧ d' = d) ∨
  unanswered d (scope, id) ∧
  ∃ d0 d1, same_core d d0 ∧ artifacts d0 = artifacts d ∧
    (∀ k, k ≠ (scope, id) → requests d0 !! k = requests d !! k) ∧
    fn e n d0 = inr (resp, n', d1) ∧
    d' = set_request (scope, id) (hash_of payload, Some resp) d1.
Proof.
  intros H. unfold Mutate in H. tx_step H. tx_step H. tx_step H.
  destruct (requests d !! (scope, id)) as [[old [r|]]|] eqn:Hr.
  - tx H. apply String.eqb_eq in Hg1 as ->. by left.
  - tx_step H. apply String.eqb_eq in Hg1 as ->. unfold with_receipt in H. tx_step H. tx H.
    right. split; [by intros h r; rewrite Hr|]. exists d, d0. split_and!; done.
  - tx_step H. unfold with_receipt in H. tx_step H. tx H.
    right. split; [by intros h r; rewrite Hr|].
    eexists (set_request _ _ d), d0. split_and!; try done. intros k Hk. simpl.
    by rewrite lookup_insert_ne.
Qed.

Lemma Mutate_replay scope id payload fn e n d resp :
  nonempty id && (len id <=? 256) = true → text_ok scope && text_ok id = true →
  requests d !! (scope, id) = Some (hash_of payload, Some resp) →
  Mutate scope id payload fn e n d = inr (resp, n, d).
Proof.
  intros H1 H2 Hr. unfold Mutate, mbind, tx_bind, guard, read. rewrite H1, H2, Hr.
  by rewrite String.eqb_refl.
Qed.

Lemma Mutate_valid scope id payload fn e n d x :
  Mutate scope id payload fn e n d = inr x →
  nonempty id && (len id <=? 256) = true ∧ text_ok scope && text_ok id = true.
Proof. destruct x as [[a n'] d']. intros H. unfold Mutate in H. tx_step H. by tx_step H. Qed.

Lemma Mutate_keeps scope id payload fn e n d resp n' d' k v :
  unreceipted fn → Mutate scope id payload fn e n d = inr (resp, n', d') →
  requests d !! k = Some (v.1, Some v.2) → requests d' !! k = Some (v.1, Some v.2).
Proof.
  intros Hfn [[_ ->]|(Hun & d0 & d1 & _ & _ & Hk & Hrun & ->)]%Mutate_inr Hv; [done|].
  assert (k ≠ (scope, id)) by (intros ->; by apply Hun in Hv). simpl.
  rewrite lookup_insert_ne by done. rewrite (Hfn _ _ _ _ _ _ Hrun). by rewrite Hk.
Qed.

Lemma RPC_inr L m r e n d x :
  RPC L m r e n d = inr x →
  nonempty (WorkerID r) && nonempty (SessionID r) && (len (WorkerID r) <=? 256) &&
    (len (SessionID r) <=? 256) = true ∧
  Mutate ("rpc:" +:+ method_name m +:+ ":" +:+ WorkerID r) (RequestID r) (request_json r)
    (match m with RegisterWorker => register r | _ => dispatch L m r end) e n d = inr x.
Proof. destruct x as [[a n'] d']. intros H. unfold RPC in H. by tx_step H. Qed.

Lemma RPC_run L m r e n d :
  nonempty (WorkerID r) && nonempty (SessionID r) && (len (WorkerID r) <=? 256) &&
    (len (SessionID r) <=? 256) = true →
  RPC L m r e n d =
  Mutate ("rpc:" +:+ method_name m +:+ ":" +:+ WorkerID r) (RequestID r) (request_json r)
    (match m with RegisterWorker => register r | _ => dispatch L m r end) e n d.
Proof. intros H. unfold RPC, mbind at 1, tx_bind at 1, guard at 1. by rewrite H. Qed.

(** A receipt stays for ever. *)
Lemma after_keeps L c d k h r :
  requests d !! k = Some (h, Some r) → requests (after L c d) !! k = Some (h, Some r).
Proof.
  intros Hv. unfold after, transact.
  destruct (perform L (c_op c) (c_env c) 0%nat d) as [x|[[a n] d']] eqn:Hp; simpl; [done|].
  destruct (c_op c) as [js|id action rid|m q|]; cbn [perform] in Hp; tx_step Hp; tx Hp.
  - by rewrite (unreceipted_Submit _ _ _ _ _ _ _ Hp0).
  - eapply (Mutate_keeps _ _ _ _ _ _ _ _ _ _ k (h, r)); [|exact Hp0|done]. apply unreceipted_act.
  - apply RPC_inr in Hp0 as [_ Hp0].
    eapply (Mutate_keeps _ _ _ _ _ _ _ _ _ _ k (h, r)); [|exact Hp0|done].
    destruct m; auto.
  - by rewrite (unreceipted_Reap _ _ _ _ _ _ Hp0).
Qed.

Lemma runs_keeps L T d cs T' d' k h r :
  runs L T d cs T' d' → requests d !! k = Some (h, Some r) → requests d' !! k = Some (h, Some r).
Proof. induction 1; [done|]. intros. by apply IHruns, after_keeps. Qed.

Definition is_mutation (o : operation) : bool :=
  match o with OpAction _ _ _ | OpRpc _ _ => true | _ => false end.

Lemma Mutate_receipt scope id payload fn e n d resp n' d' :
  Mutate scope id payload fn e n d = inr (resp, n', d') →
  requests d' !! (scope, id) = Some (hash_of payload, Some resp).
Proof.
  intros [[? ->]|(_ & d0 & d1 & _ & _ & _ & _ & ->)]%Mutate_inr; [done|].
  simpl. by rewrite lookup_insert_eq.
Qed.

Lemma mutation_replayed L c c' d a T cs T' d' :
  is_mutation (c_op c) = true → result_of L c d = inr a → runs L T (after L c d) cs T' d' →
  c_op c' = c_op c → result_of L c' d' = inr a ∧ after L c' d' = d'.
Proof.
  unfold result_of, after, transact. intros Hm Hres Hr Hop. rewrite Hop.
  destruct (perform L (c_op c) (c_env c) 0%nat d) as [x|[[a' n'] d1]] eqn:Hp; simpl in *; [done|].
  injection Hres as ->. destruct (c_op c) as [js|id action rid|m q|]; try done;
    cbn [perform] in *; tx_step Hp; tx Hp.
  - pose proof (runs_keeps _ _ _ _ _ _ _ _ _ Hr (Mutate_receipt _ _ _ _ _ _ _ _ _ _ Hp0)) as Hk.
    apply Mutate_valid in Hp0 as [H1 H2]. unfold mbind, tx_bind, Action.
    by rewrite (Mutate_replay _ _ _ _ _ _ _ _ H1 H2 Hk).
  - apply RPC_inr in Hp0 as [Hv Hp0].
    pose proof (runs_keeps _ _ _ _ _ _ _ _ _ Hr (Mutate_receipt _ _ _ _ _ _ _ _ _ _ Hp0)) as Hk.
    apply Mutate_valid in Hp0 as [H1 H2]. unfold mbind, tx_bind.
    by rewrite RPC_run, (Mutate_replay _ _ _ _ _ _ _ _ H1 H2 Hk).
Qed.

(** C11. A mutation takes effect at most once: when the same request (same identifier, same
    payload) is sent again, after whatever else happened, it gets the answer it got and the
    tables are left as they are. *)
Theorem mutation_takes_effect_once L c c' d a T cs T' d' :
  is_mutation (c_op c) = true → result_of L c d = inr a → runs L T (after L c d) cs T' d' →
  c_op c' = c_op c → result_of L c' d' = inr a ∧ after L c' d' = d'.
Proof. apply mutation_replayed. Qed.

(** ** Fencing *)
Definition is_attempt_method (m : method) : bool :=
  match m with
  | StartAttempt | Heartbeat | ReportProgress | CompleteAttempt | FailAttempt => true
  | _ => false
  end.

Lemma serve_attempt L m r w :
  is_attempt_method m = true → nonempty (AttemptID r) = true → serve L m r w = attempt L m r.
Proof. intros Hm Hid. destruct m; try done. simpl. by rewrite Hid. Qed.

(** What the store checked of a request about an attempt that it accepted. *)
Definition authorised (d : db) (e : env) (r : Request) : Prop :=
  ∃ w a j k, workers d !! WorkerID r = Some w ∧ wk_session w = SessionID r ∧
    attempts d !! lower (AttemptID r) = Some a ∧ jobs d !! at_job a = Some j ∧
    at_worker a = WorkerID r ∧ at_token a = LeaseToken r ∧ active (at_state a) = true ∧
    in_progress (State j) = true ∧ now e k < at_expires a ∧ now e (S k) < at_deadline a.

Lemma rpc_scope_unanswered L m r e d resp n d' :
  unanswered d ("rpc:" +:+ method_name m +:+ ":" +:+ WorkerID r, RequestID r) →
  RPC L m r e 0%nat d = inr (resp, n, d') →
  ∃ d0 d1, same_core d d0 ∧ artifacts d0 = artifacts d ∧
    (match m with RegisterWorker => register r | _ => dispatch L m r end) e 0%nat d0
    = inr (resp, n, d1) ∧ same_core d1 d'.
Proof.
  intros Hun [_ [[Hr _]|(_ & d0 & d2 & Hc & Hart & _ & Hrun & ->)]%Mutate_inr]%RPC_inr.
  - by apply Hun in Hr.
  - by exists d0, d2.
Qed.

Lemma attempt_authorised L m r e d resp n d' :
  is_attempt_method m = true → nonempty (AttemptID r) = true →
  unanswered d ("rpc:" +:+ method_name m +:+ ":" +:+ WorkerID r, RequestID r) →
  RPC L m r e 0%nat d = inr (resp, n, d') → authorised d e r.
Proof.
  intros Hm Hid Hun Hrpc.
  destruct (rpc_scope_unanswered _ _ _ _ _ _ _ _ Hun Hrpc) as (d0 & d1 & (Hj & Ha & Hw) & _ & Hrun & _).
  replace (match m with RegisterWorker => register r | _ => dispatch L m r end)
    with (dispatch L m r) in Hrun by (by destruct m).
  apply dispatch_inr in Hrun as (w & Hwk & Hsess & Hatt). rewrite serve_attempt in Hatt by done.
  apply attempt_inr in Hatt as (j & a & Hf & _). exists w, a, j, 1%nat.
  destruct Hf as [F1 F2 F3 F4 F5 F6 [F7 F8]]. simpl in *. rewrite Hw in Hwk. rewrite Ha in F1.
  rewrite Hj in F2. done.
Qed.

(** A request about an attempt that was not answered before is accepted only with the session
    and the token of the worker that holds the attempt, while the attempt is active and its
    lease and deadline are in the future; any other is refused and changes nothing. *)
Theorem attempt_mutation_fenced L m r e d :
  is_attempt_method m = true → nonempty (AttemptID r) = true →
  unanswered d ("rpc:" +:+ method_name m +:+ ":" +:+ WorkerID r, RequestID r) →
  (∃ x, transact (RPC L m r) e d = (inl x, d)) ∨ authorised d e r.
Proof.
  intros Hm Hid Hun. unfold transact.
  destruct (RPC L m r e 0%nat d) as [x|[[resp n'] d1]] eqn:Hrpc; [by eauto|].
  right. by eapply attempt_authorised.
Qed.

(** C12. A worker that lost its attempt can no longer change anything: once the attempt has ended
    (expired, cancelled or reported), every new request about it, whatever its token, is refused
    and changes nothing, in every later state. *)
Theorem stale_worker_refused L T d cs T' d' i a m r e :
  reached L T d → attempts d !! i = Some a → active (at_state a) = false → runs L T d cs T' d' →
  is_attempt_method m = true → nonempty (AttemptID r) = true → lower (AttemptID r) = i →
  unanswered d' ("rpc:" +:+ method_name m +:+ ":" +:+ WorkerID r, RequestID r) →
  ∃ x, transact (RPC L m r) e d' = (inl x, d').
Proof.
  intros [HI _]%reached_inv Ha Hact Hr Hm Hid <- Hun.
  destruct (runs_steps _ _ _ _ _ _ Hr HI) as (ls & Hs & _).
  pose proof (steps_ended _ _ _ _ _ _ Hs Ha Hact) as Ha'. unfold transact.
  destruct (RPC L m r e 0%nat d') as [x|[[resp n'] d1]] eqn:Hrpc; [by eauto|]. exfalso.
  eapply attempt_authorised in Hrpc as (w & b & j & k & _ & _ & Hb & _ & _ & _ & Hactb & _); [|done..].
  congruence.
Qed.

(** ** Leases *)
Lemma older_trans a b c : older a b = true → older b c = true → older a c = true.
Proof.
  unfold older. rewrite !orb_true_iff, !andb_true_iff, !Z.ltb_lt, !Z.eqb_eq.
  intros [?|[? H1]] [?|[? H2]]; [lia..|]. right. split; [lia|].
  assert (String.le (ID a) (ID c)) as Hle%Is_true_eq_true by (etrans; by apply Is_true_eq_left). done.
Qed.

Lemma older_total a b : older a b = false → older b a = true.
Proof.
  unfold older. rewrite orb_false_iff, andb_false_iff, orb_true_iff, andb_true_iff, Z.ltb_ge, Z.ltb_lt,
    Z.eqb_eq, Z.eqb_neq. intros [? [?|Hab]]; [lia|].
  destruct (String.leb_total (ID b) (ID a)); [|congruence].
  destruct (decide (CreatedAt b < CreatedAt a)); [by left|right; split; [lia|done]].
Qed.

Lemma older_refl a : older a a = true.
Proof. destruct (older a a) eqn:E; [done|]. by rewrite (older_total _ _ E) in E. Qed.

Lemma oldest_older l j k : oldest l = Some j → k ∈ l → older j k = true.
Proof.
  revert j. induction l as [|x l IH]; intros j; simpl; [done|].
  destruct (oldest l) as [y|] eqn:Hy.
  - intros [= <-] [->|Hk]%elem_of_cons.
    + destruct (older x y) eqn:E; [apply older_refl|by apply older_total].
    + destruct (older x y) eqn:E; [|by apply IH]. eapply older_trans; [exact E|by apply IH].
  - intros [= <-] [->|Hk]%elem_of_cons; [apply older_refl|].
    destruct l as [|z l]; [by apply not_elem_of_nil in Hk|]. simpl in Hy. by destruct (oldest l).
Qed.

(** What a worker has left. *)
Definition free_of (d : db) (w : string) (cap : Resources) : Resources :=
  MkResources (CPU cap - usage CPU d w) (MemoryMB cap - usage MemoryMB d w) (GPU cap - usage GPU d w).

Lemma queue_head_none free skip d k j :
  queue_head free skip d = None → jobs d !! k = Some j → leasable free skip j = false.
Proof.
  unfold queue_head. intros Hn Hj. apply not_true_is_false. intros Hl.
  assert (j ∈ List.filter (leasable free skip) (map_to_list (jobs d)).*2) as Hin.
  { apply list_elem_of_In, List.filter_In. split; [|done]. apply list_elem_of_In, list_elem_of_fmap.
    exists (k, j). by rewrite elem_of_map_to_list. }
  destruct (List.filter _ _) as [|x l]; [by apply not_elem_of_nil in Hin|]. simpl in Hn.
  by destruct (oldest l).
Qed.

Lemma queue_head_oldest free skip d j k j' :
  queue_head free skip d = Some j → jobs d !! k = Some j' → leasable free skip j' = true →
  older j j' = true.
Proof.
  intros Hh Hj' Hl. eapply oldest_older; [exact Hh|]. apply list_elem_of_In, List.filter_In.
  split; [|done]. apply list_elem_of_In, list_elem_of_fmap. exists (k, j').
  by rewrite elem_of_map_to_list.
Qed.

(** What [LeaseJob] promises about its answer. *)
Definition lease_answer (L : Z) (d d' : db) (e : env) (r : Request) (cap : Resources)
    (resp : response) : Prop :=
  let fits := leasable (free_of d (WorkerID r) cap) (locked e) in
  match resp with
  | Idle => jobs d' = jobs d ∧ ∀ k j, jobs d !! k = Some j → fits j = false
  | Leased l =>
      ∃ j a, jobs d !! ID j = Some j ∧ fits j = true ∧
        (∀ k j', jobs d !! k = Some j' → fits j' = true → older j j' = true) ∧
        attempts d' !! l_attempt l = Some a ∧ at_job a = ID j ∧ at_worker a = WorkerID r ∧
        at_state a = ALeased ∧ at_token a = l_token l ∧ at_expires a = l_expires l ∧
        at_number a = l_number l ∧ l_number l = last_number d (ID j) + 1 ∧
        ID (l_job l) = ID j ∧ Definition_ (l_job l) = Definition_ j ∧
        l_checkpoint l = latest_checkpoint d (ID j) ∧
        l_expires l - l_server l ≤ sec (Z.min L (TimeoutSeconds (Definition_ j)))
  | _ => False
  end.

Lemma lease_answers L r cap e n d resp n' d' :
  ticking e → Inv d → lease L r cap e n d = inr (resp, n', d') → lease_answer L d d' e r cap resp.
Proof.
  intros He HI H. unfold lease in H. tx_step H.
  apply bind_inr in H as (head & n1 & d1 & Hhead & H). injection Hhead as <- <- <-.
  fold (free_of d (WorkerID r) cap) in H.
  destruct (queue_head _ _ d) as [j|] eqn:Hj.
  2: { tx H. split; [done|]. intros k j' Hj'. by eapply queue_head_none. }
  apply queue_head_spec in Hj as Hj'. destruct Hj' as [Hl [k Hk]].
  destruct (inv_job _ HI _ _ Hk) as (<- & _ & _).
  tx_step H. tx_step H. apply bind_inr in H as (l & n2 & d2 & Hins & H).
  unfold insert_attempt in Hins. tx_step Hins. tx_step Hins. tx_step Hins. tx_step Hins.
  cbv zeta in Hins. tx Hins.
  tx_step H. apply bind_inr in H as (u & n3 & d3 & Hset & H). apply set_state_inr in Hset as [-> ->].
  tx_step H. apply bind_inr in H as (u' & n4 & d4 & Hev & H). tx H.
  apply quiet_event in Hev as [_ (Hj4 & Ha4 & _)].
  eexists j, _. rewrite Ha4. simpl. rewrite lookup_insert_eq. split_and!; try done.
  - intros k' j' Hk' Hf. by eapply queue_head_oldest.
  - assert (now e (S (S n)) ≤ now e (S (S (S (S (S n)))))) by (apply ticking_le; [done|lia]). lia.
Qed.

Lemma lease_answer_core L d0 d d' d'' e r cap resp :
  jobs d = jobs d0 → attempts d = attempts d0 → artifacts d = artifacts d0 →
  attempts d'' = attempts d' → jobs d'' = jobs d' →
  lease_answer L d d' e r cap resp → lease_answer L d0 d'' e r cap resp.
Proof.
  intros Hj Ha Hart Ha' Hj'. unfold lease_answer, free_of, usage, last_number, latest_checkpoint.
  by rewrite Hj, Ha, Hart, Ha', Hj'.
Qed.

(** The answer of [LeaseJob]. *)
Lemma lease_serves L e d r resp d' :
  Inv d → ticking e →
  unanswered d ("rpc:" +:+ method_name LeaseJob +:+ ":" +:+ WorkerID r, RequestID r) →
  transact (RPC L LeaseJob r) e d = (inr resp, d') →
  ∃ w, workers d !! WorkerID r = Some w ∧ wk_session w = SessionID r ∧ wk_state w = ACTIVE ∧
       lease_answer L d d' e r (wk_cap w) resp.
Proof.
  intros HI He Hun H. unfold transact in H.
  destruct (RPC L LeaseJob r e 0%nat d) as [|[[resp' n'] d1]] eqn:Hrpc; [done|]. injection H as -> ->.
  destruct (rpc_scope_unanswered _ _ _ _ _ _ _ _ Hun Hrpc) as (d0 & d2 & Hc & Hart & Hrun & Hj2 & Ha2 & _).
  pose proof (step_inv L _ _ _ HI (same_core_noted L _ _ Hc)) as HI0.
  destruct Hc as (Hj & Ha & Hw). apply dispatch_inr in Hrun as (w & Hwk & Hs & Hrun).
  cbn [serve] in Hrun. tx_step Hrun. apply bool_decide_eq_true in Hg. rewrite Hw in Hwk.
  exists w. split_and!; [done..|].
  apply lease_answers in Hrun; [|done|by eapply step_inv, (step_beaten L)].
  eapply lease_answer_core; [..|exact Hrun]; done.
Qed.

(** C22. [LeaseJob] serves the queue in order: the answer is idle, and the jobs stay as they are, only
    when no job that is queued and not locked fits in what the worker has left, and otherwise the oldest such job is leased to
    the worker, with the next attempt number, the latest checkpoint of the job, and at most
    [LeaseSeconds] and the timeout of the job to go. *)
Theorem lease_takes_the_oldest L T e d r resp d' :
  reached L T d → ticking e →
  unanswered d ("rpc:" +:+ method_name LeaseJob +:+ ":" +:+ WorkerID r, RequestID r) →
  transact (RPC L LeaseJob r) e d = (inr resp, d') →
  ∃ w, workers d !! WorkerID r = Some w ∧ wk_session w = SessionID r ∧ wk_state w = ACTIVE ∧
       lease_answer L d d' e r (wk_cap w) resp.
Proof. intros [HI _]%reached_inv. by apply lease_serves. Qed.

(** ** A lease never fails *)
Lemma bind_true {A} b x (p : unit → Tx A) e n d : b = true → (guard b x ≫= p) e n d = p tt e n d.
Proof. by intros ->. Qed.

Lemma last_number_lt d k M :
  0 < M → (∀ i a, attempts d !! i = Some a → at_job a = k → at_number a < M) → last_number d k < M.
Proof.
  intros HM. unfold last_number.
  apply (map_fold_weak_ind (λ b m, (∀ i a, m !! i = Some a → at_job a = k → at_number a < M) → b < M));
    [done|].
  intros i a m b Hi IH Hall. assert (b < M).
  { apply IH. intros i' a' Ha'. apply (Hall i'). rewrite lookup_insert_ne; [done|congruence]. }
  case_bool_decide as Hk; [|done]. specialize (Hall i a). rewrite lookup_insert_eq in Hall.
  specialize (Hall eq_refl Hk). lia.
Qed.

Lemma attempt_allowed_intro d id a :
  attempts d !! id = None →
  (∀ i' a', attempts d !! i' = Some a' → at_job a' = at_job a →
     at_number a' ≠ at_number a ∧ active (at_state a') = false) →
  attempt_allowed d id a = true.
Proof.
  intros Hid Hall. unfold attempt_allowed. rewrite andb_true_iff, bool_decide_eq_true, forallb_forall.
  split; [done|]. intros [i' a'] Hin%list_elem_of_In%elem_of_map_to_list. simpl.
  case_bool_decide as Hj; [|done]. destruct (Hall _ _ Hin Hj) as [Hn ->]. simpl.
  by rewrite (proj2 (Z.eqb_neq _ _) Hn).
Qed.

(** The constraints of the table and the check of the budget hold for the attempt of a queued job. *)
Lemma queued_allowed d j id w token x y z :
  Inv d → jobs d !! ID j = Some j → State j = QUEUED → attempts d !! id = None →
  attempt_allowed d id (MkAttemptRow (ID j) (last_number d (ID j) + 1) w ALeased token x y z
                          None None None None) = true ∧
  last_number d (ID j) + 1 ≤ MaxAttempts j.
Proof.
  intros HI Hj Hq Hid. split.
  - apply attempt_allowed_intro; [done|]. simpl. intros i' a' Ha' Hjob.
    pose proof (last_number_le _ _ _ Ha'). rewrite Hjob in *. split; [lia|].
    destruct (inv_attempt _ HI _ _ Ha') as (_ & _ & j' & Hj' & _ & _ & Hag).
    rewrite Hjob in Hj'. assert (j' = j) as -> by congruence. apply not_true_is_false. intros Hact.
    apply (agrees_active _ _ Hact) in Hag. by rewrite Hq in Hag.
  - assert (last_number d (ID j) < MaxAttempts j); [|lia]. apply last_number_lt.
    + destruct (inv_job _ HI _ _ Hj) as (_ & _ & _ & ?). lia.
    + intros i a Ha Hjob. destruct (inv_attempt _ HI _ _ Ha) as (_ & _ & j' & Hj' & _ & Hbud & _).
      rewrite Hjob in Hj'. assert (j' = j) as -> by congruence. by apply Hbud.
Qed.

Lemma lease_total L r cap e n d :
  Inv d → text_ok (WorkerID r) = true → text_ok (RequestID r) = true →
  (∀ k, attempts d !! new_id e k = None) → ∃ x, lease L r cap e n d = inr x.
Proof.
  intros HI Hw Hr Hfresh. unfold lease, mbind at 1, tx_bind at 1, read at 1.
  unfold mbind at 1, tx_bind at 1. destruct (queue_head _ _ d) as [j|] eqn:Hh; [|by eexists].
  apply queue_head_spec in Hh as [Hl [k Hk]]. unfold leasable in Hl. rewrite !andb_true_iff in Hl.
  destruct Hl as ((((Hq%bool_decide_eq_true & _) & _) & _) & _).
  destruct (inv_job _ HI _ _ Hk) as (<- & _).
  unfold mbind at 1, tx_bind at 1, fresh_id at 1. unfold mbind at 1, tx_bind at 1, fresh_id at 1.
  unfold insert_attempt, mbind, tx_bind, read, clock_timestamp, fresh_id, mret, tx_ret, modify. cbv zeta.
  destruct (queued_allowed d j (new_id e n) (WorkerID r) (new_id e (S n))
    (now e (S (S n)) + sec (Z.min L (TimeoutSeconds (Definition_ j))))
    (now e (S (S (S n))) + sec (TimeoutSeconds (Definition_ j))) (now e (S (S (S (S n))))) HI Hk Hq
    (Hfresh n)) as [Hallow Hbud].
  unfold guard. rewrite Hallow. cbn [l_number l_expires l_server].
  replace (last_number d (ID j) + 1 >? MaxAttempts j) with false by (symmetry; rewrite Z.gtb_ltb; by apply Z.ltb_ge).
  cbn [negb]. unfold set_state, event, mbind, tx_bind, clock_timestamp, modify, guard. simpl.
  rewrite Hw, Hr. simpl. by eexists.
Qed.

Lemma text_ok_app a b : text_ok a = true → text_ok b = true → text_ok (a +:+ b) = true.
Proof.
  unfold text_ok. rewrite !negb_true_iff. intros Ha Hb. induction a as [|c a IH]; [done|].
  rewrite string_cons_app. cbn [contains] in *. apply orb_false_iff in Ha as [Hc Ha].
  rewrite IH, orb_false_r by done. cbn [has_prefix NUL] in *. destruct (Ascii.eqb _ c); [|done].
  by destruct a.
Qed.

(** A fresh [LeaseJob] is answered. *)
Lemma lease_commits L e d r w :
  Inv d → workers d !! WorkerID r = Some w → wk_session w = SessionID r →
  wk_state w = ACTIVE →
  nonempty (WorkerID r) && nonempty (SessionID r) && (len (WorkerID r) <=? 256) &&
    (len (SessionID r) <=? 256) = true →
  nonempty (RequestID r) && (len (RequestID r) <=? 256) = true →
  text_ok (WorkerID r) = true → text_ok (RequestID r) = true →
  requests d !! ("rpc:" +:+ method_name LeaseJob +:+ ":" +:+ WorkerID r, RequestID r) = None →
  (∀ k, attempts d !! new_id e k = None) →
  ∃ resp d', transact (RPC L LeaseJob r) e d = (inr resp, d').
Proof.
  intros HI Hw Hs Hst Hv Hid Htw Htr Hreq Hfresh. unfold transact.
  rewrite RPC_run by done. unfold Mutate.
  rewrite bind_true by done. cbv zeta. rewrite bind_true.
  2: { apply andb_true_intro. split; [|done]. by repeat apply text_ok_app. }
  unfold mbind at 1, tx_bind at 1, read at 1. rewrite Hreq.
  unfold mbind at 1, tx_bind at 1, modify at 1, with_receipt.
  set (d0 := set_request _ _ d).
  assert (∃ x, dispatch L LeaseJob r e 0%nat d0 = inr x) as [[[resp n'] d1] Hd].
  { unfold dispatch, mbind at 1, tx_bind at 1, read at 1. simpl workers. rewrite Hw.
    unfold mbind at 1, tx_bind at 1, must, mret, tx_ret. rewrite bind_true.
    2: { rewrite Hs. apply String.eqb_refl. }
    unfold mbind at 1, tx_bind at 1, clock_timestamp at 1. unfold mbind at 1, tx_bind at 1, modify at 1.
    cbn [serve]. rewrite bind_true by (by apply bool_decide_eq_true).
    eapply lease_total; [|done..]. eapply step_inv; [|apply (step_beaten L)].
    eapply (step_inv L); [exact HI|]. by apply same_core_noted. }
  unfold mbind, tx_bind. rewrite Hd. unfold modify, mret, tx_ret. eauto.
Qed.

(** A [LeaseJob] of a registered, active worker is never refused and never hits a constraint of
    the tables: the uniqueness of active attempts and of attempt numbers and the budget check
    cannot fail, given identifiers that are not in use. *)
Theorem lease_never_fails L T e d r w :
  reached L T d → workers d !! WorkerID r = Some w → wk_session w = SessionID r →
  wk_state w = ACTIVE →
  nonempty (WorkerID r) && nonempty (SessionID r) && (len (WorkerID r) <=? 256) &&
    (len (SessionID r) <=? 256) = true →
  nonempty (RequestID r) && (len (RequestID r) <=? 256) = true →
  text_ok (WorkerID r) = true → text_ok (RequestID r) = true →
  requests d !! ("rpc:" +:+ method_name LeaseJob +:+ ":" +:+ WorkerID r, RequestID r) = None →
  (∀ k, attempts d !! new_id e k = None) →
  ∃ resp d', transact (RPC L LeaseJob r) e d = (inr resp, d').
Proof. intros [HI _]%reached_inv. by apply lease_commits. Qed.

(** ** Submissions *)
Lemma by_key_unique d key k j :
  Inv d → jobs d !! k = Some j → IdempotencyKey (Definition_ j) = key → by_key key d = Some j.
Proof.
  intros HI Hj Hkey. destruct (by_key key d) as [j'|] eqn:Hb.
  - unfold by_key in Hb. apply fmap_Some in Hb as ([k' j2] & Hf & ->).
    apply List.find_some in Hf as [Hin%list_elem_of_In%elem_of_map_to_list Heq%String.eqb_eq].
    simpl in *. assert (k' = k) as -> by (eapply (inv_key _ HI); [done..|congruence]). congruence.
  - by destruct (by_key_none _ _ _ _ Hb Hj).
Qed.

Lemma by_key_some d key j :
  by_key key d = Some j → IdempotencyKey (Definition_ j) = key ∧ ∃ k, jobs d !! k = Some j.
Proof.
  unfold by_key. intros ([k j2] & Hf & ->)%fmap_Some.
  apply List.find_some in Hf as [Hin%list_elem_of_In%elem_of_map_to_list Heq%String.eqb_eq]. eauto.
Qed.

(** What a submitted job can be found by. *)
Definition stored (d : db) (j : Job) (id : string) : Prop :=
  text_ok (Name j) && text_ok (IdempotencyKey j) && text_ok (ArtifactPrefix j) = true ∧
  ∃ row, jobs d !! id = Some row ∧ ID row = id ∧
    IdempotencyKey (Definition_ row) = IdempotencyKey j ∧
    Marshal (job_json (Definition_ row)) = Marshal (job_json j).

Lemma stored_steps L d ls d' j id : Inv d → steps L d ls d' → stored d j id → stored d' j id.
Proof.
  intros HI Hs (Ht & row & Hrow & Hid & Hkey & Hm). split; [done|].
  destruct (steps_job _ _ _ _ _ _ Hs HI Hrow) as (row' & Hrow' & Hd & Hi & _).
  exists row'. rewrite Hd. split_and!; [done|congruence|done|done].
Qed.

Lemma submit_one_stored j e n d row n' d' :
  ticking e → Inv d → Validate j = true → submit_one j e n d = inr (row, n', d') →
  Inv d' ∧ stored d' j (ID row).
Proof.
  intros He HI Hv H. assert (Inv d') as HI'.
  { eapply evolves_inv; [exact HI|]. eapply (submit_one_refines 0); eauto. }
  split; [done|]. unfold submit_one in H. tx_step H. apply bind_inr in H as (ins & n1 & d1 & Hins & H).
  assert (text_ok (Name j) && text_ok (IdempotencyKey j) && text_ok (ArtifactPrefix j) = true) as Ht.
  { unfold insert_job in Hins. by tx_step Hins. }
  tx_step H. tx_step H. tx_step H. apply String.eqb_eq in Hg. apply by_key_some in Hm as [Hkey [k Hk]].
  assert (jobs d' = jobs d1 ∧ row = a) as [Hj ->].
  { apply bind_inr in H as (u & n2 & d2 & Hev & H). tx H. split; [|done]. destruct ins; [|by tx Hev].
    by apply quiet_event in Hev as [_ (? & _)]. }
  split; [done|]. exists a. rewrite Hj. rewrite <- Hj in Hk.
  destruct (inv_job _ HI' _ _ Hk) as (Hid & _). rewrite Hj in Hk. rewrite Hid. done.
Qed.

Lemma submit_all_stored js e n d rows n' d' :
  ticking e → Inv d → forallb Validate js = true → submit_all js e n d = inr (rows, n', d') →
  Inv d' ∧ Forall2 (λ j row, stored d' j (ID row)) js rows.
Proof.
  intros He. revert n d rows. induction js as [|j js IH]; intros n d rows HI Hv H; cbn [submit_all] in H.
  { tx H. by split. }
  simpl in Hv. apply andb_true_iff in Hv as [Hj Hjs].
  apply bind_inr in H as (row & n1 & d1 & H1 & H). apply bind_inr in H as (rs & n2 & d2 & H2 & H). tx H.
  apply submit_one_stored in H1 as [HI1 Hrow]; [|done..].
  pose proof (submit_all_refines 0 js Hjs _ _ _ _ _ _ He HI1 H2) as (_ & ls & Hs & _).
  apply IH in H2 as [HI2 Hrs]; [|done..]. split; [done|]. constructor; [|done].
  by apply (stored_steps 0 d1 ls).
Qed.

Lemma resubmit_one j e n d id :
  Inv d → stored d j id → ∃ row, submit_one j e n d = inr (row, S n, d) ∧ ID row = id.
Proof.
  intros HI (Ht & row & Hrow & Hid & Hkey & Hm). exists row. split; [|done].
  unfold submit_one, insert_job, mbind, tx_bind, fresh_id, guard, read. rewrite Ht.
  rewrite (by_key_unique d (IdempotencyKey j) id row) by done. unfold must, mret, tx_ret.
  cbv beta iota. rewrite (by_key_unique d (IdempotencyKey j) id row) by done. cbv beta iota.
  by rewrite Hm, String.eqb_refl.
Qed.

Lemma resubmit_all js e n d (rows : list JobRow) :
  Inv d → Forall2 (λ j row, stored d j (ID row)) js rows →
  ∃ rows' n', submit_all js e n d = inr (rows', n', d) ∧ (ID <$> rows') = (ID <$> rows).
Proof.
  intros HI Hall. revert n. induction Hall as [|j row js rows Hj Hall IH]; intros n; cbn [submit_all].
  { exists [], n. done. }
  destruct (resubmit_one j e n d (ID row) HI Hj) as (row' & H1 & Hid).
  destruct (IH (S n)) as (rows' & n' & H2 & Hids).
  exists (row' :: rows'), n'. unfold mbind, tx_bind. rewrite H1, H2. split; [done|].
  cbn. by rewrite Hid, Hids.
Qed.

(** C24. A batch of submissions is atomic and idempotent: a refused batch changes nothing; after an
    accepted one every job of the batch is in the table under its key with its definition, and
    submitting the batch again, in any later state, returns the same jobs and changes nothing. *)
Theorem submission_is_idempotent L T d js e e' rows d1 T1 cs T2 d2 :
  reached L T d → ticking e → transact (Submit js) e d = (inr rows, d1) → runs L T1 d1 cs T2 d2 →
  Forall2 (λ j row, stored d1 j (ID row)) js rows ∧
  ∃ rows', transact (Submit js) e' d2 = (inr rows', d2) ∧ (ID <$> rows') = (ID <$> rows).
Proof.
  intros [HI _]%reached_inv He H Hr. unfold transact in H.
  destruct (Submit js e 0%nat d) as [|[[rows1 n1] d1']] eqn:Hs; [done|]. injection H as -> ->.
  unfold Submit in Hs. tx_step Hs. tx_step Hs.
  apply submit_all_stored in Hs as [HI1 Hst]; [|done..]. split; [done|].
  destruct (runs_steps _ _ _ _ _ _ Hr HI1) as (ls & Hss & _).
  destruct (resubmit_all js e' 0%nat d2 rows) as (rows' & n' & H2 & Hids).
  { by eapply steps_inv. }
  { eapply Forall2_impl; [exact Hst|]. intros j row. by apply (stored_steps L d1 ls). }
  exists rows'. split; [|done]. unfold transact, Submit.
  rewrite bind_true by done. rewrite bind_true by done. by rewrite H2.
Qed.

(** ** A concrete run

    A job is submitted at second 1, a worker registers at second 2, leases the job at second 3
    and starts the attempt at second 4; leases are 15 s long.  Each call reads a clock that moves
    one microsecond per reading, up to 50. *)
Definition demo_id (c k : nat) : string :=
  "00000000-0000-4000-8000-0000000" +:+ pretty (10000 + 100 * N.of_nat c + N.of_nat k)%N.
Definition demo_at (c : nat) : env :=
  Env (λ k, sec (Z.of_nat c) + Z.min (Z.of_nat k) 50) (demo_id c) (λ _, false).
Definition demo_job : Job :=
  MkJob "demo" ["true"] None (MkResources 1 64 0) 3 30 "key-1" "demo".
Definition demo_request (rid attempt token : string) : Request :=
  MkRequest rid "w1" "s1" attempt token "host" (MkResources 2 4096 0) 0 EmptyString None None.
Definition demo_attempt_id : string := demo_id 3 1.
Definition demo_token : string := demo_id 3 2.

Definition demo_submit : call := Call (demo_at 1) (OpSubmit [demo_job]).
Definition demo_register : call :=
  Call (demo_at 2) (OpRpc RegisterWorker (demo_request "r1" EmptyString EmptyString)).
Definition demo_lease_request : Request := demo_request "r2" EmptyString EmptyString.
Definition demo_lease : call := Call (demo_at 3) (OpRpc LeaseJob demo_lease_request).
Definition demo_start : call :=
  Call (demo_at 4) (OpRpc StartAttempt (demo_request "r3" demo_attempt_id demo_token)).
Definition demo_reap (c : nat) : call := Call (demo_at c) OpReap.

Definition demo_queued : db := after 15 demo_register (after 15 demo_submit empty_db).
Definition demo_leased : db := after 15 demo_lease demo_queued.
Definition demo_running : db := after 15 demo_start demo_leased.
(** The reaper at second 40: the lease has expired. *)
Definition demo_expired : db := after 15 (demo_reap 40) demo_running.

Lemma demo_ticking c : ticking (demo_at c).
Proof. intros k. simpl. lia. Qed.

Lemma demo_during c o T :
  T ≤ sec (Z.of_nat c) → during T (sec (Z.of_nat c) + 50) (Call (demo_at c) o).
Proof. intros HT. split; [apply demo_ticking|]. intros k. simpl. lia. Qed.

(** One more call, at second [c]. *)
Lemma demo_next T T0 d cs c o d' :
  runs 15 T0 d cs T d' → T ≤ sec (Z.of_nat c) →
  runs 15 T0 d (cs ++ [Call (demo_at c) o]) (sec (Z.of_nat c) + 50) (after 15 (Call (demo_at c) o) d').
Proof.
  intros Hr HT. eapply runs_app; [exact Hr|].
  eapply (runs_cons 15 _ (sec (Z.of_nat c) + 50)); [lia|by apply demo_during|constructor].
Qed.

Lemma demo_queued_reached : reached 15 (sec 2 + 50) demo_queued.
Proof.
  exists 0, [demo_submit; demo_register].
  apply (demo_next (sec 1 + 50) 0 empty_db [demo_submit] 2); [|unfold sec; lia].
  apply (demo_next 0 0 empty_db [] 1); [constructor|unfold sec; lia].
Qed.

Lemma demo_reached_next T d c o :
  reached 15 T d → T ≤ sec (Z.of_nat c) →
  reached 15 (sec (Z.of_nat c) + 50) (after 15 (Call (demo_at c) o) d).
Proof. intros (T0 & cs & Hr) HT. eexists T0, _. by eapply demo_next. Qed.

Lemma demo_leased_reached : reached 15 (sec 3 + 50) demo_leased.
Proof. eapply (demo_reached_next _ _ 3); [exact demo_queued_reached|unfold sec; lia]. Qed.
Lemma demo_running_reached : reached 15 (sec 4 + 50) demo_running.
Proof. eapply (demo_reached_next _ _ 4); [exact demo_leased_reached|unfold sec; lia]. Qed.
Lemma demo_expired_reached : reached 15 (sec 40 + 50) demo_expired.
Proof. eapply (demo_reached_next _ _ 40); [exact demo_running_reached|unfold sec; lia]. Qed.

(** The row of the attempt in a state. *)
Definition demo_row (d : db) : AttemptRow :=
  default (MkAttemptRow "" 0 "" AFailed "" 0 0 0 None None None None) (attempts d !! demo_attempt_id).

Lemma demo_row_running : attempts demo_running !! demo_attempt_id = Some (demo_row demo_running).
Proof. by vm_compute. Qed.
Lemma demo_row_expired : attempts demo_expired !! demo_attempt_id = Some (demo_row demo_expired).
Proof. by vm_compute. Qed.

Lemma store_invariant_witness :
  at_state (demo_row demo_running) = ARunning ∧ Inv demo_running ∧ leashed 15 (sec 4 + 50) demo_running.
Proof.
  split; [by vm_compute|].
  apply (store_invariant 15 (sec 4 + 50) demo_running), demo_running_reached.
Defined.

Lemma store_refines_spec_witness :
  ∃ ls, steps 15 demo_queued ls demo_leased ∧ timeline (sec 3) ls (sec 3 + 50).
Proof.
  apply (store_refines_spec 15 (sec 3) (sec 3 + 50) demo_lease demo_queued).
  - lia.
  - apply (demo_during 3). unfold sec. lia.
  - apply (reached_inv _ _ _ demo_queued_reached).
Defined.

Lemma lease_exclusive_witness :
  reserved demo_attempt_id (demo_row demo_running) (at_expires (demo_row demo_running))
    (after 15 (demo_reap 10) demo_running).
Proof.
  apply (lease_exclusive 15 (sec 4 + 50) demo_running [demo_reap 10] (sec 10 + 50)).
  - exact demo_running_reached.
  - exact demo_row_running.
  - by vm_compute.
  - apply (demo_next (sec 4 + 50) (sec 4 + 50) demo_running [] 10); [constructor|unfold sec; lia].
  - by vm_compute.
Defined.

Lemma final_states_are_final_witness :
  at_state (demo_row demo_expired) = AExpired ∧
  attempts (after 15 (demo_reap 41) demo_expired) !! demo_attempt_id = Some (demo_row demo_expired).
Proof.
  split; [by vm_compute|].
  eapply (proj2 (final_states_are_final 15 (sec 40 + 50) demo_expired [demo_reap 41] (sec 41 + 50) _
    demo_expired_reached
    (demo_next (sec 40 + 50) (sec 40 + 50) demo_expired [] 41 OpReap _ (runs_nil _ _ _) ltac:(unfold sec; lia)))).
  - exact demo_row_expired.
  - by vm_compute.
Defined.

Lemma mutation_takes_effect_once_witness :
  ∃ l, result_of 15 (Call (demo_at 50) (OpRpc LeaseJob demo_lease_request)) demo_running
       = inr (Answered (Leased l)) ∧
       after 15 (Call (demo_at 50) (OpRpc LeaseJob demo_lease_request)) demo_running = demo_running.
Proof.
  assert (∃ l, result_of 15 demo_lease demo_queued = inr (Answered (Leased l))) as [l Hl].
  { eexists. vm_compute. reflexivity. }
  exists l.
  eapply (mutation_takes_effect_once 15 demo_lease _ demo_queued _ (sec 3 + 50) [demo_start] (sec 4 + 50)).
  - reflexivity.
  - exact Hl.
  - apply (demo_next (sec 3 + 50) (sec 3 + 50) demo_leased [] 4); [constructor|unfold sec; lia].
  - reflexivity.
Defined.

Lemma attempt_mutation_fenced_witness :
  let r := demo_request "r9" demo_attempt_id "00000000-0000-4000-8000-000000000000" in
  (∃ x, transact (RPC 15 Heartbeat r) (demo_at 5) demo_running = (inl x, demo_running)) ∨
  authorised demo_running (demo_at 5) r.
Proof.
  apply (attempt_mutation_fenced 15 Heartbeat).
  - reflexivity.
  - reflexivity.
  - intros h q. by vm_compute.
Defined.

Lemma stale_worker_refused_witness :
  ∃ x, transact (RPC 15 CompleteAttempt (demo_request "r9" demo_attempt_id demo_token)) (demo_at 41)
         demo_expired = (inl x, demo_expired).
Proof.
  apply (stale_worker_refused 15 (sec 40 + 50) demo_expired [] (sec 40 + 50) demo_expired
    demo_attempt_id (demo_row demo_expired)).
  - exact demo_expired_reached.
  - exact demo_row_expired.
  - by vm_compute.
  - constructor.
  - reflexivity.
  - reflexivity.
  - by vm_compute.
  - intros h q. by vm_compute.
Defined.

Lemma lease_takes_the_oldest_witness :
  ∃ l w, workers demo_queued !! "w1" = Some w ∧
         lease_answer 15 demo_queued demo_leased (demo_at 3) demo_lease_request (wk_cap w) (Leased l).
Proof.
  assert (∃ l, transact (RPC 15 LeaseJob demo_lease_request) (demo_at 3) demo_queued
               = (inr (Leased l), demo_leased)) as [l Hl].
  { eexists. vm_compute. reflexivity. }
  exists l.
  destruct (lease_takes_the_oldest 15 (sec 2 + 50) (demo_at 3) demo_queued demo_lease_request (Leased l)
    demo_leased demo_queued_reached (demo_ticking 3)) as (w & Hw & _ & _ & Hans).
  - intros h q. by vm_compute.
  - exact Hl.
  - exists w. split; [exact Hw|exact Hans].
Defined.

Lemma lease_never_fails_witness :
  ∃ resp d', transact (RPC 15 LeaseJob demo_lease_request) (demo_at 3) demo_queued = (inr resp, d').
Proof.
  destruct (workers demo_queued !! "w1") as [w|] eqn:Hw; [|by vm_compute in Hw].
  pose proof Hw as Hw'. vm_compute in Hw'.
  apply (lease_never_fails 15 (sec 2 + 50) (demo_at 3) demo_queued demo_lease_request w).
  - exact demo_queued_reached.
  - exact Hw.
  - injection Hw' as <-. reflexivity.
  - injection Hw' as <-. reflexivity.
  - reflexivity.
  - reflexivity.
  - reflexivity.
  - reflexivity.
  - by vm_compute.
  - intros k. assert (attempts demo_queued = ∅) as -> by by vm_compute. apply lookup_empty.
Defined.

Lemma submission_is_idempotent_witness :
  ∃ rows rows', transact (Submit [demo_job]) (demo_at 1) empty_db = (inr rows, after 15 demo_submit empty_db) ∧
    transact (Submit [demo_job]) (demo_at 9) demo_leased = (inr rows', demo_leased) ∧
    (ID <$> rows') = (ID <$> rows).
Proof.
  assert (∃ rows, transact (Submit [demo_job]) (demo_at 1) empty_db
                  = (inr rows, after 15 demo_submit empty_db)) as [rows Hrows].
  { eexists. vm_compute. reflexivity. }
  destruct (submission_is_idempotent 15 0 empty_db [demo_job] (demo_at 1) (demo_at 9) rows
    (after 15 demo_submit empty_db) (sec 1 + 50) [demo_register; demo_lease] (sec 3 + 50) demo_leased)
    as (_ & rows' & Hr & Hids).
  - exists 0, []. constructor.
  - apply demo_ticking.
  - exact Hrows.
  - apply (demo_next (sec 2 + 50) _ _ [demo_register] 3); [|unfold sec; lia].
    apply (demo_next (sec 1 + 50) _ _ [] 2); [constructor|unfold sec; lia].
  - exists rows, rows'. split; [exact Hrows|split; [exact Hr|exact Hids]].
Defined.
