(* ===== verification/ControlBatch.v ===== *)
(** * ControlBatch: a batch of new jobs

    What [Submit] does to the tables when none of the jobs of a batch was submitted before: it is
    accepted, every job becomes one queued row, and nothing else changes. *)
From S2P Require Import Prelude Effects PyStr Json Sha256 Wire Control ControlSpec ControlRefine ControlProps.
Import Store.
Local Open Scope string_scope.
Local Open Scope list_scope.
Local Open Scope Z_scope.

Lemma no_job_with_key d key :
  by_key key d = None ↔ ∀ k j, jobs d !! k = Some j → IdempotencyKey (Definition_ j) ≠ key.
Proof.
  split.
  - intros Hn k j Hj. by eapply by_key_none.
  - intros H. destruct (by_key key d) as [row|] eqn:Hb; [|done].
    apply by_key_some in Hb as [Hk [k Hj]]. by destruct (H k row).
Qed.

Definition texts_ok (j : Job) : bool :=
  text_ok (Name j) && text_ok (IdempotencyKey j) && text_ok (ArtifactPrefix j).
Definition acceptable (j : Job) : Prop := Validate j = true ∧ texts_ok j = true.

Definition total (f : JobRow → Z) (rows : list JobRow) : Z := foldr (λ row s, f row + s) 0 rows.

(** The rows [rows] of the jobs [js] are new in [d'], and all else is as in [d]. *)
Record queued (js : list Job) (e : env) (d d' : db) (rows : list JobRow) : Prop := {
  qd_defs : Definition_ <$> rows = js;
  qd_rows : Forall (λ row, State row = QUEUED ∧ cols row = JobResources (Definition_ row)) rows;
  qd_jobs k j : jobs d' !! k = Some j → jobs d !! k = Some j ∨ j ∈ rows ∧ ∃ m, k = new_id e m;
  qd_sum f : msum f (jobs d') = msum f (jobs d) + total f rows;
  qd_rest : attempts d' = attempts d ∧ workers d' = workers d ∧ requests d' = requests d }.

Lemma submit_one_new j e n d :
  Inv d → acceptable j → by_key (IdempotencyKey j) d = None → jobs d !! new_id e n = None →
  ∃ row d', submit_one j e n d = inr (row, S (S (S (S n))), d') ∧ jobs d' = <[new_id e n := row]> (jobs d) ∧
            queued [j] e d d' [row].
Proof.
  intros HI [Hv Ht] Hk Hf.
  set (row := MkJobRow (new_id e n) j QUEUED (JobMaxAttempts j) (now e (S n)) (now e (S (S n))) (JobResources j)).
  set (d1 := set_jobs (insert (new_id e n) row) d).
  assert (Inv d1) as HI1 by by eapply (step_inv 0), step_submitted.
  assert (by_key (IdempotencyKey j) d1 = Some row) as Hb.
  { apply (by_key_unique d1 _ (new_id e n)); [done| |done]. apply lookup_insert_eq. }
  eexists row, (add_event _ d1). split; [|split; [done|split]].
  - unfold submit_one, insert_job, mbind, tx_bind, fresh_id, guard, read. fold (texts_ok j). rewrite Ht, Hk.
    cbv beta iota. rewrite bool_decide_true by done. unfold clock_timestamp, modify, mret, tx_ret, must. cbv beta iota.
    fold row d1. rewrite Hb. unfold mret, tx_ret. cbv beta iota.
    change (Definition_ row) with j. rewrite String.eqb_refl. reflexivity.
  - done.
  - by repeat constructor.
  - intros k x. cbn. rewrite lookup_insert_Some. intros [[<- <-]|[_ Hx]]; [right|by left].
    split; [by left|eauto].
  - intros f. cbn. rewrite msum_insert by done. lia.
  - done.
Qed.

(** The identifiers drawn from the [n]-th on, for [m] jobs: not in use, and no two the same. *)
Definition unused (e : env) (n m : nat) (d : db) : Prop :=
  (∀ k, (n ≤ k < n + 4 * m)%nat → jobs d !! new_id e k = None) ∧
  ∀ k k', (n ≤ k < n + 4 * m)%nat → (n ≤ k' < n + 4 * m)%nat → new_id e k = new_id e k' → k = k'.

Lemma submit_all_new js e n d :
  ticking e → Inv d → Forall acceptable js → NoDup (IdempotencyKey <$> js) →
  Forall (λ j, by_key (IdempotencyKey j) d = None) js → unused e n (length js) d →
  ∃ rows n' d', submit_all js e n d = inr (rows, n', d') ∧ queued js e d d' rows.
Proof.
  intros He. revert n d. induction js as [|j js IH]; intros n d HI Hjs Hnd Hk Hu; cbn [submit_all].
  { exists [], n, d. split; [done|]. split; [done|constructor|by left| |done]. intros f. cbn. lia. }
  apply Forall_cons in Hjs as [Hj Hjs]. apply Forall_cons in Hk as [Hkj Hk].
  rewrite fmap_cons in Hnd. apply NoDup_cons in Hnd as [Hni Hnd]. destruct Hu as [Hf Hinj]. cbn [length] in *.
  destruct (submit_one_new j e n d HI Hj Hkj) as (row & d1 & H1 & Hj1 & [Hd Hq Hin Hsum Hrest]); [apply Hf; lia|].
  assert (Inv d1) as HI1.
  { eapply evolves_inv; [exact HI|]. destruct Hj. eapply (submit_one_refines 0 j); eauto. }
  destruct (IH (S (S (S (S n)))) d1 HI1 Hjs Hnd) as (rows & n' & d' & H2 & [Hds Hqs Hins Hsums Hrests]).
  - rewrite Forall_forall in Hk |- *. intros x Hx. apply no_job_with_key. intros k y. rewrite Hj1.
    intros [[_ <-]|[_ Hy]]%lookup_insert_Some.
    + injection Hd as ->. intros Heq. apply Hni. rewrite Heq. by apply list_elem_of_fmap_2.
    + exact (proj1 (no_job_with_key d _) (Hk x Hx) k y Hy).
  - split; [|intros k k' Hk1 Hk2 Heq; apply Hinj; [lia..|done]].
    intros k Hle. rewrite Hj1, lookup_insert_ne; [apply Hf; lia|]. intros Heq. apply Hinj in Heq; lia.
  - exists (row :: rows), n', d'. unfold mbind, tx_bind. rewrite H1, H2. split; [done|]. split.
    + rewrite fmap_cons, Hds. by injection Hd as ->.
    + by apply Forall_cons; apply Forall_cons in Hq as [? _].
    + intros k x [Hx|[Hx Hm]]%Hins; [|right; split; [by right|done]].
      apply Hin in Hx as [Hx|[Hx Hm]]; [by left|right]. apply list_elem_of_singleton in Hx as ->. split; [by left|done].
    + intros f. rewrite Hsums, Hsum. unfold total. cbn [foldr]. lia.
    + destruct Hrest as (? & ? & ?), Hrests as (? & ? & ?). split_and!; congruence.
Qed.

(** A batch of new jobs is accepted. *)
Lemma batch_accepted js e d :
  ticking e → Inv d → (1 ≤ length js ≤ 1000)%nat → Forall acceptable js → NoDup (IdempotencyKey <$> js) →
  Forall (λ j, by_key (IdempotencyKey j) d = None) js → unused e 0 (length js) d →
  ∃ rows d1, transact (Submit js) e d = (inr rows, d1) ∧ queued js e d d1 rows ∧ Inv d1 ∧
    Forall (λ row, stored d1 (Definition_ row) (ID row)) rows.
Proof.
  intros He HI Hl Hv Hnd Hk Hu.
  destruct (submit_all_new js e 0%nat d He HI Hv Hnd Hk Hu) as (rows & n' & d' & H & Hq).
  assert (forallb Validate js = true) as Hval.
  { apply forallb_forall. intros j Hj%list_elem_of_In. rewrite Forall_forall in Hv. by apply Hv. }
  exists rows, d'. destruct (submit_all_stored js e 0%nat d rows n' d' He HI Hval H) as [HI1 Hst]. split_and!; try done.
  - unfold transact, Submit. rewrite bind_true.
    + rewrite bind_true by done. by rewrite H.
    + apply andb_true_iff. rewrite !Nat.leb_le. change (N.to_nat 1000) with 1000%nat. done.
  - destruct Hq as [Hds _ _ _ _]. rewrite <- Hds in Hst. clear -Hst. rewrite Forall2_fmap_l in Hst.
    induction rows as [|row rows IH]; [constructor|]. apply Forall2_cons in Hst as [Hr Hst]. constructor; auto.
Qed.
