(* ===== verification/ControlServe.v ===== *)
(** * ControlServe: what the store does with a new request of a worker

    The other theorems say what holds when a request was accepted; here are the requests that are
    accepted, with exactly what they do to the tables: a lease of the head of the queue, the start
    of a leased attempt, and the completion of a running one. *)
From S2P Require Import Prelude Effects PyStr Json Sha256 Wire Control ControlSpec ControlRefine ControlProps.
Import Store.
Local Open Scope string_scope.
Local Open Scope list_scope.
Local Open Scope Z_scope.

(** The key of a receipt. *)
Definition receipt (m : method) (r : Request) : string * string :=
  ("rpc:" +:+ method_name m +:+ ":" +:+ WorkerID r, RequestID r).

(** A request of the worker [w] under an identifier that was not used before. *)
Record sends (m : method) (d : db) (r : Request) (w : WorkerRow) : Prop := {
  sn_worker : workers d !! WorkerID r = Some w;
  sn_session : wk_session w = SessionID r;
  sn_sender : nonempty (WorkerID r) && nonempty (SessionID r) && (len (WorkerID r) <=? 256) &&
              (len (SessionID r) <=? 256) = true;
  sn_request : nonempty (RequestID r) && (len (RequestID r) <=? 256) = true;
  sn_text : text_ok (WorkerID r) = true ∧ text_ok (RequestID r) = true;
  sn_new : requests d !! receipt m r = None }.

(** The tables at the [switch] of [RPC]. *)
Definition arrived (m : method) (r : Request) (e : env) (d : db) : db :=
  beaten (WorkerID r) (now e 0) (set_request (receipt m r) (hash_of (request_json r), None) d).

Lemma rpc_served L m r e d w resp n d1 :
  m ≠ RegisterWorker → sends m d r w → serve L m r w e 1%nat (arrived m r e d) = inr (resp, n, d1) →
  transact (RPC L m r) e d = (inr resp, set_request (receipt m r) (hash_of (request_json r), Some resp) d1).
Proof.
  intros Hm [Hw Hs Hv Hid [Htw Htr] Hreq] Hserve. unfold transact. rewrite RPC_run by done. unfold Mutate.
  rewrite bind_true by done. cbv zeta. rewrite bind_true.
  2: { apply andb_true_intro. split; [|done]. repeat apply text_ok_app; [done| |done|done]. by destruct m. }
  unfold mbind at 1, tx_bind at 1, read at 1. unfold receipt in Hreq. rewrite Hreq.
  unfold mbind at 1, tx_bind at 1, modify at 1, with_receipt.
  assert ((match m with RegisterWorker => register r | _ => dispatch L m r end) = dispatch L m r) as -> by by destruct m.
  fold (receipt m r). fold (hash_of (request_json r)).
  assert (dispatch L m r e 0%nat (set_request (receipt m r) (hash_of (request_json r), None) d) = inr (resp, n, d1)) as Hd.
  { unfold dispatch, mbind at 1, tx_bind at 1, read at 1. cbn [workers set_request]. rewrite Hw.
    unfold mbind at 1, tx_bind at 1, must, mret, tx_ret. rewrite bind_true by (rewrite Hs; apply String.eqb_refl).
    exact Hserve. }
  unfold mbind, tx_bind. by rewrite Hd.
Qed.

(** What a request changes beside jobs and attempts. *)
Definition noted_only (m : method) (r : Request) (e : env) (d d' : db) : Prop :=
  workers d' = alter (worker_beat (now e 0)) (WorkerID r) (workers d) ∧
  ∀ k, k ≠ receipt m r → requests d' !! k = requests d !! k.

Lemma noted_arrived m r e d d1 v :
  workers d1 = workers (arrived m r e d) → requests d1 = requests (arrived m r e d) →
  noted_only m r e d (set_request (receipt m r) v d1).
Proof.
  intros Hw Hr. split; [exact Hw|]. intros k Hk. cbn. rewrite Hr. cbn. by rewrite !lookup_insert_ne.
Qed.

(** ** [LeaseJob] *)
(** The attempt of a lease of [j] under the identifiers [i] and [token], and its times. *)
Definition leased_row (L : Z) (e : env) (j : JobRow) (w i token : string) (a : AttemptRow) : Prop :=
  at_job a = ID j ∧ at_worker a = w ∧ at_state a = ALeased ∧ at_token a = token ∧
  ∃ k, at_expires a = now e k + sec (Z.min L (TimeoutSeconds (Definition_ j))) ∧
       at_deadline a = now e (S k) + sec (TimeoutSeconds (Definition_ j)).

Lemma head_leased L e d r w j :
  Inv d → sends LeaseJob d r w → wk_state w = ACTIVE → (∀ k, attempts d !! new_id e k = None) →
  queue_head (free_of d (WorkerID r) (wk_cap w)) (locked e) d = Some j →
  ∃ l a t d', transact (RPC L LeaseJob r) e d = (inr (Leased l), d') ∧
    l_attempt l = new_id e 1 ∧ l_token l = new_id e 2 ∧
    leased_row L e j (WorkerID r) (l_attempt l) (l_token l) a ∧
    jobs d' = alter (λ x, job_set LEASED (MaxAttempts x) t x) (ID j) (jobs d) ∧
    attempts d' = <[l_attempt l := a]> (attempts d) ∧ noted_only LeaseJob r e d d'.
Proof.
  intros HI Hsend Hst Hfresh Hh. pose proof (sn_text _ _ _ _ Hsend) as [Htw Htr].
  pose proof (queue_head_spec _ _ _ _ Hh) as [Hl [k Hk]]. unfold leasable in Hl. rewrite !andb_true_iff in Hl.
  destruct Hl as ((((Hq%bool_decide_eq_true & _) & _) & _) & _). destruct (inv_job _ HI _ _ Hk) as (<- & _).
  set (d0 := arrived LeaseJob r e d).
  assert (queue_head (free_of d0 (WorkerID r) (wk_cap w)) (locked e) d0 = Some j) as Hh0 by exact Hh.
  destruct (queued_allowed d0 j (new_id e 1) (WorkerID r) (new_id e 2)
    (now e 3 + sec (Z.min L (TimeoutSeconds (Definition_ j)))) (now e 4 + sec (TimeoutSeconds (Definition_ j)))
    (now e 5)) as [Hallow Hbud]; [|done|done|apply Hfresh|].
  { eapply step_inv; [|apply (step_beaten L)]. eapply (step_inv L); [exact HI|]. by apply same_core_noted. }
  eassert (serve L LeaseJob r w e 1%nat d0 = inr _) as Hserve.
  { cbn [serve]. rewrite bind_true by by apply bool_decide_eq_true. unfold lease, mbind at 1, tx_bind at 1, read at 1.
    unfold mbind at 1, tx_bind at 1. fold (free_of d0 (WorkerID r) (wk_cap w)). rewrite Hh0.
    unfold mbind at 1, tx_bind at 1, fresh_id at 1. unfold mbind at 1, tx_bind at 1, fresh_id at 1.
    unfold insert_attempt, mbind, tx_bind, read, clock_timestamp, mret, tx_ret, modify. cbv zeta.
    unfold guard. rewrite Hallow. cbn [l_number l_expires l_server].
    replace (last_number d0 (ID j) + 1 >? MaxAttempts j) with false by (symmetry; rewrite Z.gtb_ltb; by apply Z.ltb_ge).
    cbn [negb]. unfold set_state, event, mbind, tx_bind, clock_timestamp, modify, guard. cbn [storable forallb fst snd andb].
    rewrite Htw, Htr. reflexivity. }
  apply rpc_served in Hserve; [|done..]. do 4 eexists. split; [exact Hserve|]. cbn [l_attempt l_token].
  split_and!; try done; try by apply noted_arrived. unfold leased_row. cbn. split_and!; try done. by exists 3%nat.
Qed.

(** ** [StartAttempt] and [CompleteAttempt] *)
(** A request about the attempt [a] of the job [j] that passes the fence. *)
Record holds (e : env) (d : db) (r : Request) (j : JobRow) (a : AttemptRow) : Prop := {
  hd_ids : idPattern (AttemptID r) && idPattern (LeaseToken r) = true;
  hd_attempt : attempts d !! lower (AttemptID r) = Some a;
  hd_job : jobs d !! at_job a = Some j;
  hd_worker : at_worker a = WorkerID r;
  hd_token : at_token a = LeaseToken r;
  hd_state : in_progress (State j) = true;
  hd_time k : now e k < at_expires a ∧ now e k < at_deadline a;
  hd_plain : Logs r = None ∧ Artifacts r = None ∧ Reason r = EmptyString ∧ ExitCode r = 0 }.

Lemma attempt_fenced L m r e n d j a :
  m ≠ Heartbeat → holds e d r j a → active (at_state a) = true →
  attempt L m r e n d =
  (match m with StartAttempt => start r j a | _ => report m r j a end;; attempt_event m r (ID j)) e (S (S n)) d.
Proof.
  intros Hm [Hids Ha Hj Hw Ht Hst Htime _] Hact. unfold attempt. rewrite bind_true by done.
  unfold mbind at 1, tx_bind at 1, read at 1. rewrite Ha. cbn [fmap option_fmap option_map].
  unfold mbind at 1, tx_bind at 1, must at 1, mret at 1, tx_ret at 1.
  unfold mbind at 1, tx_bind at 1, read at 1. rewrite Hj.
  unfold mbind at 1, tx_bind at 1, must at 1, mret at 1, tx_ret at 1.
  unfold mbind at 1, tx_bind at 1, locked_attempt, mbind at 1, tx_bind at 1, read at 1. rewrite Ha.
  unfold mbind, tx_bind, must, mret, tx_ret, clock_timestamp.
  assert (((now e n <? at_expires a) && (now e (S n) <? at_deadline a)) = true) as ->.
  { apply andb_true_iff. rewrite !Z.ltb_lt. split; apply Htime. }
  unfold guard, fence. rewrite Hw, Ht, !String.eqb_refl, Hst, Hact. by destruct m.
Qed.

Lemma holds_arrived m e d r j a : holds e d r j a → holds e (arrived m r e d) r j a.
Proof. by intros []. Qed.

Lemma start_accepted L e d r w j a :
  sends StartAttempt d r w → holds e d r j a → at_state a = ALeased →
  ∃ t t' d', transact (RPC L StartAttempt r) e d = (inr Accepted, d') ∧
    jobs d' = alter (λ x, job_set RUNNING (MaxAttempts x) t' x) (ID j) (jobs d) ∧
    attempts d' = alter (attempt_start t) (lower (AttemptID r)) (attempts d) ∧
    noted_only StartAttempt r e d d'.
Proof.
  intros Hsend Hh Hst. pose proof (sn_text _ _ _ _ Hsend) as [Htw Htr].
  pose proof (hd_plain _ _ _ _ _ Hh) as (Hlog & _ & Hre & _).
  eassert (serve L StartAttempt r w e 1%nat (arrived StartAttempt r e d) = inr _) as Hserve.
  { cbn [serve]. erewrite attempt_fenced; [|done|by apply holds_arrived|by rewrite Hst]. cbv match.
    unfold start. rewrite Hst.
    unfold attempt_event, set_state, event, mbind, tx_bind, clock_timestamp, modify, guard.
    rewrite Hlog, Hre. cbn [storable forallb slice_json fst snd andb]. rewrite Htw, Htr. reflexivity. }
  apply rpc_served in Hserve; [|done..]. do 3 eexists. split; [exact Hserve|].
  split_and!; try done. by apply noted_arrived.
Qed.

Lemma complete_accepted L e d r w j a :
  sends CompleteAttempt d r w → holds e d r j a → at_state a = ARunning →
  ∃ t t' d', transact (RPC L CompleteAttempt r) e d = (inr Accepted, d') ∧
    jobs d' = alter (λ x, job_set SUCCEEDED (MaxAttempts x) t' x) (ID j) (jobs d) ∧
    attempts d' = alter (attempt_end ASucceeded t (Some 0) EmptyString) (lower (AttemptID r)) (attempts d) ∧
    noted_only CompleteAttempt r e d d'.
Proof.
  intros Hsend Hh Hst. pose proof (sn_text _ _ _ _ Hsend) as [Htw Htr].
  pose proof (hd_plain _ _ _ _ _ Hh) as (Hlog & Hart & Hre & Hcode).
  eassert (serve L CompleteAttempt r w e 1%nat (arrived CompleteAttempt r e d) = inr _) as Hserve.
  { cbn [serve]. erewrite attempt_fenced; [|done|by apply holds_arrived|by rewrite Hst]. cbv match.
    unfold report. rewrite Hst, Hart. unfold within_limits. rewrite Hlog, Hart, Hre.
    unfold finish_attempt. rewrite Hcode, Hre.
    unfold attempt_event, set_state, event, mbind, tx_bind, clock_timestamp, modify, guard.
    cbn [default store_artifacts]. rewrite Hlog, Hre. cbn [storable forallb slice_json fst snd andb].
    rewrite Htw, Htr. reflexivity. }
  apply rpc_served in Hserve; [|done..]. do 3 eexists. split; [exact Hserve|].
  split_and!; try done. by apply noted_arrived.
Qed.

(** ** [RegisterWorker] *)
Lemma registered L e d r :
  workers d !! WorkerID r = None → requests d !! receipt RegisterWorker r = None →
  nonempty (WorkerID r) && nonempty (SessionID r) && (len (WorkerID r) <=? 256) && (len (SessionID r) <=? 256) = true →
  nonempty (RequestID r) && (len (RequestID r) <=? 256) = true →
  text_ok (WorkerID r) = true → text_ok (SessionID r) = true → text_ok (Hostname r) = true →
  text_ok (RequestID r) = true →
  Valid (RqResources r) && (1 <=? CPU (RqResources r)) && (1 <=? MemoryMB (RqResources r)) = true →
  ∃ w d', transact (RPC L RegisterWorker r) e d = (inr Registered, d') ∧
    wk_session w = SessionID r ∧ wk_cap w = RqResources r ∧ wk_state w = ACTIVE ∧
    jobs d' = jobs d ∧ attempts d' = attempts d ∧ workers d' = <[WorkerID r := w]> (workers d) ∧
    ∀ k, k ≠ receipt RegisterWorker r → requests d' !! k = requests d !! k.
Proof.
  intros Hw Hreq Hv Hid Ht1 Ht2 Ht3 Ht4 Hcap.
  eassert (transact (RPC L RegisterWorker r) e d = (inr Registered, _)) as Hrun.
  { unfold transact. rewrite RPC_run by done. unfold Mutate. rewrite bind_true by done. cbv zeta. rewrite bind_true.
    2: { apply andb_true_intro. split; [|done]. by repeat apply text_ok_app. }
    unfold mbind at 1, tx_bind at 1, read at 1. unfold receipt in Hreq. rewrite Hreq.
    unfold mbind at 1, tx_bind at 1, modify at 1, with_receipt, mbind at 1, tx_bind at 1, register.
    rewrite bind_true by done. rewrite bind_true by by rewrite Ht1, Ht2, Ht3.
    unfold mbind, tx_bind, read. cbn [workers set_request]. rewrite Hw. reflexivity. }
  eexists (MkWorkerRow (SessionID r) (Hostname r) (RqResources r) ACTIVE (now e 0) (now e 1)), _.
  split; [exact Hrun|]. cbn. split_and!; try done. intros k Hk. unfold receipt in Hk. by rewrite !lookup_insert_ne.
Qed.
