(* ===== verification/ControlReap.v ===== *)
(** * ControlReap: the reaper ends expired leases (internal/store/reaper.go) *)
From S2P Require Import Prelude Effects PyStr Json Sha256.
From S2P Require Import Wire Control ControlSpec ControlRefine ControlProps.
Import Store.
Local Open Scope string_scope.
Local Open Scope list_scope.
Local Open Scope Z_scope.

(** No active attempt of the job has expired at [t]. *)
Definition unexpired (d : db) (job : string) (t : Z) : Prop :=
  ∀ i a, attempts d !! i = Some a → at_job a = job → active (at_state a) = true → t < at_expires a.

(** What one turn of the loop did to the attempt [i] of the job [id]. *)
Record reaped_row (e : env) (n n' : nat) (d d' : db) (id i : string) (a : AttemptRow) (j : JobRow)
  : Prop := {
  rr_attempt : attempts d !! i = Some a;
  rr_job_id : at_job a = id;
  rr_active : active (at_state a) = true;
  rr_expired : at_expires a ≤ now e n;
  rr_job : jobs d !! id = Some j;
  rr_later : (n ≤ n')%nat;
  rr_attempts k : attempts d' !! k =
    at_row i (attempt_end AExpired (now e (S n)) None "lease or attempt deadline expired") k <$> attempts d !! k;
  rr_jobs k : jobs d' !! k =
    at_row id (λ j', job_set (RetryState (at_number a) (MaxAttempts j)) (MaxAttempts j')
                       (now e (S (S n))) j') k <$> jobs d !! k }.

Lemma reap_one_spec id e n d :
  Inv d →
  (∃ i a j n' d', reap_one id e n d = inr (1%nat, n', d') ∧ reaped_row e n n' d d' id i a j) ∨
  (reap_one id e n d = inr (0%nat, S n, d) ∧ unexpired d id (now e n)).
Proof.
  intros HI. destruct (List.find (λ ka, expired (now e n) ka.2) (attempts_of d id)) as [[i a]|] eqn:Hf.
  - left. apply List.find_some in Hf as Hf'. destruct Hf' as [Hin Hexp].
    apply list_elem_of_In, attempts_of_spec in Hin as [Ha Hjob]. simpl in Hexp. unfold expired in Hexp.
    apply andb_true_iff in Hexp as [Hact Hle%Z.leb_le].
    destruct (inv_attempt _ HI _ _ Ha) as (_ & _ & j & Hj & _). rewrite Hjob in Hj.
    eexists i, a, j, _, _. split.
    + unfold reap_one, mbind, tx_bind, clock_timestamp, read. rewrite Hf, Hj. reflexivity.
    + split; try done; [lia|intros; apply lookup_alter_row..].
  - right. split.
    + unfold reap_one, mbind, tx_bind, clock_timestamp, read. by rewrite Hf.
    + intros i a Ha Hjob Hact.
      apply (List.find_none _ _) with (x := (i, a)) in Hf; [|by apply list_elem_of_In, attempts_of_spec].
      simpl in Hf. unfold expired in Hf. rewrite Hact in Hf. by apply Z.leb_gt in Hf.
Qed.

Lemma reap_one_inv id e n d k n' d' : ticking e → Inv d → reap_one id e n d = inr (k, n', d') → Inv d'.
Proof. intros He HI H. eapply evolves_inv; [exact HI|]. by eapply (reap_one_refines 0). Qed.

(** A job without active attempts is left alone. *)
Lemma reap_all_idle ids e n d job m n' d' :
  ticking e → Inv d →
  (∀ i a, attempts d !! i = Some a → at_job a = job → active (at_state a) = false) →
  reap_all ids e n d = inr (m, n', d') →
  jobs d' !! job = jobs d !! job ∧
  ∀ i a, attempts d !! i = Some a → at_job a = job → attempts d' !! i = Some a.
Proof.
  intros He. revert n d m. induction ids as [|id ids IH]; intros n d m HI Hnone H; cbn [reap_all] in H.
  { tx H. done. }
  tx_step H. tx_step H. tx H. apply reap_one_inv in Hp as HI1; [|done..].
  destruct (reap_one_spec id e n d HI) as [(i & c & j & n2 & d2 & H1 & Hr)|[H1 _]];
    rewrite Hp in H1; injection H1 as -> -> ->; [|by eapply IH].
  destruct Hr as [R1 R2 R3 R4 R5 R6 R7 R8].
  assert (id ≠ job) as Hne. { intros ->. by rewrite (Hnone _ _ R1 R2) in R3. }
  apply IH in Hp0 as [Hj Ha]; [|done|].
  - split.
    + rewrite Hj, R8. unfold at_row. destruct (decide _); [congruence|]. by destruct (jobs d !! job).
    + intros i' b Hb Hjob. apply Ha; [|done]. rewrite R7, Hb. unfold at_row. simpl.
      destruct (decide _) as [->|]; [|done]. congruence.
  - intros i' b. rewrite R7. intros (b' & Hb' & ->)%fmap_Some. unfold at_row.
    destruct (decide _) as [->|]; [done|]. by apply (Hnone i').
Qed.

(** An active attempt through the loop: ended when it has expired and its job is listed, untouched
    while it has not expired. *)
Definition expired_row (d d' : db) (i : string) (a : AttemptRow) : Prop :=
  ∃ a' j j', attempts d' !! i = Some a' ∧ at_state a' = AExpired ∧
    jobs d !! at_job a = Some j ∧ jobs d' !! at_job a = Some j' ∧
    State j' = RetryState (at_number a) (MaxAttempts j).

Lemma reap_all_total ids e n d : Inv d → ticking e → ∃ m n' d', reap_all ids e n d = inr (m, n', d').
Proof.
  revert n d. induction ids as [|id ids IH]; intros n d HI He; cbn [reap_all]; [by eexists _, _, _|].
  destruct (reap_one_spec id e n d HI) as [(i & a & j & n1 & d1 & H1 & _)|[H1 _]].
  - destruct (IH n1 d1) as (m & n' & d' & H2); [by eapply reap_one_inv|done|].
    eexists _, _, _. unfold mbind, tx_bind. by rewrite H1, H2.
  - destruct (IH (S n) d) as (m & n' & d' & H2); [done..|].
    eexists _, _, _. unfold mbind, tx_bind. by rewrite H1, H2.
Qed.

Lemma reap_all_target ids e n d i a m n' d' :
  ticking e → Inv d → attempts d !! i = Some a → active (at_state a) = true →
  reap_all ids e n d = inr (m, n', d') →
  ((∀ k, now e k < at_expires a) →
   attempts d' !! i = Some a ∧ jobs d' !! at_job a = jobs d !! at_job a) ∧
  (at_job a ∈ ids → at_expires a ≤ now e n → expired_row d d' i a).
Proof.
  intros He. revert n d m. induction ids as [|id ids IH]; intros n d m HI Ha Hact H; cbn [reap_all] in H.
  { tx H. split; [done|]. by intros ?%not_elem_of_nil. }
  tx_step H. tx_step H. tx H. apply reap_one_inv in Hp as HI1; [|done..].
  destruct (reap_one_spec id e n d HI) as [(i' & b & j & n2 & d2 & H1 & Hr)|[H1 Hun]];
    rewrite Hp in H1; injection H1 as -> -> ->.
  2: { destruct (IH _ _ _ HI1 Ha Hact Hp0) as [I1 I2]. split; [done|]. intros Hin Hexp.
       apply elem_of_cons in Hin as [Hid|Hin]; [specialize (Hun i a Ha Hid Hact); lia|].
       apply I2; [done|]. etrans; [exact Hexp|apply He]. }
  destruct Hr as [R1 R2 R3 R4 R5 R6 R7 R8].
  destruct (decide (id = at_job a)) as [Hid|Hne].
  - assert (i' = i) as ->.
    { eapply (active_unique d); [done|done|done|congruence|done|done]. }
    assert (b = a) as -> by congruence. split.
    { intros Hall. specialize (Hall n). lia. }
    intros _ _. assert (∀ i2 c, attempts d2 !! i2 = Some c → at_job c = at_job a → active (at_state c) = false)
      as Hnone.
    { intros i2 c. rewrite R7. intros (c' & Hc' & ->)%fmap_Some. unfold at_row.
      destruct (decide (i2 = i)) as [->|Hi]; [done|]. intros Hjob. apply not_true_is_false. intros Hc.
      apply Hi. by apply (active_unique d i2 i c' a). }
    eapply (reap_all_idle _ _ _ _ (at_job a)) in Hp0 as [Hj Hatt]; [|done..]. rewrite R8, <- Hid, R5 in Hj. simpl in Hj.
    unfold at_row in Hj. destruct (decide (id = id)); [|done].
    assert (attempts d2 !! i = Some (attempt_end AExpired (now e (S n)) None
              "lease or attempt deadline expired" a)) as Ha2.
    { rewrite R7, Ha. unfold at_row. simpl. by destruct (decide (i = i)). }
    apply Hatt in Ha2; [|done]. eexists _, j, _. rewrite <- Hid. split; [exact Ha2|].
    split_and!; [done|done|exact Hj|done].
  - assert (attempts d2 !! i = Some a) as Ha1.
    { rewrite R7, Ha. unfold at_row. simpl. destruct (decide (i = i')) as [->|]; [|done]. congruence. }
    assert (jobs d2 !! at_job a = jobs d !! at_job a) as Hj1.
    { rewrite R8. unfold at_row. destruct (decide _); [congruence|]. by destruct (jobs d !! at_job a). }
    destruct (IH _ _ _ HI1 Ha1 Hact Hp0) as [I1 I2]. split.
    + intros Hall. destruct (I1 Hall) as [? ?]. split; congruence.
    + intros Hin Hexp. apply elem_of_cons in Hin as [?|Hin]; [congruence|].
      destruct I2 as (a' & j1 & j' & ? & ? & ? & ? & ?); [done| |].
      { etrans; [exact Hexp|]. by apply ticking_le. }
      exists a', j1, j'. split_and!; [done|done|congruence|done|done].
Qed.

(** *** The first query *)
Lemma select_expired_spec js e n d :
  ticking e → ∃ ids n', select_expired js e n d = inr (ids, n', d) ∧ (n ≤ n')%nat ∧
    (length ids ≤ length (List.filter (λ j, in_progress (State j)) js))%nat ∧
    ∀ j i a, j ∈ js → in_progress (State j) = true → locked e (ID j) = false →
      attempts d !! i = Some a → at_job a = ID j → active (at_state a) = true →
      at_expires a ≤ now e n → ID j ∈ ids.
Proof.
  intros He. revert n. induction js as [|x js IH]; intros n; cbn [select_expired].
  { exists [], n. split_and!; [done|lia|simpl; lia|]. by intros j i a ?%not_elem_of_nil. }
  destruct (IH (S n)) as (ids & n' & Hrun & Hn & Hlen & Hin).
  eexists _, n'. split.
  { unfold mbind, tx_bind, clock_timestamp, read, is_locked. by rewrite Hrun. }
  split_and!; [lia| |].
  - simpl. destruct (in_progress (State x)); simpl; [|done]. destruct (_ && _); simpl; lia.
  - intros j i a [->|Hj]%elem_of_cons Hp Hl Ha Hjob Hact Hexp.
    + rewrite Hp, Hl. simpl.
      assert (existsb (λ ka, expired (now e n) ka.2) (attempts_of d (ID x)) = true) as ->.
      { apply existsb_exists. exists (i, a). split; [by apply list_elem_of_In, attempts_of_spec|].
        unfold expired. simpl. rewrite Hact. by apply Z.leb_le. }
      by left.
    + assert (ID j ∈ ids); [|destruct (_ && _ && _); [by right|done]].
      eapply Hin; [done..|]. etrans; [exact Hexp|apply He].
Qed.

Lemma insert_row_elem j k l : k ∈ insert_row j l ↔ k = j ∨ k ∈ l.
Proof.
  induction l as [|x l IH]; simpl; [set_solver|].
  destruct (String.leb _ _); [set_solver|]. rewrite !elem_of_cons, IH. naive_solver.
Qed.

Lemma rows_by_id_elem d j : j ∈ rows_by_id d ↔ ∃ k, jobs d !! k = Some j.
Proof.
  assert (∀ l, j ∈ foldr insert_row [] l ↔ j ∈ l) as Hl.
  { intros l. induction l as [|x l IH]; simpl; [done|]. rewrite insert_row_elem, IH. set_solver. }
  unfold rows_by_id. rewrite Hl, list_elem_of_fmap. split.
  - intros ([k j'] & -> & Hk%elem_of_map_to_list). by exists k.
  - intros [k Hk]. exists (k, j). by rewrite elem_of_map_to_list.
Qed.

(** What a [Reap] does to the attempts that are active. *)
Lemma reap_ends d e :
  Inv d → ticking e → (∀ k, locked e k = false) →
  (length (List.filter (λ j, in_progress (State j)) (rows_by_id d)) ≤ 100)%nat →
  ∃ m d', transact Reap e d = (inr m, d') ∧
    ∀ i a, attempts d !! i = Some a → active (at_state a) = true →
      (at_expires a ≤ now e 0%nat → expired_row d d' i a) ∧
      ((∀ k, now e k < at_expires a) →
       attempts d' !! i = Some a ∧ jobs d' !! at_job a = jobs d !! at_job a).
Proof.
  intros HI He Hl Hlen.
  destruct (select_expired_spec (rows_by_id d) e 0%nat d He) as (ids & n & Hsel & _ & Hids & Hin).
  destruct (reap_all_total (take 100 ids) e n d HI He) as (m & n' & d' & Hreap).
  exists m, d'. split.
  { unfold transact, Reap, mbind, tx_bind, read. by rewrite Hsel, Hreap. }
  intros i a Ha Hact. destruct (reap_all_target _ _ _ _ _ _ _ _ _ He HI Ha Hact Hreap) as [Hun Hexp].
  split; [|done]. intros Hle.
  destruct (inv_attempt _ HI _ _ Ha) as (_ & _ & j & Hj & _ & _ & Hag).
  destruct (inv_job _ HI _ _ Hj) as (Hid & _). apply Hexp.
  - rewrite take_ge by lia. rewrite <- Hid. eapply Hin; [|by eapply agrees_active|done|done|done|done|done].
    apply rows_by_id_elem. by exists (at_job a).
  - etrans; [exact Hle|]. apply ticking_le; [done|lia].
Qed.

(** C21. [Reap] always commits.  With at most a hundred jobs in progress and none of their rows
    locked, it ends every lease that had expired when it began, and puts the job back into the
    queue exactly when attempts are left, else marks it failed; it does not touch a lease that
    has not expired, nor its job. *)
Theorem reaper_ends_expired_leases L T d e :
  reached L T d → ticking e → (∀ k, locked e k = false) →
  (length (List.filter (λ j, in_progress (State j)) (rows_by_id d)) ≤ 100)%nat →
  ∃ m d', transact Reap e d = (inr m, d') ∧
    ∀ i a, attempts d !! i = Some a → active (at_state a) = true →
      (at_expires a ≤ now e 0%nat → expired_row d d' i a) ∧
      ((∀ k, now e k < at_expires a) →
       attempts d' !! i = Some a ∧ jobs d' !! at_job a = jobs d !! at_job a).
Proof. intros [HI _]%reached_inv. by apply reap_ends. Qed.

Lemma reaper_ends_expired_leases_witness :
  ∃ d', (∃ m, transact Reap (demo_at 40) demo_running = (inr m, d')) ∧
    expired_row demo_running d' demo_attempt_id (demo_row demo_running).
Proof.
  destruct (reaper_ends_expired_leases 15 (sec 4 + 50) demo_running (demo_at 40) demo_running_reached
    (demo_ticking 40)) as (m & d' & Hrun & Hall).
  - reflexivity.
  - vm_compute. lia.
  - exists d'. split; [exists m; exact Hrun|].
    apply (Hall demo_attempt_id (demo_row demo_running) demo_row_running); by vm_compute.
Defined.
