(* ===== verification/ControlLive.v ===== *)
(** * ControlLive: every job comes to an end (internal/store)

    Liveness of the control plane, with a bound.  A round is any activity of any callers in which,
    at some point, the reaper runs after the deadlines of the attempts that were active when the
    round began, and which ends with a poll of a worker of some capacity.  Workers may crash,
    report, renew or stay silent in between.  A round uses up one of the attempts the jobs are
    allowed, or ends with every job that fits the capacity in a final state. *)
From S2P Require Import Prelude Effects PyStr Json Sha256.
From S2P Require Import Wire Control ControlSpec ControlRefine ControlProps ControlReap.
Import Store.
Local Open Scope string_scope.
Local Open Scope list_scope.
Local Open Scope Z_scope.

Definition final (st : job_state) : bool :=
  match st with SUCCEEDED | FAILED | CANCELLED => true | _ => false end.

(** [r] fits in [cap]. *)
Definition fits (cap r : Resources) : bool :=
  (CPU r <=? CPU cap) && (MemoryMB r <=? MemoryMB cap) && (GPU r <=? GPU cap).

(** Every job that fits in [cap] is in a final state. *)
Definition ended (cap : Resources) (d : db) : Prop :=
  ∀ k j, jobs d !! k = Some j → fits cap (cols j) = true → final (State j) = true.

(** The attempts the jobs may have in all. *)
Definition allowance (d : db) : Z := msum MaxAttempts (jobs d).

(** A [LeaseJob] that reaches the store: of a registered, active worker with at least [cap], under
    a request identifier that was not used before, while no job is locked. *)
Record polls (cap : Resources) (d : db) (e : env) (r : Request) : Prop := {
  p_worker : ∃ w, workers d !! WorkerID r = Some w ∧ wk_session w = SessionID r ∧
                  wk_state w = ACTIVE ∧ fits (wk_cap w) cap = true;
  p_sender : nonempty (WorkerID r) && nonempty (SessionID r) && (len (WorkerID r) <=? 256) &&
             (len (SessionID r) <=? 256) = true;
  p_request : nonempty (RequestID r) && (len (RequestID r) <=? 256) = true;
  p_text : text_ok (WorkerID r) = true ∧ text_ok (RequestID r) = true;
  p_new : requests d !! ("rpc:" +:+ method_name LeaseJob +:+ ":" +:+ WorkerID r, RequestID r) = None;
  p_fresh k : attempts d !! new_id e k = None;
  p_unlocked k : locked e k = false }.

Definition reap_call (e : env) : call := Call e OpReap.
Definition poll_call (e : env) (r : Request) : call := Call e (OpRpc LeaseJob r).

(** The reaper runs in [d], late enough for the attempts that were active in [d0]. *)
Record sweeps (d0 d : db) (e : env) : Prop := {
  s_late i a : attempts d0 !! i = Some a → active (at_state a) = true → at_deadline a ≤ now e 0%nat;
  s_few : (length (List.filter (λ j, in_progress (State j)) (rows_by_id d)) ≤ 100)%nat;
  s_unlocked k : locked e k = false }.

Inductive fair_round (L : Z) (cap : Resources) (T : Z) (d : db) : Z → db → Prop :=
| FairRound pre T1 d1 e T2 mid T3 d3 e' r T4 :
    runs L T d pre T1 d1 →
    T1 ≤ T2 → during T1 T2 (reap_call e) → sweeps d d1 e →
    runs L T2 (after L (reap_call e) d1) mid T3 d3 →
    T3 ≤ T4 → during T3 T4 (poll_call e' r) → polls cap d3 e' r →
    fair_round L cap T d T4 (after L (poll_call e' r) d3).

(** Rounds one after the other, with the states they end in. *)
Inductive fair_run (L : Z) (cap : Resources) : Z → db → list db → Z → db → Prop :=
| fair_nil T d : fair_run L cap T d [] T d
| fair_cons T d T1 d1 ds T2 d2 :
    fair_round L cap T d T1 d1 → fair_run L cap T1 d1 ds T2 d2 →
    fair_run L cap T d (d1 :: ds) T2 d2.

(** ** The attempts there are stay within the allowance *)
Definition slots (js : gmap string JobRow) : list (string * Z) :=
  map_to_list js ≫= λ kj, (λ n, (kj.1, n)) <$> seqZ 1 (MaxAttempts kj.2).

Lemma slots_length js :
  (∀ k j, js !! k = Some j → 1 ≤ MaxAttempts j) → Z.of_nat (length (slots js)) = msum MaxAttempts js.
Proof.
  induction js as [|k j js Hk IH] using map_ind; intros H; [done|].
  rewrite msum_insert by done.
  assert (slots (<[k:=j]> js) ≡ₚ ((λ n, (k, n)) <$> seqZ 1 (MaxAttempts j)) ++ slots js) as ->.
  { unfold slots. by rewrite map_to_list_insert. }
  rewrite length_app, length_fmap, length_seqZ, Nat2Z.inj_add, IH.
  - pose proof (H k j (lookup_insert_eq _ _ _)). lia.
  - intros k' j' Hk'. apply (H k'). rewrite lookup_insert_ne; [done|congruence].
Qed.

Lemma attempts_within_allowance d : Inv d → Z.of_nat (size (attempts d)) ≤ allowance d.
Proof.
  intros HI. unfold allowance. rewrite <- slots_length.
  2: { intros k j Hj. by destruct (inv_job _ HI _ _ Hj) as (_ & _ & _ & ?). }
  rewrite <- length_map_to_list, <- (length_fmap (λ ia, (at_job ia.2, at_number ia.2))).
  apply Nat2Z.inj_le, NoDup_incl_length.
  - apply NoDup_ListNoDup, NoDup_fmap_2_strong; [|apply NoDup_map_to_list].
    intros [i a] [i' a'] Ha Ha' [= Hj Hn]. apply elem_of_map_to_list in Ha, Ha'.
    assert (i = i') as <- by by eapply (inv_number _ HI). congruence.
  - intros [k n] Hin. apply list_elem_of_In, list_elem_of_fmap in Hin as ([i a] & [= -> ->] & Ha).
    apply elem_of_map_to_list in Ha.
    destruct (inv_attempt _ HI _ _ Ha) as (_ & _ & j & Hj & Hn & _).
    apply list_elem_of_In, list_elem_of_bind. exists (at_job a, j). split.
    + apply list_elem_of_fmap. eexists. split; [done|]. apply elem_of_seqZ. simpl. lia.
    + by apply elem_of_map_to_list.
Qed.

(** ** Attempts are kept *)
Definition kept (d d' : db) : Prop :=
  ∀ i a, attempts d !! i = Some a →
    ∃ a', attempts d' !! i = Some a' ∧ at_deadline a' = at_deadline a ∧
          (active (at_state a) = false → active (at_state a') = false).

Lemma kept_trans d1 d2 d3 : kept d1 d2 → kept d2 d3 → kept d1 d3.
Proof.
  intros H12 H23 i a Ha. destruct (H12 _ _ Ha) as (b & Hb & Hd & Hact).
  destruct (H23 _ _ Hb) as (c & Hc & Hd' & Hact'). exists c. split_and!; [done|congruence|auto].
Qed.

Lemma steps_kept L d ls d' : steps L d ls d' → kept d d'.
Proof.
  induction 1 as [d|d l d1 ls d2 Hs _ IH]; [intros i a Ha; eauto|].
  eapply kept_trans; [|exact IH]. intros i a Ha.
  destruct (step_attempt _ _ _ _ _ _ Hs Ha) as (a' & Ha' & (_ & _ & _ & _ & Hd) & Hina & _).
  exists a'. split_and!; [done..|]. intros H. by rewrite (Hina H).
Qed.

Lemma runs_kept L T d cs T' d' : Inv d → runs L T d cs T' d' → kept d d'.
Proof. intros HI Hr. destruct (runs_steps _ _ _ _ _ _ Hr HI) as (ls & Hs & _). by eapply steps_kept. Qed.

Lemma runs_one L T T' c d : T ≤ T' → during T T' c → runs L T d [c] T' (after L c d).
Proof. intros. econstructor; [done..|]. constructor. Qed.

Lemma kept_dom d d' : kept d d' → dom (attempts d) ⊆ dom (attempts d').
Proof.
  intros H i [a Ha]%elem_of_dom. destruct (H _ _ Ha) as (a' & Ha' & _). by apply elem_of_dom.
Qed.

(** Without an active attempt before, and with the same attempts, there is none after. *)
Definition idle (d : db) : Prop := ∀ i a, attempts d !! i = Some a → active (at_state a) = false.

Lemma kept_idle d d' : kept d d' → dom (attempts d') ⊆ dom (attempts d) → idle d → idle d'.
Proof.
  intros Hk Hdom Hd i a Ha. assert (i ∈ dom (attempts d)) as [b Hb]%elem_of_dom.
  { apply Hdom, elem_of_dom. eauto. }
  destruct (Hk _ _ Hb) as (a' & Ha' & _ & Hact). assert (a' = a) as -> by congruence. eauto.
Qed.

(** ** A round *)
Lemma transact_answer {A B} (p : Tx A) (f : A → B) e d :
  (transact (x ← p; mret (f x)) e d).2 = (transact p e d).2.
Proof. unfold transact, mbind, tx_bind. by destruct (p e 0%nat d) as [|[[]]]. Qed.

Lemma reap_idle L d0 d e :
  Inv d → ticking e → sweeps d0 d e → kept d0 d → kept d (after L (reap_call e) d) →
  dom (attempts (after L (reap_call e) d)) ⊆ dom (attempts d0) → idle (after L (reap_call e) d).
Proof.
  intros HI He [Hlate Hfew Hlock] Hk Hk'. unfold after in *. simpl in *. rewrite transact_answer in *.
  destruct (reap_ends d e HI He Hlock Hfew) as (m & d' & Hrun & Hall). rewrite Hrun in *. simpl in *.
  intros Hdom i a' Ha'. assert (i ∈ dom (attempts d0)) as [a0 Ha0]%elem_of_dom.
  { apply Hdom, elem_of_dom. eauto. }
  destruct (Hk _ _ Ha0) as (a & Ha & Hdl & Hina). destruct (Hk' _ _ Ha) as (b & Hb & _ & Hinb).
  assert (b = a') as -> by congruence. destruct (active (at_state a)) eqn:Hact; [|auto].
  destruct (active (at_state a0)) eqn:Hact0; [|specialize (Hina eq_refl); congruence].
  destruct (proj1 (Hall _ _ Ha Hact)) as (c & _ & _ & Hc & Hst & _).
  - destruct (inv_attempt _ HI _ _ Ha) as (_ & Hle & _). specialize (Hlate _ _ Ha0 Hact0). lia.
  - assert (c = a') as -> by congruence. by rewrite Hst.
Qed.

Lemma idle_usage c d w : idle d → usage c d w = 0.
Proof.
  intros Hd. apply msum_zero. intros i a Ha. unfold share. rewrite (Hd _ _ Ha).
  by rewrite andb_false_r.
Qed.

Lemma fits_trans a b c : fits a b = true → fits b c = true → fits a c = true.
Proof. unfold fits. rewrite !andb_true_iff, !Z.leb_le. lia. Qed.

(** A poll when nothing is leased leases a job, or every job that fits has ended. *)
Lemma poll_idle L cap d e r :
  Inv d → ticking e → idle d → polls cap d e r →
  (∃ i a, attempts (after L (poll_call e r) d) !! i = Some a ∧ active (at_state a) = true) ∨
  ended cap (after L (poll_call e r) d).
Proof.
  intros HI He Hidle [(w & Hw & Hs & Hst & Hfit) Hsend Hrid [Ht1 Ht2] Hnew Hfresh Hlock].
  unfold after. simpl. rewrite transact_answer.
  destruct (lease_commits L e d r w) as (resp & d' & Hrun); try done. rewrite Hrun. simpl.
  destruct (lease_serves L e d r resp d' HI He) as (w' & Hw' & _ & _ & Hans); [|done|].
  { intros h q. by rewrite Hnew. }
  assert (w' = w) as -> by congruence. destruct resp; try done.
  - destruct Hans as [Hjobs Hans]. right. intros k j. rewrite Hjobs. intros Hj Hc. specialize (Hans k j Hj).
    destruct (State j) eqn:Hstate; [exfalso|exfalso..|done|done|done].
    2, 3: destruct (inv_progress _ HI _ _ Hj) as (i & a & Ha & _ & Hact);
      [by rewrite Hstate|]; by rewrite (Hidle _ _ Ha) in Hact.
    unfold leasable, free_of in Hans. rewrite Hstate, Hlock, !idle_usage in Hans by done.
    pose proof (fits_trans _ _ _ Hfit Hc) as Hall. unfold fits in Hall. simpl in Hans.
    rewrite !Z.sub_0_r, andb_true_r in Hans. by rewrite Hall in Hans.
  - destruct Hans as (j & a & _ & _ & _ & Ha & _ & _ & Ha' & _). left. eexists _, a. by rewrite Ha'.
Qed.

Lemma dom_grows {A} (m m' : gmap string A) :
  dom m ⊆ dom m' → (size m < size m')%nat ∨ dom m' ⊆ dom m.
Proof.
  intros H. destruct (decide (dom m' ⊆ dom m)) as [|Hn]; [by right|left].
  rewrite <- !size_dom. by apply subset_size.
Qed.

Lemma round_progress L cap T d T' d' :
  Inv d → fair_round L cap T d T' d' →
  kept d d' ∧ ((size (attempts d) < size (attempts d'))%nat ∨ ended cap d').
Proof.
  intros HI [pre T1 d1 e T2 mid T3 d3 e' r T4 Hpre HT Hreap Hsw Hmid HT' Hpoll Hp].
  pose proof (runs_inv _ _ _ _ _ _ Hpre HI) as HI1.
  pose proof (runs_one L _ _ _ d1 HT Hreap) as Hr2. pose proof (runs_inv _ _ _ _ _ _ Hr2 HI1) as HI2.
  pose proof (runs_inv _ _ _ _ _ _ Hmid HI2) as HI3.
  pose proof (runs_one L _ _ _ d3 HT' Hpoll) as Hr4.
  apply runs_kept in Hpre as K1, Hr2 as K2, Hmid as K3, Hr4 as K4; [|done..].
  set (d2 := after L (reap_call e) d1) in *. set (d4 := after L (poll_call e' r) d3) in *.
  assert (kept d d2) as K02 by (by eapply kept_trans).
  assert (kept d2 d4) as K24 by (by eapply kept_trans).
  assert (kept d d4) as K04 by (by eapply kept_trans). split; [done|].
  destruct (dom_grows _ _ (kept_dom _ _ K04)) as [|Hsame]; [by left|].
  apply kept_dom in K02 as D02, K3 as D3, K4 as D4, K24 as D24.
  assert (idle d2) as Hid2.
  { eapply reap_idle; [done|apply Hreap|done|done|done|]. by etrans. }
  assert (idle d3) as Hid3.
  { eapply kept_idle; [exact K3| |done]. etrans; [exact D4|]. by etrans. }
  destruct (poll_idle L cap d3 e' r HI3 (proj1 Hpoll) Hid3 Hp) as [(i & a & Ha & Hact)|]; [|by right].
  assert (idle d4) as Hid4.
  { eapply kept_idle; [exact K4| |done]. etrans; [exact Hsame|]. etrans; [exact D02|exact D3]. }
  by rewrite (Hid4 _ _ Ha) in Hact.
Qed.

(** ** The allowance *)
Lemma allowance_alter d k g :
  (∀ j, jobs d !! k = Some j → MaxAttempts j ≤ MaxAttempts (g j)) →
  allowance d ≤ msum MaxAttempts (alter g k (jobs d)) ∧
  (msum MaxAttempts (alter g k (jobs d)) = allowance d →
   ∀ j, jobs d !! k = Some j → MaxAttempts (g j) = MaxAttempts j).
Proof.
  intros H. unfold allowance. destruct (jobs d !! k) as [j|] eqn:Hk.
  - rewrite (msum_delete MaxAttempts (jobs d) k j Hk).
    rewrite (msum_delete MaxAttempts (alter g k (jobs d)) k (g j)) by by rewrite lookup_alter_eq, Hk.
    rewrite delete_alter_eq. specialize (H j eq_refl). split; [lia|]. intros Heq j' [= <-]. lia.
  - rewrite alter_id; [done|]. intros j. by rewrite Hk.
Qed.

Lemma ended_alter cap d d' k g :
  jobs d' = alter g k (jobs d) → (∀ j, cols (g j) = cols j) →
  (∀ j, jobs d !! k = Some j → final (State j) = true → final (State (g j)) = true) →
  ended cap d → ended cap d'.
Proof.
  intros Hjobs Hcols Hfinal Hd k' j'. rewrite Hjobs, lookup_alter_row.
  intros (j & Hj & ->)%fmap_Some. unfold at_row. destruct (decide _) as [->|]; [|by apply (Hd k')].
  rewrite Hcols. intros Hf. by apply Hfinal, (Hd k j).
Qed.

(** The allowance never shrinks, and grows with every submission and retry; as long as it does not
    grow, what has ended stays so. *)
Lemma step_allowance L cap d l d' :
  Inv d → step L d l d' →
  allowance d ≤ allowance d' ∧ (allowance d' = allowance d → ended cap d → ended cap d').
Proof.
  intros HI Hs.
  assert (∀ i b j, attempts d !! i = Some b → active (at_state b) = true →
    jobs d !! at_job b = Some j → final (State j) = false) as Hactive.
  { intros i b j Hb Hact Hj. destruct (inv_attempt _ HI _ _ Hb) as (_ & _ & j2 & Hj2 & _ & _ & Hag).
    assert (j2 = j) as -> by congruence. pose proof (agrees_active _ _ Hact Hag) as Hp.
    by destruct (State j). }
  assert (∀ k st t ats, (∀ j, jobs d !! k = Some j → final (State j) = false) →
    let d2 := with_state k st t (set_attempts ats d) in
    allowance d ≤ allowance d2 ∧ (allowance d2 = allowance d → ended cap d → ended cap d2)) as Hwith.
  { intros k st t ats Hk. split; [by apply (allowance_alter d k (λ j, job_set st (MaxAttempts j) t j))|]. intros _.
    eapply ended_alter; [done|done|]. intros j Hj. by rewrite (Hk j Hj). }
  assert (∀ k st max t, (∀ j, jobs d !! k = Some j → MaxAttempts j ≤ max) → 
    (∀ j, jobs d !! k = Some j → MaxAttempts j = max → final (State j) = true → final st = true) →
    ∀ ats, let d2 := set_jobs (alter (job_set st max t) k) (set_attempts ats d) in
    allowance d ≤ allowance d2 ∧ (allowance d2 = allowance d → ended cap d → ended cap d2)) as Hset.
  { intros k st max t Hmax Hst ats. cbv zeta.
    destruct (allowance_alter d k (job_set st max t)) as [Hle Heq]; [done|]. split; [exact Hle|].
    intros H. eapply ended_alter; [done|done|]. intros j Hj. apply (Hst j Hj). symmetry. by apply Heq. }
  destruct Hs as [|id j t1 t2 Hid Hkey Hv| | |i row j wk t t' Hj Hq _ _ _ _|
    |i b t t' Hb Hst|i b j t t' t'' st next code reason Hb Hst Hj _ _
    |i b j t t' t'' reason Hb Hact Hj _|job j t t' Hj Hst|job j t Hj Hst|job j t Hj Hst]; try done.
  - unfold allowance. simpl. rewrite msum_insert by done. simpl. apply validate_attempts in Hv. lia.
  - apply Hwith. intros j' Hj'. replace j' with j by congruence. by rewrite Hq.
  - apply Hwith. intros j'. eapply Hactive; [done|by rewrite Hst].
  - apply Hwith. intros j'. eapply Hactive; [done|by rewrite Hst].
  - apply Hwith. intros j'. by eapply Hactive.
  - apply Hset; [|done]. intros j' Hj'. by replace j' with j by congruence.
  - apply (Hset job CANCELLED (MaxAttempts j) t) with (ats := id); [|done].
    intros j' Hj'. by replace j' with j by congruence.
  - apply (Hset job QUEUED (MaxAttempts j + 1) t) with (ats := id).
    + intros j' Hj'. replace j' with j by congruence. lia.
    + intros j' Hj'. replace j' with j by congruence. lia.
Qed.

Lemma runs_allowance L cap T d cs T' d' :
  Inv d → runs L T d cs T' d' →
  allowance d ≤ allowance d' ∧ (allowance d' = allowance d → ended cap d → ended cap d').
Proof.
  intros HI Hr. destruct (runs_steps _ _ _ _ _ _ Hr HI) as (ls & Hs & _). clear Hr.
  induction Hs as [|d l d1 ls d2 Hs Hss IH]; [done|].
  destruct (step_allowance L cap _ _ _ HI Hs) as [Hle Hst].
  destruct IH as [Hle' Hst']; [by eapply step_inv|]. split; [lia|]. intros Heq Hd.
  apply Hst'; [lia|]. apply Hst; [lia|done].
Qed.

(** ** Rounds *)
Lemma fair_round_runs L cap T d T' d' : fair_round L cap T d T' d' → ∃ cs, runs L T d cs T' d'.
Proof.
  intros [pre T1 d1 e T2 mid T3 d3 e' r T4 Hpre HT Hreap _ Hmid HT' Hpoll _]. eexists.
  eapply runs_app; [exact Hpre|]. eapply runs_cons; [exact HT|exact Hreap|].
  eapply runs_app; [exact Hmid|]. by apply runs_one.
Qed.

Lemma fair_run_runs L cap T d ds T' d' : fair_run L cap T d ds T' d' → ∃ cs, runs L T d cs T' d'.
Proof.
  induction 1 as [|T d T1 d1 ds T2 d2 [cs1 H1]%fair_round_runs _ [cs2 H2]]; [eexists; constructor|].
  eexists. by eapply runs_app.
Qed.

Lemma fair_run_progress L cap T d ds T' d' :
  Inv d → fair_run L cap T d ds T' d' →
  Exists (ended cap) ds ∨ (size (attempts d) + length ds ≤ size (attempts d'))%nat.
Proof.
  intros HI Hf. induction Hf as [|T d T1 d1 ds T2 d2 Hr _ IH]; simpl; [by right; lia|].
  destruct (round_progress _ _ _ _ _ _ HI Hr) as [_ [Hlt|Hend]]; [|by left; constructor].
  apply fair_round_runs in Hr as [cs Hr].
  destruct IH as [|Hle]; [by eapply runs_inv|by left; constructor|right; lia].
Qed.

Lemma fair_run_stays L cap T d ds T' d' :
  Inv d → fair_run L cap T d ds T' d' → Exists (ended cap) ds → allowance d' = allowance d →
  ended cap d'.
Proof.
  intros HI Hf. induction Hf as [|T d T1 d1 ds T2 d2 Hr Hf IH]; intros Hex Heq; [by inversion Hex|].
  apply fair_round_runs in Hr as [cs Hr]. pose proof (runs_inv _ _ _ _ _ _ Hr HI) as HI1.
  destruct (fair_run_runs _ _ _ _ _ _ _ Hf) as [cs' Hr'].
  destruct (runs_allowance L cap _ _ _ _ _ HI Hr) as [H1 _].
  destruct (runs_allowance L cap _ _ _ _ _ HI1 Hr') as [H2 H2'].
  apply Exists_cons in Hex as [Hex|Hex]; [apply H2'; [lia|done]|].
  apply IH; [done|done|lia].
Qed.


(** ** An instance: the worker of the demonstration crashes over and over *)
(** One identifier per call. *)
Definition crash_at (c : nat) : env :=
  Env (λ k, sec (Z.of_nat c) + Z.min (Z.of_nat k) 50) (λ _, demo_id c 1) (λ _, false).
Definition crash_poll (c : nat) : call :=
  poll_call (crash_at c) (demo_request ("p" +:+ pretty c) EmptyString EmptyString).
(** Every hundred seconds the reaper ends the lease and the worker polls again. *)
Definition crash_round (c : nat) (d : db) : db :=
  after 15 (crash_poll (S c)) (after 15 (reap_call (crash_at c)) d).
Definition demo_cap : Resources := MkResources 2 4096 0.

Definition late (t : Z) (d : db) : bool :=
  forallb (λ ia : string * AttemptRow, negb (active (at_state ia.2)) || (at_deadline ia.2 <=? t))
    (map_to_list (attempts d)).
Definition few (d : db) : bool :=
  bool_decide (length (List.filter (λ j, in_progress (State j)) (rows_by_id d)) ≤ 100)%nat.
Definition pollable (c : nat) (d : db) : bool :=
  match workers d !! "w1" with
  | Some w => String.eqb (wk_session w) "s1" && bool_decide (wk_state w = ACTIVE) &&
              fits (wk_cap w) demo_cap
  | None => false
  end && bool_decide (requests d !! ("rpc:LeaseJob:w1", "p" +:+ pretty c) = None)
  && bool_decide (attempts d !! demo_id c 1 = None)
  && (len ("p" +:+ pretty c) <=? 256) && text_ok ("p" +:+ pretty c).

Lemma crash_during c o T :
  T ≤ sec (Z.of_nat c) → during T (sec (Z.of_nat c) + 50) (Call (crash_at c) o).
Proof. intros HT. split; [intros k; simpl; lia|]. intros k. simpl. lia. Qed.

Lemma crash_fair T d c :
  T ≤ sec (Z.of_nat c) → late (sec (Z.of_nat c)) d && few d &&
    pollable (S c) (after 15 (reap_call (crash_at c)) d) = true →
  fair_round 15 demo_cap T d (sec (Z.of_nat (S c)) + 50) (crash_round c d).
Proof.
  intros HT [[Hlate Hfew%bool_decide_eq_true]%andb_true_iff Hp]%andb_true_iff.
  eapply (FairRound 15 demo_cap T d [] T d (crash_at c) (sec (Z.of_nat c) + 50) []).
  - constructor.
  - lia.
  - by apply crash_during.
  - split; [|done|done]. intros i a Ha Hact. unfold late in Hlate. rewrite forallb_forall in Hlate.
    specialize (Hlate (i, a)). simpl in Hlate. rewrite Hact in Hlate. simpl. simpl in Hlate.
    rewrite <- list_elem_of_In, elem_of_map_to_list, Z.leb_le in Hlate. specialize (Hlate Ha). lia.
  - constructor.
  - unfold sec. lia.
  - apply crash_during. unfold sec. lia.
  - unfold pollable in Hp. rewrite !andb_true_iff in Hp. destruct Hp as ((((Hw & Hr) & Ha) & Hl) & Ht).
    apply bool_decide_eq_true in Hr, Ha. split; try done.
    destruct (workers _ !! "w1") as [w|] eqn:Hw'; [|done]. exists w.
    rewrite !andb_true_iff, bool_decide_eq_true, String.eqb_eq in Hw. naive_solver.
Qed.

Definition crash1 : db := crash_round 100 demo_running.
Definition crash2 : db := crash_round 200 crash1.
Definition crash3 : db := crash_round 300 crash2.

