(* ===== verification/EndToEnd.v ===== *)
(** * EndToEnd: the worker and the control plane together

    How the answers of the store (internal/api/grpc.go, [WorkerServer.call]) reach the worker, and
    what the worker's own bookkeeping is worth to the store: while a worker believes its lease,
    the store gives the job to nobody else. *)
From S2P Require Import Prelude Effects PyStr Utf8 Json Sha256 Wire World.
From S2P Require Import Rpc Artifacts Worker WorkerSafety Logs Control ControlSpec ControlRefine ControlProps.
Local Open Scope string_scope.
Local Open Scope list_scope.
Local Open Scope Z_scope.

(** ** Answers on the wire *)
Definition wire_definition (j : Store.Job) : definition :=
  Definition_ (Store.Command j)
    (match Store.Environment j with Some m => Value m | None => Null end)
    (Value (Store.ArtifactPrefix j)).

Definition wire_body (l : Store.LeaseAnswer) : lease_body :=
  LeaseBody (Store.ID (Store.l_job l)) (wire_definition (Store.Definition_ (Store.l_job l)))
    (Store.l_attempt l) (Store.l_number l) (Store.l_token l) (Store.l_checkpoint l).

(** The JSON of a response as the worker reads it. *)
Definition wire_reply (resp : Store.response) : reply :=
  match resp with
  | Store.Idle => Reply None None true None
  | Store.Leased l => Reply (Some (Store.l_expires l)) (Some (Store.l_server l)) false (Some (wire_body l))
  | Store.Renewed expires server => Reply (Some expires) (Some server) false None
  | _ => Reply None None false None
  end.

(** [WorkerServer.call]: the error of the store as a status. *)
Definition wire_error (x : Store.error) : status :=
  match x with
  | Store.ErrConflict => FAILED_PRECONDITION
  | Store.ErrInvalid => INVALID_ARGUMENT
  | Store.ErrNotFound => NOT_FOUND
  | Store.ErrInternal => INTERNAL
  end.

(** The fields of the request the store sees come from the envelope. *)
Definition enveloped (q : request) (r : Store.Request) : Prop :=
  Store.RequestID r = rq_request_id q ∧ Store.WorkerID r = rq_worker_id q ∧
  Store.SessionID r = rq_session_id q ∧ Store.AttemptID r = rq_attempt_id q ∧
  Store.LeaseToken r = rq_lease_token q.

(** ** Grants *)
(** The attempt a response grants time to, until when, and the server's time. *)
Definition grant_of (r : Store.Request) (resp : Store.response) : option (string * Z * Z) :=
  match resp with
  | Store.Leased l => Some (Store.l_attempt l, Store.l_expires l, Store.l_server l)
  | Store.Renewed x s => Some (Store.lower (Store.AttemptID r), x, s)
  | _ => None
  end.

Definition scope_of (m : method) (r : Store.Request) : string :=
  "rpc:" +:+ method_name m +:+ ":" +:+ Store.WorkerID r.

(** A grant is written in the table when it is answered. *)
Definition written (e : Store.env) (d' : Store.db) (r : Store.Request) (i : string) (x s : Z) : Prop :=
  ∃ a k, Store.attempts d' !! i = Some a ∧ Store.active (Store.at_state a) = true ∧
         Store.at_expires a = x ∧ Store.at_worker a = Store.WorkerID r ∧ s = Store.now e k.

Lemma lease_written L r cap e n d resp n' d' i x s :
  Store.lease L r cap e n d = inr (resp, n', d') → grant_of r resp = Some (i, x, s) →
  written e d' r i x s.
Proof.
  intros H Hg. unfold Store.lease in H. tx_step H.
  apply bind_inr in H as (head & n1 & d1 & Hhead & H). injection Hhead as <- <- <-.
  destruct (Store.queue_head _ _ d) as [j|] eqn:Hj; [|by tx H].
  tx_step H. tx_step H. apply bind_inr in H as (l & n2 & d2 & Hins & H).
  unfold Store.insert_attempt in Hins. tx_step Hins. tx_step Hins. tx_step Hins. tx_step Hins.
  cbv zeta in Hins. tx Hins.
  tx_step H. apply bind_inr in H as (u & n3 & d3 & Hset & H). apply set_state_inr in Hset as [-> ->].
  tx_step H. apply bind_inr in H as (u' & n4 & d4 & Hev & H). tx H.
  apply quiet_event in Hev as [_ (_ & Ha4 & _)]. simpl in Hg. injection Hg as <- <- <-.
  eexists _, _. rewrite Ha4. simpl. rewrite lookup_insert_eq. by split_and!.
Qed.

Lemma attempt_written L m r e n d resp n' d' i x s :
  Store.attempt L m r e n d = inr (resp, n', d') → grant_of r resp = Some (i, x, s) →
  written e d' r i x s.
Proof.
  intros (j & a & Hf & H)%attempt_inr Hg.
  assert (∀ (p : Store.Tx unit) n0 d0, (p ≫= λ _, Store.attempt_event m r (Store.ID j)) e n0 d0
    = inr (resp, n', d') → resp = Store.Accepted) as Hacc.
  { intros p n0 d0 Hp. tx_step Hp. unfold Store.attempt_event in Hp. by tx Hp. }
  destruct m; try (apply Hacc in H; by subst resp). unfold Store.renew in H. tx H.
  simpl in Hg. injection Hg as <- <- <-. destruct Hf as [F1 _ F3 _ F5 _ _].
  eexists _, _. simpl. rewrite lookup_alter_eq, F1. by split_and!.
Qed.

Lemma rpc_written L m r e d resp n d' i x s :
  unanswered d (scope_of m r, Store.RequestID r) →
  Store.RPC L m r e 0%nat d = inr (resp, n, d') → grant_of r resp = Some (i, x, s) →
  written e d' r i x s.
Proof.
  intros Hun Hrpc Hg.
  destruct (rpc_scope_unanswered _ _ _ _ _ _ _ _ Hun Hrpc) as (d0 & d1 & _ & _ & Hrun & _ & Ha & _).
  assert (written e d1 r i x s) as (a & k & H1 & H2).
  { destruct m; [unfold Store.register in Hrun; tx Hrun; by destruct (Store.workers _ !! _)|..].
    all: apply dispatch_inr in Hrun as (w & _ & _ & Hrun); cbn [Store.serve] in Hrun;
      try by eapply attempt_written.
    - tx_step Hrun. by eapply lease_written.
    - destruct (nonempty _); [by eapply attempt_written|by tx Hrun].
    - by tx Hrun. }
  exists a, k. by rewrite Ha.
Qed.

(** The call [c] of the store answered the worker's call [trc] (made after the history [h]): it is
    a transaction for the request of that call, it ran after a send of it, by the worker's clock
    and the constant [off] between the clocks, and its answer is the reply the call got. *)
Record answered_by (off L : Z) (h trc : list wevent) (T : Z) (d : Store.db) (c : call)
    (m : method) (r : Store.Request) (resp : Store.response) : Prop := {
  ab_op : c_op c = OpRpc m r;
  ab_first : unanswered d (scope_of m r, Store.RequestID r);
  ab_result : result_of L c d = inr (Answered resp);
  ab_reply : ∃ q, last (stubs trc) = Some (m, q, inr (wire_reply resp)) ∧ enveloped q r;
  ab_after_send : ∃ tr1 e tr2 t, trc = tr1 ++ e :: tr2 ∧ is_Some (stub_of e) ∧
                    clock (h ++ tr1) = Some t ∧ t + off ≤ T }.

(** C3. Grants are honoured end to end.  Let a reply of the store grant time to an attempt, and let
    [dl] be the deadline the worker derived from it.  As long as the worker's clock shows less
    than [dl], so at every moment at which the worker starts the command or stores a file under
    this grant, the store still reserves the job for the attempt, with half a second to spare,
    unless the worker itself reported the end of the attempt or the job was cancelled; and no
    other attempt of the job is active unless this one was reported failed. *)
Theorem grants_are_honoured off L T T1 d c m r resp i x s self l h trc dl cs T2 d2 u :
  reached L T d → T ≤ T1 → during T T1 c → answered_by off L h trc T d c m r resp →
  grant_of r resp = Some (i, x, s) → granted self m l h trc dl →
  runs L T1 (after L c d) cs T2 d2 → T2 ≤ u + off → u < dl →
  ∃ a, Store.attempts d2 !! i = Some a ∧ Store.at_worker a = Store.WorkerID r ∧
    (Store.active (Store.at_state a) = true ∧ T2 + ms 500 < Store.at_expires a ∨
     Store.at_state a = Store.ASucceeded ∨ Store.at_state a = Store.AFailed ∨
     Store.at_state a = Store.ACancelled) ∧
    ∀ i' b, Store.attempts d2 !! i' = Some b → Store.at_job b = Store.at_job a →
      Store.active (Store.at_state b) = true → i' = i ∨ Store.at_state a = Store.AFailed.
Proof.
  intros Hreach HT Hd [Hop Hun Hres (q & Hlast & _) (tr1 & e & tr2 & t & Htr & Hstub & Hclock & Hoff)]
    Hg (q' & x' & s' & idle & body & Hlast' & _ & Hgrant) Hr Hu Hdl.
  unfold result_of, after, Store.transact in *. rewrite Hop in *. cbn [perform] in *.
  destruct (Store.RPC L m r (c_env c) 0%nat d) as [|[[resp' n] d1]] eqn:Hrpc.
  { unfold mbind, Store.tx_bind in Hres. by rewrite Hrpc in Hres. }
  unfold mbind, Store.tx_bind in Hres, Hr. rewrite Hrpc in Hres, Hr. simpl in Hres, Hr.
  injection Hres as ->.
  destruct (rpc_written _ _ _ _ _ _ _ _ _ _ _ Hun Hrpc Hg) as (a & k & Ha & Hact & Hx & Hw & Hs).
  assert (x' = x ∧ s' = s) as [-> ->].
  { rewrite Hlast in Hlast'. destruct resp; simpl in Hlast', Hg; simplify_eq/=; done. }
  destruct (Hgrant tr1 e tr2 Htr Hstub) as (t' & Ht' & Hle). assert (t' = t) as -> by congruence.
  destruct Hd as [He Hbound]. specialize (Hbound k) as Hk.
  assert (T2 + ms 500 < x) as HX by (unfold ms in *; lia).
  assert (reached L T1 d1) as Hreach1.
  { destruct Hreach as (T0 & cs0 & Hruns). exists T0, (cs0 ++ [c]). eapply runs_app; [exact Hruns|].
    eapply (runs_cons L T T1 T1); [done|done|]. unfold after, Store.transact. rewrite Hop. cbn [perform].
    unfold mbind, Store.tx_bind. rewrite Hrpc. constructor. }
  destruct (runs_reserved L T1 d1 cs T2 d2 i a x Hreach1 Ha Hact) as (a' & Ha' & Hj' & Hw' & _ & Hst & Hother);
    [lia|done|unfold ms in *; lia|].
  exists a'. split_and!; [done|congruence| |].
  - destruct Hst as [[? ?]|Hst]; [left; split; [done|lia]|by right].
  - intros i' b Hb Hjb. apply Hother; [done|congruence].
Qed.

(** ** Two answers that stop an attempt *)
(** C26. A job submitted without environment never runs.  The store accepts it (the nil map is
    valid), every lease of it carries [null] for the environment, and an attempt on such a lease
    ends in the exception of the dictionary merge: no command is started and no attempt is ever
    reported complete. *)
Theorem job_without_environment_never_runs l dl fuel self tr r :
  Store.Environment (Store.Definition_ (Store.l_job l)) = None →
  traces (execute fuel self (Lease (wire_body l) dl)) tr r →
  Forall (λ e, ¬ starts_or_completes (projT1 e)) tr.
Proof. intros Henv. apply null_environment_stops. simpl. by rewrite Henv. Qed.

Lemma attempt_event_storable m r j e n d x :
  Store.attempt_event m r j e n d = inr x → forallb Store.text_ok (default [] (Store.Logs r)) = true.
Proof.
  destruct x as [[a n'] d']. intros H. unfold Store.attempt_event in H. tx_step H.
  unfold Store.event in Hp. tx_step Hp. simpl in Hg. rewrite !andb_true_iff in Hg.
  destruct Hg as (Hlogs & _). destruct (Store.Logs r) as [ls|]; [|done]. simpl in *.
  clear -Hlogs. induction ls as [|s ls IH]; [done|]. simpl in *. apply andb_true_iff in Hlogs as [-> ?].
  by apply IH.
Qed.

(** C27. A progress report with a character 0 in a log line is never accepted: the event that would
    record it cannot be stored, the transaction is undone, and the worker gets an error.  The
    worker sends such a line whenever the command writes a byte 0 (see the witness). *)
Theorem report_with_nul_refused L r e d :
  Exists (λ line, Store.text_ok line = false) (default [] (Store.Logs r)) →
  nonempty (Store.AttemptID r) = true →
  unanswered d (scope_of ReportProgress r, Store.RequestID r) →
  ∃ x, Store.transact (Store.RPC L ReportProgress r) e d = (inl x, d).
Proof.
  intros Hnul Hid Hun. unfold Store.transact.
  destruct (Store.RPC L ReportProgress r e 0%nat d) as [x|[[resp n'] d1]] eqn:Hrpc; [by eauto|]. exfalso.
  destruct (rpc_scope_unanswered _ _ _ _ _ _ _ _ Hun Hrpc) as (d0 & d2 & _ & _ & Hrun & _).
  apply dispatch_inr in Hrun as (w & _ & _ & (j & a & _ & H)%attempt_inr).
  apply bind_inr in H as (u & n2 & d3 & _ & H). apply attempt_event_storable in H.
  rewrite forallb_forall in H. apply Exists_exists in Hnul as (line & Hin & Hline).
  apply list_elem_of_In, H in Hin. congruence.
Qed.

(** ** Witnesses *)
(** The worker's [LeaseJob] call, answered by the store of the concrete run. *)
Definition demo_answer : Store.response :=
  match result_of 15 demo_lease demo_queued with
  | inr (Answered resp) => resp
  | _ => Store.Idle
  end.
Definition demo_lease_call : outcome result * list wevent :=
  run (demo_env (λ _ _ _, inr (wire_reply demo_answer)) (λ _, EmptyString) 0 [])
    (Rpc.call (MkRPC "w1" "s1") LeaseJob None (sec 5) 2 (Some "r2") []) [].
(** The deadline the worker derived: its clock showed 0 when it began, the lease is 15 s long and
    was granted by a clock that moved 3 µs during the transaction. *)
Definition demo_deadline : Z := ms 14500 - 3.

Lemma demo_granted :
  granted (MkRPC "w1" "s1") LeaseJob None [] demo_lease_call.2 demo_deadline.
Proof.
  destruct demo_lease_call as [o tr] eqn:Hrun. pose proof (run_traces _ _ _ _ _ Hrun) as Htr.
  assert (∃ res, o = Ok res ∧ res_deadline res = Some demo_deadline) as (res & -> & Hres).
  { assert (o = demo_lease_call.1) as -> by by rewrite Hrun. eexists. split; by vm_compute. }
  eapply call_granted; [exact Htr| |exact Hres].
  assert (tr = demo_lease_call.2) as -> by by rewrite Hrun. by vm_compute.
Qed.

(** The send of the call. *)
Definition demo_send : wevent := default (ev PoolShutdown tt) (demo_lease_call.2 !! 2%nat).

Lemma demo_answered :
  answered_by (sec 2 - ms 1) 15 [] demo_lease_call.2 (sec 2 + 50) demo_queued demo_lease LeaseJob
    demo_lease_request demo_answer.
Proof.
  split.
  - reflexivity.
  - intros h r. by vm_compute.
  - by vm_compute.
  - eexists. split; [by vm_compute|]. by repeat split.
  - assert (demo_lease_call.2 !! 2%nat = Some demo_send) as Hsend by by vm_compute.
    eexists (take 2 demo_lease_call.2), demo_send, _, (ms 1).
    split; [symmetry; by apply take_drop_middle|].
    split; [vm_compute; by eexists|]. split; [by vm_compute|]. unfold sec, ms. lia.
Qed.

Lemma demo_started : runs 15 (sec 3 + 50) (after 15 demo_lease demo_queued) [demo_start] (sec 4 + 50) demo_running.
Proof.
  change (after 15 demo_lease demo_queued) with demo_leased.
  apply (demo_next (sec 3 + 50) (sec 3 + 50) demo_leased [] 4); [constructor|unfold sec; lia].
Qed.

Lemma grants_are_honoured_witness :
  ∃ a, Store.attempts demo_running !! demo_attempt_id = Some a ∧ Store.at_worker a = "w1" ∧
    (Store.active (Store.at_state a) = true ∧ sec 4 + 50 + ms 500 < Store.at_expires a ∨
     Store.at_state a = Store.ASucceeded ∨ Store.at_state a = Store.AFailed ∨
     Store.at_state a = Store.ACancelled) ∧
    ∀ i' b, Store.attempts demo_running !! i' = Some b → Store.at_job b = Store.at_job a →
      Store.active (Store.at_state b) = true → i' = demo_attempt_id ∨ Store.at_state a = Store.AFailed.
Proof.
  assert (∃ x s, grant_of demo_lease_request demo_answer = Some (demo_attempt_id, x, s)) as (x & s & Hg)
    by (do 2 eexists; by vm_compute).
  eapply (grants_are_honoured (sec 2 - ms 1) 15 (sec 2 + 50) (sec 3 + 50) demo_queued demo_lease LeaseJob
    demo_lease_request demo_answer demo_attempt_id x s (MkRPC "w1" "s1") None [] demo_lease_call.2
    demo_deadline [demo_start] (sec 4 + 50) demo_running (sec 3)).
  - exact demo_queued_reached.
  - unfold sec. lia.
  - apply (demo_during 3). unfold sec. lia.
  - exact demo_answered.
  - exact Hg.
  - exact demo_granted.
  - exact demo_started.
  - unfold sec, ms. lia.
  - unfold demo_deadline, sec, ms. lia.
Defined.

Lemma job_without_environment_never_runs_witness :
  ∃ l, demo_answer = Store.Leased l ∧
    Forall (λ e, ¬ starts_or_completes (projT1 e))
      (run (demo_env demo_ack (λ _, "abc") 0 [])
         (execute 5 demo_worker (Lease (wire_body l) (Some (sec 15)))) []).2.
Proof.
  assert (∃ l, demo_answer = Store.Leased l ∧ Store.Environment (Store.Definition_ (Store.l_job l)) = None)
    as (l & Hl & Henv) by (eexists; split; by vm_compute).
  exists l. split; [exact Hl|].
  eapply (job_without_environment_never_runs l (Some (sec 15)) 5 demo_worker); [exact Henv|].
  apply traces_run.
Defined.

(** A command that writes ["a"], a byte 0, ["b"] and a newline; the line the worker reports. *)
Definition demo_chunk : string :=
  String "a" (String Ascii.zero (String "b" (String newline EmptyString))).
Definition demo_nul_report : Store.Request :=
  Store.MkRequest "r9" "w1" "s1" demo_attempt_id demo_token EmptyString (Store.MkResources 0 0 0) 0
    EmptyString (Some [line_text demo_chunk]) None.

Lemma report_with_nul_refused_witness :
  ∃ x, Store.transact (Store.RPC 15 ReportProgress demo_nul_report) (demo_at 5) demo_running
       = (inl x, demo_running).
Proof.
  apply (report_with_nul_refused 15 demo_nul_report).
  - left. by vm_compute.
  - by vm_compute.
  - intros h q. by vm_compute.
Defined.
