(* ===== verification/WireText.v ===== *)
(** * WireText: the answers and payloads as text (rpc.py, internal/api/grpc.go)

    What travels between worker and control plane is JSON text.  [response_json] is the value the
    server marshals for each answer of the store; the worker reads it back ([reply_of_text]), also
    when it is a receipt that the database stored and printed again with its keys in another
    order.  [request_of] is what [WorkerServer.call] makes of the envelope and payload of a
    request. *)
From S2P Require Import Prelude Effects PyStr Utf8 Json JsonParse JsonRound Calendar Times Sha256 Wire World.
From S2P Require Import Rpc Artifacts Worker WorkerSafety Logs Control ControlSpec ControlRefine ControlProps EndToEnd.
Local Open Scope string_scope.
Local Open Scope list_scope.
Local Open Scope Z_scope.

#[local] Ltac Zify.zify_post_hook ::= Z.to_euclidean_division_equations.

(** ** [json.Marshal] is read back *)
Definition go_layout : layout :=
  Layout Store.go_quote (λ _, EmptyString) (λ _, EmptyString) (λ _, EmptyString) EmptyString.

Lemma parse_str_go1 c t :
  (N_of_ascii c <? 128)%N = true →
  parse_str (Store.go_char c +:+ t) =
  match parse_str t with Some (a, b) => Some (String c a, b) | None => None end.
Proof.
  destruct c as [[] [] [] [] [] [] [] []]; intros Hc; try discriminate Hc; reflexivity.
Qed.

Lemma parse_str_go s rest :
  ascii_ok s = true → parse_str (Store.go_escape s +:+ String dquote rest) = Some (s, rest).
Proof.
  induction s as [|c s IH]; intros Hs; [done|].
  cbn [ascii_ok] in Hs. apply andb_true_iff in Hs as [Hc Hs].
  assert (Store.go_escape (String c s) = Store.go_char c +:+ Store.go_escape s) as ->.
  { cbn [Store.go_escape]. assert ((N_of_ascii c =? 226)%N = false) as ->; [|by destruct s as [|? []]].
    apply N.ltb_lt in Hc. apply N.eqb_neq. lia. }
  by rewrite string_app_assoc, parse_str_go1, IH.
Qed.

(** Beyond ASCII characters are left as they are, but for U+2028 and U+2029. *)
Lemma go_raw c r :
  (128 <=? N_of_ascii c)%N = true → (N_of_ascii c =? 226)%N = false →
  Store.go_escape (String c r) = String c (Store.go_escape r).
Proof.
  intros Hc Hn. assert (Store.go_char c = String c EmptyString) as Hg.
  { destruct c as [[] [] [] [] [] [] [] []]; try discriminate Hc; reflexivity. }
  cbn [Store.go_escape]. rewrite Hn. destruct r as [|c1 [|c2 r]]; cbn [andb]; by rewrite Hg.
Qed.

Lemma parse_raw c t :
  (128 <=? N_of_ascii c)%N = true →
  parse_str (String c t) = match parse_str t with Some (a, b) => Some (String c a, b) | None => None end.
Proof. destruct c as [[] [] [] [] [] [] [] []]; intros Hc; try discriminate Hc; reflexivity. Qed.

Lemma byte_raw b : (128 ≤ b < 256)%N → (128 <=? N_of_ascii (ascii_of_N b))%N = true.
Proof. intros Hb. rewrite N_of_byte by lia. apply N.leb_le. lia. Qed.
Lemma byte_not_226 b : (128 ≤ b < 256)%N → b ≠ 226%N → (N_of_ascii (ascii_of_N b) =? 226)%N = false.
Proof. intros Hb Hne. rewrite N_of_byte by lia. by apply N.eqb_neq. Qed.

(** Three bytes: the separators are escaped, the others are not. *)
Lemma parse_go_three n r t :
  (2048 ≤ n < 65536)%N → scalar n = true →
  parse_str (Store.go_escape (encode_cp n +:+ r) +:+ t) = cons_cp n (parse_str (Store.go_escape r +:+ t)).
Proof.
  unfold scalar. rewrite orb_true_iff, andb_true_iff, N.ltb_lt, !N.leb_le. intros Hn Hs.
  assert (encode_cp n = String (ascii_of_N (224 + n / 4096)) (String (ascii_of_N (128 + n / 64 mod 64))
    (String (ascii_of_N (128 + n mod 64)) EmptyString))) as He.
  { unfold encode_cp. by rewrite (proj2 (N.ltb_ge n 128)), (proj2 (N.ltb_ge n 2048)),
      (proj2 (N.ltb_lt n 65536)) by lia. }
  destruct (decide (n = 8232 ∨ n = 8233)%N) as [Hsep|Hsep].
  - assert (Store.go_escape (encode_cp n +:+ r) = u_escape n +:+ Store.go_escape r) as ->
      by (destruct Hsep as [-> | ->]; reflexivity).
    rewrite string_app_assoc. apply parse_u_escape; [lia|]. rewrite andb_false_iff, !N.leb_gt. lia.
  - unfold cons_cp. rewrite He, !string_cons_app. change (EmptyString +:+ r) with r.
    set (c := ascii_of_N (224 + n / 4096)). set (c1 := ascii_of_N (128 + n / 64 mod 64)).
    set (c2 := ascii_of_N (128 + n mod 64)).
    assert (Store.go_escape (String c (String c1 (String c2 r)))
            = Store.go_char c +:+ Store.go_escape (String c1 (String c2 r))) as ->.
    { assert (((N_of_ascii c =? 226) && (N_of_ascii c1 =? 128) &&
               ((N_of_ascii c2 =? 168) || (N_of_ascii c2 =? 169)))%N = false) as Hf.
      { apply not_true_iff_false. rewrite !andb_true_iff, orb_true_iff, !N.eqb_eq.
        unfold c, c1, c2. rewrite !N_of_byte by lia. lia. }
      cbn [Store.go_escape]. by rewrite Hf. }
    assert (Store.go_char c = String c EmptyString) as ->.
    { assert ((128 <=? N_of_ascii c)%N = true) as Hc by (apply byte_raw; lia).
      clear -Hc. destruct c as [[] [] [] [] [] [] [] []]; try discriminate Hc; reflexivity. }
    rewrite !go_raw by (apply byte_raw || apply byte_not_226; lia).
    rewrite !string_cons_app. change (EmptyString +:+ ?x) with x. rewrite !string_cons_app.
    rewrite !parse_raw by (apply byte_raw; lia). by destruct (parse_str _) as [[]|].
Qed.

Lemma parse_go_cp n r t :
  scalar n = true →
  parse_str (Store.go_escape (encode_cp n +:+ r) +:+ t) = cons_cp n (parse_str (Store.go_escape r +:+ t)).
Proof.
  intros Hs. destruct (decide (2048 ≤ n < 65536)%N); [by apply parse_go_three|].
  revert Hs. unfold scalar. rewrite orb_true_iff, andb_true_iff, N.ltb_lt, !N.leb_le. intros Hn.
  unfold cons_cp, encode_cp. destruct (N.ltb_spec n 128) as [H1|H1].
  { rewrite string_cons_app. change (EmptyString +:+ r) with r.
    assert (Store.go_escape (String (ascii_of_N n) r) = Store.go_char (ascii_of_N n) +:+ Store.go_escape r) as ->.
    { cbn [Store.go_escape]. rewrite N_of_byte by lia. rewrite (proj2 (N.eqb_neq n 226)) by lia.
      by destruct r as [|? []]. }
    rewrite string_app_assoc. apply parse_str_go1. rewrite N_of_byte by lia. by apply N.ltb_lt. }
  destruct (N.ltb_spec n 2048) as [H2|H2]; [|destruct (N.ltb_spec n 65536); [lia|]].
  all: rewrite !string_cons_app; change (EmptyString +:+ r) with r.
  all: rewrite !go_raw by (apply byte_raw || apply byte_not_226; lia).
  all: rewrite !string_cons_app, !parse_raw by (apply byte_raw; lia).
  all: by destruct (parse_str _) as [[]|].
Qed.

Lemma parse_str_go_utf8 s rest :
  utf8_ok s = true → parse_str (Store.go_escape s +:+ String dquote rest) = Some (s, rest).
Proof.
  intros (cps & -> & Hall)%utf8_ok_encode. induction Hall as [|n cps Hn _ IH]; [done|].
  cbn [encode]. rewrite parse_go_cp by done. by rewrite IH.
Qed.

#[export] Instance go_layout_ok : LayoutOk go_layout.
Proof.
  split; try done. intros s Hs. eexists. split; [reflexivity|]. intros rest.
  rewrite string_app_assoc, string_cons_app. unfold str_ok in Hs.
  apply orb_true_iff in Hs as [Hs|Hs]; [by apply parse_str_go|by apply parse_str_go_utf8].
Qed.

Lemma print_go d v : print go_layout d v = Store.Marshal v.
Proof.
  revert d. induction v as [|[]|z|s|l IH|l IH] using json_nested_ind; intros d; try done;
    (destruct l as [|x l]; [done|]); cbn [print Store.Marshal go_layout y_pre y_gap y_post y_colon y_quote];
    fold go_layout.
  - rewrite (map_ext_Forall _ (print go_layout (S d)) Store.Marshal) with (2 := IH) by (intros z Hz; apply Hz). done.
  - erewrite (map_ext_Forall _ _ (λ kv, Store.go_quote kv.1 +:+ ":" +:+ Store.Marshal kv.2)) with (2 := IH); [done|].
    intros kv Hkv. by rewrite Hkv.
Qed.

Lemma loads_Marshal v : json_ok v = true → loads (Store.Marshal v) = Some v.
Proof. rewrite <- (print_go 0). apply (loads_print go_layout). Qed.

(** ** Values up to the order of members *)
Inductive same : json → json → Prop :=
| same_refl v : same v v
| same_arr l l' : Forall2 same l l' → same (JArr l) (JArr l')
| same_obj l m l' :
    l ≡ₚ m → Forall2 (λ a b : string * json, a.1 = b.1 ∧ same a.2 b.2) m l' → same (JObj l) (JObj l').

(** ** The answers *)
Section Answers.
(** The offset of the server's time zone, in minutes, at an instant. *)
Context (zone_at : Z → Z).

Definition time_json (t : Z) : json := JStr (rfc3339 (zone_at t) t).

Definition state_name (st : Store.job_state) : string :=
  match st with
  | Store.QUEUED => "QUEUED" | Store.LEASED => "LEASED" | Store.RUNNING => "RUNNING"
  | Store.SUCCEEDED => "SUCCEEDED" | Store.FAILED => "FAILED" | Store.CANCELLED => "CANCELLED"
  end.

Definition jobrow_json (j : Store.JobRow) : json :=
  JObj [("id", JStr (Store.ID j)); ("definition", Store.job_json (Store.Definition_ j));
        ("state", JStr (state_name (Store.State j))); ("max_attempts", JNum (Store.MaxAttempts j));
        ("created_at", time_json (Store.CreatedAt j)); ("updated_at", time_json (Store.UpdatedAt j))].

Definition lease_json (l : Store.LeaseAnswer) : json :=
  JObj ([("job", jobrow_json (Store.l_job l)); ("attempt_id", JStr (Store.l_attempt l));
         ("attempt_number", JNum (Store.l_number l)); ("lease_token", JStr (Store.l_token l));
         ("lease_expires_at", time_json (Store.l_expires l)); ("server_time", time_json (Store.l_server l))]
        ++ match Store.l_checkpoint l with
           | Some a => [("checkpoint", Store.artifact_json a)]
           | None => []
           end).

Definition response_json (resp : Store.response) : json :=
  match resp with
  | Store.Registered => JObj [("registered", JBool true)]
  | Store.Idle => JObj [("idle", JBool true)]
  | Store.Leased l => lease_json l
  | Store.Released => JObj [("released", JBool true)]
  | Store.Alive => JObj [("alive", JBool true)]
  | Store.Renewed x s => JObj [("lease_expires_at", time_json x); ("server_time", time_json s)]
  | Store.Accepted => JObj [("accepted", JBool true)]
  | Store.JobAnswer j => jobrow_json j
  end.
End Answers.

(** *** What the worker reads *)
Definition as_str (v : json) : option string := match v with JStr s => Some s | _ => None end.
Definition as_num (v : json) : option Z := match v with JNum z => Some z | _ => None end.
Definition as_dict (v : json) : option (list (string * json)) := match v with JObj d => Some d | _ => None end.
Definition as_list (v : json) : option (list json) := match v with JArr l => Some l | _ => None end.

Definition str_at (d : list (string * json)) (k : string) : option string := dict_get d k ≫= as_str.
Definition num_at (d : list (string * json)) (k : string) : option Z := dict_get d k ≫= as_num.

Definition artifact_of (v : json) : option artifact :=
  d ← as_dict v; k ← str_at d "object_key"; t ← str_at d "content_type"; n ← num_at d "size_bytes";
  c ← str_at d "checksum"; kd ← str_at d "kind"; Some (Artifact k t n c kd).

Definition is_str (v : json) : bool := match v with JStr _ => true | _ => false end.
Definition env_of (v : json) : option (field (gmap string string)) :=
  match v with
  | JNull => Some Null
  | JObj d => if forallb (λ kv : string * json, is_str kv.2) d
              then Some (Value (list_to_map ((λ kv, (kv.1, default EmptyString (as_str kv.2))) <$> d)))
              else None
  | _ => None
  end.
(** [d.get(k, default)]: absent, or what is there. *)
Definition field_at {A} (f : json → option (field A)) (d : list (string * json)) (k : string) : option (field A) :=
  match dict_get d k with None => Some Absent | Some v => f v end.

Definition prefix_of_json (v : json) : option (field string) :=
  match v with JNull => Some Null | JStr s => Some (Value s) | _ => None end.

Definition argv_of_json (v : json) : option (list string) := as_list v ≫= mapM as_str.

Definition definition_of (v : json) : option definition :=
  d ← as_dict v; argv ← dict_get d "command" ≫= argv_of_json;
  e ← field_at env_of d "environment"; p ← field_at prefix_of_json d "artifact_prefix";
  Some (Definition_ argv e p).

(** [lease.get("checkpoint")], when it is there. *)
Definition checkpoint_of (v : json) : option (option artifact) :=
  match v with JNull => Some None | _ => Some <$> artifact_of v end.

(** The keys of a lease; a dictionary of another shape is none. *)
Definition body_of (d : list (string * json)) : option lease_body :=
  job ← dict_get d "job" ≫= as_dict; id ← str_at job "id"; df ← dict_get job "definition" ≫= definition_of;
  a ← str_at d "attempt_id"; n ← num_at d "attempt_number"; t ← str_at d "lease_token";
  c ← match dict_get d "checkpoint" with
      | None => Some None
      | Some v => checkpoint_of v
      end;
  Some (LeaseBody id df a n t c).

(** [bool(result.get("idle"))], for the values the model has. *)
Definition truthy (v : json) : bool :=
  match v with
  | JNull | JBool false | JNum 0 | JStr EmptyString | JArr [] | JObj [] => false
  | _ => true
  end.
Definition idle_of (d : list (string * json)) : bool :=
  match dict_get d "idle" with Some v => truthy v | None => false end.

Definition instant_at (d : list (string * json)) (k : string) : option Z := str_at d k ≫= parse_instant.

Definition reply_of_json (v : json) : reply :=
  match v with
  | JObj d =>
      match dict_get d "lease_expires_at" with
      | None => Reply None None (idle_of d) (body_of d)
      | Some _ =>
          match instant_at d "lease_expires_at" with
          | None => Malformed
          | Some x =>
              match dict_get d "server_time", instant_at d "server_time" with
              | None, _ => Reply (Some x) None (idle_of d) (body_of d)
              | Some _, None => Malformed
              | Some _, Some s => Reply (Some x) (Some s) (idle_of d) (body_of d)
              end
          end
      end
  | _ => Malformed
  end.

Definition reply_of_text (text : string) : reply :=
  match loads text with Some v => reply_of_json v | None => Malformed end.

(** *** Reading does not depend on the order of members *)
Lemma ok_keys l : json_ok (JObj l) = true → NoDup (map fst l).
Proof. cbn [json_ok]. by intros [_ ?%bool_decide_eq_true]%andb_true_iff. Qed.

Lemma ok_get l k v : json_ok (JObj l) = true → dict_get l k = Some v → json_ok v = true.
Proof.
  cbn [json_ok]. intros [Hall _]%andb_true_iff Hk%dict_get_elem. rewrite forallb_forall in Hall.
  apply list_elem_of_In in Hk. specialize (Hall _ Hk). by apply andb_true_iff in Hall as [_ ?].
Qed.

(** The value of a key, in both. *)
Lemma same_get l l' k :
  json_ok (JObj l) = true → same (JObj l) (JObj l') →
  option_Forall2 same (dict_get l k) (dict_get l' k).
Proof.
  intros Hok Hs. inversion Hs as [| |? m ? Hp Hall]; subst.
  - destruct (dict_get l' k); constructor. apply same_refl.
  - rewrite <- (dict_get_perm l m k (ok_keys _ Hok) Hp). clear Hs Hp Hok.
    induction Hall as [|[k1 v1] [k2 v2] m l' [Hk Hv] _ IH]; [constructor|]. simpl in Hk. subst k2.
    cbn [dict_get]. destruct (String.eqb k k1); [by constructor|done].
Qed.

(** Readings that do not see the order. *)
Definition blind {A} (f : json → A) : Prop := ∀ v v', json_ok v = true → same v v' → f v = f v'.

Lemma blind_at {A} (f : json → option A) l l' k :
  blind f → json_ok (JObj l) = true → same (JObj l) (JObj l') → dict_get l k ≫= f = dict_get l' k ≫= f.
Proof.
  intros Hf Hok Hs. pose proof (same_get l l' k Hok Hs) as H.
  destruct (dict_get l k) as [v|] eqn:Hv; inversion H; subst; simpl; [|done].
  apply Hf; [by eapply ok_get|done].
Qed.

Lemma blind_dict {A} (f : list (string * json) → option A) :
  (∀ l l', json_ok (JObj l) = true → same (JObj l) (JObj l') → f l = f l') →
  blind (λ v, as_dict v ≫= f).
Proof.
  intros Hf v v' Hok Hs. destruct v as [| | | | |l]; try by inversion Hs.
  assert (∃ l', v' = JObj l') as [l' ->] by (inversion Hs; eauto). simpl. by apply Hf.
Qed.

Lemma blind_str : blind as_str.
Proof. intros v v' _ Hs. by inversion Hs. Qed.
Lemma blind_num : blind as_num.
Proof. intros v v' _ Hs. by inversion Hs. Qed.
Lemma blind_prefix : blind prefix_of_json.
Proof. intros v v' _ Hs. by inversion Hs. Qed.
Lemma blind_truthy : blind truthy.
Proof.
  intros v v' _ Hs. inversion Hs as [|l l' Hl|l m l' Hp Hl]; subst; [done| |].
  - by destruct Hl.
  - apply Forall2_length in Hl. apply Permutation_length in Hp. destruct l, l'; simpl in *; (done || lia).
Qed.

Lemma blind_argv : blind argv_of_json.
Proof.
  intros v v' Hok Hs. unfold argv_of_json. inversion Hs as [|l l' Hl|]; subst; [done| |done]. simpl.
  cbn [json_ok] in Hok. clear Hs.
  induction Hl as [|x y l l' Hxy _ IH]; [done|]. cbn [forallb] in Hok. apply andb_true_iff in Hok as [Hx Hl].
  cbn [mapM]. rewrite (blind_str _ _ Hx Hxy). destruct (as_str y); [|done]. simpl.
  by rewrite IH.
Qed.

Lemma blind_env : blind env_of.
Proof.
  intros v v' Hok Hs. inversion Hs as [| |l m l' Hp Hl]; subst; [done|done|]. cbn [env_of].
  set (g := λ kv : string * json, (kv.1, default EmptyString (as_str kv.2))).
  assert (forallb (λ kv, is_str kv.2) m = forallb (λ kv, is_str kv.2) l' ∧ g <$> m = g <$> l') as [H1 H2].
  { clear Hs Hp. induction Hl as [|[k v] [k' v'] m l' [Hk Hv] _ [IH1 IH2]]; [done|]. simpl in Hk, Hv. subst k'.
    cbn [forallb snd]. rewrite IH1. split.
    - f_equal. by inversion Hv.
    - rewrite !fmap_cons. f_equal; [|done]. unfold g. simpl. by inversion Hv. }
  assert (forallb (λ kv, is_str kv.2) l = forallb (λ kv, is_str kv.2) m) as ->.
  { apply eq_true_iff_eq. rewrite !forallb_forall. setoid_rewrite <- list_elem_of_In.
    by setoid_rewrite Hp. }
  rewrite H1. destruct (forallb _ l'); [|done]. do 2 f_equal. rewrite <- H2. apply list_to_map_proper.
  - rewrite <- list_fmap_compose. change (fst ∘ g) with (@fst string json). by apply ok_keys.
  - by rewrite Hp.
Qed.

Lemma blind_artifact : blind artifact_of.
Proof.
  apply blind_dict. intros l l' Hok Hs. unfold str_at, num_at.
  by rewrite !(blind_at as_str l l' _ blind_str Hok Hs), (blind_at as_num l l' _ blind_num Hok Hs).
Qed.

Lemma blind_checkpoint : blind checkpoint_of.
Proof.
  intros v v' Hok Hs. unfold checkpoint_of. rewrite (blind_artifact _ _ Hok Hs). by inversion Hs.
Qed.

Lemma blind_field {A} (f : json → option (field A)) l l' k :
  blind f → json_ok (JObj l) = true → same (JObj l) (JObj l') → field_at f l k = field_at f l' k.
Proof.
  intros Hf Hok Hs. unfold field_at. pose proof (same_get l l' k Hok Hs) as H.
  destruct (dict_get l k) as [v|] eqn:Hv; inversion H; subst; [|done].
  apply Hf; [by eapply ok_get|done].
Qed.

Lemma blind_definition : blind definition_of.
Proof.
  apply blind_dict. intros l l' Hok Hs.
  by rewrite (blind_at argv_of_json l l' _ blind_argv Hok Hs), (blind_field env_of l l' _ blind_env Hok Hs),
    (blind_field prefix_of_json l l' _ blind_prefix Hok Hs).
Qed.

(** The two keys of the job at once. *)
Definition job_of (v : json) : option (string * definition) :=
  job ← as_dict v; id ← str_at job "id"; df ← dict_get job "definition" ≫= definition_of; Some (id, df).
Lemma blind_job : blind job_of.
Proof.
  apply blind_dict. intros l l' Hok Hs. unfold str_at.
  by rewrite (blind_at as_str l l' _ blind_str Hok Hs), (blind_at definition_of l l' _ blind_definition Hok Hs).
Qed.
Lemma body_of_job d :
  body_of d =
  ('(id, df) ← dict_get d "job" ≫= job_of;
   a ← str_at d "attempt_id"; n ← num_at d "attempt_number"; t ← str_at d "lease_token";
   c ← match dict_get d "checkpoint" with None => Some None | Some v => checkpoint_of v end;
   Some (LeaseBody id df a n t c)).
Proof.
  unfold body_of, job_of. destruct (dict_get d "job") as [v|]; [|done]. simpl.
  destruct (as_dict v) as [job|]; [|done]. simpl. destruct (str_at job "id") as [id|]; [|done]. simpl.
  by destruct (dict_get job "definition" ≫= definition_of).
Qed.

Section Same.
Context (l l' : list (string * json)) (Hok : json_ok (JObj l) = true) (Hs : same (JObj l) (JObj l')).

Lemma same_body : body_of l = body_of l'.
Proof using Hok Hs.
  rewrite !body_of_job. unfold str_at, num_at.
  rewrite (blind_at job_of l l' _ blind_job Hok Hs), !(blind_at as_str l l' _ blind_str Hok Hs),
    (blind_at as_num l l' _ blind_num Hok Hs).
  pose proof (same_get l l' "checkpoint" Hok Hs) as H.
  destruct (dict_get l "checkpoint") as [v|] eqn:Hv; inversion H; subst; [|done].
  by rewrite (blind_checkpoint v y) by (done || by eapply ok_get).
Qed.

Lemma same_idle : idle_of l = idle_of l'.
Proof using Hok Hs.
  unfold idle_of. pose proof (same_get l l' "idle" Hok Hs) as H.
  destruct (dict_get l "idle") as [v|] eqn:Hv; inversion H; subst; [|done].
  apply blind_truthy; [by eapply ok_get|done].
Qed.

Lemma same_instant k : instant_at l k = instant_at l' k.
Proof using Hok Hs. unfold instant_at, str_at. by rewrite (blind_at as_str l l' k blind_str Hok Hs). Qed.
End Same.

Lemma same_reply v v' : json_ok v = true → same v v' → reply_of_json v = reply_of_json v'.
Proof.
  intros Hok Hs. destruct v as [| | | | |l]; try by inversion Hs.
  assert (∃ l', v' = JObj l') as [l' ->] by (inversion Hs; eauto). cbn [reply_of_json].
  rewrite (same_body l l' Hok Hs), (same_idle l l' Hok Hs), !(same_instant l l' Hok Hs).
  pose proof (same_get l l' "lease_expires_at" Hok Hs) as H1.
  pose proof (same_get l l' "server_time" Hok Hs) as H2. by destruct H1; [destruct H2|].
Qed.

(** *** What is read of an answer *)
Lemma insert_pair_perm x l : Store.insert_pair x l ≡ₚ x :: l.
Proof.
  induction l as [|y l IH]; [done|]. cbn [Store.insert_pair]. destruct (String.leb _ _); [done|].
  rewrite IH. apply Permutation_swap.
Qed.
Lemma sorted_pairs_perm l : foldr Store.insert_pair [] l ≡ₚ l.
Proof. induction l as [|x l IH]; [done|]. cbn [foldr]. by rewrite insert_pair_perm, IH. Qed.

Lemma env_of_map m : env_of (Store.map_json m) = Some (Value m).
Proof.
  unfold Store.map_json, env_of.
  rewrite <- list_fmap_compose. set (l := foldr Store.insert_pair [] (map_to_list m)).
  assert (forallb (λ kv : string * json, is_str kv.2) ((λ kv : string * string, (kv.1, JStr kv.2)) <$> l) = true) as ->.
  { induction l as [|x l IH]; [done|]. by rewrite fmap_cons. }
  do 2 f_equal. rewrite (list_fmap_ext _ id) by by intros i [k v]. rewrite list_fmap_id.
  rewrite <- (list_to_map_to_list m). apply list_to_map_proper.
  - assert (l ≡ₚ map_to_list m) as -> by apply sorted_pairs_perm. apply NoDup_fst_map_to_list.
  - apply sorted_pairs_perm.
Qed.

Lemma argv_of_strings l : argv_of_json (JArr (JStr <$> l)) = Some l.
Proof.
  change (mapM as_str (JStr <$> l) = Some l). induction l as [|c l IH]; [done|].
  rewrite fmap_cons. cbn [mapM as_str]. simpl. by rewrite IH.
Qed.

Lemma definition_of_job j : definition_of (Store.job_json j) = Some (wire_definition j).
Proof.
  change (definition_of (Store.job_json j)) with
    (argv ← argv_of_json (JArr (JStr <$> Store.Command j));
     e ← env_of (match Store.Environment j with Some m => Store.map_json m | None => JNull end);
     Some (Definition_ argv e (Value (Store.ArtifactPrefix j)))).
  rewrite argv_of_strings. unfold wire_definition.
  destruct (Store.Environment j) as [m|]; [by rewrite env_of_map|done].
Qed.

Lemma artifact_of_json a : artifact_of (Store.artifact_json a) = Some a.
Proof. by destruct a. Qed.

Definition times_of (resp : Store.response) : list Z :=
  match resp with
  | Store.Leased l => [Store.l_expires l; Store.l_server l]
  | Store.Renewed x s => [x; s]
  | _ => []
  end.

Lemma reply_of_response zone_at resp :
  Forall (λ t, writable (zone_at t) t) (times_of resp) →
  reply_of_json (response_json zone_at resp) = wire_reply resp.
Proof.
  destruct resp as [| |l| | |x s| |j]; try done; intros Ht; cbn [times_of] in Ht;
    apply Forall_cons in Ht as [Hx [Hs _]%Forall_cons].
  - assert (∀ d, body_of ([("job", jobrow_json zone_at (Store.l_job l)); ("attempt_id", JStr (Store.l_attempt l));
       ("attempt_number", JNum (Store.l_number l)); ("lease_token", JStr (Store.l_token l));
       ("lease_expires_at", time_json zone_at (Store.l_expires l));
       ("server_time", time_json zone_at (Store.l_server l))] ++ d) =
       (c ← match dict_get d "checkpoint" with None => Some None | Some v => checkpoint_of v end;
        Some (LeaseBody (Store.ID (Store.l_job l)) (wire_definition (Store.Definition_ (Store.l_job l)))
                (Store.l_attempt l) (Store.l_number l) (Store.l_token l) c))) as Hb.
    { intros d. rewrite body_of_job. unfold job_of, jobrow_json. simpl. by rewrite definition_of_job. }
    cbn [response_json wire_reply]. unfold lease_json. cbn [reply_of_json]. rewrite Hb.
    unfold instant_at, str_at, wire_body. simpl. rewrite !parse_rfc3339 by done.
    destruct (Store.l_checkpoint l) as [[]|]; done.
  - cbn [response_json reply_of_json wire_reply]. unfold instant_at, str_at. simpl.
    by rewrite !parse_rfc3339.
Qed.

(** C28. The worker reads what the server answers: the text of an answer, and every text the
    database makes of its receipt (the same members, in another order, laid out differently), is
    read as the answer the store gave, times exactly, in whatever time zone the server runs. *)
Theorem answer_is_read zone_at resp :
  json_ok (response_json zone_at resp) = true → Forall (λ t, writable (zone_at t) t) (times_of resp) →
  reply_of_text (Store.Marshal (response_json zone_at resp)) = wire_reply resp ∧
  ∀ text v, loads text = Some v → same (response_json zone_at resp) v →
    reply_of_text text = wire_reply resp.
Proof.
  intros Hok Ht. unfold reply_of_text. rewrite loads_Marshal by done. split; [by apply reply_of_response|].
  intros text v -> Hs. rewrite <- (same_reply _ _ Hok Hs). by apply reply_of_response.
Qed.

Lemma answer_is_read_witness :
  reply_of_text (Store.Marshal (response_json (λ _, 120) demo_answer)) = wire_reply demo_answer.
Proof.
  apply (answer_is_read (λ _, 120) demo_answer).
  - vm_compute. reflexivity.
  - repeat constructor; vm_compute; congruence.
Defined.

(** ** The payloads *)
(** *** [json.Decoder] with [DisallowUnknownFields], into a [store.Request]

    [null] leaves a field as it is; a value of another type, a number that is no 64-bit integer
    and a key that is no field (up to case) are errors.  The members of a payload have distinct
    keys, so that a slice is always decoded into nil. *)
Definition int64 (z : Z) : bool := (- 2 ^ 63 <=? z) && (z <? 2 ^ 63).

Definition dec_string (old : string) (v : json) : option string :=
  match v with JStr s => Some s | JNull => Some old | _ => None end.
Definition dec_int (old : Z) (v : json) : option Z :=
  match v with JNum z => if int64 z then Some z else None | JNull => Some old | _ => None end.
Definition dec_slice {A} (f : json → option A) (v : json) : option (option (list A)) :=
  match v with JNull => Some None | JArr l => Some <$> mapM f l | _ => None end.

Fixpoint dec_members {R} (set : string → json → R → option R) (d : list (string * json)) (r : R) : option R :=
  match d with
  | [] => Some r
  | (k, v) :: d => r ← set k v r; dec_members set d r
  end.
Definition dec_struct {R} (set : string → json → R → option R) (old : R) (v : json) : option R :=
  match v with JObj d => dec_members set d old | JNull => Some old | _ => None end.

Definition set_resource (k : string) (v : json) (r : Store.Resources) : option Store.Resources :=
  let k := Store.lower k in
  if String.eqb k "cpu" then z ← dec_int (Store.CPU r) v; Some (Store.MkResources z (Store.MemoryMB r) (Store.GPU r))
  else if String.eqb k "memory_mb" then
    z ← dec_int (Store.MemoryMB r) v; Some (Store.MkResources (Store.CPU r) z (Store.GPU r))
  else if String.eqb k "gpu" then
    z ← dec_int (Store.GPU r) v; Some (Store.MkResources (Store.CPU r) (Store.MemoryMB r) z)
  else None.

Definition set_artifact (k : string) (v : json) (a : artifact) : option artifact :=
  let '(Artifact o t n c kd) := a in
  let k := Store.lower k in
  if String.eqb k "object_key" then s ← dec_string o v; Some (Artifact s t n c kd)
  else if String.eqb k "content_type" then s ← dec_string t v; Some (Artifact o s n c kd)
  else if String.eqb k "size_bytes" then z ← dec_int n v; Some (Artifact o t z c kd)
  else if String.eqb k "checksum" then s ← dec_string c v; Some (Artifact o t n s kd)
  else if String.eqb k "kind" then s ← dec_string kd v; Some (Artifact o t n c s)
  else None.

Definition set_request (k : string) (v : json) (r : Store.Request) : option Store.Request :=
  let '(Store.MkRequest rid wid sid aid tok host res code reason logs arts) := r in
  let k := Store.lower k in
  if String.eqb k "request_id" then s ← dec_string rid v; Some (Store.MkRequest s wid sid aid tok host res code reason logs arts)
  else if String.eqb k "worker_id" then s ← dec_string wid v; Some (Store.MkRequest rid s sid aid tok host res code reason logs arts)
  else if String.eqb k "session_id" then s ← dec_string sid v; Some (Store.MkRequest rid wid s aid tok host res code reason logs arts)
  else if String.eqb k "attempt_id" then s ← dec_string aid v; Some (Store.MkRequest rid wid sid s tok host res code reason logs arts)
  else if String.eqb k "lease_token" then s ← dec_string tok v; Some (Store.MkRequest rid wid sid aid s host res code reason logs arts)
  else if String.eqb k "hostname" then s ← dec_string host v; Some (Store.MkRequest rid wid sid aid tok s res code reason logs arts)
  else if String.eqb k "resources" then
    x ← dec_struct set_resource res v; Some (Store.MkRequest rid wid sid aid tok host x code reason logs arts)
  else if String.eqb k "exit_code" then z ← dec_int code v; Some (Store.MkRequest rid wid sid aid tok host res z reason logs arts)
  else if String.eqb k "reason" then s ← dec_string reason v; Some (Store.MkRequest rid wid sid aid tok host res code s logs arts)
  else if String.eqb k "logs" then
    l ← dec_slice (dec_string EmptyString) v; Some (Store.MkRequest rid wid sid aid tok host res code reason l arts)
  else if String.eqb k "artifacts" then
    l ← dec_slice (dec_struct set_artifact (Artifact EmptyString EmptyString 0 EmptyString EmptyString)) v;
    Some (Store.MkRequest rid wid sid aid tok host res code reason logs l)
  else None.

Definition zero_request : Store.Request :=
  Store.MkRequest EmptyString EmptyString EmptyString EmptyString EmptyString EmptyString
    (Store.MkResources 0 0 0) 0 EmptyString None None.

(** [WorkerServer.call] up to the call of the store; [None] is [InvalidArgument]. *)
Definition request_of (q : request) : option Store.Request :=
  r ← (if nonempty (rq_payload_json q)
       then v ← loads (rq_payload_json q); dec_struct set_request zero_request v
       else Some zero_request);
  Some (Store.MkRequest (rq_request_id q) (rq_worker_id q) (rq_session_id q) (rq_attempt_id q)
          (rq_lease_token q) (Store.Hostname r) (Store.RqResources r) (Store.ExitCode r)
          (Store.Reason r) (Store.Logs r) (Store.Artifacts r)).

(** *** What a worker sends *)
Inductive payload :=
| Nothing
| Registration (hostname : string) (r : Store.Resources)
| LogLines (lines : list string)
| Files (arts : list artifact)
| Outcome (exit_code : Z) (reason : string).

Definition payload_members (p : payload) : list (string * json) :=
  match p with
  | Nothing => []
  | Registration h r => [("hostname", JStr h); ("resources", Store.resources_json r)]
  | LogLines l => [("logs", JArr (JStr <$> l))]
  | Files l => [("artifacts", JArr (artifact_json <$> l))]
  | Outcome c s => [("exit_code", JNum c); ("reason", JStr s)]
  end.

(** Unicode text and 64-bit integers. *)
Definition artifact_text (a : artifact) : bool :=
  forallb str_ok [object_key a; content_type a; checksum a; kind a] && int64 (size_bytes a).
Definition payload_ok (p : payload) : bool :=
  match p with
  | Nothing => true
  | Registration h r => str_ok h && int64 (Store.CPU r) && int64 (Store.MemoryMB r) && int64 (Store.GPU r)
  | LogLines l => forallb str_ok l
  | Files l => forallb artifact_text l
  | Outcome c s => int64 c && str_ok s
  end.

(** The request of the envelope [q] with the values of [p]. *)
Definition filled (p : payload) (q : request) : Store.Request :=
  let mk := Store.MkRequest (rq_request_id q) (rq_worker_id q) (rq_session_id q) (rq_attempt_id q)
              (rq_lease_token q) in
  let none := Store.MkResources 0 0 0 in
  match p with
  | Nothing => mk EmptyString none 0 EmptyString None None
  | Registration h r => mk h r 0 EmptyString None None
  | LogLines l => mk EmptyString none 0 EmptyString (Some l) None
  | Files l => mk EmptyString none 0 EmptyString None (Some l)
  | Outcome c s => mk EmptyString none c s None None
  end.

Lemma json_ok_map {A} (f : A → json) (P : A → bool) l :
  (∀ x, P x = true → json_ok (f x) = true) → forallb P l = true → json_ok (JArr (f <$> l)) = true.
Proof.
  intros Hf. cbn [json_ok]. induction l as [|x l IH]; [done|]. cbn [forallb].
  intros [Hx Hl]%andb_true_iff. rewrite fmap_cons. cbn [forallb]. by rewrite Hf, IH.
Qed.

Lemma payload_json_ok p : payload_ok p = true → json_ok (JObj (payload_members p)) = true.
Proof.
  assert (∀ k v, str_ok k = true → json_ok v = true → json_ok (JObj [(k, v)]) = true) as Hone.
  { intros k v Hk Hv. cbn [json_ok forallb fst snd map]. rewrite Hk, Hv. vm_compute. reflexivity. }
  destruct p as [|h r|l|l|c s]; cbn [payload_ok payload_members]; intros Hp; [done|..].
  - rewrite !andb_true_iff in Hp. destruct Hp as (((Hh & _) & _) & _).
    cbn [json_ok forallb fst snd map Store.resources_json]. rewrite Hh. vm_compute. reflexivity.
  - apply Hone; [done|]. by apply (json_ok_map JStr str_ok).
  - apply Hone; [done|]. apply (json_ok_map artifact_json artifact_text); [|done].
    intros [o t n k kd]. unfold artifact_text. cbn [forallb object_key content_type size_bytes checksum kind].
    rewrite !andb_true_iff. intros ((H1 & H2 & H3 & H4 & _) & _).
    cbn [artifact_json json_ok forallb fst snd map object_key content_type size_bytes checksum kind].
    rewrite H1, H2, H3, H4. vm_compute. reflexivity.
  - apply andb_true_iff in Hp as [_ Hs]. cbn [json_ok forallb fst snd map]. rewrite Hs.
    vm_compute. reflexivity.
Qed.

Lemma mapM_some {A B} (f : A → option B) (g : B → A) (P : B → bool) l :
  (∀ x, P x = true → f (g x) = Some x) → forallb P l = true → mapM f (g <$> l) = Some l.
Proof.
  intros Hf. induction l as [|x l IH]; [done|]. cbn [forallb]. intros [Hx Hl]%andb_true_iff.
  rewrite fmap_cons. cbn [mapM]. by rewrite Hf, IH.
Qed.

Lemma dec_int_ok old z : int64 z = true → dec_int old (JNum z) = Some z.
Proof. cbn [dec_int]. by intros ->. Qed.

Lemma dec_artifact a :
  artifact_text a = true →
  dec_struct set_artifact (Artifact EmptyString EmptyString 0 EmptyString EmptyString) (artifact_json a) = Some a.
Proof.
  destruct a as [o t n c kd]. unfold artifact_text. intros [_ Hn]%andb_true_iff.
  cbn [size_bytes] in Hn. lazy -[dec_int]. by rewrite dec_int_ok.
Qed.

(** The payload of a request, decoded. *)
Definition no_envelope : request :=
  Request EmptyString EmptyString EmptyString EmptyString EmptyString EmptyString 0.

Lemma dec_payload p :
  payload_ok p = true →
  dec_struct set_request zero_request (JObj (payload_members p)) = Some (filled p no_envelope).
Proof.
  destruct p as [|h [c m g]|l|l|c s]; cbn [payload_ok payload_members]; intros Hp; [done|..].
  - rewrite !andb_true_iff in Hp. destruct Hp as (((_ & Hc) & Hm) & Hg). cbn -[int64] in Hc, Hm, Hg.
    lazy -[dec_int]. by rewrite !dec_int_ok.
  - pose proof (mapM_some (dec_string EmptyString) JStr str_ok l ltac:(done) Hp) as Hl.
    cbn [dec_struct dec_members]. unfold set_request at 1, zero_request at 1.
    cbn -[dec_slice]. cbn [dec_slice]. rewrite Hl. done.
  - pose proof (mapM_some _ artifact_json artifact_text l dec_artifact Hp) as Hl.
    cbn [dec_struct dec_members]. unfold set_request at 1, zero_request at 1.
    cbn -[dec_slice]. cbn [dec_slice]. rewrite Hl. done.
  - apply andb_true_iff in Hp as [Hc _]. lazy -[dec_int]. by rewrite dec_int_ok.
Qed.

(** The server understands a request: nothing is lost, nothing refused. *)
Lemma request_of_payload q p :
  rq_payload_json q = dumps (JObj (payload_members p)) → payload_ok p = true →
  request_of q = Some (filled p q).
Proof.
  intros Hq Hp. unfold request_of. rewrite Hq.
  assert (nonempty (dumps (JObj (payload_members p))) = true) as -> by done.
  rewrite loads_dumps_eq by by apply payload_json_ok.
  cbn [mbind option_bind]. rewrite dec_payload by done. by destruct p.
Qed.
