(* ===== verification/Grpc.v ===== *)
(** * Grpc: the worker service of the control plane (internal/api/grpc.go)

    [call] is [WorkerServer.call]: decoding, the wait of a [LeaseJob] for something to lease, the
    transaction, and the status of an error.  What each turn of the wait sees (the tables, or a
    failed query, and the channel its [select] picks) is given by the environment. *)
From S2P Require Import Prelude Effects PyStr Utf8 Json JsonParse JsonRound Calendar Times Sha256 Wire World.
From S2P Require Import Rpc Artifacts Worker WorkerSafety Logs Control ControlSpec ControlRefine ControlProps EndToEnd WireText.
Import Store.
Local Open Scope string_scope.
Local Open Scope list_scope.
Local Open Scope Z_scope.

Module Grpc.

(** [min(in.WaitSeconds, 20)], for a [LeaseJob] that waits. *)
Definition wait_seconds (m : method) (q : request) : option Z :=
  if bool_decide (m = LeaseJob) && (0 <? rq_wait_seconds q) then Some (Z.min (rq_wait_seconds q) 20) else None.

(** The query of the wait: a queued job, or a receipt of this request. *)
Definition worth_leasing (r : Request) (d : db) : bool :=
  existsb (λ kj : string * JobRow, bool_decide (State kj.2 = QUEUED)) (map_to_list (jobs d)) ||
  bool_decide (is_Some (requests d !! ("rpc:LeaseJob:" +:+ WorkerID r, RequestID r))).

Inductive channel := Done (st : status) | Deadline | Tick.
(** A turn of the wait: the tables its query reads, [None] when it fails, and what [select] picks. *)
Record turn := Turn { t_tables : option db; t_select : channel }.

Inductive waited :=
| Ready                     (* on to the transaction *)
| Gone (st : status)        (* the context of the call ended *)
| Waiting.                  (* the turns given are used up *)
Fixpoint poll (r : Request) (turns : list turn) : waited :=
  match turns with
  | [] => Waiting
  | t :: turns =>
      if match t_tables t with None => true | Some d => worth_leasing r d end then Ready
      else match t_select t with
           | Done st => Gone st
           | Deadline => Ready
           | Tick => poll r turns
           end
  end.

(** The answer or the status of the transaction. *)
Definition answer_of (x : (error + response) * db) : (status + response) * db :=
  (match x.1 with inl y => inl (wire_error y) | inr resp => inr resp end, x.2).

(** [WorkerServer.call]; [None]: still waiting. *)
Definition call (L : Z) (m : method) (q : request) (turns : list turn) (e : env) (d : db)
  : option ((status + response) * db) :=
  match request_of q with
  | None => Some (inl INVALID_ARGUMENT, d)
  | Some r =>
      match match wait_seconds m q with Some _ => poll r turns | None => Ready end with
      | Waiting => None
      | Gone st => Some (inl st, d)
      | Ready => Some (answer_of (transact (RPC L m r) e d))
      end
  end.

(** ** Waiting *)
Lemma poll_app r turns1 turns2 : poll r turns1 = Waiting → poll r (turns1 ++ turns2) = poll r turns2.
Proof.
  induction turns1 as [|x l IH]; cbn [app poll]; [done|].
  destruct (match t_tables x with None => true | Some d => worth_leasing r d end); [done|].
  by destruct (t_select x).
Qed.

(** A turn after which the wait goes on saw nothing to lease. *)
Lemma poll_waiting r turns t :
  poll r turns = Waiting → t ∈ turns → t_select t = Tick ∧ ∃ d, t_tables t = Some d ∧ worth_leasing r d = false.
Proof.
  induction turns as [|x l IH]; cbn [poll]; [by intros _ ?%not_elem_of_nil|].
  destruct (t_tables x) as [d|] eqn:Hx; [|done]. destruct (worth_leasing r d) eqn:Hd; [done|].
  destruct (t_select x) eqn:Hs; [done..|]. intros Hp [->|Hin]%elem_of_cons; eauto.
Qed.

Lemma not_worth_leasing r d :
  worth_leasing r d = false →
  (∀ k j, jobs d !! k = Some j → State j ≠ QUEUED) ∧
  requests d !! ("rpc:" +:+ method_name LeaseJob +:+ ":" +:+ WorkerID r, RequestID r) = None.
Proof.
  unfold worth_leasing. intros [Hj Hr]%orb_false_iff. split.
  - intros k j Hk Hq. apply not_true_iff_false in Hj. apply Hj, existsb_exists. exists (k, j).
    split; [by apply list_elem_of_In, elem_of_map_to_list|]. by apply bool_decide_eq_true.
  - apply bool_decide_eq_false in Hr. by apply eq_None_not_Some.
Qed.

(** The store has nothing to lease to anyone in such a state. *)
Lemma nothing_to_lease L e d r resp d' :
  Inv d → ticking e → worth_leasing r d = false → transact (RPC L LeaseJob r) e d = (inr resp, d') → resp = Idle.
Proof.
  intros HI He [Hj Hr]%not_worth_leasing Hrpc.
  destruct (lease_serves L e d r resp d' HI He) as (w & _ & _ & _ & Hans); [|done|].
  { intros h x Heq. unfold unanswered in *. rewrite Hr in Heq. done. }
  destruct resp as [| |l| | | | |]; try done. exfalso.
  destruct Hans as (j & a & Hk & Hfit & _). apply (Hj _ _ Hk). unfold leasable in Hfit.
  rewrite !andb_true_iff, bool_decide_eq_true in Hfit. naive_solver.
Qed.


(** The queue of the concrete run, before and after the submission: the wait goes on, then leases. *)
Definition demo_registered : db := after 15 demo_register empty_db.
Definition demo_call : request := Wire.Request "r2" "w1" "s1" EmptyString EmptyString EmptyString 20.
Definition demo_seen : list turn := [Turn (Some demo_registered) Tick; Turn (Some demo_registered) Tick].

End Grpc.
