(* ===== verification/Queries.v ===== *)
(** * Queries: the read-only queries of the store (internal/store/store.go, workers.go)

    What the API shows: jobs in the order they are leased in, the attempts, events and artifacts
    of a job, the workers with what they have left.  The rows come as the JSON the server sends;
    [to_jsonb] is the one of PostgreSQL, whose time format, sequence of event identifiers and
    text collation are parameters.  The file also shows which attempt of a job that succeeded is
    listed last. *)
From stdpp Require Import sorting.
From S2P Require Import Prelude Effects PyStr Utf8 Json JsonParse JsonRound Calendar Times Sha256 Wire World.
From S2P Require Import Rpc Artifacts Worker WorkerSafety Logs Control ControlSpec ControlRefine ControlProps EndToEnd WireText.
Import Store.
Local Open Scope string_scope.
Local Open Scope list_scope.
Local Open Scope Z_scope.

Module Query.

(** [LIMIT limit OFFSET offset] *)
Definition window {A} (limit offset : Z) (l : list A) : list A :=
  take (Z.to_nat limit) (drop (Z.to_nat (Z.min offset (Z.of_nat (length l)))) l).

(** ** [Get] and [List] *)
Definition Get (id : string) (d : db) : error + JobRow :=
  match jobs d !! lower id with Some j => inr j | None => inl ErrNotFound end.

(** [ORDER BY created_at,id] *)
Definition older_le (a b : JobRow) : Prop := older a b = true.
#[export] Instance older_le_dec a b : Decision (older_le a b).
Proof. unfold older_le. apply _. Defined.
Definition sorted_jobs (d : db) : list JobRow := merge_sort older_le (map_to_list (jobs d)).*2.
Definition List_ (limit offset : Z) (d : db) : list JobRow := window limit offset (sorted_jobs d).

(** ** [jsonb] *)
(** Keys are kept in the order of their length, then of their bytes. *)
Definition member_le (a b : string * json) : Prop :=
  (String.length a.1 <? String.length b.1)%nat ||
  ((String.length a.1 =? String.length b.1)%nat && String.leb a.1 b.1) = true.
#[export] Instance member_le_dec a b : Decision (member_le a b).
Proof. unfold member_le. apply _. Defined.
Fixpoint jsonb (v : json) : json :=
  match v with
  | JArr l => JArr (map jsonb l)
  | JObj l => JObj (merge_sort member_le (map (λ kv, (kv.1, jsonb kv.2)) l))
  | _ => v
  end.
(** [j - 'key'] *)
Definition without (k : string) (l : list (string * json)) : list (string * json) :=
  List.filter (λ kv, negb (String.eqb kv.1 k)) l.

Section Rows.
(** The text of a [timestamptz] in JSON; the identifier of the n-th event; the order of texts. *)
Context (pg_time : Z → string) (event_id : nat → Z) (text_leb : string → string → bool).

Definition time_or_null (t : option Z) : json :=
  match t with Some t => JStr (pg_time t) | None => JNull end.

Definition attempt_state_name (s : attempt_state) : string :=
  match s with
  | ALeased => "LEASED" | ARunning => "RUNNING" | ASucceeded => "SUCCEEDED"
  | AFailed => "FAILED" | AExpired => "EXPIRED" | ACancelled => "CANCELLED"
  end.

(** The columns of a row of [attempts]. *)
Definition attempt_columns (id : string) (a : AttemptRow) : list (string * json) :=
  [("id", JStr id); ("job_id", JStr (at_job a)); ("attempt_number", JNum (at_number a));
   ("worker_id", JStr (at_worker a)); ("state", JStr (attempt_state_name (at_state a)));
   ("lease_token", JStr (at_token a)); ("lease_expires_at", JStr (pg_time (at_expires a)));
   ("deadline_at", JStr (pg_time (at_deadline a))); ("created_at", JStr (pg_time (at_created a)));
   ("started_at", time_or_null (at_started a)); ("finished_at", time_or_null (at_finished a));
   ("exit_code", match at_exit_code a with Some c => JNum c | None => JNull end);
   ("failure_reason", match at_reason a with Some s => JStr s | None => JNull end)].

Definition event_columns (id : Z) (e : EventRow) : list (string * json) :=
  [("id", JNum id); ("job_id", JStr (ev_job e));
   ("attempt_id", match ev_attempt e with Some i => JStr i | None => JNull end);
   ("event_type", JStr (ev_type e)); ("payload", ev_payload e); ("created_at", JStr (pg_time (ev_created e)))].

Definition artifact_columns (a : ArtifactRow) : list (string * json) :=
  let x := ar_data a in
  [("id", JStr (ar_id a)); ("job_id", JStr (ar_job a)); ("attempt_id", JStr (ar_attempt a));
   ("object_key", JStr (object_key x)); ("content_type", JStr (content_type x));
   ("size_bytes", JNum (size_bytes x)); ("checksum", JStr (checksum x)); ("kind", JStr (kind x));
   ("created_at", JStr (pg_time (ar_created a)))].

(** ** [ReadRows] *)
Definition number_le (a b : string * AttemptRow) : Prop := at_number a.2 ≤ at_number b.2.
#[export] Instance number_le_dec a b : Decision (number_le a b).
Proof. unfold number_le. apply _. Defined.
Definition created_le (a b : ArtifactRow) : Prop := ar_created a ≤ ar_created b.
#[export] Instance created_le_dec a b : Decision (created_le a b).
Proof. unfold created_le. apply _. Defined.

(** [ORDER BY attempt_number] *)
Definition sorted_attempts (d : db) (job : string) : list (string * AttemptRow) :=
  merge_sort number_le (attempts_of d job).
(** [ORDER BY id]: events are numbered as they are inserted. *)
Definition job_events (d : db) (job : string) : list (nat * EventRow) :=
  List.filter (λ ne, String.eqb (ev_job ne.2) job) (zip (seq 0 (length (events d))) (events d)).
(** [ORDER BY created_at]: rows of one time in any order. *)
Definition job_artifacts (d : db) (job : string) : list ArtifactRow :=
  merge_sort created_le (List.filter (λ a, String.eqb (ar_job a) job) (artifacts d)).

Definition ReadRows (kind id : string) (limit offset : Z) (d : db) : error + list json :=
  if String.eqb kind "attempts" then
    inr ((λ ka, jsonb (JObj (without "lease_token" (attempt_columns ka.1 ka.2))))
           <$> window limit offset (sorted_attempts d (lower id)))
  else if String.eqb kind "events" then
    inr ((λ ne, jsonb (JObj (event_columns (event_id ne.1) ne.2)))
           <$> window limit offset (job_events d (lower id)))
  else if String.eqb kind "artifacts" then
    inr ((λ a, jsonb (JObj (artifact_columns a))) <$> window limit offset (job_artifacts d (lower id)))
  else inl ErrInvalid.

(** ** [Workers] *)
Definition worker_state_name (s : worker_state) : string :=
  match s with ACTIVE => "ACTIVE" | DRAINING => "DRAINING" end.
(** What the attempts of a worker leave of its capacity. *)
Definition available (d : db) (id : string) (w : WorkerRow) : Resources :=
  MkResources (CPU (wk_cap w) - usage CPU d id) (MemoryMB (wk_cap w) - usage MemoryMB d id)
    (GPU (wk_cap w) - usage GPU d id).
Definition worker_json (d : db) (id : string) (w : WorkerRow) : json :=
  jsonb (JObj [("id", JStr id); ("hostname", JStr (wk_hostname w));
               ("state", JStr (worker_state_name (wk_state w)));
               ("registered_at", JStr (pg_time (wk_registered w)));
               ("last_heartbeat_at", JStr (pg_time (wk_heartbeat w)));
               ("total_resources", resources_json (wk_cap w));
               ("available_resources", resources_json (available d id w))]).

Definition id_le (a b : string * WorkerRow) : Prop := text_leb a.1 b.1 = true.
#[local] Instance id_le_dec a b : Decision (id_le a b).
Proof. unfold id_le. apply _. Defined.
Definition sorted_workers (d : db) : list (string * WorkerRow) :=
  merge_sort id_le (map_to_list (workers d)).
Definition Workers (d : db) : list json :=
  (λ kw, worker_json d kw.1 kw.2) <$> take (N.to_nat 1000) (sorted_workers d).
End Rows.

(** ** Pages *)
Lemma window_take {A} (n : nat) (l : list A) k :
  window (Z.of_nat n) (Z.of_nat k * Z.of_nat n) l = take n (drop (k * n) l).
Proof.
  unfold window. rewrite Nat2Z.id. destruct (decide (k * n ≤ length l)%nat).
  - rewrite Z.min_l by lia. do 2 f_equal. lia.
  - rewrite Z.min_r, Nat2Z.id by lia. rewrite !drop_ge by lia. done.
Qed.

Lemma pages_take {A} (n : nat) (l : list A) K :
  concat ((λ k, window (Z.of_nat n) (Z.of_nat k * Z.of_nat n) l) <$> seq 0 K) = take (K * n) l.
Proof.
  induction K as [|K IH]; [done|]. rewrite seq_S, fmap_app, concat_app, IH. simpl.
  rewrite window_take, app_nil_r, (Nat.add_comm n), <- take_take_drop. done.
Qed.

Lemma pages_all {A} (n : nat) (l : list A) K :
  (length l ≤ K * n)%nat →
  concat ((λ k, window (Z.of_nat n) (Z.of_nat k * Z.of_nat n) l) <$> seq 0 K) = l.
Proof. intros Hl. rewrite pages_take. by apply take_ge. Qed.

(** ** Orders *)
#[export] Instance older_le_trans : Transitive older_le.
Proof. intros a b c. apply older_trans. Qed.
#[export] Instance older_le_total : Total older_le.
Proof. intros a b. unfold older_le. destruct (older a b) eqn:E; [by left|right]. by apply older_total. Qed.
#[export] Instance number_le_trans : Transitive number_le.
Proof. intros a b c. unfold number_le. lia. Qed.
#[export] Instance number_le_total : Total number_le.
Proof. intros a b. unfold number_le. lia. Qed.

Lemma sorted_jobs_perm d : sorted_jobs d ≡ₚ (map_to_list (jobs d)).*2.
Proof. apply merge_sort_Permutation. Qed.
Lemma sorted_jobs_sorted d : StronglySorted older_le (sorted_jobs d).
Proof. apply (StronglySorted_merge_sort older_le). Qed.

Lemma sorted_attempts_perm d job : sorted_attempts d job ≡ₚ attempts_of d job.
Proof. apply merge_sort_Permutation. Qed.
Lemma attempts_of_elem d job i a :
  (i, a) ∈ attempts_of d job ↔ attempts d !! i = Some a ∧ at_job a = job.
Proof.
  unfold attempts_of. rewrite <- elem_of_map_to_list, list_elem_of_In, List.filter_In, <- list_elem_of_In.
  by rewrite bool_decide_eq_true.
Qed.
Lemma sorted_attempts_elem d job i a :
  (i, a) ∈ sorted_attempts d job ↔ attempts d !! i = Some a ∧ at_job a = job.
Proof. rewrite sorted_attempts_perm. apply attempts_of_elem. Qed.

(** The last of a sorted list is a greatest element. *)
Lemma last_greatest {A} (R : relation A) l x y :
  StronglySorted R l → last l = Some x → y ∈ l → y = x ∨ R y x.
Proof.
  intros Hs Hl Hy. apply last_Some in Hl as [l' ->].
  apply elem_of_app in Hy as [Hy|Hy%list_elem_of_singleton]; [right|by left].
  eapply (StronglySorted_app_1_elem_of R); [done..|]. by apply list_elem_of_singleton.
Qed.

Lemma last_attempt d job i a :
  Inv d → attempts d !! i = Some a → at_job a = job →
  (∀ i' a', attempts d !! i' = Some a' → at_job a' = job → at_number a' ≤ at_number a) →
  last (sorted_attempts d job) = Some (i, a).
Proof.
  intros HI Ha Hjob Hmax. assert ((i, a) ∈ sorted_attempts d job) as Hin by by apply sorted_attempts_elem.
  destruct (last (sorted_attempts d job)) as [[i' a']|] eqn:Hl.
  - assert ((i', a') ∈ sorted_attempts d job) as [Ha' Hjob']%sorted_attempts_elem.
    { apply last_Some in Hl as [l' ->]. apply elem_of_app. right. by apply list_elem_of_singleton. }
    destruct (last_greatest number_le _ _ _ (StronglySorted_merge_sort number_le _) Hl Hin) as [?|Hle]; [congruence|].
    unfold number_le in Hle. simpl in Hle. specialize (Hmax _ _ Ha' Hjob').
    assert (i = i') as <- by (eapply (inv_number _ HI); [done..|congruence|lia]). congruence.
  - apply last_None in Hl. rewrite Hl in Hin. by apply not_elem_of_nil in Hin.
Qed.

(** ** [jsonb] changes the order of members only *)
Lemma jsonb_same v : same v (jsonb v).
Proof.
  induction v as [|b|z|s|l IH|l IH] using json_nested_ind; try apply same_refl; cbn [jsonb].
  - apply same_arr. induction IH as [|x l Hx _ IH]; constructor; done.
  - set (f := λ kv : string * json, (kv.1, jsonb kv.2)).
    assert (map f l ≡ₚ merge_sort member_le (map f l)) as Hp by by rewrite merge_sort_Permutation.
    symmetry in Hp. apply Permutation_map_inv in Hp as (m & Heq & Hm). rewrite Heq.
    apply (same_obj _ m); [done|]. rewrite Hm in IH.
    clear -IH. induction IH as [|x m Hx _ IH]; constructor; done.
Qed.

(** A member is found in the printed row. *)
Lemma jsonb_get l k v :
  NoDup (map fst l) → dict_get l k = Some v →
  ∃ m, jsonb (JObj l) = JObj m ∧ dict_get m k = Some (jsonb v).
Proof.
  intros Hnd Hk. eexists. split; [reflexivity|].
  set (f := λ kv : string * json, (kv.1, jsonb kv.2)).
  assert (map fst (map f l) = map fst l) as Hf by (rewrite map_map; done).
  rewrite (dict_get_perm (map f l)); [|by rewrite Hf|by rewrite merge_sort_Permutation].
  apply dict_get_some; [by rewrite Hf|]. apply dict_get_elem in Hk.
  apply list_elem_of_In, in_map_iff. exists (k, v). split; [done|]. by apply list_elem_of_In.
Qed.

(** ** The attempt of a job that succeeded *)
(** The attempt [i] of [job] succeeded, and none is later. *)
Definition winner (d : db) (job i : string) (a : AttemptRow) : Prop :=
  attempts d !! i = Some a ∧ at_job a = job ∧ at_state a = ASucceeded ∧
  ∀ i' a', attempts d !! i' = Some a' → at_job a' = job → at_number a' ≤ at_number a.
Definition won (d : db) : Prop :=
  ∀ k j, jobs d !! k = Some j → State j = SUCCEEDED → ∃ i a, winner d k i a.

(** A job becomes SUCCEEDED by the end of its running attempt. *)
Lemma step_succeeds L d l d' k j' :
  step L d l d' → jobs d' !! k = Some j' → State j' = SUCCEEDED →
  (∃ j, jobs d !! k = Some j ∧ State j = SUCCEEDED) ∨
  ∃ i a a', attempts d !! i = Some a ∧ at_job a = k ∧ at_state a = ARunning ∧
    attempts d' !! i = Some a' ∧ at_state a' = ASucceeded ∧ at_number a' = at_number a ∧
    at_job a' = k.
Proof.
  assert (∀ job st (max : JobRow → Z) t,
    alter (λ j, job_set st (max j) t j) job (jobs d) !! k = Some j' → State j' = SUCCEEDED →
    (∃ j, jobs d !! k = Some j ∧ State j = SUCCEEDED) ∨ job = k ∧ st = SUCCEEDED) as Halter.
  { intros job st max t. rewrite lookup_alter_row. intros (j & Hj & ->)%fmap_Some. unfold at_row.
    destruct (decide _) as [->|]; simpl; eauto. }
  assert (∀ n m, RetryState n m ≠ SUCCEEDED) as Hretry.
  { intros n m. unfold RetryState. by destruct (n <? m). }
  intros Hs Hj' Hst. destruct Hs as [| | | | | | |i a j t t' t'' st next code reason Ha Hrun Hj Ht Hnext| | | |];
    simpl in Hj'; try (by eauto).
  - apply lookup_insert_Some in Hj' as [[_ <-]|[_ Hj']]; [done|eauto].
  - destruct (Halter _ _ MaxAttempts _ Hj' Hst) as [?|[_ ?]]; by auto.
  - destruct (Halter _ _ MaxAttempts _ Hj' Hst) as [?|[_ ?]]; by auto.
  - destruct (Halter _ _ MaxAttempts _ Hj' Hst) as [?|[Hk Hn]]; [by auto|right].
    destruct Hnext as [[-> _]|[_ ->]]; [|by destruct (Hretry _ _ Hn)].
    eexists i, a, _. simpl. rewrite lookup_alter_eq, Ha. by split_and!.
  - destruct (Halter _ _ MaxAttempts _ Hj' Hst) as [?|[_ Hn]]; [by auto|]. by destruct (Hretry _ _ Hn).
  - destruct (Halter _ _ (λ _, MaxAttempts j) _ Hj' Hst) as [?|[_ ?]]; by auto.
  - destruct (Halter _ _ (λ _, MaxAttempts j) _ Hj' Hst) as [?|[_ ?]]; by auto.
  - destruct (Halter _ _ (λ _, MaxAttempts j + 1) _ Hj' Hst) as [?|[_ ?]]; by auto.
Qed.

(** An attempt of a job that is not queued was there before the step, with its number. *)
Lemma step_old_attempt L d l d' k j i a' :
  step L d l d' → jobs d !! k = Some j → State j ≠ QUEUED → attempts d' !! i = Some a' → at_job a' = k →
  ∃ a, attempts d !! i = Some a ∧ at_job a = k ∧ at_number a = at_number a'.
Proof.
  intros Hs Hj Hq Ha' Hk. destruct (attempts d !! i) as [a|] eqn:Ha.
  - destruct (step_attempt _ _ _ _ _ _ Hs Ha) as (a2 & Ha2 & (Hjob & Hnum & _) & _).
    exists a. assert (a2 = a') as -> by congruence. by rewrite <- Hk.
  - exfalso. destruct Hs; simpl in Ha'; try congruence;
      try (rewrite lookup_alter_row, Ha in Ha'; done); try (rewrite lookup_fmap, Ha in Ha'; done).
    apply lookup_insert_Some in Ha' as [[_ ->]|[_ ?]]; congruence.
Qed.

Lemma step_winner L d l d' k i a :
  step L d l d' → Inv d → winner d k i a → winner d' k i a.
Proof.
  intros Hs HI (Ha & Hk & Hst & Hmax).
  destruct (step_attempt _ _ _ _ _ _ Hs Ha) as (a2 & Ha2 & _ & Hina & _).
  rewrite Hst in Hina. rewrite (Hina eq_refl) in Ha2. split_and!; [done..|].
  intros i' a' Ha' Hk'. destruct (inv_attempt _ HI _ _ Ha) as (_ & _ & j & Hj & _ & _ & Hag).
  rewrite Hst in Hag. simpl in Hag. apply bool_decide_eq_true in Hag. rewrite Hk in Hj.
  destruct (step_old_attempt L d l d' k j i' a') as (b & Hb & Hbk & <-); try done; [congruence|]. eauto.
Qed.

Lemma step_won L d l d' : step L d l d' → Inv d → won d → won d'.
Proof.
  intros Hs HI Hw k j' Hj' Hst.
  destruct (step_succeeds _ _ _ _ _ _ Hs Hj' Hst) as [(j & Hj & Hj2)|(i & a & a' & Ha & Hk & Hrun & Ha' & Hst' & Hn & Hk')].
  - destruct (Hw _ _ Hj Hj2) as (i & a & Hwin). exists i, a. by eapply step_winner.
  - exists i, a'. split_and!; [done..|]. intros i2 a2 Ha2 Hk2.
    destruct (inv_attempt _ HI _ _ Ha) as (_ & _ & j & Hj & _ & _ & Hag).
    rewrite Hrun in Hag. simpl in Hag. apply bool_decide_eq_true in Hag. rewrite Hk in Hj.
    destruct (step_old_attempt L d l d' k j i2 a2) as (b & Hb & Hbk & <-); try done; [congruence|].
    rewrite Hn. eapply (inv_latest _ HI); [done..|congruence|]. by rewrite Hrun.
Qed.

Lemma steps_won L d ls d' : steps L d ls d' → Inv d → won d → won d'.
Proof.
  induction 1 as [|d l d1 ls d2 Hs Hss IH]; [done|]. intros HI Hw.
  apply IH; [exact (step_inv _ _ _ _ HI Hs)|by eapply step_won].
Qed.
Lemma steps_winner L d ls d' k i a : steps L d ls d' → Inv d → winner d k i a → winner d' k i a.
Proof.
  induction 1 as [|d l d1 ls d2 Hs Hss IH]; [done|]. intros HI Hw.
  apply IH; [exact (step_inv _ _ _ _ HI Hs)|by eapply step_winner].
Qed.

Lemma reached_won L T d : reached L T d → won d.
Proof.
  intros (T0 & cs & Hr). destruct (runs_steps _ _ _ _ _ _ Hr empty_inv) as (ls & Hs & _).
  eapply steps_won; [done|apply empty_inv|]. by intros k j.
Qed.
End Query.
