(* ===== verification/Telemetry.v ===== *)
(** * Telemetry: the metrics of the control plane (internal/telemetry/telemetry.go)

    [Collect] is the list of samples of one scrape, from the tables it reads; which of its queries
    are answered is given by the environment, and so are the connections of the database and the
    readings of its clock.  Values are exact rationals. *)
From Stdlib Require Import QArith Qround Lqa.
From stdpp Require Import sorting.
From S2P Require Import Prelude Effects PyStr Json Sha256 Wire Control ControlSpec ControlRefine ControlProps.
From S2P Require Import Utf8 JsonParse JsonRound Calendar Times World Rpc Artifacts Worker WorkerSafety Logs EndToEnd WireText Queries.
Import Store Query.
Local Open Scope string_scope.
Local Open Scope list_scope.
Local Open Scope Z_scope.

Module Telemetry.

Record metric := Metric { name : string; labels : list (string * string); value : Q }.

(** What the database answers besides the tables: each flag says that the query succeeds. *)
Record scrape := Scrape {
  up : bool;
  ok_expired : bool;
  ok_attempts : bool;
  ok_connections : bool;
  ok_quantiles : string → bool;
  ok_workers : bool;
  connections : Z;
  clock : string → Z }.           (* clock_timestamp() in the row of a worker *)

Definition count {A} (p : A → bool) (l : list A) : Z := Z.of_nat (length (List.filter p l)).

(** [SELECT state,count( * ) FROM jobs GROUP BY state], 0 for a state without rows. *)
Definition states : list job_state := [QUEUED; LEASED; RUNNING; SUCCEEDED; FAILED; CANCELLED].
Definition jobs_in (d : db) (s : job_state) : Z :=
  count (λ kj : string * JobRow, bool_decide (State kj.2 = s)) (map_to_list (jobs d)).

Definition expired_attempts (d : db) : Z :=
  count (λ ka : string * AttemptRow, bool_decide (at_state ka.2 = AExpired)) (map_to_list (attempts d)).

(** [avg(n)] of the attempts per job that has any. *)
Definition attempted (d : db) : gset string := list_to_set ((λ ka, at_job ka.2) <$> map_to_list (attempts d)).
Definition attempts_per_job (d : db) : Q :=
  let n := size (attempted d) in
  if (n =? 0)%nat then 0 else Qmake (Z.of_nat (size (attempts d))) (Pos.of_nat n).

(** [percentile_cont(p) WITHIN GROUP(ORDER BY x)], 0 without rows. *)
Definition Qle_rel (a b : Q) : Prop := Qle_bool a b = true.
#[export] Instance Qle_rel_dec a b : Decision (Qle_rel a b).
Proof. unfold Qle_rel. apply _. Defined.
Definition percentile_cont (p : Q) (l : list Q) : Q :=
  let s := merge_sort Qle_rel l in
  let at_ := (p * inject_Z (Z.of_nat (length l) - 1))%Q in
  let lo := Qfloor at_ in
  match s !! Z.to_nat lo, s !! Z.to_nat (Qceiling at_) with
  | Some a, Some b => (a + (at_ - inject_Z lo) * (b - a))%Q
  | _, _ => 0%Q
  end.

Definition seconds (us : Z) : Q := us # 1000000.
Definition latencies (d : db) : list Q :=
  omap (λ ka : string * AttemptRow,
          if at_number ka.2 =? 1
          then j ← jobs d !! at_job ka.2; Some (seconds (at_created ka.2 - CreatedAt j))
          else None) (map_to_list (attempts d)).
Definition runtimes (d : db) : list Q :=
  omap (λ ka : string * AttemptRow,
          f ← at_finished ka.2; s ← at_started ka.2; _ ← jobs d !! at_job ka.2; Some (seconds (f - s)))
       (map_to_list (attempts d)).

Definition quantiles : list (string * Q) := [("0.5", 1 # 2); ("0.95", 95 # 100); ("0.99", 99 # 100)]%Q.
Definition distribution (s : scrape) (n : string) (l : list Q) : list metric :=
  if ok_quantiles s n
  then (λ q, Metric ("rungrid_" +:+ n) [("quantile", q.1)] (percentile_cont q.2 l)) <$> quantiles
  else [].

Section Collect.
Context (LeaseSeconds : Z).

Definition worker_metrics (s : scrape) (d : db) (kw : string * WorkerRow) : list metric :=
  let '(id, w) := kw in
  let age := clock s id - wk_heartbeat w in
  let gone := negb (bool_decide (wk_state w = ACTIVE)) || (sec (2 * LeaseSeconds) <? age) in
  let left c := if gone then 0 else c (available d id w) in
  [Metric "rungrid_worker_heartbeat_age_seconds" [("worker_id", id)] (seconds age);
   Metric "rungrid_available_cpu" [("worker_id", id)] (inject_Z (left CPU));
   Metric "rungrid_available_gpu" [("worker_id", id)] (inject_Z (left GPU))].

Definition Collect (s : scrape) (d : db) : list metric :=
  if up s then
    [Metric "rungrid_db_up" [] 1]
    ++ ((λ st, Metric "rungrid_jobs" [("state", state_name st)] (inject_Z (jobs_in d st))) <$> states)
    ++ [Metric "rungrid_lease_expirations_total" []
          (if ok_expired s then inject_Z (expired_attempts d) else 0);
        Metric "rungrid_attempts_per_job" [] (if ok_attempts s then attempts_per_job d else 0);
        Metric "rungrid_database_connections" []
          (if ok_connections s then inject_Z (connections s) else 0)]
    ++ distribution s "scheduling_latency_seconds" (latencies d)
    ++ distribution s "job_runtime_seconds" (runtimes d)
    ++ (if ok_workers s then concat (worker_metrics s d <$> map_to_list (workers d)) else [])
  else [Metric "rungrid_db_up" [] 0].
End Collect.

(** ** What the samples say *)
Definition values (n : string) (l : list metric) : list Q :=
  value <$> List.filter (λ m, String.eqb (name m) n) l.
Lemma values_app n l l' : values n (l ++ l') = values n l ++ values n l'.
Proof. unfold values. by rewrite List.filter_app, fmap_app. Qed.

Lemma values_distribution n s m l : String.eqb ("rungrid_" +:+ m) n = false → values n (distribution s m l) = [].
Proof.
  intros Hn. unfold distribution, values. destruct (ok_quantiles s m); [|done].
  cbn [quantiles fmap list_fmap List.filter name]. by rewrite Hn.
Qed.

Definition worker_names : list string :=
  ["rungrid_worker_heartbeat_age_seconds"; "rungrid_available_cpu"; "rungrid_available_gpu"].
Lemma values_workers L s d n l :
  existsb (String.eqb n) worker_names = false → values n (concat (worker_metrics L s d <$> l)) = [].
Proof.
  intros Hn. unfold worker_names in Hn. cbn [existsb] in Hn. rewrite !orb_false_iff in Hn. destruct Hn as (H1 & H2 & H3 & _).
  rewrite String.eqb_sym in H1, H2, H3.
  induction l as [|[id w] l IH]; [done|]. rewrite fmap_cons. cbn [concat]. rewrite values_app, IH, app_nil_r.
  unfold values, worker_metrics. cbn [List.filter name]. by rewrite H1, H2, H3.
Qed.

Lemma expirations_sample L s d :
  up s = true → ok_expired s = true →
  values "rungrid_lease_expirations_total" (Collect L s d) = [inject_Z (expired_attempts d)].
Proof.
  intros Hu He. unfold Collect. rewrite Hu, He, !values_app, !values_distribution by done.
  destruct (ok_workers s); [rewrite values_workers by done|]; done.
Qed.
Lemma jobs_samples L s d :
  up s = true → values "rungrid_jobs" (Collect L s d) = (λ st, inject_Z (jobs_in d st)) <$> states.
Proof.
  intros Hu. unfold Collect. rewrite Hu, !values_app, !values_distribution by done.
  destruct (ok_workers s); [rewrite values_workers by done|]; done.
Qed.

Lemma count_nil {A} (p : A → bool) : count p [] = 0.
Proof. done. Qed.
Lemma count_cons {A} (p : A → bool) x l : count p (x :: l) = (if p x then 1 else 0) + count p l.
Proof. unfold count. cbn [List.filter]. destruct (p x); cbn [length]; lia. Qed.

(** Every job is in one state. *)
Lemma states_partition d : foldr Z.add 0 (jobs_in d <$> states) = Z.of_nat (size (jobs d)).
Proof.
  rewrite <- length_map_to_list. unfold jobs_in. generalize (map_to_list (jobs d)) as l. intros l.
  cbn [states fmap list_fmap foldr]. induction l as [|[k j] l IH]; [done|].
  rewrite !count_cons. cbn [snd length]. destruct (State j); repeat first [rewrite bool_decide_true by done | rewrite bool_decide_false by done]; lia.
Qed.

Lemma sum_inject l : (foldr Qplus 0 (inject_Z <$> l) == inject_Z (foldr Z.add 0%Z l))%Q.
Proof. induction l as [|z l IH]; [done|]. rewrite fmap_cons. cbn [foldr]. by rewrite IH, inject_Z_plus. Qed.

(** Expired attempts stay. *)
Lemma expired_grows L d ls d' : steps L d ls d' → expired_attempts d ≤ expired_attempts d'.
Proof.
  intros Hs. unfold expired_attempts, count. apply inj_le.
  set (p := λ ka : string * AttemptRow, bool_decide (at_state ka.2 = AExpired)).
  apply submseteq_length, NoDup_submseteq.
  - apply NoDup_ListNoDup, List.NoDup_filter, NoDup_ListNoDup, NoDup_map_to_list.
  - intros [i a] [Hin Hp]%list_elem_of_In%List.filter_In. apply list_elem_of_In, List.filter_In. split; [|done].
    apply list_elem_of_In, elem_of_map_to_list in Hin. apply list_elem_of_In, elem_of_map_to_list.
    apply (steps_ended _ _ _ _ _ _ Hs Hin). unfold p in Hp. apply bool_decide_eq_true in Hp. simpl in Hp.
    by rewrite Hp.
Qed.

(** What a worker has left lies between nothing and all it has. *)
Lemma available_bounds d id w c :
  Inv d → workers d !! id = Some w → c ∈ [CPU; MemoryMB; GPU] → 0 ≤ c (available d id w) ≤ c (wk_cap w).
Proof.
  intros HI Hw Hc. pose proof (inv_capacity _ HI _ _ Hw) as Hcap. rewrite Forall_forall in Hcap.
  assert (0 ≤ usage c d id) as Hu.
  { apply msum_nonneg. intros i a Ha. unfold share. destruct (_ && _); [|done].
    destruct (jobs d !! at_job a) as [j|] eqn:Hj; [|done].
    destruct (inv_job _ HI _ _ Hj) as (_ & -> & Hv & _). apply valid_resources; [by apply validate_valid|done]. }
  specialize (Hcap c Hc). apply list_elem_of_In in Hc. simpl in Hc.
  destruct Hc as [<-|[<-|[<-|[]]]]; simpl in *; lia.
Qed.

Lemma worker_samples L s d m :
  Inv d → ok_workers s = true → m ∈ concat (worker_metrics L s d <$> map_to_list (workers d)) →
  name m = "rungrid_available_cpu" ∨ name m = "rungrid_available_gpu" →
  ∃ id w, workers d !! id = Some w ∧ labels m = [("worker_id", id)] ∧
    (0 <= value m <= inject_Z ((if String.eqb (name m) "rungrid_available_cpu" then CPU else GPU) (wk_cap w)))%Q.
Proof.
  intros HI _ Hm Hn. apply list_elem_of_In, in_concat in Hm as (l & Hl%list_elem_of_In & Hm).
  apply list_elem_of_fmap in Hl as ([id w] & -> & Hw%elem_of_map_to_list). exists id, w. split; [done|].
  unfold worker_metrics in Hm. simpl in Hm.
  assert (∀ c, c ∈ [CPU; MemoryMB; GPU] → ∀ b : bool, (0 <= inject_Z (if b then 0%Z else c (available d id w)) <= inject_Z (c (wk_cap w)))%Q) as Hb.
  { intros c Hc b. pose proof (available_bounds d id w c HI Hw Hc) as Hr. change 0%Q with (inject_Z 0).
    rewrite <- !Zle_Qle. destruct b; lia. }
  destruct Hm as [<-|[<-|[<-|[]]]]; cbn [name labels value] in *; [by destruct Hn|..]; (split; [done|]).
  - apply (Hb CPU). set_solver.
  - apply (Hb GPU). set_solver.
Qed.

(** The metrics say what the tables hold: in a reachable state the samples of [rungrid_jobs] add up
    to the jobs there are, no worker is shown with less than nothing or more than its capacity
    left, and the counter of expired leases never goes down from one scrape to a later one, as
    long as its query is answered. *)
Theorem metrics_say_what_is_there L T d cs T' d' s s' :
  reached L T d → runs L T d cs T' d' → up s = true → up s' = true →
  ok_expired s = true → ok_expired s' = true →
  (foldr Qplus 0 (values "rungrid_jobs" (Collect L s d)) == inject_Z (Z.of_nat (size (jobs d))))%Q ∧
  (∀ m, m ∈ Collect L s d → name m = "rungrid_available_cpu" ∨ name m = "rungrid_available_gpu" →
     ∃ id w, workers d !! id = Some w ∧ labels m = [("worker_id", id)] ∧
       (0 <= value m <= inject_Z ((if String.eqb (name m) "rungrid_available_cpu" then CPU else GPU) (wk_cap w)))%Q) ∧
  ∃ x y, values "rungrid_lease_expirations_total" (Collect L s d) = [x] ∧
         values "rungrid_lease_expirations_total" (Collect L s' d') = [y] ∧ (x <= y)%Q.
Proof.
  intros [HI _]%reached_inv Hr Hu Hu' He He'. split_and!.
  - rewrite jobs_samples by done.
    change ((λ st, inject_Z (jobs_in d st)) <$> states) with (inject_Z <$> (jobs_in d <$> states)).
    by rewrite sum_inject, states_partition.
  - intros m Hm Hn. unfold Collect in Hm. rewrite Hu in Hm. rewrite !elem_of_app in Hm.
    assert (∀ l, Forall (λ x, existsb (String.eqb (name x)) ["rungrid_available_cpu"; "rungrid_available_gpu"] = false) l →
      m ∈ l → False) as Hno.
    { intros l Hl Hin. rewrite Forall_forall in Hl. specialize (Hl m Hin). by destruct Hn as [Hn|Hn]; rewrite Hn in Hl. }
    destruct Hm as [Hm|[Hm|[Hm|[Hm|[Hm|Hm]]]]].
    1-5: exfalso; refine (Hno _ _ Hm); unfold distribution; try destruct (ok_quantiles s _); by repeat constructor.
    destruct (ok_workers s) eqn:Hw; [by eapply worker_samples|by apply not_elem_of_nil in Hm].
  - destruct (runs_steps _ _ _ _ _ _ Hr HI) as (ls & Hss & _). eexists _, _.
    split; [by apply expirations_sample|]. split; [by apply expirations_sample|].
    rewrite <- Zle_Qle. by eapply expired_grows.
Qed.

(** A scrape whose query of the expired leases fails reports 0 for them, whatever there is. *)
Lemma failed_query_resets_counter L s d :
  up s = true → ok_expired s = false →
  values "rungrid_lease_expirations_total" (Collect L s d) = [0%Q].
Proof.
  intros Hu He. unfold Collect. rewrite Hu, He, !values_app, !values_distribution by done.
  destruct (ok_workers s); [rewrite values_workers by done|]; done.
Qed.

Definition demo_scrape : scrape := Scrape true true true true (λ _, true) true 3 (λ _, sec 41).

Lemma metrics_say_what_is_there_witness :
  ∃ x y, values "rungrid_lease_expirations_total" (Collect 15 demo_scrape demo_running) = [x] ∧
         values "rungrid_lease_expirations_total" (Collect 15 demo_scrape demo_expired) = [y] ∧ (x <= y)%Q.
Proof.
  apply (metrics_say_what_is_there 15 (sec 4 + 50) demo_running [demo_reap 40] (sec 40 + 50) demo_expired
    demo_scrape demo_scrape).
  - exact demo_running_reached.
  - apply (demo_next (sec 4 + 50) (sec 4 + 50) demo_running [] 40); [constructor|unfold sec; lia].
  - reflexivity.
  - reflexivity.
  - reflexivity.
  - reflexivity.
Defined.
End Telemetry.
