(* ===== verification/Requests.v ===== *)
(** * Requests: every request of a worker is understood (main.py, rpc.py, internal/api/grpc.go)

    The worker builds its payloads as Python dictionaries at a dozen places; the server decodes
    them into one Go struct.  Each request of [Worker.execute], of its heartbeat thread and of
    [Worker.run] carries the payload its method asks for, and [WorkerServer.call] reads from it
    exactly the values the worker put in. *)
From S2P Require Import Prelude Effects PyStr Json JsonParse JsonRound Wire World Rpc Artifacts Worker WorkerSafety.
From S2P Require Import WorkerRun Control WireText.
Local Open Scope string_scope.
Local Open Scope list_scope.
Local Open Scope Z_scope.

(** What a method is called with. *)
Definition carries (m : method) (p : payload) : Prop :=
  match m, p with
  | RegisterWorker, Registration _ _ => True
  | (Heartbeat | LeaseJob | ReleaseWorker | StartAttempt), Nothing => True
  | ReportProgress, (LogLines _ | Files _) => True
  | (CompleteAttempt | FailAttempt), Outcome _ _ => True
  | _, _ => False
  end.

(** A request of the worker with a payload its method asks for. *)
Definition speaks (self : worker) (ol : option lease) (o : wop) : Prop :=
  match o with
  | Stub m q _ => ∃ p wait rid, carries m p ∧
      q = make_request (w_rpc self) ol wait rid (payload_members p)
  | _ => True
  end.

Lemma speaks_call self ol m timeout wait rid p members :
  payload_members p = members → carries m p →
  ops_in (S:=WorkerSig) (speaks self ol) (call (w_rpc self) m ol timeout wait rid members).
Proof.
  intros <- Hp. eapply ops_in_mono; [|apply call_ops_in].
  intros [] Ho; try done. destruct Ho as [-> [rid' ->]]. by exists p, wait, rid'.
Qed.

Lemma ops_in_catch {A} P (p : W A) (h : status → W A) :
  ops_in P p → (∀ c, ops_in P (h c)) →
  ops_in (S:=WorkerSig) P (try_except p (λ e, match e with RpcError c => Some (h c) | _ => None end)).
Proof. intros Hp Hh. apply ops_in_try_except; [done|]. by intros [] q [= <-]. Qed.

(** Walks a program down to its calls of [Rpc.call]. *)
Ltac spoken :=
  repeat first
    [ apply ops_in_unwrap | apply ops_in_catch; [|intros ?] | apply ops_in_try_finally
    | apply (ops_in_call_op (S:=WorkerSig)); exact I
    | match goal with
      | |- ops_in _ (ret _) => exact I
      | |- ops_in _ (raise _) => exact I
      | |- ops_in _ diverge => exact I
      | |- ops_in _ (bind (raise _) _) => exact I
      | |- ops_in _ (bind _ _) => apply ops_in_py_bind; [|intros ?]
      | |- ops_in _ (try_except _ _) => apply ops_in_try_except; [|intros ? ? [= <-]]
      | |- ops_in _ (match ?b with _ => _ end) => destruct b
      end
    | solve [eauto with spoken] ].

Create HintDb spoken.

Section Attempt.
Context (self : worker) (l : lease).
Local Abbreviation sp := (ops_in (S:=WorkerSig) (speaks self (Some l))).

Lemma sp_call m timeout wait rid p members :
  payload_members p = members → carries m p →
  sp (call (w_rpc self) m (Some l) timeout wait rid members).
Proof. apply speaks_call. Qed.

Lemma sp_alive : sp alive.
Proof. unfold alive. by spoken. Qed.
Lemma sp_kill_group : sp kill_group.
Proof. unfold kill_group. by spoken. Qed.
Lemma sp_log msg ol rid fs : sp (log self msg ol rid fs).
Proof. unfold log. by spoken. Qed.
#[local] Hint Resolve sp_alive sp_kill_group sp_log : spoken.

Lemma sp_upload path knd : sp (upload (w_bucket self) path l knd alive).
Proof.
  unfold upload, digest, get_prefix. spoken.
  generalize [0; 1; 2; 3; 4]. intros n. induction n as [|k n IH]; [done|]. cbn [upload_loop].
  unfold put_once. spoken.
Qed.
#[local] Hint Resolve sp_upload : spoken.

Lemma sp_files b : sp (report_artifacts self l b).
Proof. by apply (sp_call _ _ _ _ (Files b)). Qed.
#[local] Hint Resolve sp_files : spoken.

Lemma sp_drain n : sp (drain n).
Proof. induction n; cbn [drain]; by spoken. Qed.
Lemma sp_stat_all ps : sp (stat_all ps).
Proof. induction ps; cbn [stat_all]; by spoken. Qed.
Lemma sp_upload_new u ps : sp (upload_new self l u ps).
Proof. induction ps; cbn [upload_new]; by spoken. Qed.
Lemma sp_report_new bs : ∀ u, sp (report_new self l bs u).
Proof. induction bs; intros u; cbn [report_new]; by spoken. Qed.
Lemma sp_log_lines rid ls : sp (log_lines self l rid ls).
Proof. induction ls; cbn [log_lines]; by spoken. Qed.
Lemma sp_upload_outputs ps : sp (upload_outputs self l ps).
Proof. induction ps; cbn [upload_outputs]; by spoken. Qed.
Lemma sp_report_all bs : sp (report_all self l bs).
Proof. induction bs; cbn [report_all]; by spoken. Qed.
#[local] Hint Resolve sp_drain sp_stat_all sp_upload_new sp_report_new sp_log_lines : spoken.
#[local] Hint Resolve sp_upload_outputs sp_report_all : spoken.

Lemma sp_progress cps u : sp (progress self l cps u).
Proof.
  unfold progress.
  assert (∀ b rid t, sp (call (w_rpc self) ReportProgress (Some l) t 0 rid
            [("logs", JArr (JStr <$> b))])) by (intros b ??; by apply (sp_call _ _ _ _ (LogLines b))).
  by spoken.
Qed.
#[local] Hint Resolve sp_progress : spoken.

Lemma sp_poll_loop cps fuel : ∀ u, sp (poll_loop fuel self l cps u).
Proof. induction fuel; intros u; cbn [poll_loop]; by spoken. Qed.

Lemma sp_outcome m t rid c s :
  carries m (Outcome c s) →
  sp (call (w_rpc self) m (Some l) t 0 rid [("exit_code", JNum c); ("reason", JStr s)]).
Proof. by apply (sp_call _ _ _ _ (Outcome c s)). Qed.

Lemma sp_finish root u : sp (finish self l root u).
Proof.
  unfold finish, join_reader, report_outcome, send_outcome. spoken.
  all: destruct (_ =? 0); by apply sp_outcome.
Qed.
#[local] Hint Resolve sp_poll_loop sp_finish : spoken.

Lemma sp_execute fuel : sp (execute fuel self l).
Proof.
  unfold execute, cleanup, on_exception, attempt_body, open_client, in_directory, run_child,
    get_environment, resume, restore, digest. spoken.
  - by apply (sp_call _ _ _ _ Nothing).
  - by apply sp_outcome.
Qed.

Lemma sp_renew fuel : sp (renew fuel self l).
Proof.
  induction fuel; cbn [renew]; unfold renew_once; spoken.
  by apply (sp_call _ _ _ _ Nothing).
Qed.
End Attempt.

(** *** The loop of the worker *)
Section Loop.
Context (self : worker) (r : resources).
Local Abbreviation sp := (ops_in (S:=WorkerSig) (speaks self None)).

Lemma sp_bare m timeout wait rid :
  carries m Nothing → sp (call (w_rpc self) m None timeout wait rid []).
Proof. by apply (speaks_call _ _ _ _ _ _ Nothing). Qed.

Lemma sp_reap fs : sp (reap_futures fs).
Proof. induction fs; cbn [reap_futures]; by spoken. Qed.
#[local] Hint Resolve sp_reap : spoken.

Lemma sp_run_loop fuel : ∀ fs last, sp (run_loop fuel self r fs last).
Proof.
  induction fuel; intros fs last; cbn [run_loop]; [done|].
  unfold catch_rpc, beat_if_due, unavailable, lease_one, log. spoken.
  all: by apply sp_bare.
Qed.
#[local] Hint Resolve sp_run_loop : spoken.

Lemma sp_run_worker fuel : sp (run_worker fuel self r).
Proof.
  unfold run_worker, log. spoken.
  eapply (speaks_call _ _ _ _ _ _
    (Registration _ (Store.MkResources (res_cpu r) (res_memory_mb r) (res_gpu r)))); [|done].
  reflexivity.
Qed.
End Loop.

(** ** The claim *)
(** The programs a worker runs, with the lease they speak about. *)
Inductive program := Attempt (l : lease) | Beats (l : lease) | MainLoop (r : resources).

Definition code (fuel : nat) (self : worker) (g : program) : W unit :=
  match g with
  | Attempt l => execute fuel self l
  | Beats l => renew fuel self l
  | MainLoop r => run_worker fuel self r
  end.
Definition subject (g : program) : option lease :=
  match g with Attempt l | Beats l => Some l | MainLoop _ => None end.

Lemma code_speaks fuel self g : ops_in (S:=WorkerSig) (speaks self (subject g)) (code fuel self g).
Proof. destruct g; [apply sp_execute|apply sp_renew|apply sp_run_worker]. Qed.

(** C29. Every request that an attempt, its heartbeat thread or the main loop of a worker sends,
    whatever they are answered, carries the payload its method asks for; and the server decodes
    it, when the texts in it are Unicode and the numbers fit 64 bits, into exactly the values the
    worker put in, with the envelope of the request: it never answers [InvalidArgument] for a
    payload it cannot read. *)
Theorem requests_are_understood fuel self g tr r m q t a :
  traces (code fuel self g) tr r → ev (Stub m q t) a ∈ tr →
  ∃ p wait rid, carries m p ∧
    q = make_request (w_rpc self) (subject g) wait rid (payload_members p) ∧
    (payload_ok p = true → request_of q = Some (filled p q)).
Proof.
  intros Htr Hin. apply (ops_in_traces (S:=WorkerSig) _ _ _ _ (code_speaks fuel self g)) in Htr.
  rewrite Forall_forall in Htr. destruct (Htr _ Hin) as (p & wait & rid & Hm & ->).
  exists p, wait, rid. split_and!; [done..|]. by apply request_of_payload.
Qed.

(** The resumed attempt of [demo_exec] reports its exit status. *)
Lemma requests_are_understood_witness :
  let q := Request "uuid-73" "w1" "s1" "a1" "t1"
    (dumps (JObj [("exit_code", JNum 0); ("reason", JStr EmptyString)])) 0 in
  (∃ p wait rid, carries CompleteAttempt p ∧
     q = make_request (w_rpc demo_worker) (Some demo_attempt) wait rid (payload_members p) ∧
     (payload_ok p = true → request_of q = Some (filled p q))) ∧
  request_of q = Some (Store.MkRequest "uuid-73" "w1" "s1" "a1" "t1" EmptyString
                         (Store.MkResources 0 0 0) 0 EmptyString None None).
Proof.
  intros q. split; [|by vm_compute].
  apply (requests_are_understood 5 demo_worker (Attempt demo_attempt) demo_exec.2 demo_exec.1
    CompleteAttempt q 5000000 (inr (Reply None None false None)) demo_exec_traces).
  assert (demo_exec.2 !! 76%nat =
    Some (ev (Stub CompleteAttempt q 5000000) (inr (Reply None None false None)))) as Hl
    by by vm_compute.
  by eapply list_elem_of_lookup_2.
Defined.
