(* ===== verification/Client.v ===== *)
(** * Client: the SDK's HTTP client and the function runner
      (sdk/python/rungrid/client.py, sdk/python/rungrid/invoke.py)

    A client method is the HTTP request it sends; [main] of invoke.py is the call it makes of the
    function it imports.  [Invoke] shows that a function submitted with [submit_function] is
    called, on the worker, with the arguments it was submitted with. *)
From S2P Require Import Prelude Effects PyStr Utf8 Json JsonParse JsonRound Checkpoint.
Local Open Scope string_scope.
Local Open Scope list_scope.

(** ** Reading an answer *)
(** [v[k]] of a JSON value *)
Definition item (v : json) (k : string) : exn + json :=
  match v with
  | JObj d => match dict_get d k with Some x => inr x | None => inl (KeyError k) end
  | _ => inl (TypeError "indices must be integers or slices, not str")
  end.

(** An item that is text, as the API answers identifiers, hosts and states. *)
Definition text_item (v : json) (k : string) : exn + string :=
  match item v k with
  | inl e => inl e
  | inr (JStr s) => inr s
  | inr _ => inl (TypeError k)
  end.

Module Client.
Record http := Http {
  h_method : string;
  h_url : string;
  h_body : option string;
  h_content_type : string;
  h_request_id : string }.

Definition new (url : string) : string := rstrip (is_char slash) url.

(** [Client.request]; [uuid] is the identifier generated when none is given. *)
Definition request (self uuid method path : string) (payload : option json)
    (request_id : option string) : http :=
  Http method (self +:+ path) (dumps <$> payload) "application/json"
    (match request_id with Some rid => if nonempty rid then rid else uuid | None => uuid end).

Definition submit (self uuid : string) (definition : json) : http :=
  request self uuid "POST" "/v1/jobs" (Some definition) None.

(** [definition["command"] = command] in the keyword arguments, then [submit]. *)
Definition submit_function (self uuid function : string) (args : list json)
    (kwargs : option (list (string * json))) (definition : list (string * json)) : http :=
  let command := ["python"; "-m"; "rungrid.invoke"; function; "--args"; dumps (JArr args);
                  "--kwargs"; dumps (JObj (default [] kwargs))] in
  submit self uuid (JObj (dict_set definition "command" (JArr (JStr <$> command)))).

Definition batch (self uuid : string) (definitions : list json) : http :=
  request self uuid "POST" "/v1/jobs/batch" (Some (JArr definitions)) None.

Definition get (self uuid job_id : string) : http :=
  request self uuid "GET" ("/v1/jobs/" +:+ job_id) None None.

Definition list_ (self uuid : string) (limit offset : Z) : http :=
  request self uuid "GET" ("/v1/jobs?limit=" +:+ pretty limit +:+ "&offset=" +:+ pretty offset) None None.

Definition cancel (self uuid job_id : string) (request_id : option string) : http :=
  request self uuid "POST" ("/v1/jobs/" +:+ job_id +:+ "/cancel") None request_id.

Definition retry (self uuid job_id : string) (request_id : option string) : http :=
  request self uuid "POST" ("/v1/jobs/" +:+ job_id +:+ "/retry") None request_id.

Definition attempts (self uuid job_id : string) : http :=
  request self uuid "GET" ("/v1/jobs/" +:+ job_id +:+ "/attempts?limit=1000") None None.

Definition artifacts (self uuid job_id : string) : http :=
  request self uuid "GET" ("/v1/jobs/" +:+ job_id +:+ "/artifacts?limit=1000") None None.
End Client.

Module Invoke.
(** What the argument parser of [main] holds: the positional argument and the two options. *)
Record parsed := Parsed { p_function : option string; p_args : string; p_kwargs : string }.

(** [parser.parse_args()] on separate option values; [None] is its error exit. *)
Fixpoint parse_args (st : parsed) (argv : list string) : option parsed :=
  match argv with
  | [] => match p_function st with Some _ => Some st | None => None end
  | [a] =>
      if has_prefix "-" a then None
      else match p_function st with
           | None => Some (Parsed (Some a) (p_args st) (p_kwargs st))
           | Some _ => None
           end
  | a :: (v :: rest') as rest =>
      if String.eqb a "--args" then
        if has_prefix "-" v then None
        else parse_args (Parsed (p_function st) v (p_kwargs st)) rest'
      else if String.eqb a "--kwargs" then
        if has_prefix "-" v then None
        else parse_args (Parsed (p_function st) (p_args st) v) rest'
      else if has_prefix "-" a then None
      else match p_function st with
           | None => parse_args (Parsed (Some a) (p_args st) (p_kwargs st)) rest
           | Some _ => None
           end
  end.

(** The call [getattr(import_module(module), name)( *args, **kwargs)]. *)
Record invocation := Invocation {
  module : string; name : string; args : list json; kwargs : list (string * json) }.

Inductive invoked :=
| Exit                        (* the parser's error exit *)
| Raises                      (* no colon, or arguments that are not JSON of the right type *)
| Calls (i : invocation).

Definition main (argv : list string) : invoked :=
  match parse_args (Parsed None "[]" "{}") argv with
  | Some (Parsed (Some function) a k) =>
      match split1 ":" function, loads a, loads k with
      | Some (module, name), Some (JArr args), Some (JObj kwargs) =>
          Calls (Invocation module name args kwargs)
      | _, _, _ => Raises
      end
  | _ => Exit
  end.

(** The file [main] writes after the call, from the function's result. *)
Definition result_file (env : gmap string string) (result : json) : exn + (string * string) :=
  match output_dir env with
  | inr (_, d) => inr (d +:+ "/result.json", dumps result)
  | inl e => inl e
  end.

(** The command of a request body, as the worker runs it: the arguments after
    [python -m rungrid.invoke]. *)
Definition argv_of (body : string) : option (list string) :=
  match loads body with
  | Some (JObj d) =>
      match List.find (λ kv, String.eqb kv.1 "command") d with
      | Some (_, JArr (_ :: _ :: _ :: l)) =>
          Some (omap (λ j, match j with JStr s => Some s | _ => None end) l)
      | _ => None
      end
  | _ => None
  end.

Lemma split1_name m f : contains ":" m = false → split1 ":" (m +:+ ":" +:+ f) = Some (m, f).
Proof.
  induction m as [|c m IH]; [done|]. cbn [contains has_prefix]. intros [Hc Hm]%orb_false_iff.
  rewrite string_cons_app. cbn [split1]. rewrite andb_true_r, Ascii.eqb_sym in Hc.
  rewrite Hc. by rewrite IH.
Qed.

Lemma find_dict_set d k v :
  List.find (λ kv, String.eqb kv.1 k) (dict_set d k v) = Some (k, v).
Proof.
  induction d as [|[k' v'] d IH]; cbn [dict_set List.find fst].
  - by rewrite String.eqb_refl.
  - destruct (String.eqb_spec k k') as [->|Hne]; cbn [List.find fst].
    + by rewrite String.eqb_refl.
    + destruct (String.eqb_spec k' k); [congruence|done].
Qed.

Lemma ascii_ok_app a b : ascii_ok (a +:+ b) = ascii_ok a && ascii_ok b.
Proof.
  induction a as [|c a IH]; [done|]. rewrite string_cons_app. cbn [ascii_ok].
  by rewrite IH, andb_assoc.
Qed.

Lemma dict_set_keys d k v x : x ∈ map fst (dict_set d k v) → x = k ∨ x ∈ map fst d.
Proof.
  induction d as [|[k' v'] d IH]; cbn [dict_set map fst].
  - rewrite list_elem_of_singleton. auto.
  - destruct (String.eqb_spec k k') as [->|Hne]; cbn [map fst]; rewrite !elem_of_cons; naive_solver.
Qed.

Lemma dict_set_ok d k v :
  json_ok (JObj d) = true → str_ok k = true → json_ok v = true →
  json_ok (JObj (dict_set d k v)) = true.
Proof.
  cbn [json_ok]. rewrite !andb_true_iff, !bool_decide_eq_true. intros [Hd Hnd] Hk Hv.
  induction d as [|[k' v'] d IH]; cbn [dict_set].
  { cbn. rewrite Hk, Hv. split; [done|]. apply NoDup_singleton. }
  cbn [forallb map fst snd] in *. apply andb_true_iff in Hd as [Hkv Hd].
  apply NoDup_cons in Hnd as [Hni Hnd].
  destruct (String.eqb_spec k k') as [->|Hne]; cbn [forallb map fst snd].
  - rewrite Hk, Hv, Hd. split; [done|]. by apply NoDup_cons.
  - destruct (IH Hd Hnd) as [IH1 IH2]. rewrite Hkv, IH1. split; [done|].
    apply NoDup_cons. split; [|done]. intros [->|Hin]%dict_set_keys; done.
Qed.

(** *** [dumps] writes ASCII *)
Lemma ascii_escape_ok c : (N_of_ascii c <? 128)%N = true → ascii_ok (ascii_escape c) = true.
Proof.
  destruct c as [[] [] [] [] [] [] [] []]; intros Hc; try discriminate Hc; reflexivity.
Qed.

Lemma u_escape_ascii n : ascii_ok (u_escape n) = true.
Proof.
  assert (∀ x, ascii_ok (String (hex_digit (x mod 16)) EmptyString) = true) as Hx.
  { intros x. pose proof (N.mod_lt x 16 ltac:(done)) as Hlt. generalize dependent (x mod 16)%N. intros d Hd.
    assert (forallb (λ d, ascii_ok (String (hex_digit d) EmptyString)) (N.of_nat <$> seq 0 16) = true)
      as Hall by (vm_compute; reflexivity).
    rewrite forallb_forall in Hall. apply Hall, list_elem_of_In, list_elem_of_fmap.
    exists (N.to_nat d). split; [lia|]. apply elem_of_seq. lia. }
  assert (∀ x t, ascii_ok (String (hex_digit (x mod 16)) t) = ascii_ok t) as Ht.
  { intros x t. specialize (Hx x). cbn [ascii_ok] in *. rewrite andb_true_r in Hx. by rewrite Hx. }
  unfold u_escape, hex4.
  change (ascii_ok (String backslash (String "u" ?t))) with (ascii_ok t). by rewrite !Ht.
Qed.

Lemma esc_cp_ascii n : ascii_ok (esc_cp n) = true.
Proof.
  unfold esc_cp. destruct (N.ltb_spec n 128) as [H|H].
  - apply ascii_escape_ok. rewrite N_of_byte by lia. by apply N.ltb_lt.
  - unfold cp_escape. destruct (N.ltb n 65536); [apply u_escape_ascii|].
    cbv zeta. by rewrite ascii_ok_app, !u_escape_ascii.
Qed.

Lemma escape_ascii s : str_ok s = true → ascii_ok (escape s) = true.
Proof.
  unfold str_ok. intros [Hs|(cps & -> & Hall)%utf8_ok_encode]%orb_true_iff.
  - induction s as [|c s IH]; [done|]. cbn [ascii_ok] in Hs. apply andb_true_iff in Hs as [Hc Hs].
    cbn [escape]. rewrite Hc, ascii_ok_app, ascii_escape_ok, IH by done. done.
  - induction Hall as [|n cps Hn _ IH]; [done|]. cbn [encode].
    by rewrite escape_cp, ascii_ok_app, esc_cp_ascii, IH.
Qed.

Lemma quote_ascii s : str_ok s = true → ascii_ok (quote s) = true.
Proof.
  intros Hs. unfold quote. cbn [ascii_ok]. rewrite ascii_ok_app, escape_ascii by done. done.
Qed.

Lemma pretty_N_ok (x : N) : ascii_ok (pretty x) = true.
Proof.
  assert (∀ d, ascii_ok (String (pretty_N_char d) EmptyString) = true) as Hd.
  { intros d. unfold pretty_N_char. by repeat case_match. }
  assert (∀ x s, ascii_ok s = true → ascii_ok (pretty_N_go x s) = true) as Hgo.
  { clear x. intros x. induction (N.lt_wf_0 x) as [x _ IH]; intros s Hs.
    destruct (decide (x = 0)%N) as [->|Hx]; [by rewrite pretty_N_go_0|].
    rewrite pretty_N_go_step by lia. apply IH; [apply N.div_lt; lia|].
    change (ascii_ok (String (pretty_N_char (x `mod` 10)) EmptyString +:+ s) = true).
    by rewrite ascii_ok_app, Hd, Hs. }
  unfold pretty, pretty_N. destruct (decide _); [done|]. by apply Hgo.
Qed.

Lemma pretty_Z_ok (z : Z) : ascii_ok (pretty z) = true.
Proof.
  destruct z as [|p|p]; [done|apply (pretty_N_ok (Npos p))|].
  change (pretty (Zneg p)) with ("-" +:+ pretty (Npos p)). by rewrite ascii_ok_app, pretty_N_ok.
Qed.

Lemma join_ok {A} (f : A → string) l :
  Forall (λ x, ascii_ok (f x) = true) l → ascii_ok (join ", " (map f l)) = true.
Proof.
  induction 1 as [|x l Hx Hl IH]; [done|]. destruct l as [|y l]; [done|].
  change (map f (x :: y :: l)) with (f x :: f y :: map f l). rewrite join_cons, !ascii_ok_app, Hx.
  done.
Qed.

Lemma dumps_ascii j : json_ok j = true → ascii_ok (dumps j) = true.
Proof.
  induction j as [|[]|z|s|l IH|l IH] using json_nested_ind; intros Hok; try done.
  - apply pretty_Z_ok.
  - by apply quote_ascii.
  - cbn [dumps]. rewrite !ascii_ok_app, join_ok; [done|].
    cbn [json_ok] in Hok. rewrite forallb_forall in Hok. rewrite List.Forall_forall in *. auto.
  - cbn [dumps]. rewrite !ascii_ok_app, (join_ok (λ kv, quote kv.1 +:+ ": " +:+ dumps kv.2)); [done|].
    cbn [json_ok] in Hok. apply andb_true_iff in Hok as [Hok _].
    rewrite forallb_forall in Hok. rewrite List.Forall_forall in *. intros kv Hkv.
    specialize (Hok kv Hkv). apply andb_true_iff in Hok as [Hk Hv].
    rewrite !ascii_ok_app, quote_ascii, IH by done. done.
Qed.

Lemma strings_ok l : Forall (λ s, str_ok s = true) l → json_ok (JArr (JStr <$> l)) = true.
Proof. induction 1 as [|s l Hs Hl IH]; [done|]. cbn in *. by rewrite Hs, IH. Qed.

(** A submitted function is called with what it was submitted with: for an importable name
    [m:f] and JSON arguments, the command in the body of the request, run by the worker, makes
    [rungrid.invoke] call [f] of [m] with those positional and keyword arguments. *)
Theorem submitted_function_is_called self uuid m f args kwargs definition :
  contains ":" m = false → has_prefix "-" (m +:+ ":" +:+ f) = false →
  str_ok (m +:+ ":" +:+ f) = true → json_ok (JArr args) = true →
  json_ok (JObj (default [] kwargs)) = true → json_ok (JObj definition) = true →
  ∃ body argv,
    Client.h_body (Client.submit_function self uuid (m +:+ ":" +:+ f) args kwargs definition) = Some body ∧
    argv_of body = Some argv ∧
    main argv = Calls (Invocation m f args (default [] kwargs)).
Proof.
  intros Hm Hdash Hfn Hargs Hkw Hdef.
  eexists _, [m +:+ ":" +:+ f; "--args"; dumps (JArr args); "--kwargs"; dumps (JObj (default [] kwargs))].
  split; [reflexivity|]. split.
  - unfold argv_of. rewrite loads_dumps_eq.
    + rewrite find_dict_set. reflexivity.
    + apply dict_set_ok; [done|done|]. apply strings_ok.
      repeat (apply Forall_cons; split); try done; by apply ascii_str, dumps_ascii.
  - unfold main. cbn [parse_args p_function p_args p_kwargs].
    assert (∀ o, has_prefix "-" o = true → String.eqb (m +:+ ":" +:+ f) o = false) as Hne.
    { intros o Ho. apply String.eqb_neq. intros Heq. by rewrite Heq, Ho in Hdash. }
    rewrite !Hne, Hdash by done. cbn [parse_args p_function p_args p_kwargs].
    change (String.eqb "--args" "--args") with true. change (String.eqb "--kwargs" "--kwargs") with true.
    change (String.eqb "--kwargs" "--args") with false. cbv match.
    change (has_prefix "-" (dumps (JArr args))) with false.
    change (has_prefix "-" (dumps (JObj (default [] kwargs)))) with false. cbv match.
    by rewrite split1_name, !loads_dumps_eq.
Qed.

Lemma submitted_function_is_called_witness :
  ∃ body argv,
    Client.h_body (Client.submit_function (Client.new "http://localhost:8080/") "u1" ("pkg.train" +:+ ":" +:+ "fit")
      [JNum 3] (Some [("seed", JNum 7)]) [("name", JStr "demo")]) = Some body ∧
    argv_of body = Some argv ∧
    main argv = Calls (Invocation "pkg.train" "fit" [JNum 3] [("seed", JNum 7)]).
Proof.
  apply (submitted_function_is_called (Client.new "http://localhost:8080/") "u1" "pkg.train" "fit"
           [JNum 3] (Some [("seed", JNum 7)]) [("name", JStr "demo")]); vm_compute; reflexivity.
Defined.
End Invoke.
