(* ===== verification/Api.v ===== *)
(** * Api: the HTTP interface of the control plane (internal/api/http.go)

    [Handler] takes a request, as net/http hands it over (the path in its escaped form, the raw
    query, the body), to its route, and the tables to what the store makes of them.  [received] is
    the request a server gets from the SDK's client.  Of an error answer the model keeps the
    status; a receipt that is answered again has its members in the order of the database. *)
From stdpp Require Import sorting.
From S2P Require Import Prelude Effects PyStr Utf8 Json JsonParse JsonRound Calendar Times Sha256 Wire World.
From S2P Require Import Rpc Artifacts Worker WorkerSafety Logs Checkpoint Control ControlSpec ControlRefine ControlProps.
From S2P Require Import EndToEnd WireText Queries Client.
Import Store Query.
Local Open Scope string_scope.
Local Open Scope list_scope.
Local Open Scope Z_scope.

Module Api.

Record Req := MkReq {
  Method : string;
  EscapedPath : string;
  RawQuery : string;
  XRequestID : string;
  Body : string }.

(** ** Text of a URL *)
Fixpoint split_all (c : ascii) (cur s : string) : list string :=
  match s with
  | EmptyString => [cur]
  | String d r => if Ascii.eqb d c then cur :: split_all c EmptyString r
                  else split_all c (cur +:+ String d EmptyString) r
  end.

(** [%XX], and [+] for a space in a query; [None] is an error. *)
Fixpoint unescaped (plus : bool) (s : string) : option string :=
  match s with
  | EmptyString => Some EmptyString
  | String c r =>
      if Ascii.eqb c "%" then
        match r with
        | String a (String b r') =>
            match hex_value a, hex_value b with
            | Some x, Some y => String (ascii_of_N (16 * x + y)) <$> unescaped plus r'
            | _, _ => None
            end
        | _ => None
        end
      else String (if plus && Ascii.eqb c "+" then " "%char else c) <$> unescaped plus r
  end.

(** [url.Values.Get] of [URL.Query()]: the first value of the key; pairs that are malformed are
    dropped. *)
Definition query_pair (s : string) : option (string * string) :=
  if contains ";" s || String.eqb s EmptyString then None
  else
    let '(k, v) := match split1 "=" s with Some kv => kv | None => (s, EmptyString) end in
    match unescaped true k, unescaped true v with
    | Some k, Some v => Some (k, v)
    | _, _ => None
    end.
Definition Query_Get (query key : string) : string :=
  default EmptyString (dict_get (omap query_pair (split_all "&" EmptyString query)) key).

(** [strconv.Atoi]; [None] is an error. *)
Fixpoint atoi_digits (acc : Z) (s : string) : option Z :=
  match s with
  | EmptyString => Some acc
  | String c r => match digit c with Some x => atoi_digits (acc * 10 + Z.of_N x) r | None => None end
  end.
Definition Atoi (s : string) : option Z :=
  let number r := if nonempty r then atoi_digits 0 r else None in
  z ← match s with
      | String "-" r => Z.opp <$> number r
      | String "+" r => number r
      | _ => number s
      end;
  if int64 z then Some z else None.

(** ** [page] *)
Definition number_or (fallback : Z) (v : string) : option Z := if nonempty v then Atoi v else Some fallback.
Definition page (q : Req) : error + Z * Z :=
  match number_or 100 (Query_Get (RawQuery q) "limit"), number_or 0 (Query_Get (RawQuery q) "offset") with
  | Some limit, Some offset =>
      if (limit <? 1) || (1000 <? limit) || (offset <? 0) then inl ErrInvalid else inr (limit, offset)
  | _, _ => inl ErrInvalid
  end.

(** ** [decode] *)
(** A [map[string]string]: [null] makes it nil, an object adds to it. *)
Fixpoint dec_pairs (d : list (string * json)) (m : gmap string string) : option (gmap string string) :=
  match d with
  | [] => Some m
  | (k, v) :: d => s ← dec_string EmptyString v; dec_pairs d (<[k := s]> m)
  end.
Definition dec_map (old : option (gmap string string)) (v : json) : option (option (gmap string string)) :=
  match v with
  | JNull => Some None
  | JObj d => Some <$> dec_pairs d (default ∅ old)
  | _ => None
  end.

Definition set_job (k : string) (v : json) (j : Job) : option Job :=
  let '(MkJob name cmd envm res maxa tmo key pre) := j in
  let k := lower k in
  if String.eqb k "name" then s ← dec_string name v; Some (MkJob s cmd envm res maxa tmo key pre)
  else if String.eqb k "command" then
    l ← dec_slice (dec_string EmptyString) v; Some (MkJob name (default [] l) envm res maxa tmo key pre)
  else if String.eqb k "environment" then m ← dec_map envm v; Some (MkJob name cmd m res maxa tmo key pre)
  else if String.eqb k "resources" then
    r ← dec_struct set_resource res v; Some (MkJob name cmd envm r maxa tmo key pre)
  else if String.eqb k "max_attempts" then z ← dec_int maxa v; Some (MkJob name cmd envm res z tmo key pre)
  else if String.eqb k "timeout_seconds" then z ← dec_int tmo v; Some (MkJob name cmd envm res maxa z key pre)
  else if String.eqb k "idempotency_key" then s ← dec_string key v; Some (MkJob name cmd envm res maxa tmo s pre)
  else if String.eqb k "artifact_prefix" then s ← dec_string pre v; Some (MkJob name cmd envm res maxa tmo key s)
  else None.
Definition zero_job : Job :=
  MkJob EmptyString [] None (MkResources 0 0 0) 0 0 EmptyString EmptyString.

Definition dec_job : json → option Job := dec_struct set_job zero_job.
(** [var jobs []scheduler.Job]: nil and empty are told apart by nobody. *)
Definition dec_jobs (v : json) : option (list Job) := default [] <$> dec_slice dec_job v.

(** One JSON value and nothing after it, in at most 4 MiB. *)
Definition decode {A} (f : json → option A) (q : Req) : option A :=
  if len (Body q) <=? 4194304 then v ← loads (Body q); f v else None.

(** ** Routes *)
Inductive route :=
| Healthz | Readyz | Metrics | PostJob | PostBatch | ListJobs | GetJob
| JobRows (kind : string) | JobAction (action : string) | ListWorkers.

Inductive segment := Lit (s : string) | Id.

Section Routing.
(** Whether there is a metrics handler. *)
Context (metrics : bool).

Definition patterns : list (string * list segment * route) :=
  [("GET", [Lit "healthz"], Healthz); ("GET", [Lit "readyz"], Readyz)]
  ++ (if metrics then [("GET", [Lit "metrics"], Metrics)] else [])
  ++ [("POST", [Lit "v1"; Lit "jobs"], PostJob); ("POST", [Lit "v1"; Lit "jobs"; Lit "batch"], PostBatch);
      ("GET", [Lit "v1"; Lit "jobs"], ListJobs); ("GET", [Lit "v1"; Lit "jobs"; Id], GetJob)]
  ++ ((λ kind, ("GET", [Lit "v1"; Lit "jobs"; Id; Lit kind], JobRows kind)) <$> ["attempts"; "events"; "artifacts"])
  ++ ((λ action, ("POST", [Lit "v1"; Lit "jobs"; Id; Lit action], JobAction action)) <$> ["cancel"; "retry"])
  ++ [("GET", [Lit "v1"; Lit "workers"], ListWorkers)].

(** The part of a path a pattern is compared with: segments unescaped, a trailing slash kept. *)
Fixpoint trailing (l : list string) : list string :=
  match l with
  | [] => []
  | [s] => [if nonempty s then s else "/"]
  | s :: l => s :: trailing l
  end.
Definition path_unescape (s : string) : string := default s (unescaped false s).
Definition segments (path : string) : list string :=
  path_unescape <$> trailing (tail (split_all slash EmptyString path)).

(** The value of [{id}], if the pattern has one. *)
Fixpoint match_segments (ps : list segment) (l : list string) : option (option string) :=
  match ps, l with
  | [], [] => Some None
  | Lit s :: ps, x :: l => if String.eqb x s then match_segments ps l else None
  | Id :: ps, x :: l =>
      if String.eqb x "/" then None
      else match match_segments ps l with Some _ => Some (Some x) | None => None end
  | _, _ => None
  end.

Definition matching (method : string) (l : list string) : list (route * option string) :=
  omap (λ p : string * list segment * route,
          let '(m, ps, r) := p in
          if String.eqb m method then (λ o, (r, o)) <$> match_segments ps l else None) patterns.
(** [GET] patterns serve [HEAD] too. *)
Definition find_route (method : string) (l : list string) : option (route * option string) :=
  match head (matching method l) with
  | Some x => Some x
  | None => if String.eqb method "HEAD" then head (matching "GET" l) else None
  end.
Definition matches_other (l : list string) : bool :=
  existsb (λ p : string * list segment * route, bool_decide (is_Some (match_segments (p.1.2) l))) patterns.

(** [path.Clean] of a rooted path, its trailing slash kept. *)
Fixpoint clean (acc : list string) (l : list string) : list string :=
  match l with
  | [] => reverse acc
  | s :: l => if String.eqb s EmptyString || String.eqb s "." then clean acc l
              else if String.eqb s ".." then clean (tail acc) l
              else clean (s :: acc) l
  end.
Definition cleanPath (p : string) : string :=
  let p := if has_prefix "/" p then p else "/" +:+ p in
  let np := "/" +:+ join "/" (clean [] (split_all slash EmptyString p)) in
  if ends_with "/" p && negb (String.eqb np "/") then np +:+ "/" else np.

Inductive routed :=
| To (r : route) (id : string)
| Moved (path : string)
| MethodNotAllowed
| NoRoute.
Definition findHandler (q : Req) : routed :=
  let path := EscapedPath q in
  if negb (String.eqb (Method q) "CONNECT") && negb (String.eqb (cleanPath path) path)
  then Moved (cleanPath path)
  else match find_route (Method q) (segments path) with
       | Some (r, id) => To r (default EmptyString id)
       | None => if matches_other (segments path) then MethodNotAllowed else NoRoute
       end.
End Routing.

(** ** Handlers *)
Inductive resp :=
| Answer (v : json)                (* 200, the value as JSON *)
| Failed (code : Z)                (* the status, with an error object *)
| Plain (code : Z) (text : string)
| Redirect (path query : string)
| MetricsPage.

Definition status (r : resp) : Z :=
  match r with
  | Answer _ | MetricsPage => 200
  | Failed c | Plain c _ => c
  | Redirect _ _ => 301
  end.

(** [reply] with an error. *)
Definition code_of (x : error) : Z :=
  match x with ErrInvalid => 400 | ErrNotFound => 404 | ErrConflict => 409 | ErrInternal => 500 end.
Definition reply {A} (f : A → json) (r : error + A) : resp :=
  match r with inl x => Failed (code_of x) | inr a => Answer (f a) end.

Definition uuid : string → bool := idPattern.

Section Handler.
Context (zone_at : Z → Z) (pg_time : Z → string) (event_id : nat → Z) (text_leb : string → string → bool)
        (metrics : bool) (ping : bool).

Definition rows_json (l : list JobRow) : json := JArr (jobrow_json zone_at <$> l).

Definition PostJob_handler (e : env) (q : Req) (d : db) : resp * db :=
  match decode dec_job q with
  | None => (Failed (code_of ErrInvalid), d)
  | Some j =>
      let '(r, d') := transact (Submit [j]) e d in
      (match r with
       | inl x => Failed (code_of x)
       | inr rows => reply (jobrow_json zone_at) (match rows with row :: _ => inr row | [] => inl ErrInternal end)
       end, d')
  end.

Definition PostBatch_handler (e : env) (q : Req) (d : db) : resp * db :=
  match decode dec_jobs q with
  | None => (Failed (code_of ErrInvalid), d)
  | Some js => let '(r, d') := transact (Submit js) e d in (reply rows_json r, d')
  end.

Definition ListJobs_handler (q : Req) (d : db) : resp :=
  reply rows_json (match page q with inl x => inl x | inr (l, o) => inr (List_ l o d) end).

Definition GetJob_handler (id : string) (d : db) : resp :=
  if uuid id then reply (jobrow_json zone_at) (Get id d) else Failed (code_of ErrInvalid).

Definition JobRows_handler (kind id : string) (q : Req) (d : db) : resp :=
  if uuid id then
    reply JArr (match page q with
                | inl x => inl x
                | inr (l, o) => match Get id d with
                                | inl x => inl x
                                | inr _ => ReadRows pg_time event_id kind id l o d
                                end
                end)
  else Failed (code_of ErrInvalid).

Definition JobAction_handler (action id : string) (e : env) (q : Req) (d : db) : resp * db :=
  if uuid id then
    let '(r, d') := transact (Action id action (XRequestID q)) e d in (reply (response_json zone_at) r, d')
  else (Failed (code_of ErrInvalid), d).

Definition status_json (s : string) : json := JObj [("status", JStr s)].

Definition serve_route (r : route) (id : string) (e : env) (q : Req) (d : db) : resp * db :=
  match r with
  | Healthz => (Answer (status_json "ok"), d)
  | Readyz => (if ping then Answer (status_json "ready") else Plain 503 "database unavailable", d)
  | Metrics => (MetricsPage, d)
  | PostJob => PostJob_handler e q d
  | PostBatch => PostBatch_handler e q d
  | ListJobs => (ListJobs_handler q d, d)
  | GetJob => (GetJob_handler id d, d)
  | JobRows kind => (JobRows_handler kind id q d, d)
  | JobAction action => JobAction_handler action id e q d
  | ListWorkers => (Answer (JArr (Workers pg_time text_leb d)), d)
  end.

Definition Handler (e : env) (q : Req) (d : db) : resp * db :=
  match findHandler metrics q with
  | To r id => serve_route r id e q d
  | Moved path => (Redirect path (RawQuery q), d)
  | MethodNotAllowed => (Plain 405 "Method Not Allowed", d)
  | NoRoute => (Plain 404 "404 page not found", d)
  end.
End Handler.

(** ** [scheduler.ID]: sixteen random bytes as a version 4 identifier *)
Definition hex_bytes (l : list N) : string := foldr (λ b s, hex_byte b +:+ s) EmptyString l.
Definition scheduler_ID (random : list N) : string :=
  let b := alter (λ x, N.lor (N.land x 15) 64) 6%nat (alter (λ x, N.lor (N.land x 63) 128) 8%nat random) in
  join "-" [hex_bytes (take 4 b); hex_bytes (take 2 (drop 4 b)); hex_bytes (take 2 (drop 6 b));
            hex_bytes (take 2 (drop 8 b)); hex_bytes (drop 10 b)].

(** ** Requests of the SDK *)
(** A client made for the address [base] sends to [base] and a target: a path in which every
    character stands for itself, and a query. *)
Fixpoint drop_prefix (p s : string) : option string :=
  match p, s with
  | EmptyString, _ => Some s
  | String c p, String d s => if Ascii.eqb c d then drop_prefix p s else None
  | String _ _, EmptyString => None
  end.
Definition received (base : string) (h : Client.http) : option Req :=
  target ← drop_prefix base (Client.h_url h);
  let '(path, query) := match split1 "?" target with Some pq => pq | None => (target, EmptyString) end in
  Some (MkReq (Client.h_method h) path query (Client.h_request_id h) (default EmptyString (Client.h_body h))).
End Api.
