(* ===== verification/ApiText.v ===== *)
(** * ApiText: the text of requests

    Lemmas for the HTTP interface: a job is known by the text of its JSON, what the SDK writes in
    a body, a path or a query is what the server reads there, and which handler it leads to. *)
From stdpp Require Import sorting.
From S2P Require Import Prelude Effects PyStr Utf8 Json JsonParse JsonRound Calendar Times Sha256 Wire World.
From S2P Require Import Rpc Artifacts Worker WorkerSafety Logs Checkpoint Control ControlSpec ControlRefine ControlProps.
From S2P Require Import EndToEnd WireText Queries Client Api.
Import Store Query Api.
Local Open Scope string_scope.
Local Open Scope list_scope.
Local Open Scope Z_scope.

(** ** A definition is known by its text *)
(** An escaped string is read back, whatever its bytes. *)
Lemma parse_go_char c t :
  parse_str (go_char c +:+ t) = match parse_str t with Some (a, b) => Some (String c a, b) | None => None end.
Proof.
  destruct (N_of_ascii c <? 128)%N eqn:Hc; [by apply parse_str_go1|].
  assert ((128 <=? N_of_ascii c)%N = true) as Hc' by (apply N.leb_le; by apply N.ltb_ge in Hc).
  assert (go_char c = String c EmptyString) as ->.
  { clear Hc. destruct c as [[] [] [] [] [] [] [] []]; try discriminate Hc'; reflexivity. }
  rewrite string_cons_app. by apply parse_raw.
Qed.

Lemma parse_go_bytes s rest : parse_str (go_escape s +:+ String dquote rest) = Some (s, rest).
Proof.
  remember (String.length s) as n eqn:Hn. revert s Hn.
  induction (Nat.lt_wf_0 n) as [n _ IH]. intros s Hn.
  destruct s as [|c r]; [done|]. simpl in Hn.
  assert (parse_str ((go_char c +:+ go_escape r) +:+ String dquote rest) = Some (String c r, rest)) as Hone.
  { rewrite string_app_assoc, parse_go_char, (IH (String.length r)) by (done || lia). done. }
  destruct r as [|c1 [|c2 r']]; [exact Hone..|]. cbn [go_escape].
  destruct (_ && _ && _) eqn:Hsep; [|exact Hone]. clear Hone.
  rewrite !andb_true_iff, orb_true_iff, !N.eqb_eq in Hsep. destruct Hsep as [[H0 H1] H2].
  rewrite string_app_assoc, parse_u_escape;
    [|destruct H2 as [-> | ->]; done|destruct H2 as [-> | ->]; reflexivity].
  rewrite (IH (String.length r')) by (done || simpl in Hn; lia). unfold cons_cp.
  assert (encode_cp (8192 + (N_of_ascii c2 - 128)) = String c (String c1 (String c2 EmptyString))) as ->; [|done].
  rewrite <- (ascii_N_embedding c), <- (ascii_N_embedding c1), <- (ascii_N_embedding c2), H0, H1.
  destruct H2 as [-> | ->]; reflexivity.
Qed.

Lemma go_quote_app_inj s s' r r' : go_quote s +:+ r = go_quote s' +:+ r' → s = s' ∧ r = r'.
Proof.
  unfold go_quote. rewrite !string_cons_app, !string_app_assoc, !string_cons_app.
  change (EmptyString +:+ r) with r. change (EmptyString +:+ r') with r'. intros [= H].
  pose proof (parse_go_bytes s r) as H1. rewrite H, parse_go_bytes in H1. by injection H1 as -> ->.
Qed.

Lemma pretty_app_inj (z z' : Z) r r' :
  no_digit r → no_digit r' → pretty z +:+ r = pretty z' +:+ r' → z = z' ∧ r = r'.
Proof.
  intros Hr Hr' H. pose proof (parse_num_pretty z r Hr) as H1.
  rewrite H, (parse_num_pretty z' r' Hr') in H1. by injection H1 as -> ->.
Qed.

(** Quoted items after each other, closed by another character. *)
Lemma quoted_inj {A} (f : A → string) l l' r r' :
  (∀ x y a b, f x +:+ a = f y +:+ b → x = y ∧ a = b) →
  (∀ x, ∃ t, f x = String dquote t) → (∀ t, r ≠ String "," t) → (∀ t, r' ≠ String "," t) →
  (∀ t, r ≠ String dquote t) → (∀ t, r' ≠ String dquote t) →
  join "," (map f l) +:+ r = join "," (map f l') +:+ r' → l = l' ∧ r = r'.
Proof.
  intros Hf Hq Hr Hr' Hd Hd'.
  assert (∀ l l', join "," (map f l) +:+ r = join "," (map f l') +:+ r' → length l = O ∨ length l' = O → l = l' ∧ r = r') as Hnil.
  { intros [|x l1] [|y l2] H Hl; [by split|..|by destruct Hl]; exfalso.
    - destruct (Hq y) as [t Ht]. cbn [map] in H. destruct (map f l2); cbn [join] in H; rewrite Ht in H;
        exact (Hd _ H).
    - destruct (Hq x) as [t Ht]. cbn [map] in H. destruct (map f l1); cbn [join] in H; rewrite Ht in H;
        exact (Hd' _ (eq_sym H)). }
  revert l'. induction l as [|x l IH]; intros [|y l']; try (intros; apply Hnil; simpl; auto; fail).
  destruct l as [|x2 l], l' as [|y2 l']; cbn [map].
  - simpl. intros [-> ->]%Hf. done.
  - rewrite join_cons. change (join "," [f x]) with (f x). rewrite string_app_assoc. intros [_ H]%Hf. by destruct (Hr _ H).
  - rewrite join_cons. change (join "," [f y]) with (f y). rewrite string_app_assoc. intros [_ H]%Hf. by destruct (Hr' _ (eq_sym H)).
  - rewrite !join_cons, !string_app_assoc. intros [-> H]%Hf. apply app_inj_l in H.
    apply (IH (y2 :: l')) in H as [-> ->]. done.
Qed.

(** The texts of two values are told apart, whatever follows them. *)
Definition told (v v' : json) : Prop :=
  ∀ r r', no_digit r → no_digit r' → Marshal v +:+ r = Marshal v' +:+ r' → v = v' ∧ r = r'.

Lemma told_str s s' : told (JStr s) (JStr s').
Proof. intros r r' _ _ H. cbn [Marshal] in H. apply go_quote_app_inj in H as [-> ->]. done. Qed.
Lemma told_num z z' : told (JNum z) (JNum z').
Proof. intros r r' Hr Hr' H. cbn [Marshal] in H. apply pretty_app_inj in H as [-> ->]; done. Qed.
Lemma told_strings l l' : told (JArr (JStr <$> l)) (JArr (JStr <$> l')).
Proof.
  assert (∀ l, map Marshal (JStr <$> l) = map go_quote l) as Hm.
  { intros x. induction x as [|s x IH]; [done|]. rewrite fmap_cons. cbn [map]. by rewrite IH. }
  intros r r' _ _. cbn [Marshal]. rewrite !Hm, !string_app_assoc. intros H%app_inj_l.
  apply quoted_inj in H as [-> H%app_inj_l]; try done; [apply go_quote_app_inj|by eexists].
Qed.

Definition env_json (m : option (gmap string string)) : json :=
  match m with Some m => map_json m | None => JNull end.
Lemma told_env m m' : told (env_json m) (env_json m').
Proof.
  set (g := λ kv : string * string, go_quote kv.1 +:+ ":" +:+ go_quote kv.2).
  assert (∀ l, map (λ kv, go_quote (kv.1) +:+ ":" +:+ Marshal (kv.2)) ((λ kv : string * string, (kv.1, JStr kv.2)) <$> l)
               = map g l) as Hm.
  { intros x. induction x as [|s x IH]; [done|]. rewrite fmap_cons. cbn [map]. by rewrite IH. }
  intros r r' _ _. destruct m as [m|], m' as [m'|]; cbn [env_json]; [|intros H; discriminate H..|].
  - unfold map_json. cbn [Marshal]. rewrite !Hm, !string_app_assoc. intros H%app_inj_l.
    apply quoted_inj in H as [-> H%app_inj_l]; try done; [|by eexists].
    intros [k v] [k' v'] a b. unfold g. cbn [fst snd]. rewrite !string_app_assoc.
    intros [-> H1]%go_quote_app_inj. apply app_inj_l in H1. apply go_quote_app_inj in H1 as [-> ->]. done.
  - intros H%app_inj_l. done.
Qed.

(** Objects with the same keys. *)
Lemma told_obj l l' :
  Forall2 (λ a b : string * json, a.1 = b.1 ∧ told a.2 b.2) l l' → told (JObj l) (JObj l').
Proof.
  set (g := λ kv : string * json, go_quote (kv.1) +:+ ":" +:+ Marshal (kv.2)). intros Hall r r' _ _.
  change (Marshal (JObj l)) with ("{" +:+ join "," (map g l) +:+ "}").
  change (Marshal (JObj l')) with ("{" +:+ join "," (map g l') +:+ "}").
  rewrite !string_app_assoc. intros H%app_inj_l. cut (l = l' ∧ r = r'); [intros [-> ->]; done|]. revert H.
  assert (∀ (a b : string * json) t t', a.1 = b.1 → told a.2 b.2 → no_digit t → no_digit t' →
    g a +:+ t = g b +:+ t' → a = b ∧ t = t') as Hone.
  { intros [k v] [k' v'] t t'. simpl. intros -> Hv Ht Ht'. unfold g. cbn [fst snd]. rewrite !string_app_assoc.
    intros [_ H]%go_quote_app_inj. apply app_inj_l in H.
    destruct (Hv _ _ Ht Ht' H) as [-> ->]. done. }
  induction Hall as [|a b l l' [Hk Hv] Hall IH]; [by intros H%(app_inj_l "}")|].
  destruct Hall as [|a2 b2 l l' [Hk2 Hv2] Hall]; cbn [map].
  - change (join "," [?x]) with x. intros [-> H%app_inj_l]%Hone; done.
  - rewrite !join_cons, !string_app_assoc. intros [-> H%app_inj_l]%Hone; [|done..].
    apply IH in H as [[= -> ->] ->]. done.
Qed.

Ltac told_members :=
  repeat first [apply List.Forall2_nil | apply List.Forall2_cons; [split; [done|cbn [snd]]|]];
  try first [apply told_str | apply told_num | apply told_strings | apply told_env].

Lemma told_resources a b : told (resources_json a) (resources_json b).
Proof. apply told_obj. told_members. Qed.
Lemma told_job a b : told (job_json a) (job_json b).
Proof.
  apply told_obj. told_members. apply told_resources.
Qed.

Lemma resources_json_inj a b : resources_json a = resources_json b → a = b.
Proof. destruct a, b. intros [= -> -> ->]. done. Qed.
Lemma env_json_inj m m' : env_json m = env_json m' → m = m'.
Proof.
  intros H. assert (env_of (env_json m) = env_of (env_json m')) as He by by rewrite H.
  destruct m as [m|], m' as [m'|]; try done. cbn [env_json] in He. rewrite !env_of_map in He. congruence.
Qed.

Lemma job_text_inj a b : Marshal (job_json a) = Marshal (job_json b) → a = b.
Proof.
  intros H. destruct (told_job a b EmptyString EmptyString I I) as [Heq _]; [by rewrite H|].
  destruct a as [n c m r x t k p], b as [n' c' m' r' x' t' k' p']. unfold job_json in Heq.
  cbn [Name Command Environment JobResources JobMaxAttempts TimeoutSeconds IdempotencyKey ArtifactPrefix] in Heq.
  injection Heq as -> Hc Hm Hr1 Hr2 Hr3 -> -> -> ->. apply (env_json_inj m m') in Hm as ->.
  assert (c = c') as ->.
  { pose proof (argv_of_strings c) as Ha. rewrite Hc, argv_of_strings in Ha. congruence. }
  f_equal. by apply resources_json_inj; unfold resources_json; congruence.
Qed.

(** ** The body of a submission *)
Definition job_text (j : Job) : bool :=
  str_ok (Name j) && forallb str_ok (Command j) &&
  forallb (λ kv : string * string, str_ok kv.1 && str_ok kv.2) (map_to_list (default ∅ (Environment j))) &&
  str_ok (IdempotencyKey j) && str_ok (ArtifactPrefix j).

Lemma pairs_fst (l : list (string * string)) : map fst ((λ kv, (kv.1, JStr kv.2)) <$> l) = map fst l.
Proof. induction l as [|x l IH]; [done|]. rewrite fmap_cons. cbn [map fst]. by rewrite IH. Qed.

Lemma map_json_ok m :
  forallb (λ kv : string * string, str_ok kv.1 && str_ok kv.2) (map_to_list m) = true →
  json_ok (map_json m) = true.
Proof.
  intros Hm. unfold map_json. set (l := foldr insert_pair [] (map_to_list m)).
  assert (l ≡ₚ map_to_list m) as Hp by apply sorted_pairs_perm.
  assert (NoDup (map fst l)) as Hnd by (rewrite Hp; apply NoDup_fst_map_to_list).
  assert (Forall (λ kv : string * string, str_ok kv.1 && str_ok kv.2 = true) l) as Hl.
  { rewrite Hp. apply Forall_forall. intros x Hx%list_elem_of_In. by apply (proj1 (forallb_forall _ _) Hm). }
  cbn [json_ok]. apply andb_true_iff. split.
  - clear -Hl. induction Hl as [|x l Hx _ IH]; [done|]. rewrite fmap_cons. cbn [forallb fst snd json_ok].
    by rewrite Hx.
  - apply bool_decide_eq_true. by rewrite pairs_fst.
Qed.

Lemma job_json_ok j : job_text j = true → json_ok (job_json j) = true.
Proof.
  unfold job_text. rewrite !andb_true_iff. intros ((((Hn & Hc) & He) & Hk) & Hp).
  assert (json_ok (JArr (JStr <$> Command j)) = true) as Hcmd by by apply (json_ok_map JStr str_ok).
  assert (json_ok (env_json (Environment j)) = true) as Henv.
  { destruct (Environment j) as [m|]; [by apply map_json_ok|done]. }
  change (json_ok (job_json j)) with
    (forallb (λ kv : string * json, str_ok kv.1 && json_ok kv.2)
       [("name", JStr (Name j)); ("command", JArr (JStr <$> Command j)); ("environment", env_json (Environment j));
        ("resources", resources_json (JobResources j)); ("max_attempts", JNum (JobMaxAttempts j));
        ("timeout_seconds", JNum (TimeoutSeconds j)); ("idempotency_key", JStr (IdempotencyKey j));
        ("artifact_prefix", JStr (ArtifactPrefix j))] &&
     bool_decide (NoDup ["name"; "command"; "environment"; "resources"; "max_attempts"; "timeout_seconds";
                         "idempotency_key"; "artifact_prefix"])).
  cbn [forallb fst snd]. rewrite Hcmd, Henv. cbn [json_ok]. rewrite Hn, Hk, Hp. vm_compute. reflexivity.
Qed.

Lemma dec_pairs_strings l m :
  NoDup (map fst l) →
  dec_pairs ((λ kv : string * string, (kv.1, JStr kv.2)) <$> l) m = Some (list_to_map l ∪ m).
Proof.
  revert m. induction l as [|[k v] l IH]; intros m Hnd.
  { cbn. by rewrite (left_id_L ∅ (∪)). }
  cbn [map fst] in Hnd. apply NoDup_cons in Hnd as [Hk Hnd]. rewrite fmap_cons. cbn [dec_pairs dec_string fst snd].
  cbn [mbind option_bind]. rewrite IH by done. rewrite list_to_map_cons. f_equal. cbn [fst snd].
  rewrite <- insert_union_l, <- insert_union_r; [done|].
  by apply not_elem_of_list_to_map_1.
Qed.

Lemma dec_env old m : dec_map old (env_json m) = Some (match m with Some m => Some (m ∪ default ∅ old) | None => None end).
Proof.
  destruct m as [m|]; [|done]. cbn [env_json]. unfold map_json, dec_map.
  assert (foldr insert_pair [] (map_to_list m) ≡ₚ map_to_list m) as Hp by apply sorted_pairs_perm.
  assert (NoDup (map fst (foldr insert_pair [] (map_to_list m)))) as Hnd by (rewrite Hp; apply NoDup_fst_map_to_list).
  rewrite dec_pairs_strings by done. cbn. do 3 f_equal.
  rewrite <- (list_to_map_to_list m) at 2. by apply list_to_map_proper.
Qed.

Lemma dec_next k v d j j' res :
  set_job k v j = Some j' → dec_members set_job d j' = res → dec_members set_job ((k, v) :: d) j = res.
Proof. intros H <-. cbn [dec_members]. by rewrite H. Qed.

(** What is written of a job is decoded as the job. *)
Lemma dec_job_json j : Validate j = true → dec_job (job_json j) = Some j.
Proof.
  intros Hv. assert (Forall (λ z, int64 z = true) [CPU (JobResources j); MemoryMB (JobResources j); GPU (JobResources j);
    JobMaxAttempts j; TimeoutSeconds j]) as Hz.
  { unfold Validate, Valid in Hv. rewrite !andb_true_iff, !Z.leb_le in Hv.
    repeat (apply Forall_cons; split); [..|done]; unfold int64; rewrite andb_true_iff, Z.leb_le, Z.ltb_lt; lia. }
  repeat (apply Forall_cons in Hz as [? Hz]). clear Hv Hz. destruct j as [n c m [cp me gp] x t k p].
  cbn [CPU MemoryMB GPU JobResources JobMaxAttempts TimeoutSeconds] in *.
  pose proof (mapM_some (dec_string EmptyString) JStr (λ _, true) c ltac:(done)) as Hc.
  assert (dec_map None (env_json m) = Some m) as He.
  { rewrite dec_env. destruct m as [m|]; [|done]. simpl. by rewrite (right_id_L ∅ (∪)). }
  unfold dec_job. change (job_json (MkJob n c m (MkResources cp me gp) x t k p)) with
    (JObj [("name", JStr n); ("command", JArr (JStr <$> c)); ("environment", env_json m);
       ("resources", resources_json (MkResources cp me gp)); ("max_attempts", JNum x); ("timeout_seconds", JNum t);
       ("idempotency_key", JStr k); ("artifact_prefix", JStr p)]).
  cbn [dec_struct].
  eapply dec_next; [reflexivity|].
  eapply dec_next.
  { change (set_job "command" ?v (MkJob ?n ?c ?m ?r ?x ?t ?k ?p)) with
      (l ← dec_slice (dec_string EmptyString) v; Some (MkJob n (default [] l) m r x t k p)).
    cbn [dec_slice]. rewrite Hc; [reflexivity|]. clear. by induction c. }
  eapply dec_next.
  { change (set_job "environment" ?v (MkJob ?n ?c ?m ?r ?x ?t ?k ?p)) with
      (y ← dec_map m v; Some (MkJob n c y r x t k p)). rewrite He. reflexivity. }
  eapply dec_next.
  { lazy -[dec_int]. rewrite !dec_int_ok by done. reflexivity. }
  eapply dec_next; [lazy -[dec_int]; rewrite dec_int_ok by done; reflexivity|].
  eapply dec_next; [lazy -[dec_int]; rewrite dec_int_ok by done; reflexivity|].
  eapply dec_next; [reflexivity|]. eapply dec_next; [reflexivity|]. reflexivity.
Qed.

(** ** Paths *)
(** A segment that stands for itself. *)
Definition plain_char (c : ascii) : bool :=
  negb (Ascii.eqb c slash) && negb (Ascii.eqb c "%") && negb (Ascii.eqb c ".") && negb (Ascii.eqb c "?").
Definition plain (s : string) : bool := nonempty s && all_chars plain_char s.
Definition path_of (l : list string) : string := "/" +:+ join "/" l.

Definition not_char (c d : ascii) : bool := negb (Ascii.eqb d c).
Lemma split_none c cur s : all_chars (not_char c) s = true → split_all c cur s = [cur +:+ s].
Proof.
  revert cur. induction s as [|d s IH]; intros cur; cbn [all_chars split_all].
  { by rewrite string_app_nil_r. }
  intros [Hc Hs]%andb_true_iff. unfold not_char in Hc. destruct (Ascii.eqb d c); [done|].
  rewrite IH, string_app_assoc by done. done.
Qed.
Lemma split_app c cur s t :
  all_chars (not_char c) s = true →
  split_all c cur (s +:+ String c t) = (cur +:+ s) :: split_all c EmptyString t.
Proof.
  revert cur. induction s as [|d s IH]; intros cur Hs; cbn [all_chars] in Hs.
  { change (EmptyString +:+ String c t) with (String c t). cbn [split_all].
    by rewrite Ascii.eqb_refl, string_app_nil_r. }
  apply andb_true_iff in Hs as [Hc Hs]. rewrite string_cons_app. cbn [split_all].
  unfold not_char in Hc. destruct (Ascii.eqb d c); [done|].
  rewrite IH, string_app_assoc by done. done.
Qed.
Lemma all_chars_impl (p q : ascii → bool) s :
  (∀ c, p c = true → q c = true) → all_chars p s = true → all_chars q s = true.
Proof.
  intros Hpq. induction s as [|c s IH]; [done|]. cbn [all_chars]. rewrite !andb_true_iff. naive_solver.
Qed.

Lemma plain_no_slash s : plain s = true → all_chars (not_char slash) s = true.
Proof.
  unfold plain. intros [_ Hs]%andb_true_iff. eapply all_chars_impl; [|exact Hs].
  intros c. unfold plain_char, not_char. rewrite !andb_true_iff. naive_solver.
Qed.
Lemma plain_chars s : plain s = true → all_chars plain_char s = true.
Proof. unfold plain. by intros [_ ?]%andb_true_iff. Qed.

Lemma split_join s l :
  Forall (λ s, plain s = true) (s :: l) → split_all slash EmptyString (join "/" (s :: l)) = s :: l.
Proof.
  revert s. induction l as [|t l IH]; intros s [Hs Hl]%Forall_cons.
  - change (join "/" [s]) with s. rewrite split_none by by apply plain_no_slash. done.
  - rewrite join_cons. change ("/" +:+ join "/" (t :: l)) with (String slash (join "/" (t :: l))).
    rewrite split_app, IH by (done || by apply plain_no_slash). done.
Qed.

Lemma split_path s l :
  Forall (λ s, plain s = true) (s :: l) → split_all slash EmptyString (path_of (s :: l)) = EmptyString :: s :: l.
Proof.
  intros Hl. unfold path_of. rewrite <- (split_join s l) at 2 by done. done.
Qed.

Lemma plain_unescaped plus s : all_chars plain_char s = true → plus = false → unescaped plus s = Some s.
Proof.
  intros Hs ->. induction s as [|c s IH]; [done|]. cbn [all_chars] in Hs. apply andb_true_iff in Hs as [Hc Hs].
  cbn [unescaped andb]. unfold plain_char in Hc. destruct (Ascii.eqb c "%").
  { by rewrite andb_false_r in Hc. }
  by rewrite IH.
Qed.

Lemma clean_plain l acc : Forall (λ s, plain s = true) l → clean acc l = reverse acc ++ l.
Proof.
  intros Hl. revert acc. induction Hl as [|s l Hs Hl IH]; intros acc; cbn [clean]; [by rewrite app_nil_r|].
  assert (String.eqb s EmptyString || String.eqb s "." = false ∧ String.eqb s ".." = false) as [-> ->].
  { split; [apply orb_false_iff; split|]; apply String.eqb_neq; intros ->; vm_compute in Hs; discriminate Hs. }
  rewrite IH, reverse_cons, <- app_assoc. done.
Qed.

Lemma last_char_plain s : plain s = true → ∃ c, last_char s = Some c ∧ plain_char c = true.
Proof.
  unfold plain. intros [Hn Hs]%andb_true_iff. destruct s as [|c s]; [done|]. clear Hn. revert c Hs.
  induction s as [|c' s IH]; intros c Hs; cbn [all_chars] in Hs.
  - exists c. split; [done|]. by apply andb_true_iff in Hs as [? _].
  - apply andb_true_iff in Hs as [_ Hs]. destruct (IH c' Hs) as (x & Hx & Hp). exists x. split; [|done].
    change (last_char (String c (String c' s))) with
      (match last_char (String c' s) with Some d => Some d | None => Some c end). by rewrite Hx.
Qed.

Lemma last_char_path s l :
  Forall (λ s, plain s = true) (s :: l) → ∃ c, last_char (path_of (s :: l)) = Some c ∧ plain_char c = true.
Proof.
  intros Hl. unfold path_of. assert (∃ c, last_char (join "/" (s :: l)) = Some c ∧ plain_char c = true) as (c & Hc & Hp).
  { revert s Hl. induction l as [|t l IH]; intros s [Hs Hl]%Forall_cons; [by apply last_char_plain|].
    destruct (IH t Hl) as (c & Hc & Hp). exists c. split; [|done]. rewrite join_cons, <- string_app_assoc.
    by rewrite last_char_app; [|congruence]; rewrite Hc. }
  exists c. split; [|done]. rewrite last_char_app; [done|]. by rewrite Hc.
Qed.

Lemma path_clean s l : Forall (λ s, plain s = true) (s :: l) → cleanPath (path_of (s :: l)) = path_of (s :: l).
Proof.
  intros Hl. unfold cleanPath. change (has_prefix "/" (path_of (s :: l))) with true. cbv match zeta.
  rewrite split_path by done. change (clean [] (EmptyString :: s :: l)) with (clean [] (s :: l)).
  rewrite clean_plain by done. change (reverse [] ++ s :: l) with (s :: l). fold (path_of (s :: l)).
  assert (ends_with "/" (path_of (s :: l)) = false) as ->; [|done].
  apply not_true_is_false. intros [p Hp]%ends_with_spec.
  destruct (last_char_path s l Hl) as (c & Hc & Hpl). rewrite Hp, last_char_app in Hc by done.
  injection Hc as <-. discriminate Hpl.
Qed.

Lemma trailing_plain l : Forall (λ s, plain s = true) l → trailing l = l.
Proof.
  induction 1 as [|s l Hs Hl IH]; [done|]. cbn [trailing]. destruct l; [|by rewrite IH].
  unfold plain in Hs. apply andb_true_iff in Hs as [-> _]. done.
Qed.

Lemma path_segments s l : Forall (λ s, plain s = true) (s :: l) → segments (path_of (s :: l)) = s :: l.
Proof.
  intros Hl. unfold segments. rewrite split_path by done. cbn [tail]. rewrite trailing_plain by done.
  revert Hl. generalize (s :: l). induction 1 as [|x m Hx Hm IH]; [done|]. rewrite fmap_cons, IH. f_equal.
  unfold path_unescape. by rewrite plain_unescaped by (done || by apply plain_chars).
Qed.

(** ** What the server receives *)
Lemma drop_prefix_app p s : drop_prefix p (p +:+ s) = Some s.
Proof.
  induction p as [|c p IH]; [done|]. rewrite string_cons_app. cbn [drop_prefix]. by rewrite Ascii.eqb_refl.
Qed.

Lemma all_chars_app p a b : all_chars p (a +:+ b) = all_chars p a && all_chars p b.
Proof.
  induction a as [|c a IH]; [done|]. rewrite string_cons_app. cbn [all_chars]. by rewrite IH, andb_assoc.
Qed.
Lemma split1_none c s : all_chars (not_char c) s = true → split1 c s = None.
Proof.
  induction s as [|d s IH]; [done|]. cbn [all_chars split1]. unfold not_char at 1.
  destruct (Ascii.eqb d c); [done|]. intros Hs. by rewrite IH.
Qed.
Lemma split1_here c a b : all_chars (not_char c) a = true → split1 c (a +:+ String c b) = Some (a, b).
Proof.
  induction a as [|d a IH]; intros Ha.
  - change (EmptyString +:+ String c b) with (String c b). cbn [split1]. by rewrite Ascii.eqb_refl.
  - rewrite string_cons_app. cbn [all_chars split1] in *. unfold not_char in Ha at 1.
    destruct (Ascii.eqb d c); [done|]. by rewrite IH.
Qed.

Lemma path_no_query s l :
  Forall (λ s, plain s = true) (s :: l) → all_chars (not_char "?") (path_of (s :: l)) = true.
Proof.
  intros Hl. unfold path_of. rewrite all_chars_app. change (all_chars (not_char "?") "/") with true. cbn [andb].
  assert (∀ s, plain s = true → all_chars (not_char "?") s = true) as Hp.
  { intros x Hx%plain_chars. eapply all_chars_impl; [|exact Hx]. intros c. unfold plain_char, not_char.
    rewrite !andb_true_iff. naive_solver. }
  revert s Hl. induction l as [|t l IH]; intros s [Hs Hl]%Forall_cons; [by apply Hp|].
  rewrite join_cons, !all_chars_app, IH, Hp by done. done.
Qed.

(** A request to a path, and one with a query. *)
Definition rid_of (uuid : string) (rid : option string) : string :=
  match rid with Some r => if nonempty r then r else uuid | None => uuid end.
Lemma received_path base u m s l payload rid :
  Forall (λ s, plain s = true) (s :: l) →
  received base (Client.request base u m (path_of (s :: l)) payload rid)
  = Some (MkReq m (path_of (s :: l)) EmptyString (rid_of u rid) (default EmptyString (dumps <$> payload))).
Proof.
  intros Hl. unfold received, Client.request. cbn [Client.h_url Client.h_method Client.h_body Client.h_request_id].
  rewrite drop_prefix_app. cbn [mbind option_bind]. rewrite split1_none by by apply path_no_query. done.
Qed.
Lemma received_query base u m s l query payload rid :
  Forall (λ s, plain s = true) (s :: l) →
  received base (Client.request base u m (path_of (s :: l) +:+ String "?" query) payload rid)
  = Some (MkReq m (path_of (s :: l)) query (rid_of u rid) (default EmptyString (dumps <$> payload))).
Proof.
  intros Hl. unfold received, Client.request. cbn [Client.h_url Client.h_method Client.h_body Client.h_request_id].
  rewrite drop_prefix_app. cbn [mbind option_bind]. rewrite split1_here by by apply path_no_query. done.
Qed.

(** *** Identifiers *)
Lemma matches_chars (p : ascii → bool) ps s :
  Forall (λ q : ascii → bool, ∀ c, q c = true → p c = true) ps → matches ps s = true →
  all_chars p s = true ∧ String.length s = length ps.
Proof.
  intros Hps. revert s. induction Hps as [|q ps Hq Hps IH]; intros [|c s]; cbn [matches]; try done.
  intros [Hc Hs]%andb_true_iff. destruct (IH _ Hs) as [H1 H2]. cbn [all_chars String.length length].
  rewrite (Hq _ Hc), H1, H2. done.
Qed.

Lemma uuid_plain id : uuid id = true → plain id = true ∧ String.eqb id "/" = false.
Proof.
  intros Hid. apply (matches_chars plain_char) in Hid as [Hp Hl].
  - assert (plain id = true) as Hpl.
    { unfold plain. rewrite Hp, andb_true_r. by destruct id. }
    split; [done|]. apply String.eqb_neq. intros ->. discriminate Hpl.
  - assert (∀ c, hex c = true → plain_char c = true) as Hhex.
    { intros [[] [] [] [] [] [] [] []]; vm_compute; congruence. }
    assert (∀ c, is_char "-" c = true → plain_char c = true) as Hdash.
    { intros [[] [] [] [] [] [] [] []]; vm_compute; congruence. }
    repeat apply Forall_app_2; try (by apply Forall_replicate); by apply Forall_singleton.
Qed.

(** [scheduler.ID] draws identifiers in lower case. *)
Definition low_hex (c : ascii) : Prop := hex c = true ∧ lower_char c = c.
Lemma low_hex_digit n : (n < 16)%N → low_hex (hex_digit n).
Proof.
  intros Hn. assert (forallb (λ k, hex (hex_digit k) && Ascii.eqb (lower_char (hex_digit k)) (hex_digit k))
    (N.of_nat <$> seq 0 16) = true) as H by by vm_compute.
  rewrite forallb_forall in H. specialize (H n). rewrite andb_true_iff, Ascii.eqb_eq in H. apply H.
  apply list_elem_of_In, list_elem_of_fmap. exists (N.to_nat n). split; [lia|]. apply elem_of_seq. lia.
Qed.

Lemma hex_bytes_ok l rest ps :
  Forall (λ b, b < 256)%N l →
  matches (replicate (2 * length l) hex ++ ps) (hex_bytes l +:+ rest) = matches ps rest ∧
  lower (hex_bytes l +:+ rest) = hex_bytes l +:+ lower rest.
Proof.
  induction 1 as [|b l Hb _ [IH1 IH2]]; [done|].
  destruct (low_hex_digit (b / 16)) as [H1 L1]; [apply N.Div0.div_lt_upper_bound; lia|].
  destruct (low_hex_digit (b mod 16)) as [H2 L2]; [by apply N.mod_lt|].
  change (hex_bytes (b :: l) +:+ rest) with (String (hex_digit (b / 16)) (String (hex_digit (b mod 16)) (hex_bytes l +:+ rest))).
  replace (2 * length (b :: l))%nat with (S (S (2 * length l))) by (simpl; lia).
  cbn [replicate app matches lower]. by rewrite H1, H2, IH1, L1, L2, IH2.
Qed.

Lemma scheduler_ID_ok random :
  length random = 16%nat → Forall (λ b, b < 256)%N random →
  uuid (scheduler_ID random) = true ∧ lower (scheduler_ID random) = scheduler_ID random.
Proof.
  intros Hl Hr.
  do 16 (destruct random as [|? random]; [discriminate Hl|]; apply Forall_cons in Hr as [? Hr]).
  destruct random; [|discriminate Hl]. clear Hl Hr.
  assert (∀ x, (x < 256)%N → (N.lor (N.land x 15) 64 < 256)%N ∧ (N.lor (N.land x 63) 128 < 256)%N) as Hv.
  { intros x Hx. assert (forallb (λ x, (N.lor (N.land x 15) 64 <? 256) && (N.lor (N.land x 63) 128 <? 256))%N
      (N.of_nat <$> seq 0 256) = true) as Hall by by vm_compute.
    rewrite forallb_forall in Hall. specialize (Hall x). rewrite andb_true_iff, !N.ltb_lt in Hall. apply Hall.
    apply list_elem_of_In, list_elem_of_fmap. exists (N.to_nat x). split; [lia|]. apply elem_of_seq. lia. }
  assert (∀ l rest ps, Forall (λ b, b < 256)%N l →
    matches (replicate (2 * length l) hex ++ [is_char "-"] ++ ps) (hex_bytes l +:+ "-" +:+ rest) = matches ps rest ∧
    lower (hex_bytes l +:+ "-" +:+ rest) = hex_bytes l +:+ "-" +:+ lower rest) as Hstep.
  { intros l rest ps Hl. by destruct (hex_bytes_ok l ("-" +:+ rest) ([is_char "-"] ++ ps) Hl) as [-> ->]. }
  unfold scheduler_ID, uuid, idPattern. cbn [alter list_alter take drop]. rewrite !join_cons.
  assert (Forall (λ b, b < 256)%N [n; n0; n1; n2] ∧ Forall (λ b, b < 256)%N [n3; n4] ∧
    Forall (λ b, b < 256)%N [N.lor (N.land n5 15) 64; n6] ∧ Forall (λ b, b < 256)%N [N.lor (N.land n7 63) 128; n8] ∧
    Forall (λ b, b < 256)%N [n9; n10; n11; n12; n13; n14]) as (F1 & F2 & F3 & F4 & F5).
  { destruct (Hv n5), (Hv n7); [done..|]. by repeat split; repeat (apply Forall_cons; split). }
  split.
  - etransitivity; [apply (Hstep _ _ _ F1)|]. etransitivity; [apply (Hstep _ _ _ F2)|].
    etransitivity; [apply (Hstep _ _ _ F3)|]. etransitivity; [apply (Hstep _ _ _ F4)|].
    rewrite <- (string_app_nil_r (join _ _)). apply (hex_bytes_ok _ EmptyString [] F5).
  - rewrite (proj2 (Hstep _ _ [] F1)), (proj2 (Hstep _ _ [] F2)), (proj2 (Hstep _ _ [] F3)), (proj2 (Hstep _ _ [] F4)).
    change (join "-" [?x]) with x. rewrite <- (string_app_nil_r (hex_bytes [n9; n10; n11; n12; n13; n14])) at 1.
    rewrite (proj2 (hex_bytes_ok _ EmptyString [] F5)). by rewrite string_app_nil_r.
Qed.

Section Routed.
Context (metrics : bool) (query rid body id : string) (Hid : uuid id = true).

Lemma found m s l :
  Forall (λ s, plain s = true) (s :: l) →
  findHandler metrics (MkReq m (path_of (s :: l)) query rid body) =
  match find_route metrics m (s :: l) with
  | Some (r, id) => To r (default EmptyString id)
  | None => if matches_other metrics (s :: l) then MethodNotAllowed else NoRoute
  end.
Proof using Type.
  intros Hl. unfold findHandler. cbn [EscapedPath Method]. rewrite path_clean, path_segments by done.
  by rewrite String.eqb_refl, andb_false_r.
Qed.

Lemma plain_job_path l :
  Forall (λ s, plain s = true) l → Forall (λ s, plain s = true) ("v1" :: "jobs" :: id :: l).
Proof using Hid. intros Hl. repeat (apply Forall_cons; split); try done. by apply uuid_plain. Qed.

Lemma route_job : findHandler metrics (MkReq "GET" (path_of ["v1"; "jobs"; id]) query rid body) = To GetJob id.
Proof using Hid.
  rewrite found by by apply plain_job_path. destruct (uuid_plain id Hid) as [_ Hs].
  unfold find_route, matching, patterns. destruct metrics; cbn; by rewrite Hs.
Qed.
Lemma route_rows kind :
  kind ∈ ["attempts"; "events"; "artifacts"] →
  findHandler metrics (MkReq "GET" (path_of ["v1"; "jobs"; id; kind]) query rid body) = To (JobRows kind) id.
Proof using Hid.
  intros Hk. destruct (uuid_plain id Hid) as [_ Hs].
  rewrite found by (apply plain_job_path, Forall_singleton; set_unfold; by destruct_or! Hk; subst).
  unfold find_route, matching, patterns. set_unfold.
  destruct_or! Hk; subst; destruct metrics; cbn; rewrite !Hs; reflexivity.
Qed.
Lemma route_action action :
  action ∈ ["cancel"; "retry"] →
  findHandler metrics (MkReq "POST" (path_of ["v1"; "jobs"; id; action]) query rid body) = To (JobAction action) id.
Proof using Hid.
  intros Hk. destruct (uuid_plain id Hid) as [_ Hs].
  rewrite found by (apply plain_job_path, Forall_singleton; set_unfold; by destruct_or! Hk; subst).
  unfold find_route, matching, patterns. set_unfold.
  destruct_or! Hk; subst; destruct metrics; cbn; rewrite !Hs; by destruct (String.eqb id "batch").
Qed.
End Routed.

(** *** Numbers in a query *)
Definition number_char (c : ascii) : bool := bool_decide (is_Some (digit c)) || Ascii.eqb c "-".

Lemma pretty_N_chars (x : N) : all_chars number_char (pretty x) = true.
Proof.
  assert (∀ n, number_char (pretty_N_char n) = true) as Hd.
  { intros n. unfold pretty_N_char. by repeat case_match. }
  assert (∀ x s, all_chars number_char s = true → all_chars number_char (pretty_N_go x s) = true) as Hgo.
  { clear x. intros x. induction (N.lt_wf_0 x) as [x _ IH]; intros s Hs.
    destruct (decide (x = 0)%N) as [->|Hx]; [by rewrite pretty_N_go_0|].
    rewrite pretty_N_go_step by lia. apply IH; [apply N.div_lt; lia|]. cbn [all_chars]. by rewrite Hd, Hs. }
  unfold pretty, pretty_N. destruct (decide _); [done|]. by apply Hgo.
Qed.
Lemma pretty_chars (z : Z) : all_chars number_char (pretty z) = true.
Proof.
  destruct z as [|p|p]; [done|apply (pretty_N_chars (Npos p))|].
  change (pretty (Zneg p)) with (String "-" (pretty (Npos p))). cbn [all_chars]. by rewrite pretty_N_chars.
Qed.
Lemma pretty_not_char c (z : Z) : number_char c = false → all_chars (not_char c) (pretty z) = true.
Proof.
  intros Hc. eapply all_chars_impl; [|apply pretty_chars]. intros d Hd. unfold not_char.
  destruct (Ascii.eqb_spec d c) as [->|]; [congruence|done].
Qed.

Lemma contains_none c s : all_chars (not_char c) s = true → contains (String c EmptyString) s = false.
Proof.
  induction s as [|d s IH]; [done|]. cbn [all_chars contains has_prefix]. unfold not_char at 1.
  intros [Hd Hs]%andb_true_iff. rewrite IH by done. rewrite Ascii.eqb_sym.
  destruct (Ascii.eqb d c); done.
Qed.
Lemma unescaped_plain plus s :
  all_chars (not_char "%") s = true → all_chars (not_char "+") s = true → unescaped plus s = Some s.
Proof.
  induction s as [|c s IH]; [done|]. cbn [all_chars unescaped]. unfold not_char at 1 3.
  intros [H1 Hs1]%andb_true_iff [H2 Hs2]%andb_true_iff. destruct (Ascii.eqb c "%"); [done|].
  destruct (Ascii.eqb c "+"); [done|]. rewrite IH, andb_false_r by done. done.
Qed.

Lemma atoi_digits_ok acc s n :
  digits acc s = (n, EmptyString) → atoi_digits (Z.of_N acc) s = Some (Z.of_N n).
Proof.
  revert acc. induction s as [|c s IH]; intros acc; cbn [digits atoi_digits]; [by intros [= ->]|].
  destruct (digit c) as [x|]; [|done]. intros H.
  replace (Z.of_N acc * 10 + Z.of_N x) with (Z.of_N (acc * 10 + x)) by lia. by apply IH.
Qed.

Lemma Atoi_pretty z : 0 ≤ z → int64 z = true → Atoi (pretty z) = Some z.
Proof.
  intros Hz Hi. assert (∃ x, z = Z.of_N x) as [x ->] by (exists (Z.to_N z); lia).
  assert (pretty (Z.of_N x) = pretty x) as -> by by destruct x.
  destruct (parse_nat_pretty x EmptyString I) as [H (c & r & Heq & Hc)]. rewrite string_app_nil_r in H.
  assert (digits 0 (pretty x) = (x, EmptyString)) as Hd.
  { rewrite Heq in H |- *. cbn [parse_nat digits] in *. destruct (digit c) as [y|]; [|done].
    destruct y; [injection H as <- ->; done|by injection H]. }
  apply (atoi_digits_ok 0) in Hd. unfold Atoi. rewrite Heq in *.
  destruct c as [[] [] [] [] [] [] [] []]; try (by destruct Hc); cbn [nonempty String.eqb negb];
    change 0 with (Z.of_N 0); rewrite Hd; cbn [mbind option_bind]; by rewrite Hi.
Qed.

Definition list_query (limit offset : Z) : string := "limit=" +:+ pretty limit +:+ "&offset=" +:+ pretty offset.
Lemma query_number k (z : Z) :
  all_chars (λ c, not_char ";" c && not_char "=" c && not_char "%" c && not_char "+" c) k = true →
  query_pair (k +:+ String "=" (pretty z)) = Some (k, pretty z).
Proof.
  intros Hk. assert (∀ c, (c = ";" ∨ c = "=" ∨ c = "%" ∨ c = "+")%char → all_chars (not_char c) k = true) as Hc.
  { intros c Hc. eapply all_chars_impl; [|exact Hk]. intros d. rewrite !andb_true_iff. naive_solver. }
  unfold query_pair. rewrite contains_none; [|rewrite all_chars_app, Hc by auto; cbn [all_chars]; by rewrite pretty_not_char].
  assert (String.eqb (k +:+ String "=" (pretty z)) EmptyString = false) as -> by by destruct k.
  cbn [orb]. rewrite split1_here by auto. rewrite !unescaped_plain by (auto using pretty_not_char). done.
Qed.

Lemma query_list limit offset :
  Query_Get (list_query limit offset) "limit" = pretty limit ∧
  Query_Get (list_query limit offset) "offset" = pretty offset.
Proof.
  assert (split_all "&" EmptyString (list_query limit offset)
          = ["limit" +:+ String "=" (pretty limit); "offset" +:+ String "=" (pretty offset)]) as Hs.
  { unfold list_query. rewrite <- string_app_assoc.
    change ("&offset=" +:+ pretty offset) with (String "&" ("offset=" +:+ pretty offset)).
    rewrite split_app by by rewrite all_chars_app, pretty_not_char.
    rewrite split_none by by rewrite all_chars_app, pretty_not_char. done. }
  unfold Query_Get. rewrite Hs. cbn [omap list_omap].
  rewrite !query_number by done. done.
Qed.

Lemma query_limit (limit : Z) : Query_Get ("limit=" +:+ pretty limit) "limit" = pretty limit ∧
  Query_Get ("limit=" +:+ pretty limit) "offset" = EmptyString.
Proof.
  unfold Query_Get. rewrite split_none by by rewrite all_chars_app, pretty_not_char.
  cbn [omap list_omap]. change (EmptyString +:+ "limit=" +:+ pretty limit) with ("limit" +:+ String "=" (pretty limit)).
  rewrite query_number by done. done.
Qed.

Lemma pretty_nonempty (z : Z) : nonempty (pretty z) = true.
Proof.
  destruct z as [|p|p]; [done| |done].
  destruct (parse_nat_pretty (Npos p) EmptyString I) as [_ (c & r & Heq & _)].
  change (pretty (Zpos p)) with (pretty (Npos p)). by rewrite Heq.
Qed.

Lemma page_list m path rid body limit offset :
  1 ≤ limit ≤ 1000 → 0 ≤ offset < 2 ^ 63 →
  page (MkReq m path (list_query limit offset) rid body) = inr (limit, offset).
Proof.
  intros Hl Ho. unfold page. cbn [RawQuery]. destruct (query_list limit offset) as [-> ->].
  unfold number_or. rewrite !pretty_nonempty, !Atoi_pretty; try lia.
  2, 3: unfold int64; rewrite andb_true_iff, Z.leb_le, Z.ltb_lt; lia.
  rewrite (proj2 (Z.ltb_ge limit 1)), (proj2 (Z.ltb_ge 1000 limit)), (proj2 (Z.ltb_ge offset 0)) by lia. done.
Qed.
