(* ===== verification/ApiProps.v ===== *)
(** * ApiProps: what the HTTP interface guarantees

    Requests read only, or are one operation of the store; a job submitted with the SDK is the job
    the store keeps, shows and leases, and the one a worker runs; the pages of a list are the
    list; what is shown does not depend on the tokens of the leases; a cancel is final. *)
From stdpp Require Import sorting.
From S2P Require Import Prelude Effects PyStr Utf8 Json JsonParse JsonRound Calendar Times Sha256 Wire World.
From S2P Require Import Rpc Artifacts Worker WorkerSafety Logs Checkpoint Control ControlSpec ControlRefine ControlProps.
From S2P Require Import EndToEnd WireText Queries Client Api ApiText.
Import Store Query Api.
Local Open Scope string_scope.
Local Open Scope list_scope.
Local Open Scope Z_scope.

(** ** States that differ in tokens *)
Definition blanked (a : AttemptRow) : AttemptRow :=
  MkAttemptRow (at_job a) (at_number a) (at_worker a) (at_state a) EmptyString (at_expires a) (at_deadline a)
    (at_created a) (at_started a) (at_finished a) (at_exit_code a) (at_reason a).
(** The same tables but for the tokens of the attempts and the receipts. *)
Definition alike (d d' : db) : Prop :=
  jobs d = jobs d' ∧ workers d = workers d' ∧ artifacts d = artifacts d' ∧ events d = events d' ∧
  blanked <$> attempts d = blanked <$> attempts d'.

Definition blank_row (x : string * AttemptRow) : string * AttemptRow := (x.1, blanked x.2).

Lemma window_fmap {A B} (f : A → B) limit offset l : f <$> window limit offset l = window limit offset (f <$> l).
Proof. unfold window. by rewrite fmap_take, fmap_drop, length_fmap. Qed.

Lemma attempts_of_NoDup d job : NoDup (blank_row <$> attempts_of d job).
Proof.
  apply NoDup_fmap_2_strong.
  - intros [i a] [i' a'] [Ha _]%attempts_of_elem [Ha' _]%attempts_of_elem [= -> _]. congruence.
  - unfold attempts_of. apply NoDup_ListNoDup, List.NoDup_filter, NoDup_ListNoDup, NoDup_map_to_list.
Qed.

Lemma blank_elem d job i b :
  (i, b) ∈ blank_row <$> attempts_of d job ↔ (blanked <$> attempts d) !! i = Some b ∧ at_job b = job.
Proof.
  rewrite list_elem_of_fmap, lookup_fmap, fmap_Some. split.
  - intros ([i' a] & [= -> ->] & [Ha Hj]%attempts_of_elem). eauto.
  - intros [(a & Ha & ->) Hj]. exists (i, a). split; [done|]. by apply attempts_of_elem.
Qed.

Lemma alike_blanked d : alike d (set_attempts (fmap blanked) d).
Proof. split_and!; try done. simpl. rewrite <- map_fmap_compose. by apply map_fmap_ext. Qed.

Section Alike.
Context (d d' : db) (HI : Inv d) (Hd : alike d d').

Lemma alike_lookup i a' : attempts d' !! i = Some a' → ∃ a, attempts d !! i = Some a ∧ blanked a = blanked a'.
Proof using Hd.
  intros Ha'. destruct Hd as (_ & _ & _ & _ & Hat).
  assert ((blanked <$> attempts d) !! i = Some (blanked a')) as H by (rewrite Hat, lookup_fmap, Ha'; done).
  rewrite lookup_fmap in H. apply fmap_Some in H as (a & Ha & Heq). eauto.
Qed.

Lemma alike_sorted job : blank_row <$> sorted_attempts d job = blank_row <$> sorted_attempts d' job.
Proof using HI Hd.
  apply (StronglySorted_unique_strong number_le).
  - intros x y Hx Hy. rewrite sorted_attempts_perm in Hx, Hy. destruct x as [i b], y as [i' b'].
    apply blank_elem in Hx as [Hx Hj]. apply blank_elem in Hy as [Hy Hj'].
    destruct Hd as (_ & _ & _ & _ & Hat). rewrite <- Hat in Hy. rewrite lookup_fmap in Hx, Hy.
    apply fmap_Some in Hx as (a & Ha & ->). apply fmap_Some in Hy as (a' & Ha' & ->).
    unfold number_le. simpl in *. intros H1 H2.
    assert (i = i') as <- by (eapply (inv_number _ HI); [done..|congruence|lia]). congruence.
  - apply (StronglySorted_fmap blank_row number_le); [done|apply (StronglySorted_merge_sort number_le)].
  - apply (StronglySorted_fmap blank_row number_le); [done|apply (StronglySorted_merge_sort number_le)].
  - rewrite !sorted_attempts_perm. apply NoDup_Permutation; [apply attempts_of_NoDup..|].
    intros [i b]. rewrite !blank_elem. destruct Hd as (_ & _ & _ & _ & Hat). by rewrite Hat.
Qed.

Lemma alike_usage c w : usage c d w = usage c d' w.
Proof using Hd.
  destruct Hd as (Hj & _ & _ & _ & Hat). unfold usage.
  assert (∀ i, option_Forall2 (λ x y, share c (jobs d) w x = share c (jobs d') w y) (attempts d !! i) (attempts d' !! i)) as H.
  { intros i. assert (blanked <$> attempts d !! i = blanked <$> attempts d' !! i) as Hi by by rewrite <- !lookup_fmap, Hat.
    destruct (attempts d !! i) as [a|], (attempts d' !! i) as [a'|]; try done; constructor.
    assert (share c (jobs d) w a = share c (jobs d) w (blanked a)) as -> by done.
    assert (share c (jobs d') w a' = share c (jobs d') w (blanked a')) as -> by done.
    injection Hi as Hi1 Hi2 Hi3 Hi4. unfold share. simpl. by rewrite Hi1, Hi3, Hi4, Hj. }
  apply Z.le_antisymm; apply msum_le; intros i; specialize (H i); destruct H as [x y Hxy|]; constructor; lia.
Qed.

Lemma alike_rows pg_time event_id kind id limit offset :
  ReadRows pg_time event_id kind id limit offset d = ReadRows pg_time event_id kind id limit offset d'.
Proof using HI Hd.
  unfold ReadRows, job_events, job_artifacts. destruct Hd as (_ & _ & -> & -> & _).
  destruct (String.eqb kind "attempts"); [|done]. f_equal.
  set (f := λ x : string * AttemptRow, jsonb (JObj (without "lease_token" (attempt_columns pg_time x.1 x.2)))).
  assert (∀ l : list (string * AttemptRow), f <$> l = f <$> (blank_row <$> l)) as Hf.
  { intros l. rewrite <- list_fmap_compose. by apply list_fmap_ext. }
  rewrite (Hf (window _ _ (sorted_attempts d _))), (Hf (window _ _ (sorted_attempts d' _))).
  by rewrite !window_fmap, alike_sorted.
Qed.

Lemma alike_workers pg_time text_leb : Workers pg_time text_leb d = Workers pg_time text_leb d'.
Proof using Hd.
  unfold Workers, sorted_workers, worker_json, available. destruct Hd as (_ & Hw & _). rewrite Hw.
  apply list_fmap_ext. intros i x _. by rewrite !alike_usage.
Qed.
End Alike.

(** ** What a request can change *)
Definition changes (r : route) : bool :=
  match r with PostJob | PostBatch | JobAction _ => true | _ => false end.
Definition fine (p : string * list segment * route) : Prop :=
  changes p.2 = true →
  p.1.1 = "POST" ∧ match p.2 with JobAction a => a ∈ ["cancel"; "retry"] | _ => True end.

Lemma patterns_fine metrics : Forall fine (patterns metrics).
Proof.
  unfold patterns. destruct metrics; repeat (apply Forall_cons; split); try done;
    intros _; (split; [done|]); (done || set_solver).
Qed.

Lemma matching_fine metrics m l r o :
  head (matching metrics m l) = Some (r, o) → changes r = true →
  m = "POST" ∧ match r with JobAction a => a ∈ ["cancel"; "retry"] | _ => True end.
Proof.
  intros Hh Hr. assert ((r, o) ∈ matching metrics m l) as Hin.
  { destruct (matching metrics m l); [done|]. injection Hh as ->. apply elem_of_cons. by left. }
  apply list_elem_of_omap in Hin as ([[m' ps] r'] & Hp & Heq).
  destruct (String.eqb_spec m' m) as [->|]; [|done]. apply fmap_Some in Heq as (o' & _ & [= -> ->]).
  pose proof (patterns_fine metrics) as Hall. rewrite Forall_forall in Hall.
  exact (Hall _ Hp Hr).
Qed.

Lemma find_route_fine metrics m l r o :
  find_route metrics m l = Some (r, o) → changes r = true →
  m = "POST" ∧ match r with JobAction a => a ∈ ["cancel"; "retry"] | _ => True end.
Proof.
  unfold find_route. destruct (head (matching metrics m l)) as [x|] eqn:Hx.
  - intros [= ->]. by eapply matching_fine.
  - destruct (String.eqb m "HEAD"); [|done]. intros Hg Hr.
    by destruct (matching_fine _ _ _ _ _ Hg Hr) as [? _].
Qed.

Lemma findHandler_fine metrics q r id :
  findHandler metrics q = To r id → changes r = true →
  Method q = "POST" ∧ match r with JobAction a => a ∈ ["cancel"; "retry"] | _ => True end.
Proof.
  unfold findHandler. destruct (_ && _); [done|].
  destruct (find_route metrics (Method q) (segments (EscapedPath q))) as [[r' o]|] eqn:Hf; [|by destruct (matches_other _ _)].
  intros [= -> _]. by eapply find_route_fine.
Qed.

(** The operation of the store a request asks for. *)
Definition asks (q : Req) (o : operation) : Prop :=
  match o with
  | OpSubmit js => (∃ j, js = [j] ∧ decode dec_job q = Some j) ∨ decode dec_jobs q = Some js
  | OpAction id action rid => uuid id = true ∧ action ∈ ["cancel"; "retry"] ∧ rid = XRequestID q
  | _ => False
  end.

Section Handler.
Context (zone_at : Z → Z) (pg_time : Z → string) (event_id : nat → Z) (text_leb : string → string → bool)
        (metrics ping : bool).
Notation Handler := (Handler zone_at pg_time event_id text_leb metrics ping).

Lemma submit_all_length js e n d rows n' d' :
  submit_all js e n d = inr (rows, n', d') → length rows = length js.
Proof.
  revert n d rows. induction js as [|j js IH]; intros n d rows H; cbn [submit_all] in H; [by tx H|].
  apply bind_inr in H as (row & n1 & d1 & _ & H). apply bind_inr in H as (rs & n2 & d2 & H2 & H). tx H.
  simpl. f_equal. by eapply IH.
Qed.

Lemma Submit_inr js e n d rows n' d' :
  Submit js e n d = inr (rows, n', d') →
  forallb Validate js = true ∧ submit_all js e n d = inr (rows, n', d').
Proof. intros H. unfold Submit in H. tx_step H. tx_step H. done. Qed.

(** [PostJob]: refused, or the row of the job. *)
Lemma PostJob_cases e q d r d' :
  PostJob_handler zone_at e q d = (r, d') →
  (∃ c, r = Failed c ∧ d' = d) ∨
  ∃ j row n, decode dec_job q = Some j ∧ r = Answer (jobrow_json zone_at row) ∧
    Validate j = true ∧ submit_one j e 0%nat d = inr (row, n, d') ∧ transact (Submit [j]) e d = (inr [row], d').
Proof.
  unfold PostJob_handler. destruct (decode dec_job q) as [j|]; [|intros [= <- <-]; eauto].
  unfold transact. destruct (Submit [j] e 0%nat d) as [x|[[rows n] d1]] eqn:Hs; [intros [= <- <-]; eauto|].
  pose proof Hs as Hs'. apply Submit_inr in Hs' as [Hv Ha]. simpl in Hv. rewrite andb_true_r in Hv.
  cbn [submit_all] in Ha. apply bind_inr in Ha as (row & n1 & d2 & H1 & Ha). tx Ha.
  intros [= <- <-]. right. eexists j, row, _. split_and!; try done. by rewrite Hs.
Qed.

(** A request changes the tables by at most one operation of the store. *)
Lemma handler_changes L e q d r d' :
  Handler e q d = (r, d') →
  d' = d ∨
  Method q = "POST" ∧ status r = 200 ∧
  ∃ o a, asks q o ∧ result_of L (Call e o) d = inr a ∧ d' = after L (Call e o) d.
Proof.
  unfold Api.Handler. destruct (findHandler metrics q) as [rt id| | |] eqn:Hf; try (intros [= _ <-]; by left).
  pose proof (findHandler_fine metrics q rt id Hf) as Hfine.
  destruct rt as [| | | | | | |kind|action|]; cbn [serve_route];
    try (intros [= _ <-]; by left); specialize (Hfine eq_refl) as [Hpost Hact]; cbn [changes] in *.
  - intros [(c & -> & ->)|(j & row & n & Hd & -> & _ & _ & Ht)]%PostJob_cases; [by left|].
    right. split_and!; [done..|]. exists (OpSubmit [j]), (Rows [row]). split; [left; by exists j|].
    unfold result_of, after, transact in *. cbn [perform c_op c_env]. unfold mbind, tx_bind.
    destruct (Submit [j] e 0%nat d) as [|[[rows n'] d1]]; [done|]. by injection Ht as -> ->.
  - unfold PostBatch_handler. destruct (decode dec_jobs q) as [js|] eqn:Hd; [|intros [= _ <-]; by left].
    unfold transact. destruct (Submit js e 0%nat d) as [x|[[rows n] d1]] eqn:Hs; intros [= <- <-]; [by left|].
    right. split_and!; [done..|]. exists (OpSubmit js), (Rows rows). split; [by right|].
    unfold result_of, after, transact. cbn [perform c_op c_env]. unfold mbind, tx_bind. by rewrite Hs.
  - unfold JobAction_handler. destruct (uuid id) eqn:Hid; [|intros [= _ <-]; by left].
    unfold transact. destruct (Action id action (XRequestID q) e 0%nat d) as [x|[[resp n] d1]] eqn:Hs;
      intros [= <- <-]; [by left|].
    right. split_and!; [done..|]. exists (OpAction id action (XRequestID q)), (Answered resp). split; [done|].
    unfold result_of, after, transact. cbn [perform c_op c_env]. unfold mbind, tx_bind. by rewrite Hs.
Qed.


(** ** From the SDK to the worker *)
(** The row that answers a submission is in the table, with the definition submitted. *)
Lemma submit_one_row j e n d row n' d' :
  ticking e → Inv d → Validate j = true → submit_one j e n d = inr (row, n', d') →
  Inv d' ∧ jobs d' !! ID row = Some row ∧ Definition_ row = j.
Proof.
  intros He HI Hv H. assert (Inv d') as HI'.
  { eapply evolves_inv; [exact HI|]. eapply (submit_one_refines 0); eauto. }
  split; [done|]. unfold submit_one in H. tx_step H. apply bind_inr in H as (ins & n1 & d1 & _ & H).
  tx_step H. tx_step H. tx_step H. apply String.eqb_eq, job_text_inj in Hg.
  apply by_key_some in Hm as [_ [k Hk]].
  assert (jobs d' = jobs d1 ∧ row = a) as [Hj ->].
  { apply bind_inr in H as (u & n2 & d2 & Hev & H). tx H. split; [|done]. destruct ins; [|by tx Hev].
    by apply quiet_event in Hev as [_ (? & _)]. }
  split; [|done]. rewrite <- Hj in Hk. destruct (inv_job _ HI' _ _ Hk) as (Hid & _). by rewrite Hid.
Qed.

(** The request of [Client.submit] for a job. *)
Definition submission (base u : string) (j : Job) : Req :=
  MkReq "POST" "/v1/jobs" EmptyString u (dumps (job_json j)).
Lemma received_submission base u j :
  received base (Client.submit base u (job_json j)) = Some (submission base u j).
Proof. apply (received_path base u "POST" "v1" ["jobs"] (Some (job_json j)) None). by repeat constructor. Qed.

Lemma serve_submission base u j e d :
  Validate j = true → job_text j = true → len (dumps (job_json j)) <= 4194304 →
  Handler e (submission base u j) d = PostJob_handler zone_at e (submission base u j) d ∧
  decode dec_job (submission base u j) = Some j.
Proof.
  intros Hv Ht Hl. split.
  - unfold Api.Handler. change "/v1/jobs" with (path_of ["v1"; "jobs"]). by destruct metrics.
  - unfold decode. cbn [Body submission]. rewrite (proj2 (Z.leb_le _ _)) by done.
    rewrite loads_dumps_eq by by apply job_json_ok. cbn [mbind option_bind]. by apply dec_job_json.
Qed.

(** A job of the table is shown by its identifier. *)
Definition lookup_request (u id : string) : Req := MkReq "GET" (path_of ["v1"; "jobs"; id]) EmptyString u EmptyString.
Lemma received_lookup base u id :
  uuid id = true → received base (Client.get base u id) = Some (lookup_request u id).
Proof.
  intros Hid. apply (received_path base u "GET" "v1" ["jobs"; id] None None). by apply plain_job_path.
Qed.
Lemma serve_lookup u id e d row :
  uuid id = true → lower id = id → jobs d !! id = Some row →
  Handler e (lookup_request u id) d = (Answer (jobrow_json zone_at row), d).
Proof.
  intros Hid Hl Hj. unfold Api.Handler, lookup_request. rewrite route_job by done. cbn [serve_route].
  unfold GetJob_handler, Get. by rewrite Hid, Hl, Hj.
Qed.

(** What becomes of a job [j] with the identifier [id] in a state [d]: the client is shown it, and a
    worker that leases it reads its definition in the answer and starts its command. *)
Definition kept (L : Z) (base id : string) (j : Job) (d : db) : Prop :=
  (uuid id = true → lower id = id → ∀ u e q, received base (Client.get base u id) = Some q →
     ∃ row, Handler e q d = (Answer (jobrow_json zone_at row), d) ∧ ID row = id ∧ Definition_ row = j) ∧
  ∀ r e l d', ticking e → unanswered d (scope_of LeaseJob r, RequestID r) →
    transact (RPC L LeaseJob r) e d = (inr (Leased l), d') → ID (l_job l) = id →
    json_ok (response_json zone_at (Leased l)) = true →
    Forall (λ t, writable (zone_at t) t) (times_of (Leased l)) →
    ∃ body, reply_of_text (Marshal (response_json zone_at (Leased l)))
            = Reply (Some (l_expires l)) (Some (l_server l)) false (Some body) ∧
      job_id body = id ∧
      ∀ fuel self deadline tr res tr1 argv env a tr2,
        traces (execute fuel self (Lease body deadline)) tr res → consistent world tr = true →
        tr = tr1 ++ ev (Popen argv env) a :: tr2 → argv = Command j.

Lemma stored_is_kept L base j id row d :
  Inv d → jobs d !! id = Some row → Definition_ row = j → kept L base id j d.
Proof.
  intros HI Hrow Hdef. split.
  - intros Hid Hlow u e q. rewrite received_lookup by done. intros [= <-]. exists row.
    split; [by apply serve_lookup|]. destruct (inv_job _ HI _ _ Hrow) as (-> & _). done.
  - intros r e l d' He Hun Hrpc Hl Hok Hw.
    destruct (lease_serves L e d r (Leased l) d' HI He Hun Hrpc) as (w & _ & _ & _ & Hans).
    destruct Hans as (j2 & a & Hj2 & _ & _ & _ & _ & _ & _ & _ & _ & _ & _ & Hid & Hd & _).
    assert (j2 = row) as -> by congruence.
    exists (wire_body l). split_and!; [|done|].
    + unfold reply_of_text. rewrite loads_Marshal by done. by apply (reply_of_response zone_at (Leased l)).
    + intros fuel self dl tr res tr1 argv env x tr2 Htr Hc Heq.
      destruct (execute_guarded fuel self _ tr res tr1 _ tr2 Htr Hc Heq) as (_ & _ & _ & -> & _).
      cbn. by rewrite Hd, Hdef.
Qed.

(** C7. A job submitted with the SDK is the job that is run: when [Client.submit] of a valid
    definition is answered with 200, the answer is the row of a job with exactly that definition;
    in every later state [Client.get] of its identifier shows a job with that definition, and when
    a worker is answered with a lease of it, the worker reads that definition in the text of the
    answer and the command it starts, if it starts one, is the command submitted. *)
Theorem submitted_job_is_run L T d e base u j q v d1 :
  reached L T d → ticking e → Validate j = true → job_text j = true →
  len (dumps (job_json j)) <= 4194304 →
  received base (Client.submit base u (job_json j)) = Some q → Handler e q d = (Answer v, d1) →
  ∃ row, v = jobrow_json zone_at row ∧ Definition_ row = j ∧
    ∀ T1 cs T2 d2, runs L T1 d1 cs T2 d2 → kept L base (ID row) j d2.
Proof.
  intros [HI _]%reached_inv He Hv Ht Hl Hq Hh. rewrite received_submission in Hq. injection Hq as <-.
  destruct (serve_submission base u j e d Hv Ht Hl) as [Hs Hd]. rewrite Hs in Hh.
  apply PostJob_cases in Hh as [(c & [=] & _)|(j' & row & n & Hd' & [= ->] & _ & Hone & _)].
  assert (j' = j) as -> by congruence.
  apply submit_one_row in Hone as (HI1 & Hrow & Hdef); [|done..].
  exists row. split_and!; [done|done|]. intros T1 cs T2 d2 Hr.
  destruct (runs_steps _ _ _ _ _ _ Hr HI1) as (ls & Hss & _).
  destruct (steps_job _ _ _ _ _ _ Hss HI1 Hrow) as (row' & Hrow' & Hdef' & _ & _).
  eapply stored_is_kept; [by eapply steps_inv|done|congruence].
Qed.

(** ** Pages *)
Lemma received_list base u limit offset :
  received base (Client.list_ base u limit offset)
  = Some (MkReq "GET" (path_of ["v1"; "jobs"]) (list_query limit offset) u EmptyString).
Proof. apply (received_query base u "GET" "v1" ["jobs"] (list_query limit offset) None None). by repeat constructor. Qed.

Lemma serve_list u limit offset e d :
  1 ≤ limit ≤ 1000 → 0 ≤ offset < 2 ^ 63 →
  Handler e (MkReq "GET" (path_of ["v1"; "jobs"]) (list_query limit offset) u EmptyString) d
  = (Answer (rows_json zone_at (List_ limit offset d)), d).
Proof.
  intros Hl Ho. unfold Api.Handler. rewrite found by by repeat constructor.
  assert (find_route metrics "GET" ["v1"; "jobs"] = Some (ListJobs, None)) as -> by by destruct metrics.
  cbn [serve_route]. unfold ListJobs_handler. by rewrite page_list.
Qed.

(** The page of [n] jobs from the [k]-th page boundary on, as [Client.list] is answered. *)
Definition shows_page (base : string) (e : env) (d : db) (n k : nat) (p : list JobRow) : Prop :=
  ∀ u q, received base (Client.list_ base u (Z.of_nat n) (Z.of_nat k * Z.of_nat n)) = Some q →
         Handler e q d = (Answer (rows_json zone_at p), d).

(** The pages of the job list are the list: for a page size that the API accepts, the answers to
    [Client.list] at the multiples of it, put together, hold every job once, in the order in which
    jobs are leased (by time of creation, then identifier), none more than the page size. *)
Theorem pages_are_the_list base e d n K :
  (1 ≤ n ≤ 1000)%nat → (size (jobs d) ≤ K * n)%nat → Z.of_nat (K * n) < 2 ^ 63 →
  ∃ pages, length pages = K ∧
    (∀ k p, pages !! k = Some p → (length p ≤ n)%nat ∧ shows_page base e d n k p) ∧
    concat pages ≡ₚ (map_to_list (jobs d)).*2 ∧ StronglySorted older_le (concat pages).
Proof.
  intros Hn HK Hb. exists ((λ k, List_ (Z.of_nat n) (Z.of_nat k * Z.of_nat n) d) <$> seq 0 K).
  assert (length (sorted_jobs d) = size (jobs d)) as Hlen.
  { by rewrite sorted_jobs_perm, length_fmap, length_map_to_list. }
  rewrite length_fmap, length_seq. split; [done|].
  unfold List_ at 2 3. rewrite pages_all by lia. split; [|split; [apply sorted_jobs_perm|apply sorted_jobs_sorted]].
  intros k p (k' & -> & [-> Hlt]%lookup_seq)%list_lookup_fmap_Some. split.
  - unfold List_. rewrite window_take, length_take. lia.
  - intros u q. rewrite received_list. intros [= <-].
    apply serve_list; [lia|]. split; [lia|]. eapply Z.le_lt_trans; [|exact Hb]. nia.
Qed.


(** ** Cancelling *)
(** A job that is cancelled, with no attempt leased or running. *)
Definition cancelled (id : string) (d : db) : Prop :=
  (∃ row, jobs d !! id = Some row ∧ State row = CANCELLED) ∧
  ∀ i a, attempts d !! i = Some a → at_job a = id → active (at_state a) = false.

Definition action_request (id action rid : string) : Req :=
  MkReq "POST" (path_of ["v1"; "jobs"; id; action]) EmptyString rid EmptyString.
Lemma received_cancel base u id rid :
  uuid id = true → received base (Client.cancel base u id rid) = Some (action_request id "cancel" (rid_of u rid)).
Proof.
  intros Hid. apply (received_path base u "POST" "v1" ["jobs"; id; "cancel"] None rid).
  apply plain_job_path; [done|by repeat constructor].
Qed.
Lemma serve_action id action rid e d :
  uuid id = true → action ∈ ["cancel"; "retry"] →
  Handler e (action_request id action rid) d =
  (let '(r, d') := transact (Action id action rid) e d in (reply (response_json zone_at) r, d')).
Proof.
  intros Hid Ha. unfold Api.Handler, action_request. rewrite route_action by done. cbn [serve_route].
  unfold JobAction_handler. by rewrite Hid.
Qed.

(** [act] of a cancel leaves the job cancelled. *)
Lemma act_cancel id rid e n d resp n' d' :
  act id "cancel" rid e n d = inr (resp, n', d') →
  ∃ row, jobs d' !! lower id = Some row ∧ State row = CANCELLED.
Proof.
  intros H. unfold act in H. tx_step H. apply bind_inr in H as (j & n1 & d1 & Hj & H).
  apply bind_inr in H as ([st max] & n2 & d2 & Hst & H).
  assert (st = CANCELLED ∧ jobs d2 = jobs d1) as [-> Hj2].
  { change (String.eqb "cancel" "cancel") with true in Hst. cbv match in Hst. destruct (State j); tx Hst; done. }
  apply bind_inr in H as (? & n3 & d3 & Hup & H). unfold update_job in Hup. tx Hup.
  apply bind_inr in H as (? & n4 & d4 & Hev & H). apply quiet_event in Hev as [_ (Hj4 & _)].
  tx_step H. apply bind_inr in H as (row & n5 & d5 & Hrow & H). tx H.
  apply must_inr in Hrow as (Hrow & -> & ->). apply must_inr in Hj as (Hj & -> & ->).
  exists row. split; [done|]. rewrite Hj4 in Hrow. simpl in Hrow. rewrite Hj2, lookup_alter_eq, Hj in Hrow.
  by injection Hrow as <-.
Qed.

(** C25. Cancelling is final and safe to repeat: when [Client.cancel] is answered with 200, then in
    every later state the job is CANCELLED and none of its attempts is leased or running, and the
    same request sent again gets the same answer, up to the order in which the database prints the
    members of the receipt, and changes nothing. *)
Theorem cancel_is_final L T d e base u id rid q v d1 :
  reached L T d → ticking e → uuid id = true →
  received base (Client.cancel base u id rid) = Some q → unanswered d ("job:cancel", XRequestID q) →
  Handler e q d = (Answer v, d1) →
  ∀ T1 cs T2 d2, runs L T1 d1 cs T2 d2 →
    cancelled (lower id) d2 ∧ ∀ e', Handler e' q d2 = (Answer v, d2).
Proof.
  intros [HI _]%reached_inv He Hid Hq Hun Hh T1 cs T2 d2 Hr. rewrite received_cancel in Hq by done.
  injection Hq as <-. cbn [XRequestID action_request] in Hun. set (r := rid_of u rid) in *.
  rewrite serve_action in Hh by (done || set_solver). unfold transact in Hh.
  destruct (Action id "cancel" r e 0%nat d) as [x|[[resp n] d1']] eqn:Ha; [done|]. injection Hh as <- ->.
  assert (result_of L (Call e (OpAction id "cancel" r)) d = inr (Answered resp) ∧
          after L (Call e (OpAction id "cancel" r)) d = d1) as [Hres Haft].
  { unfold result_of, after, transact. cbn [perform c_op c_env]. unfold mbind, tx_bind. by rewrite Ha. }
  assert (Inv d1) as HI1.
  { eapply evolves_inv; [exact HI|]. eapply (Action_refines L); eauto. }
  assert (∃ row, jobs d1 !! lower id = Some row ∧ State row = CANCELLED) as (row & Hrow & Hst).
  { apply Mutate_inr in Ha as [[Hrq _]|(_ & d0 & d3 & _ & _ & _ & Hact & ->)]; [by destruct (Hun _ _ Hrq)|].
    apply act_cancel in Hact as (row & Hrow & Hst). by exists row. }
  destruct (runs_steps _ _ _ _ _ _ Hr HI1) as (ls & Hss & _).
  pose proof (steps_inv _ _ _ _ HI1 Hss) as HI2.
  destruct (steps_job _ _ _ _ _ _ Hss HI1 Hrow) as (row' & Hrow' & _ & _ & Hfin).
  rewrite Hst in Hfin. split; [split|].
  - exists row'. auto.
  - intros i a Hat Hjob. apply not_true_is_false. intros Hact.
    destruct (inv_attempt _ HI2 _ _ Hat) as (_ & _ & j & Hj & _ & _ & Hag).
    pose proof (agrees_active _ _ Hact Hag) as Hp. assert (j = row') as -> by congruence.
    rewrite Hfin in Hp by auto. done.
  - intros e'. rewrite <- Haft in Hr.
    destruct (mutation_replayed L (Call e (OpAction id "cancel" r)) (Call e' (OpAction id "cancel" r))
      d _ _ _ _ _ eq_refl Hres Hr eq_refl) as [H1 H2].
    rewrite serve_action by (done || set_solver).
    unfold result_of, after, transact in *. cbn [perform c_op c_env] in *. unfold mbind, tx_bind in *.
    destruct (Action id "cancel" r e' 0%nat d2) as [|[[resp' n'] d3]]; [done|]. simpl in *. congruence.
Qed.
End Handler.

(** ** A server *)
Local Notation demo_server := (Api.Handler (λ _, 0) (rfc3339 0) Z.of_nat String.leb true true).
Definition demo_base : string := Client.new "http://localhost:8080/".
Definition demo_job_id : string := demo_id 1 0.
Definition demo_submission : Req := submission demo_base "u1" demo_job.

(** Routes: what is served, moved, refused and unknown. *)
Example demo_routes :
  let get path := status (demo_server (demo_at 9) (MkReq "GET" path EmptyString "u" EmptyString) demo_queued).1 in
  let post path := status (demo_server (demo_at 9) (MkReq "POST" path EmptyString "u" EmptyString) demo_queued).1 in
  (get <$> ["/healthz"; "/readyz"; "/metrics"; "/v1/jobs"; "/v1/workers"; "/v1/jobs/" +:+ demo_job_id;
            "/v1/jobs/" +:+ demo_job_id +:+ "/events"]) = [200; 200; 200; 200; 200; 200; 200] ∧
  (get <$> ["/v1/jobs/batch"; "/v1/jobs/x/attempts"; "/v1//jobs"; "/v1/./jobs"; "/v1/jobs/"; "/v1/jobs/a/b";
            "/v1/jobs/%2F"; "/v1/jobs/x/cancel"; "/v1/jobs/00000000-0000-4000-8000-000000000000"])
    = [400; 400; 301; 301; 404; 404; 404; 405; 404] ∧
  (post <$> ["/v1/jobs"; "/v1/jobs/batch"; "/v1/workers"; "/v1/jobs/" +:+ demo_job_id +:+ "/retry"])
    = [400; 400; 405; 409].
Proof. by vm_compute. Qed.

(** The window of a list, from its query. *)
Example demo_pages :
  let list query := demo_server (demo_at 9) (MkReq "GET" "/v1/jobs" query "u" EmptyString) demo_queued in
  ((λ q, status (list q).1) <$> ["limit=1"; "limit=1000&offset=7"; "limit=0"; "limit=1001"; "limit=x"; "offset=-1";
     "limit=%31"; "limit=1;offset=2"; "limit=&offset=0"; "limit=99999999999999999999"])
    = [200; 200; 400; 400; 400; 400; 200; 200; 200; 400].
Proof. by vm_compute. Qed.

Lemma demo_submitted :
  ∃ v, demo_server (demo_at 1) demo_submission empty_db = (Answer v, after 15 demo_submit empty_db).
Proof. eexists. vm_compute. reflexivity. Qed.


Lemma submitted_job_is_run_witness :
  ∃ row, Definition_ row = demo_job ∧
    kept (λ _, 0) (rfc3339 0) Z.of_nat String.leb true true 15 demo_base (ID row) demo_job demo_queued.
Proof.
  destruct demo_submitted as [v Hv].
  destruct (submitted_job_is_run (λ _, 0) (rfc3339 0) Z.of_nat String.leb true true 15 0 empty_db (demo_at 1)
    demo_base "u1" demo_job demo_submission v (after 15 demo_submit empty_db)) as (row & _ & Hd & Hk).
  - exists 0, []. constructor.
  - apply demo_ticking.
  - by vm_compute.
  - by vm_compute.
  - vm_compute. discriminate.
  - apply received_submission.
  - exact Hv.
  - exists row. split; [exact Hd|]. apply (Hk (sec 1 + 50) [demo_register] (sec 2 + 50)).
    apply (demo_next (sec 1 + 50) _ _ [] 2); [constructor|unfold sec; lia].
Defined.

Lemma pages_are_the_list_witness :
  ∃ pages, length pages = 2%nat ∧
    (∀ k p, pages !! k = Some p → (length p ≤ 10)%nat ∧
       shows_page (λ _, 0) (rfc3339 0) Z.of_nat String.leb true true demo_base (demo_at 9) demo_queued 10 k p) ∧
    concat pages ≡ₚ (map_to_list (jobs demo_queued)).*2.
Proof.
  destruct (pages_are_the_list (λ _, 0) (rfc3339 0) Z.of_nat String.leb true true demo_base (demo_at 9)
    demo_queued 10 2) as (pages & Hl & Hs & Hp & _).
  - lia.
  - assert (size (jobs demo_queued) = 1%nat) as -> by by vm_compute. lia.
  - lia.
  - exists pages. split; [exact Hl|split; [exact Hs|exact Hp]].
Defined.

(** The leased state with the token gone. *)
Definition demo_tokenless : db := set_attempts (fmap blanked) demo_leased.

Definition demo_cancel : Req := action_request demo_job_id "cancel" "c1".
Lemma cancel_is_final_witness :
  ∃ v d1, demo_server (demo_at 5) demo_cancel demo_running = (Answer v, d1) ∧
    cancelled demo_job_id d1 ∧
    demo_server (demo_at 6) demo_cancel d1 = (Answer v, d1).
Proof.
  assert (∃ v d1, demo_server (demo_at 5) demo_cancel demo_running = (Answer v, d1)) as (v & d1 & Hv)
    by (do 2 eexists; vm_compute; reflexivity).
  exists v, d1. split; [exact Hv|].
  destruct (cancel_is_final (λ _, 0) (rfc3339 0) Z.of_nat String.leb true true 15 (sec 4 + 50) demo_running
    (demo_at 5) demo_base "u1" demo_job_id (Some "c1") demo_cancel v d1) with (T1 := sec 5) (cs := @nil call)
    (T2 := sec 5) (d2 := d1) as (Hact & Hagain).
  - exact demo_running_reached.
  - apply demo_ticking.
  - by vm_compute.
  - apply received_cancel. by vm_compute.
  - intros h q. by vm_compute.
  - exact Hv.
  - constructor.
  - split; [exact Hact|apply Hagain].
Defined.
