(* ===== verification/Cli.v ===== *)
(** * Cli: the command [rungrid] (cmd/cli/main.go)

    [request_of_args] is the request the command line asks for; [run] sends it to a server and
    gives what is printed and the exit status.  [server] stands for the HTTP interface. *)
From stdpp Require Import sorting.
From S2P Require Import Prelude Effects PyStr Utf8 Json JsonParse JsonRound Calendar Times Sha256 Wire World.
From S2P Require Import Rpc Artifacts Worker WorkerSafety Logs Checkpoint Control ControlSpec ControlRefine ControlProps.
From S2P Require Import EndToEnd WireText Queries Client Api ApiText ApiProps.
Import Store Query Api.
Local Open Scope string_scope.
Local Open Scope list_scope.
Local Open Scope Z_scope.

Module Cli.

Inductive failure :=
| Usage | FileRequired | ReadError | IdRequired | UnknownCommand (arg : string)
| BadRequest                       (* http.NewRequest *)
| SendError (rid : string)         (* client.Do, with the identifier to reuse *)
| HTTPError (code : Z).

(** What the command reads: the variables RUNGRID_URL and RUNGRID_REQUEST_ID (empty when unset),
    files, [scheduler.ID()], and whether [http.NewRequest] takes a URL. *)
Record context := MkContext {
  RUNGRID_URL : string;
  RUNGRID_REQUEST_ID : string;
  ReadFile : string → option string;
  ID : string;
  valid_url : string → bool }.

Definition base_of (c : context) : string :=
  rstrip (is_char slash) (if nonempty (RUNGRID_URL c) then RUNGRID_URL c else "http://localhost:8080").
Definition rid_of (c : context) : string :=
  if nonempty (RUNGRID_REQUEST_ID c) then RUNGRID_REQUEST_ID c else ID c.

(** The [switch]: method, path and body. *)
Definition command (c : context) (args : list string) : failure + (string * string * string) :=
  match args with
  | [] => inl Usage
  | cmd :: rest =>
      if existsb (String.eqb cmd) ["submit"; "batch"] then
        match rest with
        | [file] =>
            match ReadFile c file with
            | None => inl ReadError
            | Some body => inr ("POST", if String.eqb cmd "batch" then "/v1/jobs/batch" else "/v1/jobs", body)
            end
        | _ => inl FileRequired
        end
      else if String.eqb cmd "list" then inr ("GET", "/v1/jobs", EmptyString)
      else if String.eqb cmd "workers" then inr ("GET", "/v1/workers", EmptyString)
      else if existsb (String.eqb cmd) ["get"; "cancel"; "retry"; "attempts"; "events"; "artifacts"] then
        match rest with
        | [id] =>
            inr (if existsb (String.eqb cmd) ["cancel"; "retry"] then "POST" else "GET",
                 "/v1/jobs/" +:+ id +:+ (if String.eqb cmd "get" then EmptyString else "/" +:+ cmd),
                 EmptyString)
        | _ => inl IdRequired
        end
      else inl (UnknownCommand cmd)
  end.

Definition request_of_args (c : context) (args : list string) : failure + Client.http :=
  match command c args with
  | inl f => inl f
  | inr (method, path, body) =>
      if valid_url c (base_of c +:+ path)
      then inr (Client.Http method (base_of c +:+ path) (Some body) "application/json" (rid_of c))
      else inl BadRequest
  end.

(** The answer is copied to the output; an error is the exit status 1. *)
Record ran := Ran { printed : option resp; error_ : option failure }.
Definition exit_status (r : ran) : Z := match error_ r with Some _ => 1 | None => 0 end.

Definition run {D} (server : Client.http → D → option (resp * D)) (c : context) (args : list string) (d : D)
  : ran * D :=
  match request_of_args c args with
  | inl f => (Ran None (Some f), d)
  | inr h =>
      match server h d with
      | None => (Ran None (Some (SendError (rid_of c))), d)
      | Some (r, d') =>
          (Ran (Some r) (if 400 <=? status r then Some (HTTPError (status r)) else None), d')
      end
  end.

(** ** The command and the SDK's client *)
(** What the client sends for the same job, under the request identifier of the command. *)
Definition client_call (c : context) (cmd id : string) : option Client.http :=
  let base := base_of c in
  if String.eqb cmd "get" then Some (Client.get base (rid_of c) id)
  else if String.eqb cmd "cancel" then Some (Client.cancel base (rid_of c) id None)
  else if String.eqb cmd "retry" then Some (Client.retry base (rid_of c) id None)
  else None.

Lemma same_request c cmd id h h' :
  request_of_args c [cmd; id] = inr h → client_call c cmd id = Some h' →
  received (base_of c) h = received (base_of c) h'.
Proof.
  unfold request_of_args, client_call, command, Client.get, Client.cancel, Client.retry, Client.request.
  destruct (String.eqb_spec cmd "get") as [->|]; [|destruct (String.eqb_spec cmd "cancel") as [->|];
    [|destruct (String.eqb_spec cmd "retry") as [->|]; [|done]]];
    cbn [existsb String.eqb Ascii.eqb Bool.eqb orb]; destruct (valid_url c _); try done;
    intros [= <-] [= <-]; unfold received; cbn [Client.h_url Client.h_method Client.h_body Client.h_request_id];
    rewrite ?string_app_nil_r; reflexivity.
Qed.

Section Server.
Context (zone_at : Z → Z) (pg_time : Z → string) (event_id : nat → Z) (text_leb : string → string → bool)
        (metrics ping : bool).
Notation Handler := (Handler zone_at pg_time event_id text_leb metrics ping).

(** The server at an address. *)
Definition serving (e : env) (base : string) (h : Client.http) (d : db) : option (resp * db) :=
  q ← received base h; Some (Handler e q d).

Lemma received_command c cmd id h :
  uuid id = true → cmd ∈ ["cancel"; "retry"] → request_of_args c [cmd; id] = inr h →
  received (base_of c) h = Some (action_request id cmd (rid_of c)).
Proof.
  intros Hid Hc Hh. apply list_elem_of_In in Hc. simpl in Hc.
  assert (client_call c cmd id = Some (Client.request (base_of c) (rid_of c) "POST"
    (path_of ["v1"; "jobs"; id; cmd]) None None)) as Hcall.
  { destruct Hc as [<-|[<-|[]]]; reflexivity. }
  rewrite (same_request c cmd id h _ Hh Hcall).
  apply (received_path (base_of c) (rid_of c) "POST" "v1" ["jobs"; id; cmd] None None).
  apply plain_job_path; [done|]. apply Forall_singleton. by destruct Hc as [<-|[<-|[]]].
Qed.

(** Running [rungrid cancel ID] or [rungrid retry ID] again under the same RUNGRID_REQUEST_ID is a
    safe retry: once the command has succeeded, however much happened since, the same command
    prints the same answer, exits with status 0 and changes nothing. *)
Theorem rerun_is_safe L d e c c' cmd id r d1 T1 cs T2 d2 e' :
  cmd ∈ ["cancel"; "retry"] → uuid id = true → nonempty (RUNGRID_REQUEST_ID c) = true →
  RUNGRID_URL c' = RUNGRID_URL c → RUNGRID_REQUEST_ID c' = RUNGRID_REQUEST_ID c → valid_url c' = valid_url c →
  run (serving e (base_of c)) c [cmd; id] d = (Ran (Some r) None, d1) → runs L T1 d1 cs T2 d2 →
  run (serving e' (base_of c')) c' [cmd; id] d2 = (Ran (Some r) None, d2).
Proof.
  intros Hc Hid Hrid Hurl Hrq Hval Hrun Hr.
  assert (base_of c' = base_of c) as Hbase by (unfold base_of; by rewrite Hurl).
  assert (rid_of c' = rid_of c) as Hr' by (unfold rid_of; by rewrite Hrq, Hrid).
  assert (request_of_args c' [cmd; id] = request_of_args c [cmd; id]) as Hreq.
  { unfold request_of_args. rewrite Hbase, Hr', Hval.
    assert (command c' [cmd; id] = command c [cmd; id]) as ->; [|done].
    apply list_elem_of_In in Hc. by destruct Hc as [<-|[<-|[]]]. }
  unfold run in *. rewrite Hreq, Hbase. destruct (request_of_args c [cmd; id]) as [f|h] eqn:Hh; [done|].
  unfold serving in *. rewrite (received_command c cmd id h) in * by done. cbn [mbind option_bind] in *.
  rewrite serve_action in * by done. unfold transact in *.
  destruct (Action id cmd (rid_of c) e 0%nat d) as [x|[[a n] d1']] eqn:Ha.
  { cbn [reply status] in Hrun. by destruct x. }
  injection Hrun as <- ->.
  assert (result_of L (Call e (OpAction id cmd (rid_of c))) d = inr (Answered a) ∧
          after L (Call e (OpAction id cmd (rid_of c))) d = d1) as [Hres Haft].
  { unfold result_of, after, transact. cbn [perform c_op c_env]. unfold mbind, tx_bind. by rewrite Ha. }
  rewrite <- Haft in Hr.
  destruct (mutation_replayed L (Call e (OpAction id cmd (rid_of c))) (Call e' (OpAction id cmd (rid_of c)))
    d _ _ _ _ _ eq_refl Hres Hr eq_refl) as [H1 H2].
  unfold result_of, after, transact in H1, H2. cbn [perform c_op c_env] in H1, H2. unfold mbind, tx_bind in H1, H2.
  destruct (Action id cmd (rid_of c) e' 0%nat d2) as [|[[a' n'] d3]]; [done|]. simpl in *. congruence.
Qed.
End Server.

Definition demo_context (fresh : string) : context :=
  MkContext "http://localhost:8080/" "c1" (λ _, None) fresh (λ _, true).

Example demo_commands :
  let sent args := match request_of_args (demo_context "f") args with
                   | inr h => Some (Client.h_method h, Client.h_url h)
                   | inl _ => None
                   end in
  sent ["get"; "x"] = Some ("GET", "http://localhost:8080/v1/jobs/x") ∧
  sent ["retry"; "x"] = Some ("POST", "http://localhost:8080/v1/jobs/x/retry") ∧
  sent ["list"] = Some ("GET", "http://localhost:8080/v1/jobs") ∧
  sent ["get"] = None ∧ sent ["submit"; "missing"] = None ∧ sent ["help"] = None ∧ sent [] = None.
Proof. by vm_compute. Qed.

Lemma rerun_is_safe_witness :
  ∃ r d1, run (serving (λ _, 0) (rfc3339 0) Z.of_nat String.leb true true (demo_at 5) (base_of (demo_context "f")))
            (demo_context "f") ["cancel"; demo_job_id] demo_running = (Ran (Some r) None, d1) ∧
    run (serving (λ _, 0) (rfc3339 0) Z.of_nat String.leb true true (demo_at 6) (base_of (demo_context "g")))
      (demo_context "g") ["cancel"; demo_job_id] d1 = (Ran (Some r) None, d1).
Proof.
  assert (∃ r d1, run (serving (λ _, 0) (rfc3339 0) Z.of_nat String.leb true true (demo_at 5) (base_of (demo_context "f")))
            (demo_context "f") ["cancel"; demo_job_id] demo_running = (Ran (Some r) None, d1)) as (r & d1 & Hr)
    by (do 2 eexists; vm_compute; reflexivity).
  exists r, d1. split; [exact Hr|].
  apply (rerun_is_safe (λ _, 0) (rfc3339 0) Z.of_nat String.leb true true 15 demo_running (demo_at 5)
    (demo_context "f") (demo_context "g") "cancel" demo_job_id r d1 (sec 5) [] (sec 5)).
  - apply list_elem_of_In. left. reflexivity.
  - by vm_compute.
  - reflexivity.
  - reflexivity.
  - reflexivity.
  - reflexivity.
  - exact Hr.
  - constructor.
Defined.
End Cli.
