(* ===== verification/Release.v ===== *)
(** * Release: the scripts of the repository (scripts/release.py, archive_evidence.py, generate.py)

    The scripts as computations over the files of the repository.  git, the Go tool chain, docker,
    the protocol compiler and the platform are parameters, as are the tar and gzip formats.  The
    theorems are about the SHA256SUMS files: they list exactly the files they should, with digests
    that verify; and the generated bindings import their messages from their own package. *)
From S2P Require Import Prelude Effects PyStr Utf8 Json JsonParse JsonRound Sha256.
Local Open Scope string_scope.
Local Open Scope list_scope.
Local Open Scope Z_scope.

(** ** Files *)
Abbreviation files := (gmap string string).
Definition IO (A : Type) : Type := files → (exn + A) * files.

Definition io_ret {A} (a : A) : IO A := λ fs, (inr a, fs).
Definition io_raise {A} (e : exn) : IO A := λ fs, (inl e, fs).
Definition io_bind {A B} (p : IO A) (f : A → IO B) : IO B :=
  λ fs, match p fs with
        | (inl e, fs) => (inl e, fs)
        | (inr a, fs) => f a fs
        end.
Definition io_unwrap {A} (r : exn + A) : IO A :=
  match r with inl e => io_raise e | inr a => io_ret a end.

Declare Scope io_scope.
Delimit Scope io_scope with io.
Bind Scope io_scope with IO.
Notation "x <- p ; q" := (io_bind p (λ x, q))
  (at level 100, p at level 99, q at level 200, right associativity) : io_scope.
Notation "p ;;; q" := (io_bind p (λ _ : unit, q))
  (at level 100, q at level 200, right associativity) : io_scope.
Local Open Scope io_scope.

Definition read_bytes (p : string) : IO string := λ fs,
  match fs !! p with Some d => (inr d, fs) | None => (inl (FileNotFoundError p), fs) end.
Definition write_bytes (p data : string) : IO unit := λ fs, (inr tt, <[p := data]> fs).

Fixpoint io_map {A B} (f : A → IO B) (l : list A) : IO (list B) :=
  match l with
  | [] => io_ret []
  | x :: l => y <- f x; ys <- io_map f l; io_ret (y :: ys)
  end.

Lemma io_bind_inr {A B} (p : IO A) (f : A → IO B) fs b fs' :
  io_bind p f fs = (inr b, fs') → ∃ a fs1, p fs = (inr a, fs1) ∧ f a fs1 = (inr b, fs').
Proof. unfold io_bind. destruct (p fs) as [[e|a] fs1]; [done|eauto]. Qed.

Lemma read_bytes_inr p fs d fs' : read_bytes p fs = (inr d, fs') → fs !! p = Some d ∧ fs' = fs.
Proof. unfold read_bytes. destruct (fs !! p); [by intros [= -> ->]|done]. Qed.

Ltac io_step H :=
  let a := fresh "a" in let fs := fresh "fs" in let Ha := fresh "Ha" in
  apply io_bind_inr in H as (a & fs & Ha & H).

(** *** Sums: the lines of a SHA256SUMS file *)
Definition sum_line (name data : string) : string := sha256_hex data +:+ "  " +:+ name.
Definition nl : string := String "010" EmptyString.

(** ** release.py *)
Section Release.
(** A run of the Go tool: the bytes it writes to its [-o] argument. *)
Context (go : gmap string string → list string → exn + string)
        (tar : list (string * Z * string) → string)   (* names, modes and contents *)
        (gzip : string → string).                     (* mtime=0, filename="" *)
Context (environ : gmap string string).

Definition member_mode (name : string) : Z :=
  if existsb (String.eqb name) ["server"; "rungrid"] then 493 (* 0o755 *) else 420 (* 0o644 *).

Definition members (binaries : list (string * string)) (license readme : string)
    : list (string * Z * string) :=
  (λ m, (m.1, member_mode m.1, m.2)) <$> (binaries ++ [("LICENSE", license); ("README.md", readme)]).

Definition build_binary (system architecture : string) (b : string * string) : IO (string * string) :=
  let '(name, source) := b in
  let env := <["GOOS" := system]> (<["GOARCH" := architecture]> (<["CGO_ENABLED" := "0"]> environ)) in
  let target := "dist/" +:+ name +:+ "-" +:+ system +:+ "-" +:+ architecture in
  out <- io_unwrap (go env [default "go" (environ !! "GO"); "build"; "-trimpath"; "-ldflags=-s -w"; "-o"; target; source]);
  write_bytes target out ;;;
  data <- read_bytes target;
  io_ret (name, data).

Definition archive_name (version system architecture : string) : string :=
  "rungrid-" +:+ version +:+ "-" +:+ system +:+ "-" +:+ architecture +:+ ".tar.gz".

(** The directory of the archive is [dist] unless the version holds a slash. *)
Definition build_archive (version : string) (p : string * string) : IO string :=
  let '(system, architecture) := p in
  binaries <- io_map (build_binary system architecture) [("server", "./cmd/server"); ("rungrid", "./cmd/cli")];
  let filename := "dist/" +:+ archive_name version system architecture in
  if contains "/" version then io_raise (FileNotFoundError filename)
  else
    write_bytes filename EmptyString ;;;
    license <- read_bytes "LICENSE";
    readme <- read_bytes "README.md";
    write_bytes filename (gzip (tar (members binaries license readme))) ;;;
    data <- read_bytes filename;
    io_ret (sum_line (archive_name version system architecture) data).

Definition targets : list (string * string) :=
  [("linux", "amd64"); ("linux", "arm64"); ("darwin", "amd64"); ("darwin", "arm64")].

(** [status], [revision] and [tag] are what git answers; [tag] is [None] for a commit that has
    none. *)
Definition release (check : bool) (status revision : string) (tag : option string) : IO string :=
  if nonempty (strip is_space status) then io_raise (SystemExit 1)
  else if check then io_raise (SystemExit 0)
  else
    let version := match tag with Some t => strip is_space t | None => "dev-" +:+ strip is_space revision end in
    checksums <- io_map (build_archive version) targets;
    write_bytes "dist/SHA256SUMS" (join nl checksums +:+ nl) ;;;
    io_ret ("Built " +:+ version +:+ ": " +:+ pretty (Z.of_nat (length checksums)) +:+ " archives in dist").

(** *** The sums verify *)
Definition binary_path (name system architecture : string) : string :=
  "dist/" +:+ name +:+ "-" +:+ system +:+ "-" +:+ architecture.
Definition archive_path (version system architecture : string) : string :=
  "dist/" +:+ archive_name version system architecture.
(** What the tool builds of a command for a system. *)
Definition built (name source system architecture data : string) : Prop :=
  go (<["GOOS" := system]> (<["GOARCH" := architecture]> (<["CGO_ENABLED" := "0"]> environ)))
     [default "go" (environ !! "GO"); "build"; "-trimpath"; "-ldflags=-s -w"; "-o";
      binary_path name system architecture; source] = inr data.

Lemma build_binary_inr system architecture name source fs r fs' :
  build_binary system architecture (name, source) fs = (inr r, fs') →
  ∃ data, built name source system architecture data ∧ r = (name, data) ∧
    fs' = <[binary_path name system architecture := data]> fs.
Proof.
  unfold build_binary, built. intros H. io_step H. destruct (go _ _) as [e|out]; [done|].
  injection Ha as <- <-. io_step H. injection Ha as <- <-. io_step H.
  apply read_bytes_inr in Ha as [Hd ->]. injection H as <- <-.
  exists out. split; [done|]. split; [|done].
  f_equal. unfold binary_path in *. rewrite lookup_insert_eq in Hd. by injection Hd.
Qed.

(** The archive of a system: the two commands built for it, the license and the readme. *)
Definition archive_of (fs : files) (system architecture data : string) : Prop :=
  ∃ server cli license readme,
    built "server" "./cmd/server" system architecture server ∧
    built "rungrid" "./cmd/cli" system architecture cli ∧
    fs !! "LICENSE" = Some license ∧ fs !! "README.md" = Some readme ∧
    data = gzip (tar [("server", 493, server); ("rungrid", 493, cli);
                      ("LICENSE", 420, license); ("README.md", 420, readme)]).

(** What the build of a system may change. *)
Definition touched (version system architecture k : string) : Prop :=
  k = binary_path "server" system architecture ∨ k = binary_path "rungrid" system architecture ∨
  k = archive_path version system architecture.

Lemma build_archive_inr version system architecture fs line fs' :
  "LICENSE" ≠ archive_path version system architecture →
  "README.md" ≠ archive_path version system architecture →
  build_archive version (system, architecture) fs = (inr line, fs') →
  ∃ data, archive_of fs system architecture data ∧
    fs' !! archive_path version system architecture = Some data ∧
    line = sum_line (archive_name version system architecture) data ∧
    ∀ k, ~ touched version system architecture k → fs' !! k = fs !! k.
Proof.
  intros Hl Hr H. unfold build_archive in H. io_step H. cbn [io_map] in Ha.
  io_step Ha. apply build_binary_inr in Ha0 as (server & Hserver & -> & ->).
  io_step Ha. io_step Ha0. apply build_binary_inr in Ha1 as (cli & Hcli & -> & ->).
  io_step Ha0. injection Ha1 as <- <-. injection Ha0 as <- <-. injection Ha as <- <-.
  destruct (contains "/" version); [done|]. fold (archive_path version system architecture) in H.
  io_step H. injection Ha as <- <-.
  io_step H. apply read_bytes_inr in Ha as [Hlic ->].
  io_step H. apply read_bytes_inr in Ha as [Hread ->].
  io_step H. injection Ha as <- <-. io_step H. apply read_bytes_inr in Ha as [Hd ->].
  injection H as <- <-. rewrite lookup_insert_eq in Hd. injection Hd as <-.
  rewrite !lookup_insert_ne in Hlic by done. rewrite !lookup_insert_ne in Hread by done.
  eexists. split; [|split; [by rewrite lookup_insert_eq|split; [done|]]].
  - do 4 eexists. split_and!; [exact Hserver|exact Hcli|exact Hlic|exact Hread|reflexivity].
  - unfold touched. intros k Hk. rewrite !lookup_insert_ne; naive_solver.
Qed.

(** *** The names of the archives are distinct and are nothing else the script writes *)
Lemma archive_path_ends version system architecture :
  ends_with ".tar.gz" (archive_path version system architecture) = true.
Proof.
  apply ends_with_spec. exists ("dist/rungrid-" +:+ version +:+ "-" +:+ system +:+ "-" +:+ architecture).
  unfold archive_path, archive_name. by rewrite !string_app_assoc.
Qed.

Lemma archive_paths_apart version t t' :
  t ∈ targets → t' ∈ targets → archive_path version t.1 t.2 = archive_path version t'.1 t'.2 → t = t'.
Proof.
  unfold archive_path, archive_name. intros Ht Ht' Heq. do 3 apply app_inj_l in Heq. revert Heq.
  unfold targets in *. rewrite !elem_of_cons, elem_of_nil in Ht, Ht'.
  destruct_or?; subst; cbn; intros; simplify_eq; done.
Qed.

Lemma targets_apart version t t' :
  t ∈ targets → t' ∈ targets → t ≠ t' → ~ touched version t.1 t.2 (archive_path version t'.1 t'.2).
Proof.
  intros Ht Ht' Hne [H|[H|H]].
  1,2: pose proof (archive_path_ends version t'.1 t'.2) as He; rewrite H in He; revert He;
    unfold targets in Ht; rewrite !elem_of_cons, elem_of_nil in Ht; destruct_or?; subst; by vm_compute.
  apply Hne. symmetry. by eapply archive_paths_apart.
Qed.

Lemma not_dist version t k :
  t ∈ targets → has_prefix "dist/" k = false → ~ touched version t.1 t.2 k.
Proof.
  intros _ Hk [->|[->| ->] ]; unfold binary_path, archive_path in Hk; by rewrite has_prefix_app in Hk.
Qed.

Lemma build_all_inr version l fs lines fs' :
  NoDup l → l ⊆ targets → io_map (build_archive version) l fs = (inr lines, fs') →
  ∃ datas, Forall2 (λ t data, archive_of fs t.1 t.2 data ∧
                              fs' !! archive_path version t.1 t.2 = Some data) l datas ∧
    lines = zip_with (λ t data, sum_line (archive_name version t.1 t.2) data) l datas ∧
    (∀ k, Forall (λ t, ~ touched version t.1 t.2 k) l → fs' !! k = fs !! k).
Proof.
  intros Hnd. revert fs lines. induction Hnd as [|t l Ht Hnd IH]; intros fs lines Hsub H; cbn [io_map] in H.
  { injection H as <- <-. exists []. split; [constructor|]. by split. }
  assert (t ∈ targets) as Htt by set_solver. assert (l ⊆ targets) as Hl by set_solver.
  apply io_bind_inr in H as (line & fs0 & Ha & H). destruct t as [system architecture].
  apply build_archive_inr in Ha as (data & Harch & Hdata & -> & Hframe); [|done..].
  apply io_bind_inr in H as (rest & fs1 & Ha & H). injection H as <- <-.
  apply (IH fs0 rest Hl) in Ha as (datas & Hdatas & -> & Hrest).
  assert (∀ k, has_prefix "dist/" k = false → fs0 !! k = fs !! k) as Hfiles.
  { intros k Hk. apply Hframe. by apply (not_dist version (system, architecture)). }
  exists (data :: datas). split_and!; [|done|].
  - constructor.
    + split; [done|]. rewrite Hrest; [done|]. apply Forall_forall. intros t' Ht'.
      apply (targets_apart version t' (system, architecture)); [set_solver|done|]. intros ->. done.
    + eapply Forall2_impl; [exact Hdatas|]. cbn beta. intros t' d' [(s & c & l' & r & ? & ? & L & R & ->) ?].
      split; [|done]. exists s, c, l', r. by rewrite <- !Hfiles.
  - intros k Hk. inversion Hk; subst. rewrite Hrest by done. by apply Hframe.
Qed.

(** A release is what its SHA256SUMS says.  When the script ends normally the file lists the
    archives of the four systems, in order, each with the digest of the bytes that are in [dist]
    under its name; each archive holds the two commands built for that system, executable, and
    the license and readme of the tree.  A dirty tree, or [--check], ends the script before any
    file is written. *)
Theorem release_sums_verify check status revision tag fs :
  match release check status revision tag fs with
  | (inl e, fs') => (nonempty (strip is_space status) || check)%bool = true → fs' = fs ∧ ∃ c, e = SystemExit c
  | (inr _, fs') =>
      nonempty (strip is_space status) = false ∧ check = false ∧
      ∃ version datas,
        Forall2 (λ t data, archive_of fs t.1 t.2 data ∧ fs' !! archive_path version t.1 t.2 = Some data)
          targets datas ∧
        fs' !! "dist/SHA256SUMS"
        = Some (join nl (zip_with (λ t data, sum_line (archive_name version t.1 t.2) data) targets datas) +:+ nl)
  end.
Proof.
  unfold release. destruct (nonempty _); [cbn; by eauto|]. destruct check; [cbn; by eauto|].
  set (version := match tag with Some _ => _ | None => _ end). cbn [orb].
  destruct (io_bind _ _ fs) as [[e|msg] fs'] eqn:H; [done|]. split_and!; [done..|].
  exists version. io_step H. apply build_all_inr in Ha as (datas & Hdatas & -> & _);
    [|apply (bool_decide_unpack _); by vm_compute|done].
  io_step H. injection Ha as <- <-. injection H as _ <-. exists datas. split.
  - eapply Forall2_impl; [exact Hdatas|]. cbn beta. intros t d [? Hd]. split; [done|].
    rewrite lookup_insert_ne; [done|]. unfold archive_path, archive_name. by intros [=].
  - by rewrite lookup_insert_eq.
Qed.
End Release.

(** ** archive_evidence.py *)
Section Evidence.
Context (check_output : list string → exn + string)   (* subprocess.check_output(argv, text=True) *)
        (platform python_version system : string).    (* of the module platform *)

Definition target : string := "docs/evidence".

(** A file below a directory. *)
Definition below_dir (d p : string) : bool := has_prefix (d +:+ "/") p.

Fixpoint drop_chars (n : nat) (s : string) : string :=
  match n, s with
  | S n, String _ s => drop_chars n s
  | _, _ => s
  end.
(** [p.relative_to(d)] *)
Definition relative_to (d p : string) : string := drop_chars (String.length (d +:+ "/")) p.

Definition listing (fs : files) (d : string) : list (string * string) :=
  List.filter (λ f, below_dir d f.1) (map_to_list fs).

Definition sources : list (string * string) :=
  [("results/scaling-v1", "scaling"); ("results/recovery.json", "recovery.json");
   ("results/backlog.json", "backlog.json");
   ("results/heterosplit-v1/metrics.json", "heterosplit/metrics.json");
   ("results/heterosplit-v1/summary.md", "heterosplit/summary.md")].

(** A directory is one that has files. *)
Definition copy_source (s : string * string) : IO unit := λ fs,
  let '(source, relative) := s in
  let destination := target +:+ "/" +:+ relative in
  match fs !! source, listing fs source with
  | Some data, _ => (inr tt, <[destination := data]> fs)
  | None, (_ :: _) as l =>
      (inr tt, foldr (λ f fs, <[destination +:+ "/" +:+ relative_to source f.1 := f.2]> fs) fs l)
  | None, [] => (inl (SystemExit 1), fs)
  end.

Definition docker_keys : list string := ["NCPU"; "MemTotal"; "Architecture"; "ServerVersion"; "OperatingSystem"].
Definition host_keys : list string := ["machdep.cpu.brand_string"; "hw.ncpu"; "hw.memsize"].

(** [{k: d[k] for k in keys}] *)
Fixpoint pick_keys (d : list (string * json)) (keys : list string) : exn + list (string * json) :=
  match keys with
  | [] => inr []
  | k :: keys =>
      match List.find (λ kv, String.eqb kv.1 k) d with
      | None => inl (KeyError k)
      | Some (_, v) => match pick_keys d keys with inl e => inl e | inr r => inr ((k, v) :: r) end
      end
  end.

Definition docker_capacity : exn + list (string * json) :=
  match check_output ["docker"; "info"; "--format"; "{{json .}}"] with
  | inl e => inl e
  | inr text => match loads text with
                | Some (JObj d) => pick_keys d docker_keys
                | Some _ => inl (TypeError "docker info")
                | None => inl (ValueError "docker info")
                end
  end.

Definition host_value (k : string) : IO (string * json) :=
  v <- io_unwrap (check_output ["sysctl"; "-n"; k]);
  io_ret (k, JStr (strip is_space v)).

Definition hardware : IO json :=
  docker <- io_unwrap docker_capacity;
  host <- (if String.eqb system "Darwin" then h <- io_map host_value host_keys; io_ret [("host", JObj h)]
           else io_ret []);
  io_ret (JObj ([("platform", JStr platform); ("python", JStr python_version); ("docker", JObj docker)] ++ host)).

(** The archived files: all below the target that are not named SHA256SUMS, sorted. *)
Definition evidence_files (fs : files) : list string :=
  sort_paths (List.filter (λ p, negb (String.eqb (basename p) "SHA256SUMS")) (fst <$> listing fs target)).

Definition sums_of (fs : files) (paths : list string) : string :=
  foldr (λ p rest, sum_line (relative_to target p) (default EmptyString (fs !! p)) +:+ nl +:+ rest) EmptyString paths.

Definition archive_evidence : IO string :=
  _ <- io_map copy_source sources;
  coverage <- io_unwrap (check_output ["go"; "tool"; "cover"; "-func=coverage.out"]);
  write_bytes (target +:+ "/go-coverage.txt") coverage ;;;
  python_coverage <- io_unwrap (check_output [".venv/bin/python"; "-m"; "coverage"; "report"]);
  write_bytes (target +:+ "/python-coverage.txt") python_coverage ;;;
  hw <- hardware;
  write_bytes (target +:+ "/hardware.json") (dumps_indent EmptyString hw) ;;;
  λ fs, let paths := evidence_files fs in
        (inr ("Archived " +:+ pretty (Z.of_nat (length paths)) +:+ " files to docs/evidence"),
         <[target +:+ "/SHA256SUMS" := sums_of fs paths]> fs).

(** *** What the archive promises *)
Lemma pick_keys_names d keys r : pick_keys d keys = inr r → r.*1 = keys.
Proof.
  revert r. induction keys as [|k keys IH]; intros r; cbn [pick_keys]; [by intros [= <-]|].
  destruct (List.find _ d) as [[k' v]|]; [|done]. destruct (pick_keys d keys); [done|].
  intros [= <-]. cbn. f_equal. by apply IH.
Qed.

Lemma io_map_host keys fs h fs' : io_map host_value keys fs = (inr h, fs') → h.*1 = keys ∧ fs' = fs.
Proof.
  revert fs h fs'. induction keys as [|k keys IH]; intros fs h fs'; cbn [io_map]; [by intros [= <- <-]|].
  intros (kv & fs1 & Hv & H)%io_bind_inr. apply io_bind_inr in Hv as (v & fs2 & Hv & Hr).
  destruct (check_output _); [done|]. injection Hv as <- <-. injection Hr as <- <-.
  apply io_bind_inr in H as (hs & fs3 & [Hhs ->]%IH & H). injection H as <- <-. cbn. by rewrite Hhs.
Qed.

(** The report of the hardware holds the platform, the Python version, five capacity keys of
    docker and, on Darwin, three of the host. *)
Definition capacity_only (hw : json) : Prop :=
  ∃ docker host, docker.*1 = docker_keys ∧
    (host = [] ∨ ∃ h, host = [("host", JObj h)] ∧ h.*1 = host_keys) ∧
    hw = JObj ([("platform", JStr platform); ("python", JStr python_version); ("docker", JObj docker)] ++ host).

Lemma hardware_inr fs hw fs' : hardware fs = (inr hw, fs') → capacity_only hw ∧ fs' = fs.
Proof.
  unfold hardware. intros H. io_step H. destruct docker_capacity as [e|docker] eqn:Hd; [done|].
  injection Ha as <- <-. apply io_bind_inr in H as (host & fs1 & Hh & H). injection H as <- <-.
  assert (docker.*1 = docker_keys) as Hk.
  { unfold docker_capacity in Hd. destruct (check_output _) as [|text]; [done|].
    destruct (loads text) as [[]|]; try done. by eapply pick_keys_names. }
  destruct (String.eqb system "Darwin").
  - apply io_bind_inr in Hh as (h & fs2 & [Hh ->]%io_map_host & Hr). injection Hr as <- <-.
    split; [|done]. exists docker, [("host", JObj h)]. split_and!; [done| |done]. right. eauto.
  - injection Hh as <- <-. split; [|done]. exists docker, []. auto.
Qed.

Lemma NoDup_fst_filter {A B} (f : A * B → bool) l : NoDup l.*1 → NoDup (List.filter f l).*1.
Proof.
  induction l as [|x l IH]; cbn; [done|]. intros [Hx Hl]%NoDup_cons. destruct (f x); [|by apply IH].
  cbn. apply NoDup_cons. split; [|by apply IH]. intros (y & Hy & Hin)%list_elem_of_fmap. apply Hx.
  rewrite Hy. apply list_elem_of_fmap. exists y. split; [done|].
  apply list_elem_of_In, filter_In in Hin as [Hin _]. by apply list_elem_of_In.
Qed.

Lemma evidence_files_spec fs :
  NoDup (evidence_files fs) ∧
  ∀ p, p ∈ evidence_files fs ↔ is_Some (fs !! p) ∧ below_dir target p = true ∧ basename p ≠ "SHA256SUMS".
Proof.
  unfold evidence_files, listing. split.
  - rewrite sort_paths_perm. apply NoDup_ListNoDup, List.NoDup_filter, NoDup_ListNoDup.
    apply NoDup_fst_filter, NoDup_fst_map_to_list.
  - intros p. rewrite sort_paths_perm, list_elem_of_In, filter_In, <- list_elem_of_In, list_elem_of_fmap.
    rewrite negb_true_iff, String.eqb_neq. split.
    + intros [([q d] & -> & Hin) Hb]. apply list_elem_of_In, filter_In in Hin as [Hin Hd].
      apply list_elem_of_In, elem_of_map_to_list in Hin. by split_and!; [eexists|..].
    + intros ([d Hd] & Hb & Hn). split; [|done]. exists (p, d). split; [done|].
      apply list_elem_of_In, filter_In. split; [|done]. by apply list_elem_of_In, elem_of_map_to_list.
Qed.

(** The evidence archive is what its SHA256SUMS says.  When the script ends normally the file
    has one line for every archived file, each once, with its path below the archive and the
    digest of its content, and no file is missing from it but those named SHA256SUMS; the
    hardware report holds capacities only, whatever else [docker info] told. *)
Theorem evidence_sums_cover fs msg fs' :
  archive_evidence fs = (inr msg, fs') →
  ∃ paths, NoDup paths ∧
    (∀ p, p ∈ paths ↔ is_Some (fs' !! p) ∧ below_dir target p = true ∧ basename p ≠ "SHA256SUMS") ∧
    fs' !! "docs/evidence/SHA256SUMS" = Some (sums_of fs' paths) ∧
    ∃ hw, capacity_only hw ∧ fs' !! "docs/evidence/hardware.json" = Some (dumps_indent EmptyString hw).
Proof.
  unfold archive_evidence. intros H. io_step H.
  io_step H. destruct (check_output _); [done|]. injection Ha0 as <- <-. io_step H. injection Ha0 as <- <-.
  io_step H. destruct (check_output _); [done|]. injection Ha0 as <- <-. io_step H. injection Ha0 as <- <-.
  apply io_bind_inr in H as (hw & fs1 & [Hhw ->]%hardware_inr & H). io_step H. injection Ha0 as <- <-.
  match type of H with (_, <[_ := sums_of ?f _]> _) = _ => set (fs1 := f) in * end.
  injection H as _ <-. destruct (evidence_files_spec fs1) as [Hnd Hpaths].
  exists (evidence_files fs1).
  assert (∀ p, basename p ≠ "SHA256SUMS" →
    <[target +:+ "/SHA256SUMS" := sums_of fs1 (evidence_files fs1)]> fs1 !! p = fs1 !! p) as Hsame.
  { intros p Hp. apply lookup_insert_ne. intros <-. by apply Hp. }
  split_and!; [done| | |].
  - intros p. rewrite Hpaths. split; intros (H1 & H2 & H3); split_and!; try done; by rewrite Hsame in *.
  - rewrite lookup_insert_eq. f_equal.
    assert (∀ l, Forall (λ p, basename p ≠ "SHA256SUMS") l → ∀ f, (∀ p, basename p ≠ "SHA256SUMS" → f !! p = fs1 !! p) →
      sums_of fs1 l = sums_of f l) as Hsums.
    { induction 1 as [|p l Hp _ IH]; intros f Hf; [done|]. unfold sums_of. cbn [foldr].
      fold (sums_of fs1 l). fold (sums_of f l). rewrite Hf by done. by rewrite (IH f Hf). }
    apply Hsums; [|done]. apply Forall_forall. intros p Hp. by apply Hpaths.
  - exists hw. split; [done|]. rewrite Hsame by done. unfold fs1. by rewrite lookup_insert_eq.
Qed.
End Evidence.

(** ** Two concrete archives *)
Definition demo_tree : files :=
  {["LICENSE" := "MIT"; "README.md" := "RunGrid"; "results/scaling-v1/a.csv" := "1,2";
    "results/recovery.json" := "{}"; "results/backlog.json" := "{}";
    "results/heterosplit-v1/metrics.json" := "[]"; "results/heterosplit-v1/summary.md" := "none"]}.

Example demo_release :
  let r := release (λ env _, inr (default EmptyString (env !! "GOOS"))) (λ l, pretty (length l)) (λ s, s) ∅
             false EmptyString "abc1" None demo_tree in
  r.1 = inr "Built dev-abc1: 4 archives in dist" ∧
  is_Some (r.2 !! "dist/rungrid-dev-abc1-darwin-arm64.tar.gz").
Proof. split; [vm_compute; reflexivity|]. eexists. vm_compute. reflexivity. Qed.

Definition demo_output (argv : list string) : exn + string :=
  match argv with
  | "docker" :: _ =>
      inr (dumps (JObj [("ID", JStr "x"); ("NCPU", JNum 8); ("MemTotal", JNum 16); ("Architecture", JStr "arm64");
                        ("Labels", JArr [JStr "secret"]); ("ServerVersion", JStr "27"); ("OperatingSystem", JStr "os")]))
  | _ => inr "ok"
  end.

Lemma evidence_sums_cover_witness :
  ∃ fs', (archive_evidence demo_output "linux" "3.12" "Linux" demo_tree).2 = fs' ∧
    ∃ paths, NoDup paths ∧
      (∀ p, p ∈ paths ↔ is_Some (fs' !! p) ∧ below_dir target p = true ∧ basename p ≠ "SHA256SUMS") ∧
      fs' !! "docs/evidence/SHA256SUMS" = Some (sums_of fs' paths) ∧
      ∃ hw, capacity_only "linux" "3.12" hw ∧
        fs' !! "docs/evidence/hardware.json" = Some (dumps_indent EmptyString hw).
Proof.
  destruct (archive_evidence demo_output "linux" "3.12" "Linux" demo_tree) as [r fs'] eqn:He.
  exists fs'. split; [reflexivity|].
  assert (r = inr "Archived 8 files to docs/evidence") as ->.
  { apply (f_equal fst) in He. cbn [fst] in He. rewrite <- He. vm_compute. reflexivity. }
  apply (evidence_sums_cover demo_output "linux" "3.12" "Linux" demo_tree
           "Archived 8 files to docs/evidence" fs').
  exact He.
Defined.

(** ** generate.py *)
Section Replace.
Context (old new : string).

(** [s.replace(old, new)] for an [old] that is not empty; [skip] characters belong to the
    occurrence found before. *)
Fixpoint replace_from (skip : nat) (s : string) : string :=
  match s with
  | EmptyString => EmptyString
  | String c r =>
      match skip with
      | S skip => replace_from skip r
      | O => if has_prefix old s then new +:+ replace_from (String.length old - 1) r
             else String c (replace_from O r)
      end
  end.
Definition py_replace (s : string) : string := replace_from O s.

(** No occurrence begins in [a] when [t] follows it. *)
Fixpoint first_after (a t : string) : bool :=
  match a with
  | EmptyString => true
  | String c r => negb (has_prefix old (a +:+ t)) && first_after r t
  end.

Lemma replace_skip a t : replace_from (String.length a) (a +:+ t) = replace_from O t.
Proof. induction a as [|c a IH]; [done|]. rewrite string_cons_app. cbn [String.length replace_from]. apply IH. Qed.

Lemma replace_before a t : first_after a t = true → py_replace (a +:+ t) = a +:+ py_replace t.
Proof.
  unfold py_replace. induction a as [|c a IH]; [done|]. cbn [first_after]. intros [Hc Ha]%andb_true_iff.
  rewrite string_cons_app in *. cbn [replace_from]. rewrite negb_true_iff in Hc. rewrite Hc, IH by done. done.
Qed.

Lemma replace_one a b :
  nonempty old = true → first_after a (old +:+ b) = true → py_replace b = b →
  py_replace (a +:+ old +:+ b) = a +:+ new +:+ b.
Proof.
  intros Hn Ha Hb. rewrite replace_before by done. f_equal.
  destruct old as [|c o] eqn:Ho; [done|]. unfold py_replace in *. rewrite string_cons_app. cbn [replace_from].
  assert (has_prefix old (String c (o +:+ b)) = true) as Hp by (rewrite Ho; apply (has_prefix_app (String c o))).
  rewrite Ho in Hp |- *. rewrite Hp. f_equal. cbn [String.length]. rewrite Nat.sub_1_r. cbn [Nat.pred].
  rewrite <- Ho in *. by rewrite replace_skip.
Qed.
End Replace.

Section Generate.
(** A run of the protocol compiler, which writes files or fails. *)
Context (protoc : list string → files → exn + files) (executable : string).

Definition protoc_args : list string :=
  [executable; "-m"; "grpc_tools.protoc"; "-I"; "proto"; "--python_out=sdk/python/rungrid";
   "--grpc_python_out=sdk/python/rungrid"; "--go_out=."; "--go_opt=module=github.com/ZubairQazi/rungrid";
   "--go-grpc_out=."; "--go-grpc_opt=module=github.com/ZubairQazi/rungrid"; "proto/rungrid.proto"].
Definition bindings_path : string := "sdk/python/rungrid/rungrid_pb2_grpc.py".

Definition run_protoc : IO unit := λ fs,
  match protoc protoc_args fs with inl e => (inl e, fs) | inr fs' => (inr tt, fs') end.
Definition generate : IO unit :=
  run_protoc ;;;
  text <- read_bytes bindings_path;
  write_bytes bindings_path (py_replace "import rungrid_pb2 as" "from . import rungrid_pb2 as" text).

(** The import the compiler writes becomes a relative one, and nothing else is changed. *)
Lemma generated_import_is_relative fs fs1 a b :
  protoc protoc_args fs = inr fs1 → fs1 !! bindings_path = Some (a +:+ "import rungrid_pb2 as" +:+ b) →
  first_after "import rungrid_pb2 as" a ("import rungrid_pb2 as" +:+ b) = true →
  py_replace "import rungrid_pb2 as" "from . import rungrid_pb2 as" b = b →
  generate fs = (inr tt, <[bindings_path := a +:+ "from . import rungrid_pb2 as" +:+ b]> fs1).
Proof.
  intros Hp Ht Ha Hb. unfold generate, run_protoc, io_bind, read_bytes, write_bytes. rewrite Hp, Ht.
  by rewrite replace_one.
Qed.
End Generate.

Example demo_generate :
  generate (λ _ fs, inr (<[bindings_path := "import grpc" +:+ nl +:+ "import rungrid_pb2 as rungrid__pb2" +:+ nl]> fs))
    "python" ∅
  = (inr tt, {[bindings_path := "import grpc" +:+ nl +:+ "from . import rungrid_pb2 as rungrid__pb2" +:+ nl]}).
Proof. by vm_compute. Qed.
