(* ===== verification/Protocols.v ===== *)
(** * Protocols: the research protocols and their grid of jobs
      (examples/heterosplit/protocols.py, examples/heterosplit/submit.py)

    [plan_of] is the branch of [split_protocol] that turns the name of a regime into what the
    splitting library is asked for; the library itself (heterosplit) is a parameter.  [Movie]
    is the loader of the MovieLens table, with the calendar it needs; [Grid] is the list of jobs
    a study is submitted as. *)
From Stdlib Require Import QArith.
From S2P Require Import Prelude Effects PyStr Utf8 Json JsonParse JsonRound PyInt Calendar.
Local Open Scope string_scope.
Local Open Scope list_scope.

Definition mem (x : string) (l : list string) : bool := existsb (String.eqb x) l.

(** ** The studies *)
Definition ORIGINAL : list (string * list string) :=
  [("DrugComb", ["random"; "pair_cold_start"; "either_cold_start"; "both_cold_start"]);
   ("MovieLens", ["random"; "source_cold_start"; "destination_cold_start"; "both_cold_start"])].
Definition original (dataset : string) : list string := default [] (dict_get ORIGINAL dataset).
Definition REGIMES : list (string * list string) :=
  [("DrugComb", original "DrugComb" ++ ["cell_cold_start"; "pair_cell_cold_start";
                                        "either_cell_cold_start"; "both_cell_cold_start"]);
   ("MovieLens", original "MovieLens" ++ ["month_cold_start"; "source_month_cold_start";
                                          "destination_month_cold_start"; "both_month_cold_start"])].
Definition STUDIES : list (string * list (string * list string)) :=
  [("original-v1", ORIGINAL); ("expanded-v2", REGIMES)].

(** Every study is about the two datasets. *)
Lemma study_dataset study datasets dataset regimes :
  dict_get STUDIES study = Some datasets → dict_get datasets dataset = Some regimes →
  dataset = "DrugComb" ∨ dataset = "MovieLens".
Proof.
  intros Hs%dict_get_elem Hd%dict_get_elem. apply (list_elem_of_fmap_2 fst) in Hd. cbn [fst] in Hd.
  assert (datasets.*1 = ["DrugComb"; "MovieLens"]) as Hk.
  { unfold STUDIES in Hs. apply elem_of_cons in Hs as [[= -> ->]|Hs]; [done|].
    apply elem_of_cons in Hs as [[= -> ->]|Hs]; [done|]. by apply not_elem_of_nil in Hs. }
  rewrite Hk in Hd. set_solver.
Qed.

(** ** [split_protocol] *)
Record plan := Plan {
  native_regime : string;
  holdout : option (list (string * string));
  drug_pair : bool   (* the unordered pair is added as a grouping column *) }.

#[export] Instance plan_eq_dec : EqDecision plan.
Proof. solve_decision. Defined.

Definition plan_of (dataset regime : string) : plan :=
  if mem regime ["cell_cold_start"; "month_cold_start"] then Plan "context_cold_start" None false
  else if negb (mem regime (original dataset)) then
    if String.eqb dataset "DrugComb" then
      if String.eqb regime "pair_cell_cold_start"
      then Plan "joint_cold_start" (Some [("cell_line", "all"); ("drug_pair", "all")]) true
      else Plan "joint_cold_start"
             (Some [("cell_line", "all");
                    ("drug", if String.eqb regime "either_cell_cold_start" then "either" else "both")]) false
    else
      Plan "joint_cold_start"
        (Some ([("rating_month", "all")]
               ++ (if mem regime ["source_month_cold_start"; "both_month_cold_start"]
                   then [("user", "source")] else [])
               ++ (if mem regime ["destination_month_cold_start"; "both_month_cold_start"]
                   then [("movie", "destination")] else []))) false
  else Plan regime None false.

(** [sorted([a, b])] *)
Definition sorted2 (a b : string) : list string := if String.leb a b then [a; b] else [b; a].
(** [json.dumps(sorted([str(a), str(b)]))] *)
Definition pair_key (a b : string) : string := dumps (JArr (JStr <$> sorted2 a b)).

Section Split.
(** The splitting library: records with a schema and decoded columns, roles, splits. *)
Context {records role result : Type}.
Context (supervision_edge : records → string) (roles : records → list (string * role))
        (decoded : records → string → list string) (context : string → role)
        (from_columns : string → list (string * role) → list (string * list string) → records).

Record spec := Spec {
  sp_edge : string; sp_roles : list (string * role); sp_regime : string;
  sp_holdout : option (list (string * string)); sp_ratios : list Q; sp_seed : Z;
  sp_undirected : bool }.

Context (split_records : records → spec → result) (leaks : result → bool)
        (counts : result → list (string * Z)).

Fixpoint set_key {A} (d : list (string * A)) (k : string) (v : A) : list (string * A) :=
  match d with
  | [] => [(k, v)]
  | (k', v') :: d => if String.eqb k k' then (k, v) :: d else (k', v') :: set_key d k v
  end.

(** The records with the column [drug_pair]. *)
Definition with_drug_pair (r : records) : exn + records :=
  let columns := (λ '(name, _), (name, decoded r name)) <$> roles r in
  match dict_get columns "drug_row", dict_get columns "drug_col" with
  | Some row, Some col =>
      inr (from_columns (supervision_edge r) (set_key (roles r) "drug_pair" (context "drug_pair"))
             (set_key columns "drug_pair" (zip_with pair_key row col)))
  | None, _ => inl (KeyError "drug_row")
  | _, None => inl (KeyError "drug_col")
  end.

Definition spec_of (r : records) (dataset regime : string) (seed : Z) : spec :=
  let p := plan_of dataset regime in
  Spec (supervision_edge r) (roles r) (native_regime p) (holdout p)
    [(4 # 5)%Q; (1 # 10)%Q; (1 # 10)%Q] seed (String.eqb dataset "DrugComb").

Definition split_protocol (r : records) (dataset regime : string) (seed : Z) (study : string)
  : exn + result :=
  match dict_get STUDIES study with
  | None => inl (KeyError study)
  | Some datasets =>
      match dict_get datasets dataset with
      | None => inl (KeyError dataset)
      | Some regimes =>
          if negb (mem regime regimes) then inl (ValueError "not part of the study")
          else
            match (if drug_pair (plan_of dataset regime) then with_drug_pair r else inr r) with
            | inl e => inl e
            | inr r =>
                let res := split_records r (spec_of r dataset regime seed) in
                if leaks res then inl (RuntimeError "leakage")
                else if existsb (λ c, (c.2 =? 0)%Z) (counts res)
                then inl (ValueError "empty partition; use more data, never relax the contract")
                else inr res
            end
      end
  end.

(** A split that is returned keeps the study's contract: the regime belongs to the study
    and dataset, the library was asked for exactly the plan of that regime (with undirected
    pairs for DrugComb and the added pair column where the plan has one), its audit found no
    leakage and no partition is empty. *)
Theorem split_protocol_keeps_contract r dataset regime seed study res :
  split_protocol r dataset regime seed study = inr res →
  (∃ datasets regimes, dict_get STUDIES study = Some datasets ∧
     dict_get datasets dataset = Some regimes ∧ In regime regimes) ∧
  (∃ r', (r' = r ∨ with_drug_pair r = inr r' ∧ drug_pair (plan_of dataset regime) = true) ∧
     res = split_records r' (spec_of r' dataset regime seed)) ∧
  leaks res = false ∧ Forall (λ c, c.2 ≠ 0%Z) (counts res).
Proof.
  unfold split_protocol. destruct (dict_get STUDIES study) as [ds|] eqn:Hs; [|done].
  destruct (dict_get ds dataset) as [rs|] eqn:Hd; [|done].
  destruct (mem regime rs) eqn:Hm; [|done]. cbn [negb].
  apply existsb_exists in Hm as (x & Hx & ->%String.eqb_eq).
  destruct (if drug_pair _ then _ else _) as [e|r'] eqn:Hr; [done|].
  destruct (leaks _) eqn:Hl; [done|]. destruct (existsb _ _) eqn:He; [done|]. intros [= <-].
  split_and!; [by eauto| |done|].
  - exists r'. split; [|done]. destruct (drug_pair (plan_of dataset x)); simplify_eq; auto.
  - apply Forall_forall. intros c Hc Hz. apply not_true_iff_false in He. apply He.
    apply existsb_exists. exists c. split; [by apply list_elem_of_In|]. by rewrite Hz.
Qed.
End Split.

(** ** The names of the regimes say what is held out *)
Definition holds (p : plan) (k v : string) : bool :=
  match holdout p with Some h => existsb (λ kv, String.eqb kv.1 k && String.eqb kv.2 v) h | None => false end.
(** The context (cell line or rating month) is held out. *)
Definition holds_context (p : plan) : bool :=
  String.eqb (native_regime p) "context_cold_start" || holds p "cell_line" "all" || holds p "rating_month" "all".

Definition name_agrees (dataset regime : string) : bool :=
  let p := plan_of dataset regime in
  let joint := String.eqb (native_regime p) "joint_cold_start" in
  Bool.eqb (holds_context p) (contains "cell" regime || contains "month" regime)
  && Bool.eqb (mem regime (original dataset)) (String.eqb (native_regime p) regime && negb (holds_context p))
  && Bool.eqb (holds p "user" "source") (joint && (contains "source" regime || contains "both_month" regime))
  && Bool.eqb (holds p "movie" "destination") (joint && (contains "destination" regime || contains "both_month" regime))
  && Bool.eqb (holds p "drug" "either") (joint && contains "either_cell" regime)
  && Bool.eqb (holds p "drug" "both") (joint && contains "both_cell" regime)
  && Bool.eqb (drug_pair p) (joint && contains "pair_cell" regime)
  && Bool.eqb (drug_pair p) (holds p "drug_pair" "all").

(** The sixteen regimes of the expanded study ask for sixteen different splits, four per
    dataset are the ones of the original study unchanged, and each of the others holds out what
    its name says: the cell line or month always, and the pair, either or both drugs, the user,
    or the movie where named. *)
Theorem regimes_mean_what_they_say :
  Forall (λ '(dataset, regimes),
    NoDup (plan_of dataset <$> regimes) ∧ Forall (λ r, name_agrees dataset r = true) regimes ∧
    take 4 regimes = original dataset ∧ length regimes = 8%nat) REGIMES.
Proof. repeat constructor; vm_compute; try set_solver; by repeat constructor. Qed.

(** ** The unordered pair *)
Lemma sorted2_comm a b : sorted2 a b = sorted2 b a.
Proof.
  unfold sorted2. destruct (String.leb a b) eqn:Hab, (String.leb b a) eqn:Hba; try done.
  - by rewrite (String.leb_antisym a b).
  - destruct (String.leb_total a b); congruence.
Qed.

(** The grouping key of a drug pair is the unordered pair: it does not depend on the order
    of the two drugs, and two pairs (of Unicode names) get the same key only if they have the same
    two drugs. *)
Theorem pair_key_is_unordered_pair a b c d :
  forallb str_ok [a; b; c; d] = true →
  pair_key a b = pair_key b a ∧
  (pair_key a b = pair_key c d ↔ (a = c ∧ b = d) ∨ (a = d ∧ b = c)).
Proof.
  cbn [forallb]. rewrite !andb_true_iff. intros (Ha & Hb & Hc & Hd & _).
  assert (∀ x y, pair_key x y = pair_key y x) as Hcomm
    by (intros x y; unfold pair_key; by rewrite sorted2_comm).
  assert (∀ x y, str_ok x = true → str_ok y = true →
    loads (pair_key x y) = Some (JArr (JStr <$> sorted2 x y))) as Hload.
  { intros x y Hx Hy. apply loads_dumps_eq. unfold sorted2. destruct (String.leb x y); cbn; by rewrite Hx, Hy. }
  split; [done|]. split.
  - intros Heq. apply (f_equal loads) in Heq. rewrite !Hload in Heq by done.
    unfold sorted2 in Heq. destruct (String.leb a b), (String.leb c d); simplify_eq/=; auto.
  - intros [[-> ->]|[-> ->]]; auto.
Qed.

Lemma pair_key_is_unordered_pair_witness :
  pair_key "5-FU" "ABT" = pair_key "ABT" "5-FU" ∧ pair_key "5-FU" "ABT" ≠ pair_key "5-FU" "AZD".
Proof.
  destruct (pair_key_is_unordered_pair "5-FU" "ABT" "5-FU" "AZD") as [H1 H2]; [vm_compute; reflexivity|].
  split; [exact H1|]. intros [[_ H]|[H _]]%H2; discriminate H.
Defined.

(** A library with one partition of eight, one and one records. *)
Lemma split_protocol_keeps_contract_witness :
  let counts := [("train", 8%Z); ("validation", 1%Z); ("test", 1%Z)] in
  let split := split_protocol (records:=unit) (role:=string) (result:=list (string * Z))
    (λ _, "rates") (λ _, []) (λ _ _, []) (λ s, s) (λ _ _ _, tt) (λ _ _, counts) (λ _, false) (λ c, c) in
  split tt "MovieLens" "source_month_cold_start" 0%Z "expanded-v2" = inr counts ∧
  Forall (λ c, c.2 ≠ 0%Z) counts.
Proof.
  intros counts split. assert (split tt "MovieLens" "source_month_cold_start" 0%Z "expanded-v2" = inr counts)
    as Heq by (vm_compute; reflexivity).
  split; [exact Heq|].
  apply (split_protocol_keeps_contract (records:=unit) (role:=string) (result:=list (string * Z))
    (λ _, "rates") (λ _, []) (λ _ _, []) (λ s, s) (λ _ _ _, tt) (λ _ _, counts) (λ _, false) (λ c, c)
    tt "MovieLens" "source_month_cold_start" 0%Z "expanded-v2" counts Heq).
Defined.

(** ** [load_records]: the expanded MovieLens table *)
Module Movie.
Local Open Scope Z_scope.

(** [datetime.fromtimestamp(t, timezone.utc).strftime("%Y-%m")]; years 1 to 9999. *)
Definition month_of (t : Z) : option string :=
  let '(y, m) := civil (t / 86400) in
  if (1 <=? y) && (y <=? 9999) then Some (pretty y +:+ "-" +:+ two_digits m) else None.

(** *** The loader: a row of [csv.DictReader] is a dictionary *)
Record table := Table {
  user : list string; movie : list string; rating_month : list string; timestamps : list Z }.

Fixpoint load_rows (rows : list (gmap string string)) : exn + table :=
  match rows with
  | [] => inr (Table [] [] [] [])
  | row :: rows =>
      match row !! "timestamp" with
      | None => inl (TypeError "int() argument must be a string")
      | Some ts =>
          match py_int ts with
          | None => inl (ValueError "invalid literal for int()")
          | Some t =>
              match month_of t with
              | None => inl (ValueError "year is out of range")
              | Some month =>
                  match row !! "userId", row !! "movieId" with
                  | Some u, Some m =>
                      if nonempty u && nonempty m then
                        match load_rows rows with
                        | inl e => inl e
                        | inr tb => inr (Table (u :: user tb) (m :: movie tb)
                                           (month :: rating_month tb) (t :: timestamps tb))
                        end
                      else inl (ValueError "missing MovieLens endpoint")
                  | _, _ => inl (ValueError "missing MovieLens endpoint")
                  end
              end
          end
      end
  end.

Definition load_movielens (fieldnames : list string) (rows : list (gmap string string)) (max_rows : Z)
  : exn + table :=
  if forallb (λ c, mem c fieldnames) ["userId"; "movieId"; "rating"; "timestamp"]
  then load_rows (take (Z.to_nat max_rows) rows)
  else inl (ValueError "expanded MovieLens requires userId,movieId,rating,timestamp").

(** [load_records]; the two loaders of the splitting library are parameters. *)
Definition load_records {records} (drugcomb movielens : Z → exn + records)
    (from_table : table → records) (dataset study : string) (fieldnames : list string)
    (rows : list (gmap string string)) (max_rows : Z) : exn + records :=
  match dict_get STUDIES study with
  | None => inl (ValueError "unknown study or dataset")
  | Some datasets =>
      match dict_get datasets dataset with
      | None => inl (ValueError "unknown study or dataset")
      | Some _ =>
          if max_rows <=? 0 then inl (ValueError "max_rows must be positive")
          else if String.eqb dataset "DrugComb" then drugcomb max_rows
          else if String.eqb study "original-v1" then movielens max_rows
          else match load_movielens fieldnames rows max_rows with
               | inl e => inl e
               | inr tb => inr (from_table tb)
               end
      end
  end.

(** The month a rating is grouped by is the month of the Gregorian calendar, in UTC, in
    which it was made: its timestamp lies between the first second of that month and the first
    second of the next one. *)
Theorem rating_month_contains_timestamp t y m :
  civil (t / 86400) = (y, m) →
  1 ≤ m ≤ 12 ∧ 86400 * month_start y m ≤ t ∧
  t < 86400 * (let '(y', m') := next_month y m in month_start y' m').
Proof.
  intros Hc%civil_brackets. destruct (next_month y m) as [y' m'].
  pose proof (Z.div_mod t 86400 ltac:(lia)). pose proof (Z.mod_pos_bound t 86400 ltac:(lia)). lia.
Qed.

Lemma rating_month_contains_timestamp_witness :
  month_of 964982703 = Some "2000-07" ∧ 86400 * month_start 2000 7 ≤ 964982703.
Proof.
  split; [vm_compute; reflexivity|].
  apply (rating_month_contains_timestamp 964982703 2000 7). vm_compute. reflexivity.
Defined.
End Movie.

(** ** The grid of jobs of a study (submit.py) *)
Module Grid.
Definition models : list string := ["MF"; "SAGE"].

Definition data_path (dataset : string) : string :=
  if String.eqb dataset "DrugComb" then "/data/summary_v_1_5.csv" else "/data/ml/ml-latest-small/ratings.csv".

Definition job_name (dataset regime model : string) (seed : Z) : string :=
  dataset +:+ "-" +:+ regime +:+ "-" +:+ model +:+ "-" +:+ pretty seed.

Section Definitions.
Context (run_id : string) (seeds epochs max_rows : Z) (study : string).

Definition idempotency_key (name : string) : string :=
  "heterosplit-" +:+ study +:+ "-" +:+ run_id +:+ "-" +:+ name.

Definition job (dataset regime model : string) (seed : Z) : list (string * json) :=
  let name := job_name dataset regime model seed in
  [("name", JStr name);
   ("command", JArr (JStr <$>
      ["python"; "examples/heterosplit/task.py"; "--dataset"; dataset; "--data"; data_path dataset;
       "--regime"; regime; "--model"; model; "--seed"; pretty seed; "--epochs"; pretty epochs;
       "--max-rows"; pretty max_rows; "--study"; study]));
   ("environment", JObj [("OMP_NUM_THREADS", JStr "1"); ("MKL_NUM_THREADS", JStr "1")]);
   ("resources", JObj [("cpu", JNum 1); ("memory_mb", JNum 2048); ("gpu", JNum 0)]);
   ("max_attempts", JNum 3);
   ("timeout_seconds", JNum 1800);
   ("idempotency_key", JStr (idempotency_key name));
   ("artifact_prefix", JStr ("heterosplit/" +:+ study +:+ "/" +:+ run_id +:+ "/" +:+ name))].

(** The loops, with what is yielded for a cell of the grid. *)
Definition cells {A} (f : string → string → string → Z → A)
    (datasets : list (string * list string)) : list A :=
  datasets ≫= λ '(dataset, regimes),
  regimes ≫= λ regime, models ≫= λ model, f dataset regime model <$> seqZ 0 seeds.

Definition definitions : exn + list (list (string * json)) :=
  if (Z.min seeds (Z.min epochs max_rows) <=? 0)%Z
  then inl (ValueError "seeds, epochs, and max_rows must be positive")
  else match dict_get STUDIES study with
       | None => inl (KeyError study)
       | Some datasets => inr (cells job datasets)
       end.
End Definitions.

(** *** Names do not collide *)
Lemma app_prefix p q (a b : string) :
  p +:+ a = q +:+ b → has_prefix p q = true ∨ has_prefix q p = true.
Proof.
  revert q. induction p as [|c p IH]; intros [|d q] Heq; [by left..|by right|].
  rewrite !string_cons_app in Heq. injection Heq as -> Heq. simpl. rewrite Ascii.eqb_refl. simpl. auto.
Qed.

(** What precedes the seed in a name. *)
Definition stem (dataset regime model : string) : string :=
  dataset +:+ "-" +:+ regime +:+ "-" +:+ model +:+ "-".
Definition stems (datasets : list (string * list string)) : list string :=
  datasets ≫= λ '(dataset, regimes), regimes ≫= λ regime, stem dataset regime <$> models.

(** No stem of a study continues another. *)
Definition prefix_free (l : list string) : bool :=
  forallb (λ p, forallb (λ q, String.eqb p q || negb (has_prefix p q)) l) l && bool_decide (NoDup l).

Lemma stems_prefix_free study datasets :
  dict_get STUDIES study = Some datasets → prefix_free (stems datasets) = true.
Proof.
  unfold STUDIES. cbn [dict_get]. repeat case_match; intros; simplify_eq; vm_compute; reflexivity.
Qed.

Lemma bind_assoc {A B C} (f : A → list B) (g : B → list C) l : (l ≫= f) ≫= g = l ≫= λ x, f x ≫= g.
Proof. induction l as [|x l IH]; csimpl; [done|]. by rewrite bind_app, IH. Qed.

Lemma names_by_stem seeds datasets :
  cells seeds job_name datasets = stems datasets ≫= λ p, (λ seed, p +:+ pretty seed) <$> seqZ 0 seeds.
Proof.
  unfold cells, stems. rewrite bind_assoc. apply list_bind_ext; [|done]. intros [dataset regimes].
  rewrite bind_assoc. apply list_bind_ext; [|done]. intros regime. cbn [models fmap list_fmap mbind list_bind app].
  unfold job_name, stem. rewrite !app_nil_r.
  f_equal; apply list_fmap_ext; intros ? seed _; by rewrite !string_app_assoc.
Qed.

Lemma names_distinct study datasets seeds :
  dict_get STUDIES study = Some datasets → NoDup (cells seeds job_name datasets).
Proof.
  intros Hst%stems_prefix_free. rewrite names_by_stem. unfold prefix_free in Hst.
  apply andb_true_iff in Hst as [Hpf Hnd%bool_decide_eq_true]. rewrite forallb_forall in Hpf.
  apply NoDup_bind; [| |done].
  - intros p q y Hp Hq (s & -> & _)%list_elem_of_fmap (s' & Heq & _)%list_elem_of_fmap.
    assert (∀ p q, p ∈ stems datasets → q ∈ stems datasets → has_prefix p q = true → p = q) as Huniq.
    { intros p' q' Hp' Hq' Hpre. apply list_elem_of_In in Hp', Hq'. specialize (Hpf p' Hp').
      rewrite forallb_forall in Hpf. specialize (Hpf q' Hq'). rewrite Hpre, orb_false_r in Hpf.
      by apply String.eqb_eq. }
    destruct (app_prefix p q _ _ Heq); [|symmetry]; auto.
  - intros p _. apply NoDup_fmap_2; [|apply NoDup_seqZ].
    intros s s' Heq. apply app_inj_l in Heq. by apply (inj pretty).
Qed.

Lemma fmap_of_bind {A B C} (g : B → C) (f : A → list B) l : g <$> (l ≫= f) = l ≫= λ x, g <$> f x.
Proof. induction l as [|x l IH]; csimpl; [done|]. by rewrite fmap_app, IH. Qed.

Lemma cells_fmap {A B} (g : A → B) (f : string → string → string → Z → A) seeds datasets :
  g <$> cells seeds f datasets = cells seeds (λ d r m s, g (f d r m s)) datasets.
Proof.
  unfold cells. rewrite fmap_of_bind. apply list_bind_ext; [|done]. intros [d rs].
  rewrite fmap_of_bind. apply list_bind_ext; [|done]. intros r.
  rewrite fmap_of_bind. apply list_bind_ext; [|done]. intros m. by rewrite <- list_fmap_compose.
Qed.

(** A study is submitted as one job per dataset, regime, model and seed, with a different
    idempotency key each, so that no two cells of the grid are taken for one job: 2 x 8 x 2
    cells per seed for the expanded study (160 with the default five seeds), half as many for
    the original one. *)
Theorem grid_has_one_job_per_cell run_id seeds epochs max_rows study datasets :
  dict_get STUDIES study = Some datasets → (0 < seeds)%Z → (0 < epochs)%Z → (0 < max_rows)%Z →
  ∃ jobs, definitions run_id seeds epochs max_rows study = inr jobs ∧
    NoDup ((λ j, dict_get j "idempotency_key") <$> jobs : list (option json)) ∧
    Z.of_nat (length jobs) = ((if String.eqb study "expanded-v2" then 32 else 16) * seeds)%Z.
Proof.
  intros Hst Hs He Hm. exists (cells seeds (job run_id epochs max_rows study) datasets). split_and!.
  - unfold definitions. rewrite (proj2 (Z.leb_gt _ _)) by lia. by rewrite Hst.
  - rewrite cells_fmap. apply names_distinct with (seeds := seeds) in Hst.
    pose proof (cells_fmap (λ n, Some (JStr (idempotency_key run_id study n))) job_name seeds datasets)
      as Heq.
    cbn [job dict_get String.eqb]. unfold job. cbn.
    rewrite <- Heq. apply NoDup_fmap_2; [|done]. intros n n' [= Hn].
    unfold idempotency_key in Hn. by repeat apply app_inj_l in Hn.
  - assert (∀ f, length (cells (A:=list (string * json)) seeds f datasets)
                = (length (stems datasets) * Z.to_nat seeds)%nat) as Hlen.
    { intros f. unfold cells, stems, STUDIES in *. cbn [dict_get] in Hst.
      repeat case_match; simplify_eq; cbn; rewrite !length_app, !length_fmap, !length_seqZ; simpl; lia. }
    rewrite Hlen. unfold STUDIES in Hst. cbn [dict_get] in Hst.
    destruct (String.eqb_spec study "original-v1") as [->|]; simplify_eq; [vm_compute (length _); simpl; lia|].
    destruct (String.eqb_spec study "expanded-v2") as [->|]; simplify_eq. vm_compute (length _). simpl. lia.
Qed.

Lemma grid_has_one_job_per_cell_witness :
  ∃ jobs, definitions "r1" 5 3 120000 "expanded-v2" = inr jobs ∧ Z.of_nat (length jobs) = 160%Z.
Proof.
  destruct (grid_has_one_job_per_cell "r1" 5 3 120000 "expanded-v2" REGIMES) as (jobs & H1 & _ & H3);
    [reflexivity|lia|lia|lia|].
  exists jobs. split; [exact H1|exact H3].
Defined.
End Grid.
