(* ===== verification/Research.v ===== *)
(** * Research: metrics and negative sampling of the study (examples/heterosplit/research.py)

    Scores are compared only, so they are integers here, and the metrics are exact rationals where
    the code computes with floats.  [argsort] and [randint] of the tensor library are parameters:
    a permutation that sorts, and indices within the bound. *)
From Stdlib Require Import QArith.
From stdpp Require Import sorting.
From S2P Require Import Prelude.
Local Open Scope Z_scope.

(** ** Ranking metrics *)
Section Metrics.
Context (argsort : list Z → list nat).

Definition pick (l : list Z) (i : nat) : Z := nth i l 0.
(** [scores[labels == b]] *)
Definition select (b : Z) (scores labels : list Z) : list Z :=
  fst <$> List.filter (λ p, p.2 =? b) (zip scores labels).

Definition ranks (l : list Z) : list Z :=
  (λ r, Z.of_nat r + 1) <$> argsort (Z.of_nat <$> argsort l).

Definition sum (l : list Z) : Z := foldr Z.add 0 l.

(** [None] is nan. *)
Definition _roc_auc (scores labels : list Z) : option Q :=
  let pos := select 1 scores labels in
  let neg := select 0 scores labels in
  if (length pos =? 0)%nat || (length neg =? 0)%nat then None
  else
    let n_pos := inject_Z (Z.of_nat (length pos)) in
    Some ((inject_Z (sum (take (length pos) (ranks (pos ++ neg)))) - n_pos * (n_pos + 1) / 2)
          / (n_pos * inject_Z (Z.of_nat (length neg))))%Q.

Fixpoint cumsum (acc : Z) (l : list Z) : list Z :=
  match l with [] => [] | x :: l => (acc + x) :: cumsum (acc + x) l end.
Definition qsum (l : list Q) : Q := foldr Qplus 0%Q l.
(** [torch.arange(1, n + 1)] *)
Definition positions (n : nat) : list Z := seqZ 1 (Z.of_nat n).

(** [scores.argsort(descending=True)] is another parameter. *)
Definition _average_precision (argsort_desc : list Z → list nat) (scores labels : list Z) : option Q :=
  let lab := pick labels <$> argsort_desc scores in
  if sum lab =? 0 then None
  else
    let cum_tp := cumsum 0 lab in
    let precision := zip_with (λ tp k, inject_Z tp / inject_Z k)%Q cum_tp (positions (length lab)) in
    Some (qsum (zip_with (λ p b, p * inject_Z b)%Q precision lab) / inject_Z (sum lab))%Q.

(** *** The reference: pairs won *)
Definition below (l : list Z) (x : Z) : nat := length (List.filter (λ y, y <? x) l).
Definition wins (pos neg : list Z) : Z := sum ((λ p, Z.of_nat (below neg p)) <$> pos).

(** [argsort] returns the indices in an order that sorts. *)
Hypothesis argsort_sorts : ∀ l,
  argsort l ≡ₚ seq 0 (length l) ∧ Sorted Z.le (pick l <$> argsort l).

Lemma pick_seq l : pick l <$> seq 0 (length l) = l.
Proof.
  apply list_eq. intros i. rewrite list_lookup_fmap. destruct (decide (i < length l)%nat) as [Hi|Hi].
  - rewrite lookup_seq_lt by done. simpl. unfold pick. rewrite nth_lookup.
    by destruct (l !! i) eqn:E; [|apply lookup_ge_None in E; lia].
  - rewrite lookup_seq_ge, lookup_ge_None_2 by lia. done.
Qed.

Lemma sorted_perm l : pick l <$> argsort l ≡ₚ l.
Proof using argsort_sorts.
  destruct (argsort_sorts l) as [Hp _]. rewrite Hp. by rewrite pick_seq.
Qed.

Lemma argsort_length l : length (argsort l) = length l.
Proof using argsort_sorts. destruct (argsort_sorts l) as [Hp _]. by rewrite Hp, length_seq. Qed.

Lemma sorted_le_unique l l' : Sorted Z.le l → Sorted Z.le l' → l ≡ₚ l' → l = l'.
Proof. intros H1 H2. apply (Sorted_unique Z.le); done. Qed.

Lemma seqZ_sorted m n : Sorted Z.le (seqZ m n).
Proof.
  apply StronglySorted_Sorted. unfold seqZ. generalize (Z.to_nat n) as k. intros k.
  generalize 0%nat as b. induction k as [|k IH]; intros b; cbn; [constructor|].
  constructor; [apply IH|]. apply Forall_forall. intros x (i & -> & Hi)%list_elem_of_fmap.
  apply elem_of_seq in Hi. lia.
Qed.

(** The second [argsort] inverts the first. *)
Lemma argsort_inverse l i :
  (i < length l)%nat →
  ∃ q, argsort (Z.of_nat <$> argsort l) !! i = Some q ∧ argsort l !! q = Some i.
Proof using argsort_sorts.
  intros Hi. set (p := Z.of_nat <$> argsort l).
  assert (pick p <$> argsort p = seqZ 0 (Z.of_nat (length l))) as Heq.
  { apply sorted_le_unique; [apply argsort_sorts|apply seqZ_sorted|].
    rewrite sorted_perm. unfold p. rewrite (proj1 (argsort_sorts l)).
    unfold seqZ. rewrite Nat2Z.id. apply reflexive_eq, list_fmap_ext. intros. lia. }
  assert (length p = length l) as Hp by (unfold p; by rewrite length_fmap, argsort_length).
  destruct (lookup_lt_is_Some_2 (argsort p) i) as [q Hq]; [rewrite argsort_length; lia|].
  exists q. split; [done|].
  apply (f_equal (lookup i)) in Heq. rewrite list_lookup_fmap, Hq in Heq. simpl in Heq.
  rewrite lookup_seqZ_lt in Heq by lia. injection Heq as Heq. unfold pick in Heq.
  rewrite nth_lookup in Heq. unfold p in Heq. rewrite list_lookup_fmap in Heq.
  destruct (argsort l !! q) as [j|] eqn:E; simpl in Heq; [f_equal; lia|].
  exfalso. apply lookup_ge_None in E. rewrite argsort_length in E.
  destruct (argsort_sorts p) as [Hperm _].
  assert (q ∈ argsort p) as Hin by by eapply list_elem_of_lookup_2.
  rewrite Hperm in Hin. apply elem_of_seq in Hin. lia.
Qed.

Lemma below_perm l l' x : l ≡ₚ l' → below l x = below l' x.
Proof.
  intros Hp. unfold below. induction Hp; simpl; repeat case_match; simpl; congruence.
Qed.

Lemma below_none l x : Forall (λ y, x ≤ y) l → below l x = 0%nat.
Proof.
  unfold below. induction 1 as [|y l Hy Hl IH]; [done|]. simpl.
  by rewrite (proj2 (Z.ltb_ge y x)).
Qed.

(** In a strictly sorted list, the elements below the one at [k] are the [k] before it. *)
Lemma below_sorted s k x : StronglySorted Z.lt s → s !! k = Some x → below s x = k.
Proof.
  intros Hs. revert k. induction Hs as [|y s Hs IH Hall]; intros k; [done|].
  destruct k as [|k]; simpl; intros Hk.
  - injection Hk as ->. apply below_none. constructor; [lia|].
    eapply Forall_impl; [exact Hall|]. lia.
  - unfold below. simpl. rewrite Forall_forall in Hall.
    rewrite (proj2 (Z.ltb_lt y x)) by (apply Hall; by eapply list_elem_of_lookup_2).
    simpl. f_equal. by apply IH.
Qed.

Lemma strict_of_nodup s : Sorted Z.le s → NoDup s → StronglySorted Z.lt s.
Proof.
  intros Hs%Sorted_StronglySorted; [|by apply _]. intros Hnd.
  induction Hs as [|y s Hs IH Hall]; constructor; apply NoDup_cons in Hnd as [Hy Hnd]; [by apply IH|].
  rewrite Forall_forall in *. intros z Hz. specialize (Hall z Hz).
  assert (z ≠ y) by (intros ->; done). lia.
Qed.

(** The rank of an element is one more than the number of elements below it. *)
Lemma rank_below l i x :
  NoDup l → l !! i = Some x → ranks l !! i = Some (Z.of_nat (below l x) + 1).
Proof using argsort_sorts.
  intros Hnd Hi. assert (i < length l)%nat as Hlt by by eapply lookup_lt_Some.
  destruct (argsort_inverse l i Hlt) as (q & Hq & Hpq).
  unfold ranks. rewrite list_lookup_fmap, Hq. simpl. do 2 f_equal.
  rewrite <- (below_perm _ _ _ (sorted_perm l)). symmetry. f_equal. apply below_sorted.
  - apply strict_of_nodup; [apply argsort_sorts|]. by rewrite sorted_perm.
  - rewrite list_lookup_fmap, Hpq. simpl. unfold pick. rewrite nth_lookup. by rewrite Hi.
Qed.

Lemma ranks_below l : NoDup l → ranks l = (λ x, Z.of_nat (below l x) + 1) <$> l.
Proof using argsort_sorts.
  intros Hnd. apply list_eq. intros i. rewrite list_lookup_fmap.
  destruct (l !! i) as [x|] eqn:Hi; [by apply rank_below|]. simpl.
  apply lookup_ge_None in Hi. apply lookup_ge_None. unfold ranks.
  by rewrite length_fmap, argsort_length, length_fmap, argsort_length.
Qed.

Lemma sum_perm l l' : l ≡ₚ l' → sum l = sum l'.
Proof. induction 1; simpl in *; lia. Qed.

Lemma sum_seq n : 2 * sum ((λ r, Z.of_nat r + 1) <$> seq 0 n) = Z.of_nat n * (Z.of_nat n + 1).
Proof.
  induction n as [|n IH]; [done|]. rewrite seq_S, fmap_app.
  assert (∀ l x, sum (l ++ [x]) = sum l + x) as Happ by (intros l x; induction l; simpl; lia).
  cbn [fmap list_fmap]. rewrite Happ. lia.
Qed.

Lemma sum_ranks l : 2 * sum (ranks l) = Z.of_nat (length l) * (Z.of_nat (length l) + 1).
Proof using argsort_sorts.
  unfold ranks. rewrite (sum_perm _ ((λ r, Z.of_nat r + 1) <$> seq 0 (length l))); [apply sum_seq|].
  rewrite (proj1 (argsort_sorts (Z.of_nat <$> argsort l))). by rewrite length_fmap, argsort_length.
Qed.

Lemma sum_below_app pos neg l :
  sum ((λ x, Z.of_nat (below (pos ++ neg) x) + 1) <$> l)
  = sum ((λ x, Z.of_nat (below pos x) + 1) <$> l) + sum ((λ x, Z.of_nat (below neg x)) <$> l).
Proof.
  induction l as [|x l IH]; [done|]. cbn [fmap list_fmap sum foldr]. unfold sum in IH. rewrite IH.
  unfold below. rewrite List.filter_app, length_app. lia.
Qed.

(** The rank sum of the positives counts the pairs they win. *)
Lemma rank_sum_counts_wins pos neg :
  NoDup (pos ++ neg) →
  2 * sum (take (length pos) (ranks (pos ++ neg)))
  = Z.of_nat (length pos) * (Z.of_nat (length pos) + 1) + 2 * wins pos neg.
Proof using argsort_sorts.
  intros Hnd. rewrite ranks_below, fmap_app, take_app_length' by (done || by rewrite length_fmap).
  rewrite sum_below_app. apply NoDup_app in Hnd as (Hpos & _ & _).
  pose proof (sum_ranks pos) as Hs. rewrite ranks_below in Hs by done. unfold wins. lia.
Qed.

(** The area under the ROC curve, computed from the ranks, is the share of the pairs of a
    positive and a negative in which the positive scores higher, when no two scores are equal;
    it is undefined exactly when one of the two classes is missing. *)
Theorem roc_auc_is_share_of_wins scores labels :
  let pos := select 1 scores labels in
  let neg := select 0 scores labels in
  NoDup (pos ++ neg) →
  match _roc_auc scores labels with
  | None => pos = [] ∨ neg = []
  | Some auc =>
      (auc == inject_Z (wins pos neg) / inject_Z (Z.of_nat (length pos) * Z.of_nat (length neg)))%Q
  end.
Proof using argsort_sorts.
  intros pos neg Hnd. unfold _roc_auc. fold pos neg.
  destruct (Nat.eqb_spec (length pos) 0) as [Hp|Hp]; [left; by apply nil_length_inv|].
  destruct (Nat.eqb_spec (length neg) 0) as [Hn|Hn]; [right; by apply nil_length_inv|]. cbn [orb].
  pose proof (rank_sum_counts_wins pos neg Hnd) as Hr.
  set (s := sum _) in *. set (a := Z.of_nat (length pos)) in *. set (b := Z.of_nat (length neg)) in *.
  assert (0 < a) by lia. assert (0 < b) by lia.
  assert (inject_Z s == inject_Z a * (inject_Z a + 1) / 2 + inject_Z (wins pos neg))%Q as ->.
  { unfold Qeq, Qdiv, Qinv, Qmult, Qplus. cbn. nia. }
  rewrite inject_Z_mult. field. split; unfold Qeq; cbn; lia.
Qed.

(** The scores of [a] positives followed by those of [b] negatives. *)
Lemma select_app b (l l' k k' : list Z) :
  length l = length k → select b (l ++ l') (k ++ k') = select b l k ++ select b l' k'.
Proof.
  intros Hlen. unfold select. rewrite zip_with_app by done. by rewrite List.filter_app, fmap_app.
Qed.

Lemma select_replicate b c (l : list Z) :
  select b l (replicate (length l) c) = if c =? b then l else [].
Proof.
  unfold select. induction l as [|x l IH]; cbn; [by destruct (c =? b)|].
  destruct (c =? b); cbn; [by f_equal|done].
Qed.

Lemma select_labels (a b : list Z) :
  let labels := replicate (length a) 1 ++ replicate (length b) 0 in
  select 1 (a ++ b) labels = a ∧ select 0 (a ++ b) labels = b.
Proof.
  cbv zeta. rewrite !select_app by by rewrite length_replicate. rewrite !select_replicate.
  cbn. by rewrite app_nil_r.
Qed.
End Metrics.

(** *** Average precision *)
Section AveragePrecision.
Local Open Scope Q_scope.

Definition bit (b : Z) : Prop := b = 0%Z ∨ b = 1%Z.

(** The precisions at the positives, after [k] entries of which [tp] were positive. *)
Definition precisions (tp k : Z) (lab : list Z) : list Q :=
  zip_with (λ p b, p * inject_Z b)
    (zip_with (λ tp k, inject_Z tp / inject_Z k) (cumsum tp lab) (seqZ (k + 1) (Z.of_nat (length lab)))) lab.

Lemma precisions_cons tp k b lab :
  precisions tp k (b :: lab)
  = (inject_Z (tp + b) / inject_Z (k + 1) * inject_Z b) :: precisions (tp + b) (k + 1) lab.
Proof.
  unfold precisions. cbn [length cumsum]. rewrite seqZ_cons by lia. cbn [zip_with].
  by replace (Z.pred (Z.of_nat (S (length lab)))) with (Z.of_nat (length lab)) by lia.
Qed.

Lemma ratio_bounds a b : (0 < a <= b)%Z → 0 < inject_Z a / inject_Z b /\ inject_Z a / inject_Z b <= 1.
Proof.
  intros [Ha Hb]. assert (0 < inject_Z b) as Hb' by (change 0 with (inject_Z 0); rewrite <- Zlt_Qlt; lia).
  split.
  - apply Qlt_shift_div_l; [done|]. rewrite Qmult_0_l. change 0 with (inject_Z 0). rewrite <- Zlt_Qlt. lia.
  - apply Qle_shift_div_r; [done|]. rewrite Qmult_1_l. rewrite <- Zle_Qle. lia.
Qed.

Lemma ratio_one a : (0 < a)%Z → inject_Z a / inject_Z a == 1.
Proof.
  intros Ha. unfold Qdiv. apply Qmult_inv_r. unfold Qeq. simpl. lia.
Qed.

Lemma precisions_bounds lab tp k :
  Forall bit lab → (0 <= tp <= k)%Z →
  0 <= qsum (precisions tp k lab) /\ qsum (precisions tp k lab) <= inject_Z (sum lab) /\
  ((0 < sum lab)%Z → 0 < qsum (precisions tp k lab)) /\ (0 <= sum lab)%Z.
Proof.
  intros Hlab. revert tp k. induction Hlab as [|b lab Hb Hlab IH]; intros tp k Htp.
  { cbn. split_and!; [apply Qle_refl|apply Qle_refl|lia|lia]. }
  rewrite precisions_cons. cbn [qsum foldr sum]. fold (qsum (precisions (tp + b) (k + 1) lab)).
  change (foldr Z.add 0%Z lab) with (sum lab).
  destruct (IH (tp + b)%Z (k + 1)%Z) as (H1 & H2 & H3 & H4); [destruct Hb as [->| ->]; lia|].
  rewrite (inject_Z_plus b (sum lab)). destruct Hb as [->| ->].
  - change (inject_Z 0) with 0. rewrite Qmult_0_r, !Qplus_0_l. by split_and!.
  - change (inject_Z 1) with 1. rewrite Qmult_1_r.
    destruct (ratio_bounds (tp + 1) (k + 1)) as [Hr1 Hr2]; [lia|].
    split_and!.
    + apply (Qle_trans _ (0 + 0)); [apply Qle_refl|]. apply Qplus_le_compat; [by apply Qlt_le_weak|done].
    + by apply Qplus_le_compat.
    + intros _. apply (Qlt_le_trans _ (inject_Z (tp + 1) / inject_Z (k + 1) + 0)).
      * by rewrite Qplus_0_r.
      * apply Qplus_le_compat; [apply Qle_refl|done].
    + lia.
Qed.

Lemma precisions_perfect n rest k :
  (0 <= k)%Z → Forall (λ b, b = 0%Z) rest →
  qsum (precisions k k (replicate n 1%Z ++ rest)) == inject_Z (Z.of_nat n).
Proof.
  intros Hk Hrest. revert k Hk. induction n as [|n IH]; intros k Hk; cbn [replicate app].
  - assert (∀ tp k, qsum (precisions tp k rest) == 0) as ->; [|done].
    induction Hrest as [|b rest -> Hrest IH]; intros tp k'; [done|].
    rewrite precisions_cons. cbn [qsum foldr]. fold (qsum (precisions (tp + 0) (k' + 1) rest)).
    rewrite IH. change (inject_Z 0) with 0. ring.
  - rewrite precisions_cons. cbn [qsum foldr]. fold (qsum (precisions (k + 1) (k + 1) (replicate n 1%Z ++ rest))).
    rewrite IH by lia. change (inject_Z 1) with 1. rewrite Qmult_1_r.
    rewrite (ratio_one (k + 1)) by lia. rewrite Nat2Z.inj_succ. unfold Z.succ.
    rewrite inject_Z_plus. change (inject_Z 1) with 1. ring.
Qed.

(** Average precision lies in (0, 1], and is 1 for a ranking that puts the positives first;
    it is undefined exactly when there is no positive.  [lab] are the labels in the order of
    the descending scores. *)
Theorem average_precision_bounds argsort_desc scores labels :
  let lab := pick labels <$> argsort_desc scores in
  Forall bit lab →
  match _average_precision argsort_desc scores labels with
  | None => sum lab = 0%Z
  | Some ap => 0 < ap /\ ap <= 1 /\
      (∀ n rest, lab = replicate n 1%Z ++ rest → Forall (λ b, b = 0%Z) rest → ap == 1)
  end.
Proof.
  intros lab Hlab. unfold _average_precision. fold lab.
  destruct (Z.eqb_spec (sum lab) 0) as [|Hne]; [done|].
  destruct (precisions_bounds lab 0 0 Hlab) as (H1 & H2 & H3 & H4); [lia|].
  assert (0 < sum lab)%Z as Hpos by lia. specialize (H3 Hpos).
  assert (0 < inject_Z (sum lab)) as HQ by (change 0 with (inject_Z 0); by rewrite <- Zlt_Qlt).
  change (zip_with _ (zip_with _ _ (positions (length lab))) lab) with (precisions 0 0 lab).
  split_and!.
  - apply Qlt_shift_div_l; [done|]. by rewrite Qmult_0_l.
  - apply Qle_shift_div_r; [done|]. by rewrite Qmult_1_l.
  - intros n rest Heq Hrest.
    assert (sum lab = Z.of_nat n) as Hs.
    { rewrite Heq. clear -Hrest. unfold sum. rewrite foldr_app.
      assert (foldr Z.add 0%Z rest = 0%Z) as -> by (induction Hrest; simpl; lia).
      induction n as [|n IH]; cbn [replicate foldr]; lia. }
    rewrite Heq at 1. rewrite precisions_perfect by (done || lia). rewrite Hs.
    apply ratio_one. lia.
Qed.
End AveragePrecision.

(** ** The node space and the negatives *)
Abbreviation edge := (Z * Z)%type.

(** What [_prepare] reads of a split. *)
Record split := Split {
  sp_self_rel : bool;              (* schema.is_self_relation *)
  sp_n_src : Z;
  sp_n_dst : Z;                    (* entities of the destination type *)
  sp_message_passing : list edge;
  sp_train : list edge;
  sp_test : list edge;
  sp_records : list edge           (* source and destination codes of all records *) }.

Record prepared := Prepared {
  num_nodes : Z; n_src : Z; offset : Z; self_rel : bool;
  mp : list edge; train_pos : list edge; test_pos : list edge; positives : list edge }.

(** The pair under which a positive is remembered. *)
Definition pair_of (self_rel : bool) (e : edge) : edge :=
  if self_rel then (Z.min e.1 e.2, Z.max e.1 e.2) else e.

Definition _positive_set (all_pos : list edge) (self_rel : bool) : list edge := pair_of self_rel <$> all_pos.

Definition _prepare (s : split) : prepared :=
  let n_dst := if sp_self_rel s then sp_n_src s else sp_n_dst s in
  let offset := if sp_self_rel s then 0 else sp_n_src s in
  let combine := fmap (λ e : edge, (e.1, e.2 + offset)) in
  let mp_dir := combine (sp_message_passing s) in
  {| num_nodes := if sp_self_rel s then sp_n_src s else sp_n_src s + n_dst;
     n_src := sp_n_src s; offset := offset; self_rel := sp_self_rel s;
     mp := mp_dir ++ ((λ e : edge, (e.2, e.1)) <$> mp_dir);
     train_pos := combine (sp_train s); test_pos := combine (sp_test s);
     positives := _positive_set (combine (sp_records s)) (sp_self_rel s) |}.

Section Sampling.
(** [torch.randint(n, (m,), generator=g)]: the [i]-th call of the generator. *)
Context (randint : nat → nat → nat → list nat).
Context (src_pool dst_pool : list Z) (k : nat) (positives : list edge) (self_rel : bool).

(** A drawn pair that is kept. *)
Definition keep (e : edge) : bool :=
  negb (self_rel && (e.1 =? e.2)) && negb (bool_decide (pair_of self_rel e ∈ positives)).

(** The pairs drawn in round [r]. *)
Definition draws (r : nat) : list edge :=
  zip (pick src_pool <$> randint (2 * r) (length src_pool) (4 * k))
      (pick dst_pool <$> randint (2 * r + 1) (length dst_pool) (4 * k)).

(** The inner loop, which stops at [k] pairs. *)
Fixpoint collect (out pairs : list edge) : list edge :=
  match pairs with
  | [] => out
  | e :: pairs =>
      if keep e then
        let out := out ++ [e] in if (k <=? length out)%nat then out else collect out pairs
      else collect out pairs
  end.

(** The outer loop over the rounds. *)
Fixpoint sample_rounds (out : list edge) (rounds : list nat) : list edge :=
  match rounds with
  | [] => out
  | r :: rounds =>
      let out := collect out (draws r) in
      if (k <=? length out)%nat then out else sample_rounds out rounds
  end.

Definition _sample_pairs : list edge :=
  if (k =? 0)%nat || (length src_pool =? 0)%nat || (length dst_pool =? 0)%nat then []
  else take k (sample_rounds [] (seq 0 40)).

Lemma collect_spec out pairs :
  (length out < k)%nat → collect out pairs = take k (out ++ List.filter keep pairs).
Proof.
  revert out. induction pairs as [|e pairs IH]; intros out Hout; cbn [collect List.filter].
  { by rewrite app_nil_r, take_ge by lia. }
  destruct (keep e); [|by apply IH]. cbv zeta. rewrite (snoc_app out e (List.filter keep pairs)).
  destruct (Nat.leb_spec k (length (out ++ [e]))) as [Hk|Hk]; [|by apply IH].
  rewrite length_app in Hk. simpl in Hk. rewrite take_app_le by (rewrite length_app; simpl; lia).
  by rewrite take_ge by (rewrite length_app; simpl; lia).
Qed.

Lemma sample_rounds_spec out rounds :
  (length out < k)%nat →
  sample_rounds out rounds = take k (out ++ List.filter keep (mjoin (draws <$> rounds))).
Proof.
  revert out. induction rounds as [|r rounds IH]; intros out Hout; cbn [sample_rounds fmap list_fmap mjoin list_join].
  { cbn. by rewrite app_nil_r, take_ge by lia. }
  cbv zeta. rewrite collect_spec by done. rewrite List.filter_app, app_assoc.
  destruct (Nat.leb_spec k (length (take k (out ++ List.filter keep (draws r))))) as [Hk|Hk].
  - rewrite length_take in Hk. by rewrite (take_app_le (out ++ _)) by lia.
  - rewrite length_take in Hk. rewrite take_ge by lia. apply IH. lia.
Qed.

Lemma sample_pairs_eq :
  (0 < length src_pool)%nat → (0 < length dst_pool)%nat →
  _sample_pairs = take k (List.filter keep (mjoin (draws <$> seq 0 40))).
Proof.
  intros Hs Hd. unfold _sample_pairs.
  destruct (Nat.eqb_spec k 0) as [->|Hk]; [done|].
  rewrite (proj2 (Nat.eqb_neq (length src_pool) 0)), (proj2 (Nat.eqb_neq (length dst_pool) 0)) by lia.
  cbn [orb]. rewrite sample_rounds_spec by (simpl; lia). by rewrite take_take, Nat.min_id.
Qed.

(** The generator's indices are within the bound. *)
Hypothesis randint_bounds : ∀ i n m, (0 < n)%nat → Forall (λ j, j < n)%nat (randint i n m).

Lemma draws_in_pools r e :
  (0 < length src_pool)%nat → (0 < length dst_pool)%nat →
  e ∈ draws r → e.1 ∈ src_pool ∧ e.2 ∈ dst_pool.
Proof using randint_bounds.
  unfold draws. intros Hs Hd Hin. destruct e as [x y].
  assert (x ∈ pick src_pool <$> randint (2 * r) (length src_pool) (4 * k)) as Hx
    by by eapply elem_of_zip_l.
  assert (y ∈ pick dst_pool <$> randint (2 * r + 1) (length dst_pool) (4 * k)) as Hy
    by by eapply elem_of_zip_r.
  assert (∀ pool i z, (0 < length pool)%nat →
    z ∈ pick pool <$> randint i (length pool) (4 * k) → z ∈ pool) as Hpool.
  { intros pool i z Hne (j & -> & Hj)%list_elem_of_fmap.
    pose proof (randint_bounds i (length pool) (4 * k)%nat Hne) as Hb. rewrite Forall_forall in Hb.
    specialize (Hb j Hj). unfold pick. rewrite nth_lookup.
    destruct (lookup_lt_is_Some_2 pool j Hb) as [w Hw]. rewrite Hw. by eapply list_elem_of_lookup_2. }
  simpl. eauto.
Qed.

(** Negative sampling keeps what it promises: the result is the first [k] of the pairs
    drawn in forty rounds that are no self-pairs and no known positives; each comes from the
    source pool and the destination pool, so it is type-correct, and none is a record, in either
    direction for a self relation. *)
Theorem sampled_pairs_are_negatives :
  (0 < length src_pool)%nat → (0 < length dst_pool)%nat →
  _sample_pairs = take k (List.filter keep (mjoin (draws <$> seq 0 40))) ∧
  (length _sample_pairs ≤ k)%nat ∧
  Forall (λ e, e.1 ∈ src_pool ∧ e.2 ∈ dst_pool ∧ pair_of self_rel e ∉ positives ∧
               (self_rel = true → e.1 ≠ e.2)) _sample_pairs.
Proof using randint_bounds.
  intros Hs Hd. rewrite (sample_pairs_eq Hs Hd). split_and!; [done|rewrite length_take; lia|].
  apply Forall_take, Forall_forall. intros e He.
  apply list_elem_of_In, filter_In in He as [He Hkeep].
  apply list_elem_of_In, list_elem_of_join in He as (l & He & (r & -> & _)%list_elem_of_fmap).
  apply draws_in_pools in He as [H1 H2]; [|done..]. unfold keep in Hkeep.
  apply andb_true_iff in Hkeep as [Hself Hpos]. apply negb_true_iff, bool_decide_eq_false in Hpos.
  split_and!; [done..|]. intros -> Heq. rewrite Heq, Z.eqb_refl in Hself. done.
Qed.
End Sampling.

(** The codes of a split are within its entities. *)
Definition coded (s : split) (e : edge) : Prop :=
  0 ≤ e.1 < sp_n_src s ∧ 0 ≤ e.2 < (if sp_self_rel s then sp_n_src s else sp_n_dst s).

(** A node pair of the combined space, of the right types. *)
Definition type_correct (p : prepared) (e : edge) : Prop :=
  0 ≤ e.1 < n_src p ∧ offset p ≤ e.2 < num_nodes p ∧ (self_rel p = false → n_src p ≤ e.2).

Lemma combined_typed s l :
  Forall (coded s) l →
  Forall (type_correct (_prepare s)) ((λ e : edge, (e.1, e.2 + offset (_prepare s))) <$> l).
Proof.
  intros Hl. apply Forall_fmap. eapply Forall_impl; [exact Hl|].
  intros e [H1 H2]. unfold type_correct, compose, _prepare. cbn [fst snd n_src offset num_nodes self_rel].
  destruct (sp_self_rel s); split_and!; intros; simplify_eq; lia.
Qed.

(** Every record is a known positive, in either direction for a self relation. *)
Lemma records_positive s e :
  e ∈ sp_records s →
  pair_of (self_rel (_prepare s)) (e.1, e.2 + offset (_prepare s)) ∈ positives (_prepare s) ∧
  (self_rel (_prepare s) = true → pair_of true (e.2, e.1) ∈ positives (_prepare s)).
Proof.
  intros He. unfold _prepare, _positive_set. cbn [self_rel offset positives]. split.
  - apply list_elem_of_fmap. exists (e.1, e.2 + (if sp_self_rel s then 0 else sp_n_src s)).
    split; [done|]. apply list_elem_of_fmap. eauto.
  - intros ->. apply list_elem_of_fmap. exists (e.1, e.2 + 0). cbn. split; [f_equal; lia|].
    apply list_elem_of_fmap. eauto.
Qed.

(** The combined node space keeps the types apart: training, test and message-passing edges
    of a split with valid codes are node pairs of the right types within [num_nodes], message
    passing is symmetric, and every record, in either direction for a self relation, is a known
    positive that sampling avoids. *)
Theorem prepared_node_space s :
  Forall (coded s) (sp_train s ++ sp_test s ++ sp_message_passing s ++ sp_records s) →
  let p := _prepare s in
  Forall (type_correct p) (train_pos p ++ test_pos p ++ take (length (sp_message_passing s)) (mp p)) ∧
  (∀ x y, (x, y) ∈ mp p → (y, x) ∈ mp p) ∧
  Forall (λ e, pair_of (self_rel p) (e.1, e.2 + offset p) ∈ positives p ∧
               (self_rel p = true → pair_of true (e.2, e.1) ∈ positives p)) (sp_records s).
Proof.
  rewrite !Forall_app. intros (Htrain & Htest & Hmp & Hrec) p. rewrite !Forall_app.
  split_and!; [by apply combined_typed..| | |].
  - unfold p, _prepare. cbn [mp]. rewrite take_app_length' by by rewrite length_fmap. by apply combined_typed.
  - unfold p, _prepare. cbn [mp]. intros x y. rewrite !elem_of_app, !list_elem_of_fmap.
    intros [(e & ? & ?)|(e & ? & ?)]; [right|left].
    + exists (x, y). split; [done|]. apply list_elem_of_fmap. eauto.
    + apply list_elem_of_fmap in H0 as (e' & -> & ?). simplify_eq/=. eauto.
  - apply Forall_forall. apply records_positive.
Qed.

(** ** Witnesses *)
(** A sorting order by merge sort. *)
Definition key_le (p q : Z * nat) : Prop := p.1 ≤ q.1.
#[export] Instance key_le_dec : RelDecision key_le.
Proof. intros p q. unfold key_le. apply _. Defined.
Definition argsort_ref (l : list Z) : list nat :=
  snd <$> merge_sort key_le (zip l (seq 0 (length l))).

Lemma argsort_ref_sorts l : argsort_ref l ≡ₚ seq 0 (length l) ∧ Sorted Z.le (pick l <$> argsort_ref l).
Proof.
  set (z := zip l (seq 0 (length l))).
  assert (snd <$> z = seq 0 (length l)) as Hz by (apply snd_zip; by rewrite length_seq).
  split.
  - unfold argsort_ref. fold z. by rewrite merge_sort_Permutation, Hz.
  - unfold argsort_ref. fold z.
    assert (pick l <$> (snd <$> merge_sort key_le z) = fst <$> merge_sort key_le z) as ->.
    { rewrite <- list_fmap_compose. apply list_fmap_ext. intros i [x j] Hi.
      assert ((x, j) ∈ z) as Hin by (rewrite <- merge_sort_Permutation; by eapply list_elem_of_lookup_2).
      apply list_elem_of_lookup in Hin as [k Hk]. apply lookup_zip_Some in Hk as [Hx Hj]. cbn.
      apply lookup_seq in Hj as [-> _]. unfold pick. rewrite nth_lookup. cbn [Nat.add]. by rewrite Hx. }
    assert (Sorted key_le (merge_sort key_le z)) as Hs.
    { apply Sorted_merge_sort. intros x y. unfold key_le. lia. }
    induction Hs as [|x l' Hs IH Hhd]; cbn; [constructor|]. constructor; [done|].
    destruct Hhd; cbn; constructor. done.
Qed.

Lemma roc_auc_is_share_of_wins_witness :
  Qeq (default 0%Q (_roc_auc argsort_ref [5; 1; 3; 2] [1; 0; 1; 0])) (inject_Z 4 / inject_Z 4)%Q.
Proof.
  assert (NoDup ([5; 3] ++ [1; 2])) as Hnd by (apply (bool_decide_unpack _); vm_compute; exact I).
  pose proof (roc_auc_is_share_of_wins argsort_ref argsort_ref_sorts [5; 1; 3; 2] [1; 0; 1; 0] Hnd) as H.
  vm_compute in H |- *. exact H.
Defined.

Lemma average_precision_bounds_witness :
  ∃ ap, _average_precision (λ _, [0%nat; 2%nat; 1%nat]) [9; 1; 5] [1; 0; 1] = Some ap ∧ (ap == 1)%Q.
Proof.
  assert (Forall bit [1; 1; 0]) as Hb by (repeat constructor; (left; reflexivity) || (right; reflexivity)).
  pose proof (average_precision_bounds (λ _, [0%nat; 2%nat; 1%nat]) [9; 1; 5] [1; 0; 1] Hb) as H.
  destruct (_average_precision (λ _, [0%nat; 2%nat; 1%nat]) [9; 1; 5] [1; 0; 1]) as [ap|] eqn:E;
    [|discriminate E].
  exists ap. split; [reflexivity|]. destruct H as (_ & _ & H). apply (H 2%nat [0]); [reflexivity|].
  repeat constructor.
Defined.

Lemma sampled_pairs_are_negatives_witness :
  Forall (λ e, e.1 ∈ [0; 1; 2] ∧ e.2 ∈ [0; 1; 2] ∧ pair_of true e ∉ [(0, 1)] ∧ (true = true → e.1 ≠ e.2))
    (_sample_pairs (λ i n m, (λ j, ((i + j) mod n)%nat) <$> seq 0 m) [0; 1; 2] [0; 1; 2] 2 [(0, 1)] true).
Proof.
  apply (sampled_pairs_are_negatives (λ i n m, (λ j, ((i + j) mod n)%nat) <$> seq 0 m)
           [0; 1; 2] [0; 1; 2] 2 [(0, 1)] true); [|simpl; lia|simpl; lia].
  intros i n m Hn. apply Forall_fmap, Forall_forall. intros j _. apply Nat.mod_upper_bound. lia.
Defined.

Lemma prepared_node_space_witness :
  let s := Split false 2 3 [(0, 1)] [(0, 1); (1, 2)] [(1, 0)] [(0, 1); (1, 2); (1, 0)] in
  Forall (type_correct (_prepare s)) [(0, 3); (1, 4); (1, 2); (0, 3)].
Proof.
  intros s. apply (prepared_node_space s). cbn. unfold coded. repeat constructor; cbn; lia.
Defined.
