(* ===== verification/Study.v ===== *)
(** * Study: training and evaluating one link predictor (examples/heterosplit/research.py)

    [Encoder], [_decode] and [run_once].  The tensor library is an interface, [Torch]: its random
    generators, layers, gradients and optimizer are operations of abstract types.  A float is
    represented by an integer that is ordered as the floats are (the metrics only compare
    scores); float arithmetic is the interface's. *)
From Stdlib Require Import QArith.
From stdpp Require Import sorting.
From S2P Require Import Prelude Effects PyStr Protocols Research.
Local Open Scope string_scope.
Local Open Scope list_scope.
Local Open Scope Z_scope.

Fixpoint traverse {A B} (f : A → exn + B) (l : list A) : exn + list B :=
  match l with
  | [] => inr []
  | x :: l =>
      match f x with
      | inl e => inl e
      | inr y => match traverse f l with inl e => inl e | inr ys => inr (y :: ys) end
      end
  end.

Lemma traverse_total {A B} (f : A → exn + B) l :
  Forall (λ x, ∃ y, f x = inr y) l → ∃ ys, traverse f l = inr ys ∧ length ys = length l.
Proof.
  induction 1 as [|x l [y Hy] _ (ys & Hys & Hlen)]; simpl; [by exists []|].
  rewrite Hy, Hys. exists (y :: ys). simpl. auto.
Qed.

Lemma traverse_length {A B} (f : A → exn + B) l ys : traverse f l = inr ys → length ys = length l.
Proof.
  revert ys. induction l as [|x l IH]; intros ys; simpl; [by intros [= <-]|].
  destruct (f x); [done|]. destruct (traverse f l); [done|]. intros [= <-]. simpl. f_equal. by apply IH.
Qed.

(** ** The regimes of the study: regime, holdout, undirected pairs *)
Definition DRUGCOMB_REGIMES : list (string * option (list (string * string)) * bool) :=
  [("random", None, true); ("pair_cold_start", None, true);
   ("either_cold_start", None, true); ("both_cold_start", None, true)].
Definition MOVIELENS_REGIMES : list (string * option (list (string * string)) * bool) :=
  [("random", None, false); ("source_cold_start", None, false);
   ("destination_cold_start", None, false); ("both_cold_start", None, false)].

(** ** The model *)
(** The attributes of an [Encoder]; [conv1] and [conv2] exist when it uses the graph. *)
Record encoder (conv : Type) := Encoder_ {
  embedding : list (list Z);
  convs : option (conv * conv) }.
Arguments Encoder_ {conv}.
Arguments embedding {conv}.
Arguments convs {conv}.

Class Torch := {
  rng : Type;                (* the global generator *)
  gen : Type;                (* a torch.Generator *)
  conv : Type;               (* the parameters of a SAGEConv *)
  optim : Type;              (* the state of Adam *)
  grads : Type;              (* the .grad of the parameters *)
  manual_seed : Z → rng;
  generator_seed : Z → gen;
  Embedding : Z → Z → rng → list (list Z) * rng;
  SAGEConv : Z → Z → rng → conv * rng;
  sage : conv → list (list Z) → list edge → list (list Z);
  relu : list (list Z) → list (list Z);
  fmul : Z → Z → Z;
  fsum : list Z → Z;
  binary_cross_entropy_with_logits : list Z → list Z → Z;
  Adam : encoder conv → Q → optim;
  no_grads : grads;
  gradient : (encoder conv → exn + Z) → encoder conv → grads;
  accumulate : grads → grads → grads;
  adam_step : optim → grads → encoder conv → encoder conv * optim;
  randint : gen → nat → nat → list nat * gen;
  unique : list Z → list Z;
  argsort : list Z → list nat;
  argsort_desc : list Z → list nat }.

(** What the library promises about shapes, indices and order. *)
Class TorchLaws (T : Torch) : Prop := {
  Embedding_rows n d r : length (Embedding n d r).1 = Z.to_nat n;
  sage_rows c x e : length (sage c x e) = length x;
  relu_rows x : length (relu x) = length x;
  adam_step_shape o g e :
    length (embedding (adam_step o g e).1) = length (embedding e) ∧
    (is_Some (convs (adam_step o g e).1) ↔ is_Some (convs e));
  (** a gradient depends on the loss of models with the same parameters only *)
  gradient_local f f' e :
    (∀ e', (is_Some (convs e') ↔ is_Some (convs e)) → f e' = f' e') → gradient f e = gradient f' e;
  randint_bound g n m : (0 < n)%nat → Forall (λ j, j < n)%nat (randint g n m).1;
  unique_elements l x : x ∈ unique l ↔ x ∈ l;
  argsort_sorts l : argsort l ≡ₚ seq 0 (length l) ∧ Sorted Z.le (pick l <$> argsort l) }.

Section Study.
Context `{T : Torch}.

(** [Encoder.__init__] *)
Definition Encoder (num_nodes dim : Z) (use_graph : bool) (r : rng) : encoder conv * rng :=
  let '(weight, r) := Embedding num_nodes dim r in
  if use_graph then
    let '(conv1, r) := SAGEConv dim dim r in
    let '(conv2, r) := SAGEConv dim dim r in
    (Encoder_ weight (Some (conv1, conv2)), r)
  else (Encoder_ weight None, r).

(** [Encoder.forward] *)
Definition forward (self : encoder conv) (edge_index : list edge) : list (list Z) :=
  let x := embedding self in
  match convs self with
  | Some (conv1, conv2) =>
      let x := relu (sage conv1 x edge_index) in
      sage conv2 x edge_index
  | None => x
  end.

(** [z[i]] *)
Definition row (z : list (list Z)) (i : Z) : exn + list Z :=
  let n := Z.of_nat (length z) in
  if (0 <=? i) && (i <? n) then inr (nth (Z.to_nat i) z [])
  else if (- n <=? i) && (i <? 0) then inr (nth (Z.to_nat (n + i)) z [])
  else inl (IndexError "index out of range").

Definition dot (a b : list Z) : Z := fsum (zip_with fmul a b).

Definition _decode (z : list (list Z)) (edge_index : list edge) : exn + list Z :=
  traverse (λ e : edge,
    match row z e.1, row z e.2 with
    | inr a, inr b => inr (dot a b)
    | inl x, _ | _, inl x => inl x
    end) edge_index.

(** [torch.cat([_decode(z, pos), _decode(z, neg)])] *)
Definition score (z : list (list Z)) (pos neg : list edge) : exn + list Z :=
  match _decode z pos with
  | inl e => inl e
  | inr a => match _decode z neg with inl e => inl e | inr b => inr (a ++ b) end
  end.

(** [torch.cat([torch.ones(p), torch.zeros(n)])] *)
Definition labels_of (pos neg : list edge) : list Z :=
  replicate (length pos) 1 ++ replicate (length neg) 0.

(** ** Sampling with the state of the generator *)
(** The generator before its [i]-th draw: sources and destinations in turn, [m] at a time. *)
Fixpoint gen_at (g : gen) (ns nd m i : nat) : gen :=
  match i with
  | O => g
  | S i => (randint (gen_at g ns nd m i) (if Nat.even i then ns else nd) m).2
  end.

Section Draw.
Context (g : gen) (src_pool dst_pool : list Z) (k : nat) (pos : list edge) (self : bool).

Definition stream (i n m : nat) : list nat :=
  (randint (gen_at g (length src_pool) (length dst_pool) (4 * k) i) n m).1.

(** The rounds that are drawn. *)
Fixpoint rounds_drawn (out : list edge) (rounds : list nat) : nat :=
  match rounds with
  | [] => O
  | r :: rounds =>
      let out := collect k pos self out (draws stream src_pool dst_pool k r) in
      if (k <=? length out)%nat then 1%nat else S (rounds_drawn out rounds)
  end.

Definition sample : list edge * gen :=
  (_sample_pairs stream src_pool dst_pool k pos self,
   if (k =? 0)%nat || (length src_pool =? 0)%nat || (length dst_pool =? 0)%nat then g
   else gen_at g (length src_pool) (length dst_pool) (4 * k) (2 * rounds_drawn [] (seq 0 40))).
End Draw.

(** ** One epoch *)
Record loop := Loop { l_model : encoder conv; l_optimizer : optim; l_grads : grads; l_gen : gen }.

Definition src_all (p : prepared) : list Z := seqZ 0 (n_src p).
Definition dst_all (p : prepared) : list Z :=
  if self_rel p then seqZ 0 (n_src p) else seqZ (offset p) (num_nodes p - offset p).

(** [encoder.train()] and [encoder.eval()] set a flag that [forward] does not read. *)
Definition train_epoch (p : prepared) (s : loop) : exn + loop :=
  let zeroed := no_grads in
  let '(neg, g) := sample (l_gen s) (src_all p) (dst_all p) (length (train_pos p)) (positives p) (self_rel p) in
  let labels := labels_of (train_pos p) neg in
  let loss e := match score (forward e (mp p)) (train_pos p) neg with
                | inl x => inl x
                | inr scores => inr (binary_cross_entropy_with_logits scores labels)
                end in
  match loss (l_model s) with
  | inl x => inl x
  | inr _ =>
      let grads := accumulate zeroed (gradient loss (l_model s)) in
      let '(model, optimizer) := adam_step (l_optimizer s) grads (l_model s) in
      inr (Loop model optimizer grads g)
  end.

Fixpoint train_epochs (n : nat) (p : prepared) (s : loop) : exn + loop :=
  match n with
  | O => inr s
  | S n => match train_epoch p s with inl e => inl e | inr s => train_epochs n p s end
  end.

(** ** The evaluation: negatives from the nodes of the test positives *)
Definition test_pools (p : prepared) : list Z * list Z :=
  if self_rel p then
    let pool := unique ((fst <$> test_pos p) ++ (snd <$> test_pos p)) in (pool, pool)
  else (unique (fst <$> test_pos p), unique (snd <$> test_pos p)).

(** [auc] and [ap]; [None] is nan. *)
Definition evaluate (p : prepared) (model : encoder conv) (g : gen) : exn + (option Q * option Q) :=
  let '(test_src_pool, test_dst_pool) := test_pools p in
  let z := forward model (mp p) in
  let neg := (sample g test_src_pool test_dst_pool (length (test_pos p)) (positives p) (self_rel p)).1 in
  match score z (test_pos p) neg with
  | inl e => inl e
  | inr scores =>
      let labels := labels_of (test_pos p) neg in
      inr (_roc_auc argsort scores labels, _average_precision argsort_desc scores labels)
  end.

(** The start of a training: [manual_seed], [Encoder], [Adam], [Generator]. *)
Definition start (p : prepared) (model : string) (dim seed : Z) (lr : Q) : loop * rng :=
  let r := manual_seed seed in
  let '(e, r) := Encoder (num_nodes p) dim (String.eqb model "SAGE") r in
  (Loop e (Adam e lr) no_grads (generator_seed seed), r).

Definition train_and_evaluate (p : prepared) (model : string) (dim epochs seed : Z) (lr : Q)
    : exn + (option Q * option Q) :=
  match train_epochs (Z.to_nat epochs) p (start p model dim seed lr).1 with
  | inl e => inl e
  | inr s => evaluate p (l_model s) (l_gen s)
  end.

(** ** [run_once]; the splitting library is a parameter, as in [Protocols.split_protocol] *)
Section RunOnce.
Context {records role result : Type}.
Context (supervision_edge : records → string) (roles : records → list (string * role))
        (split_records : records → Protocols.spec (role := role) → result)
        (as_split : result → split).

Definition run_once (r : records) (regime : string) (holdout : option (list (string * string)))
    (undirected : bool) (model : string) (dim epochs seed : Z) (lr : Q)
    : exn + (option Q * option Q) :=
  let spec := Protocols.Spec (supervision_edge r) (roles r) regime holdout
                [(4 # 5)%Q; (1 # 10)%Q; (1 # 10)%Q] seed undirected in
  let p := _prepare (as_split (split_records r spec)) in
  train_and_evaluate p model dim epochs seed lr.
End RunOnce.
End Study.

(** ** Properties *)
(** Both nodes of a pair exist. *)
Definition in_space (n : Z) (e : edge) : Prop := 0 ≤ e.1 < n ∧ 0 ≤ e.2 < n.

Section Facts.
Context `{TL : TorchLaws}.

Lemma sample_negatives g src dst k pos self :
  (length (sample g src dst k pos self).1 ≤ k)%nat ∧
  Forall (λ e, e.1 ∈ src ∧ e.2 ∈ dst ∧ pair_of self e ∉ pos ∧ (self = true → e.1 ≠ e.2))
    (sample g src dst k pos self).1.
Proof using TL.
  cbn [sample fst].
  destruct (decide (0 < length src)%nat), (decide (0 < length dst)%nat).
  1: { destruct (sampled_pairs_are_negatives (stream g src dst k) src dst k pos self) as [_ H];
         [|done..|exact H].
       intros i n' m Hn. apply randint_bound. exact Hn. }
  all: unfold _sample_pairs; destruct (Nat.eqb_spec k 0), (Nat.eqb_spec (length src) 0),
    (Nat.eqb_spec (length dst) 0); cbn [orb]; try lia; (split; [simpl; lia|constructor]).
Qed.

Lemma forward_rows e (m : list edge) : length (forward e m) = length (embedding e).
Proof using TL.
  unfold forward. destruct (convs e) as [[c1 c2]|]; [|done]. by rewrite sage_rows, relu_rows, sage_rows.
Qed.

Lemma row_total (z : list (list Z)) i : 0 ≤ i < Z.of_nat (length z) → ∃ v, row z i = inr v.
Proof.
  intros [H1 H2]. unfold row. apply Z.leb_le in H1. apply Z.ltb_lt in H2. rewrite H1, H2. by eexists.
Qed.

Lemma decode_total z l :
  Forall (in_space (Z.of_nat (length z))) l → ∃ v, _decode z l = inr v ∧ length v = length l.
Proof.
  intros Hl. apply traverse_total. eapply Forall_impl; [exact Hl|]. intros e [H1 H2].
  destruct (row_total z _ H1) as [a ->], (row_total z _ H2) as [b ->]. by eexists.
Qed.

Lemma score_total z pos neg :
  Forall (in_space (Z.of_nat (length z))) pos → Forall (in_space (Z.of_nat (length z))) neg →
  ∃ a b, _decode z pos = inr a ∧ _decode z neg = inr b ∧ score z pos neg = inr (a ++ b) ∧
         length a = length pos ∧ length b = length neg.
Proof.
  intros (a & Ha & Hla)%decode_total (b & Hb & Hlb)%decode_total. exists a, b.
  unfold score. by rewrite Ha, Hb.
Qed.

(** *** The split of a run *)
(** A split with valid codes. *)
Definition valid_split (s : split) : Prop :=
  0 ≤ sp_n_src s ∧ 0 ≤ sp_n_dst s ∧ Forall (coded s) (sp_train s ++ sp_test s ++ sp_records s).

Section Split.
Context (s : split) (Hs : valid_split s).
Let p := _prepare s.

Lemma num_nodes_nonneg : 0 ≤ num_nodes p.
Proof using Hs. destruct Hs as (? & ? & _). unfold p, _prepare. cbn. destruct (sp_self_rel s); lia. Qed.

Lemma combined_space l :
  Forall (coded s) l →
  Forall (in_space (num_nodes p)) ((λ e : edge, (e.1, e.2 + offset p)) <$> l).
Proof using Hs.
  intros Hl. apply Forall_fmap. eapply Forall_impl; [exact Hl|]. intros e [H1 H2].
  destruct Hs as (? & ? & _). unfold in_space, compose, p, _prepare. cbn.
  destruct (sp_self_rel s); cbn; lia.
Qed.

Lemma train_space : Forall (in_space (num_nodes p)) (train_pos p).
Proof using Hs. destruct Hs as (_ & _ & H). rewrite !Forall_app in H. apply combined_space. apply H. Qed.
Lemma test_space : Forall (in_space (num_nodes p)) (test_pos p).
Proof using Hs. destruct Hs as (_ & _ & H). rewrite !Forall_app in H. apply combined_space. apply H. Qed.

Lemma pools_space x : (x ∈ src_all p ∨ x ∈ dst_all p) → 0 ≤ x < num_nodes p.
Proof using Hs.
  destruct Hs as (? & ? & _). unfold src_all, dst_all, p, _prepare. cbn.
  destruct (sp_self_rel s); cbn; rewrite !elem_of_seqZ; lia.
Qed.

Lemma train_epoch_total st :
  length (embedding (l_model st)) = Z.to_nat (num_nodes p) →
  ∃ st', train_epoch p st = inr st' ∧ length (embedding (l_model st')) = Z.to_nat (num_nodes p).
Proof using TL Hs.
  intros Hlen. unfold train_epoch.
  destruct (sample _ _ _ _ _ _) as [neg g] eqn:Hneg.
  pose proof (sample_negatives (l_gen st) (src_all p) (dst_all p) (length (train_pos p))
                (positives p) (self_rel p)) as [_ Hn]. rewrite Hneg in Hn. cbn [fst] in Hn.
  pose proof num_nodes_nonneg as Hnn.
  assert (Z.of_nat (length (forward (l_model st) (mp p))) = num_nodes p) as Hrows
    by (rewrite forward_rows, Hlen; lia).
  destruct (score_total (forward (l_model st) (mp p)) (train_pos p) neg)
    as (a & b & _ & _ & Hscore & _ & _).
  - rewrite Hrows. apply train_space.
  - rewrite Hrows. eapply Forall_impl; [exact Hn|]. intros e (H1 & H2 & _).
    split; apply pools_space; auto.
  - rewrite Hscore.
    match goal with |- context [adam_step ?o ?gr ?e] =>
      pose proof (adam_step_shape o gr e) as [Hshape _]; destruct (adam_step o gr e) as [e' o'] end.
    eexists. split; [done|]. cbn [l_model]. cbn [fst] in Hshape. by rewrite Hshape.
Qed.

Lemma train_epochs_total n st :
  length (embedding (l_model st)) = Z.to_nat (num_nodes p) →
  ∃ st', train_epochs n p st = inr st' ∧ length (embedding (l_model st')) = Z.to_nat (num_nodes p).
Proof using TL Hs.
  revert st. induction n as [|n IH]; intros st Hlen; cbn [train_epochs]; [by eauto|].
  destruct (train_epoch_total st Hlen) as (st' & -> & Hlen'). by apply IH.
Qed.

Lemma start_rows model dim seed lr :
  length (embedding (l_model (start p model dim seed lr).1)) = Z.to_nat (num_nodes p).
Proof using TL.
  unfold start, Encoder. pose proof (Embedding_rows (num_nodes p) dim (manual_seed seed)) as He.
  destruct (Embedding _ _ _) as [w r]. destruct (String.eqb model "SAGE"); [|done].
  destruct (SAGEConv dim dim r) as [c1 r1]. by destruct (SAGEConv dim dim r1).
Qed.

(** *** The evaluation is fair *)
(** What is said of the evaluation of a model: [neg] are the negatives, [a] and [b] the scores of
    the test positives and of the negatives. *)
Definition fair (neg : list edge) (a b : list Z) (auc ap : option Q) : Prop :=
  (length neg ≤ length (test_pos p))%nat ∧ length a = length (test_pos p) ∧ length b = length neg ∧
  Forall (λ e, type_correct p e ∧
               (∃ t, t ∈ test_pos p ∧ (e.1 = t.1 ∨ self_rel p = true ∧ e.1 = t.2)) ∧
               (∃ t, t ∈ test_pos p ∧ (e.2 = t.2 ∨ self_rel p = true ∧ e.2 = t.1)) ∧
               (∀ r, r ∈ sp_records s → e ≠ (r.1, r.2 + offset p) ∧
                                        (self_rel p = true → e ≠ (r.2, r.1)))) neg ∧
  (auc = None ↔ test_pos p = [] ∨ neg = []) ∧
  (NoDup (a ++ b) → ∀ x, auc = Some x →
     x == inject_Z (wins a b) / inject_Z (Z.of_nat (length a) * Z.of_nat (length b)))%Q ∧
  ap = _average_precision argsort_desc (a ++ b) (replicate (length a) 1 ++ replicate (length b) 0).

Lemma test_typed : Forall (type_correct p) (test_pos p).
Proof using Hs. destruct Hs as (_ & _ & H). rewrite !Forall_app in H. apply combined_typed. apply H. Qed.

(** A node of the source pool is a source of the test set, or any node of it for a self relation;
    likewise for the destinations. *)
Lemma test_pools_elements x :
  (x ∈ (test_pools p).1 → ∃ t, t ∈ test_pos p ∧ (x = t.1 ∨ self_rel p = true ∧ x = t.2)) ∧
  (x ∈ (test_pools p).2 → ∃ t, t ∈ test_pos p ∧ (x = t.2 ∨ self_rel p = true ∧ x = t.1)).
Proof using TL.
  unfold test_pools. destruct (self_rel p); cbn [fst snd]; rewrite !unique_elements;
    rewrite ?elem_of_app, !list_elem_of_fmap; naive_solver.
Qed.

Lemma test_negative e :
  e.1 ∈ (test_pools p).1 → e.2 ∈ (test_pools p).2 → pair_of (self_rel p) e ∉ positives p →
  type_correct p e ∧
  (∃ t, t ∈ test_pos p ∧ (e.1 = t.1 ∨ self_rel p = true ∧ e.1 = t.2)) ∧
  (∃ t, t ∈ test_pos p ∧ (e.2 = t.2 ∨ self_rel p = true ∧ e.2 = t.1)) ∧
  (∀ r, r ∈ sp_records s → e ≠ (r.1, r.2 + offset p) ∧ (self_rel p = true → e ≠ (r.2, r.1))).
Proof using TL Hs.
  intros H1%test_pools_elements H2%test_pools_elements Hpos. split_and!; [|done|done|].
  - destruct H1 as (t & Ht & H1), H2 as (u & Hu & H2).
    pose proof test_typed as Htyped. rewrite Forall_forall in Htyped.
    destruct (Htyped t Ht) as (T1 & T2 & T3), (Htyped u Hu) as (U1 & U2 & U3).
    unfold type_correct, p, _prepare in *. cbn in *. destruct (sp_self_rel s); cbn in *.
    + split_and!; [naive_solver lia..|done].
    + split_and!; [naive_solver lia..|naive_solver lia].
  - intros r Hr. destruct (records_positive s r Hr) as [R1 R2]. fold p in R1, R2. split.
    + intros ->. by apply Hpos.
    + intros Hself ->. apply Hpos. rewrite Hself. by apply R2.
Qed.

Lemma evaluate_fair model g :
  length (embedding model) = Z.to_nat (num_nodes p) →
  ∃ neg a b auc ap, evaluate p model g = inr (auc, ap) ∧
    _decode (forward model (mp p)) (test_pos p) = inr a ∧
    _decode (forward model (mp p)) neg = inr b ∧ fair neg a b auc ap.
Proof using TL Hs.
  intros Hlen. unfold evaluate. destruct (test_pools p) as [src dst] eqn:Hpools.
  set (neg := (sample g src dst _ _ _).1).
  pose proof (sample_negatives g src dst (length (test_pos p)) (positives p) (self_rel p)) as [Hk Hneg].
  fold neg in Hk, Hneg.
  assert (Forall (λ e, type_correct p e ∧
    (∃ t, t ∈ test_pos p ∧ (e.1 = t.1 ∨ self_rel p = true ∧ e.1 = t.2)) ∧
    (∃ t, t ∈ test_pos p ∧ (e.2 = t.2 ∨ self_rel p = true ∧ e.2 = t.1)) ∧
    (∀ r, r ∈ sp_records s → e ≠ (r.1, r.2 + offset p) ∧ (self_rel p = true → e ≠ (r.2, r.1)))) neg) as Hfair.
  { eapply Forall_impl; [exact Hneg|]. intros e (H1 & H2 & H3 & _).
    apply test_negative; [by rewrite Hpools..|done]. }
  pose proof num_nodes_nonneg as Hnn.
  assert (Z.of_nat (length (forward model (mp p))) = num_nodes p) as Hrows
    by (rewrite forward_rows, Hlen; lia).
  destruct (score_total (forward model (mp p)) (test_pos p) neg)
    as (a & b & Ha & Hb & -> & Hla & Hlb).
  { rewrite Hrows. apply test_space. }
  { rewrite Hrows. eapply Forall_impl; [exact Hfair|]. intros e ((H1 & H2 & _) & _). split; [|].
    - destruct Hs as (? & ? & _). revert H1. unfold p, _prepare. cbn. destruct (sp_self_rel s); lia.
    - destruct Hs as (? & ? & _). revert H2. unfold p, _prepare. cbn. destruct (sp_self_rel s); lia. }
  exists neg, a, b. eexists _, _. split; [done|]. split; [done|]. split; [done|].
  unfold labels_of. rewrite <- Hla, <- Hlb.
  destruct (select_labels a b) as [H1 H0]. unfold fair.
  split_and!; [done|done|done|done| | |done].
  - unfold _roc_auc. rewrite H1, H0, Hla, Hlb.
    destruct (test_pos p) as [|t ts], neg as [|n ns]; cbn; split; naive_solver.
  - intros Hnd x Hx. pose proof (roc_auc_is_share_of_wins argsort argsort_sorts (a ++ b)
      (replicate (length a) 1 ++ replicate (length b) 0)) as H. cbv zeta in H.
    rewrite H1, H0, Hx in H. by apply H.
Qed.
End Split.


(** *** Matrix factorization does not see the graph *)
Definition with_mp (m : list edge) (p : prepared) : prepared :=
  Prepared (num_nodes p) (n_src p) (offset p) (self_rel p) m (train_pos p) (test_pos p) (positives p).

Lemma start_plain p model dim seed lr :
  model ≠ "SAGE" → convs (l_model (start p model dim seed lr).1) = None.
Proof.
  intros Hm. unfold start, Encoder. apply String.eqb_neq in Hm. rewrite Hm.
  by destruct (Embedding _ _ _).
Qed.

Lemma train_epoch_plain p m st :
  convs (l_model st) = None →
  train_epoch (with_mp m p) st = train_epoch p st ∧
  ∀ st', train_epoch p st = inr st' → convs (l_model st') = None.
Proof using TL.
  intros Hc. unfold train_epoch, with_mp. cbn [num_nodes n_src offset self_rel mp train_pos test_pos positives].
  unfold src_all, dst_all. cbn [num_nodes n_src offset self_rel].
  destruct (sample _ _ _ _ _ _) as [neg g].
  assert (∀ e' m', (is_Some (convs e') ↔ is_Some (convs (l_model st))) → forward e' m' = embedding e') as Hf.
  { intros e' m' He. unfold forward. destruct (convs e') as [cs|]; [|done].
    rewrite Hc in He. destruct He as [He _]. destruct He as [? He]; [by eexists|]. done. }
  rewrite !(Hf (l_model st)) by done.
  erewrite (gradient_local _ _ (l_model st)); [|intros e' He; by rewrite (Hf e' m He), <- (Hf e' (mp p) He)].
  split; [done|]. destruct (score _ _ _); [done|].
  match goal with |- context [adam_step ?o ?gr ?e] =>
    pose proof (adam_step_shape o gr e) as [_ Hshape]; destruct (adam_step o gr e) as [e1 o1] end.
  intros st' [= <-]. cbn [l_model]. cbn [fst] in Hshape. rewrite Hc in Hshape.
  destruct (convs e1); [|done]. destruct Hshape as [Hshape _]. destruct Hshape as [? ?]; [by eexists|done].
Qed.

Lemma train_epochs_plain n p m st :
  convs (l_model st) = None →
  train_epochs n (with_mp m p) st = train_epochs n p st ∧
  ∀ st', train_epochs n p st = inr st' → convs (l_model st') = None.
Proof using TL.
  revert st. induction n as [|n IH]; intros st Hc; cbn [train_epochs]; [split; [done|by intros ? [= <-]]|].
  destruct (train_epoch_plain p m st Hc) as [-> Hnext].
  destruct (train_epoch p st) as [|st1]; [done|]. apply IH. by apply Hnext.
Qed.

(** Matrix factorization learns from no message passing: for every model but SAGE the whole
    run, its training and its metrics, does not depend on the message-passing graph. *)
Theorem plain_model_ignores_graph p m model dim epochs seed lr :
  model ≠ "SAGE" →
  train_and_evaluate (with_mp m p) model dim epochs seed lr = train_and_evaluate p model dim epochs seed lr.
Proof using TL.
  intros Hm. unfold train_and_evaluate.
  change (start (with_mp m p) model dim seed lr) with (start p model dim seed lr).
  destruct (train_epochs_plain (Z.to_nat epochs) p m _ (start_plain p model dim seed lr Hm)) as [-> Hplain].
  destruct (train_epochs _ p _) as [|st]; [done|]. specialize (Hplain st eq_refl).
  unfold evaluate, forward. by rewrite Hplain.
Qed.
End Facts.

(** ** An instance of the tensor library *)
(** Rows count up, the generator counts, a step adds the loss to every weight. *)
#[export] Instance toy_torch : Torch := {|
  rng := Z; gen := nat; conv := Z; optim := unit; grads := Z;
  manual_seed s := s;
  generator_seed s := Z.to_nat s;
  Embedding n d r := (map (λ i, [i + 1; r]) (seqZ 0 n), r + 1);
  SAGEConv _ _ r := (r, r + 1);
  sage c x e := map (map (λ v, v + c * Z.of_nat (length e))) x;
  relu x := map (map (Z.max 0)) x;
  fmul := Z.mul;
  fsum := sum;
  binary_cross_entropy_with_logits a b := sum a - sum b;
  Adam _ _ := tt;
  no_grads := 0;
  gradient f e := match f e with inr z => z | inl _ => 0 end;
  accumulate := Z.add;
  adam_step o g e := (Encoder_ (map (map (λ v, v + g)) (embedding e)) (convs e), o);
  randint g n m := (map (λ j, ((g + j) mod n)%nat) (seq 0 m), S g);
  unique l := remove_dups l;
  argsort := argsort_ref;
  argsort_desc l := rev (argsort_ref l) |}.

#[export] Instance toy_torch_laws : TorchLaws toy_torch.
Proof.
  split; cbn.
  - intros. by rewrite length_map, length_seqZ.
  - intros. by rewrite length_map.
  - intros. by rewrite length_map.
  - intros. by rewrite length_map.
  - intros f f' e H. by rewrite H.
  - intros g n m Hn. apply Forall_map, Forall_forall. intros j _. apply Nat.mod_upper_bound. lia.
  - intros. apply elem_of_remove_dups.
  - apply argsort_ref_sorts.
Qed.

(** Two users, three movies, six records. *)
Definition demo_split : split :=
  Split false 3 3 [(0, 1); (0, 0)] [(0, 1); (0, 0); (2, 2)] [(1, 2); (2, 0)]
    [(0, 1); (0, 0); (1, 2); (2, 0); (2, 2)].

Lemma demo_split_valid : valid_split demo_split.
Proof. split; [cbn; lia|]. split; [cbn; lia|]. repeat constructor; cbn; lia. Qed.

Definition demo_once (model : string) : exn + (option Q * option Q) :=
  run_once (records := unit) (role := unit) (λ _, "e") (λ _, []) (λ _ _, demo_split) (λ s, s)
    tt "random" None false model 2 2 7 (1 # 100)%Q.


Lemma plain_model_ignores_graph_witness :
  demo_once "MF" ≠ inl (IndexError "index out of range") ∧
  train_and_evaluate (with_mp [] (_prepare demo_split)) "MF" 2 2 7 (1 # 100)%Q
  = train_and_evaluate (_prepare demo_split) "MF" 2 2 7 (1 # 100)%Q.
Proof.
  split; [vm_compute; discriminate|].
  apply plain_model_ignores_graph. discriminate.
Defined.
