(* ===== verification/Task.v ===== *)
(** * Task: one checkpointed experiment (examples/heterosplit/task.py, [run])

    The training state is the four parts the checkpoint saves: model, optimizer, generator and
    global random state.  One epoch, the evaluation, and the byte format of the tensor library are
    parameters; that loading gives back what was saved is the library's promise. *)
From S2P Require Import Prelude Effects PyStr Utf8 Json JsonParse JsonRound Checkpoint Client.
Local Open Scope string_scope.
Local Open Scope list_scope.

Record args := Args {
  study : string; dataset : string; regime : string; a_model : string;
  seed : Z; epochs : Z; dim : Z }.

Section Task.
Context {Mo Op Ge Rn Ev : Type}.
(** The state of the training. *)
Record tstate := TState { t_model : Mo; t_optimizer : Op; t_generator : Ge; t_rng : Rn }.

Context (init : args → tstate)            (* manual_seed, Encoder, Adam, Generator *)
        (epoch_step : args → tstate → exn + tstate)  (* the loop body, up to optimizer.step() *)
        (evaluate : args → tstate → exn + Ev)  (* model.eval() and the metrics *)
        (torch_save : tstate → string)    (* torch.save, then base64 *)
        (torch_load : string → option tstate)
        (digest : args → string)          (* result.manifest.digest() *)
        (train_size test_size : args → Z).

Definition identity (a : args) : list (string * json) :=
  [("study", JStr (study a)); ("dataset", JStr (dataset a)); ("regime", JStr (regime a));
   ("model", JStr (a_model a)); ("seed", JNum (seed a)); ("epochs", JNum (epochs a));
   ("dim", JNum (dim a)); ("manifest_digest", JStr (digest a))].

(** Equality of two dictionaries of strings and numbers. *)
Definition scalar_eqb (x y : json) : bool :=
  match x, y with
  | JStr s, JStr t => String.eqb s t
  | JNum m, JNum n => (m =? n)%Z
  | _, _ => false
  end.
Definition find_key (d : list (string * json)) (k : string) : option json :=
  snd <$> List.find (λ kv, String.eqb kv.1 k) d.
Definition dict_eqb (d e : list (string * json)) : bool :=
  (length d =? length e)%nat &&
  forallb (λ kv, match find_key e kv.1 with Some v => scalar_eqb kv.2 v | None => false end) d.

(** The checkpoint published after [epoch] epochs. *)
Definition checkpoint_json (a : args) (epoch : Z) (s : tstate) : json :=
  JObj [("identity", JObj (identity a)); ("epoch", JNum epoch); ("torch", JStr (torch_save s))].

(** What the run starts from. *)
Definition restore_state (a : args) (restored : option string) : exn + (Z * tstate) :=
  match restored with
  | None => inr (0%Z, init a)
  | Some text =>
      match loads text with
      | Some (JObj state) =>
          match find_key state "identity", find_key state "torch", find_key state "epoch" with
          | Some (JObj id), Some (JStr t), Some (JNum start) =>
              if dict_eqb id (identity a) then
                match torch_load t with
                | Some s => inr (start, s)
                | None => inl (RuntimeError "torch.load")
                end
              else inl (ValueError "checkpoint configuration mismatch")
          | _, _, _ => inl (KeyError "checkpoint")
          end
      | _ => inl (ValueError "checkpoint")
      end
  end.

(** The epochs [start, start + n): the checkpoints published, and the state at the end. *)
Fixpoint train (n : nat) (a : args) (epoch : Z) (s : tstate) : list json * (exn + tstate) :=
  match n with
  | O => ([], inr s)
  | S n =>
      match epoch_step a s with
      | inl e => ([], inl e)
      | inr s =>
          let '(published, final) := train n a (epoch + 1) s in
          (checkpoint_json a (epoch + 1) s :: published, final)
      end
  end.

Record result := Result { published : list json; resumed_epoch : Z; metrics : Ev }.

Definition run (a : args) (restored : option string) : exn + result :=
  match restore_state a restored with
  | inl e => inl e
  | inr (start, s) =>
      if (train_size a =? 0)%Z || (test_size a =? 0)%Z
      then inl (ValueError "empty split; increase --max-rows")
      else
        let '(published, final) := train (Z.to_nat (epochs a - start)) a start s in
        match final with
        | inl e => inl e
        | inr final => match evaluate a final with
                       | inl e => inl e
                       | inr m => inr (Result published start m)
                       end
        end
  end.

(** A chain of attempts: each but the last is killed after the first [k] of its checkpoints were
    acknowledged; its successor is given the last of those.  What was published, and the
    metrics of the last. *)
Fixpoint run_chain (a : args) (restored : option string) (kills : list nat) : exn + (list json * Ev) :=
  match run a restored with
  | inl e => inl e
  | inr r =>
      match kills with
      | [] => inr (published r, metrics r)
      | k :: kills =>
          let kept := take k (published r) in
          match run_chain a (match last kept with Some j => Some (dumps j) | None => restored end) kills with
          | inl e => inl e
          | inr (rest, m) => inr (kept ++ rest, m)
          end
      end
  end.

(** *** What the library promises, and that the arguments are Unicode text *)
Hypothesis load_save : ∀ s, torch_load (torch_save s) = Some s.
Hypothesis save_text : ∀ s, str_ok (torch_save s) = true.

Definition text_args (a : args) : bool :=
  forallb str_ok [study a; dataset a; regime a; a_model a; digest a].

Lemma identity_refl a : dict_eqb (identity a) (identity a) = true.
Proof.
  unfold dict_eqb, identity, find_key. cbn -[Z.eqb].
  by rewrite !String.eqb_refl, !Z.eqb_refl.
Qed.

Lemma checkpoint_ok a epoch s : text_args a = true → json_ok (checkpoint_json a epoch s) = true.
Proof using save_text.
  unfold text_args. cbn [forallb]. rewrite !andb_true_iff. intros (H1 & H2 & H3 & H4 & H5 & _).
  unfold checkpoint_json, identity. cbn [json_ok forallb fst snd].
  rewrite H1, H2, H3, H4, H5, save_text. vm_compute. reflexivity.
Qed.

Lemma restore_checkpoint a epoch s :
  text_args a = true → restore_state a (Some (dumps (checkpoint_json a epoch s))) = inr (epoch, s).
Proof using load_save save_text.
  intros Ha. unfold restore_state. rewrite loads_dumps_eq by by apply checkpoint_ok.
  cbn [checkpoint_json find_key]. unfold checkpoint_json, find_key. cbn [List.find fst snd fmap option_fmap option_map String.eqb Ascii.eqb Bool.eqb].
  by rewrite identity_refl, load_save.
Qed.

(** A training that ends splits at any epoch into two that end, the second from the state the
    first reached. *)
Lemma train_app n m a epoch s l f :
  train (n + m) a epoch s = (l, inr f) →
  ∃ l1 s1 l2, train n a epoch s = (l1, inr s1) ∧ train m a (epoch + Z.of_nat n) s1 = (l2, inr f) ∧
    l = l1 ++ l2 ∧ length l1 = n ∧
    (0 < n → last l1 = Some (checkpoint_json a (epoch + Z.of_nat n) s1))%nat.
Proof.
  revert epoch s l. induction n as [|n IH]; intros epoch s l; cbn [train Nat.add].
  { intros H. exists [], s, l. rewrite Z.add_0_r. split_and!; try done. lia. }
  destruct (epoch_step a s) as [e|s']; [done|].
  destruct (train (n + m) a (epoch + 1) s') as [l' f'] eqn:Ht. intros [= <- ->].
  destruct (IH _ _ _ Ht) as (l1 & s1 & l2 & H1 & H2 & -> & Hlen & Hlast).
  exists (checkpoint_json a (epoch + 1) s' :: l1), s1, l2. rewrite H1.
  replace (epoch + Z.of_nat (S n))%Z with (epoch + 1 + Z.of_nat n)%Z by lia.
  split_and!; [done..|by simpl; lia|]. intros _. destruct n as [|n].
  - destruct l1; [|done]. cbn in H1. injection H1 as <-. simpl. do 2 f_equal. lia.
  - destruct l1 as [|j l1]; [done|]. rewrite last_cons_cons. apply Hlast. lia.
Qed.

Lemma run_inr a restored r :
  run a restored = inr r →
  ∃ start s f, restore_state a restored = inr (start, s) ∧ train_size a ≠ 0%Z ∧ test_size a ≠ 0%Z ∧
    train (Z.to_nat (epochs a - start)) a start s = (published r, inr f) ∧
    evaluate a f = inr (metrics r) ∧ resumed_epoch r = start.
Proof.
  unfold run. destruct (restore_state a restored) as [e|[start s]]; [done|].
  destruct (Z.eqb_spec (train_size a) 0); [done|]. destruct (Z.eqb_spec (test_size a) 0); [done|].
  cbn [orb]. destruct (train _ a start s) as [l [e|f]] eqn:Ht; [done|].
  destruct (evaluate a f) as [e|m] eqn:Hm; [done|]. intros [= <-]. by exists start, s, f.
Qed.

Lemma run_from a restored start s l f m :
  train_size a ≠ 0%Z → test_size a ≠ 0%Z → restore_state a restored = inr (start, s) →
  train (Z.to_nat (epochs a - start)) a start s = (l, inr f) → evaluate a f = inr m →
  run a restored = inr (Result l start m).
Proof.
  intros H1 H2 Hr Ht Hm. unfold run. rewrite Hr.
  rewrite (proj2 (Z.eqb_neq _ _) H1), (proj2 (Z.eqb_neq _ _) H2), Ht. cbn [orb]. by rewrite Hm.
Qed.

Lemma run_chain_from a kills restored start s l f m :
  text_args a = true → train_size a ≠ 0%Z → test_size a ≠ 0%Z →
  restore_state a restored = inr (start, s) →
  train (Z.to_nat (epochs a - start)) a start s = (l, inr f) → evaluate a f = inr m →
  run_chain a restored kills = inr (l, m).
Proof using load_save save_text.
  intros Ha H1 H2 Hr Ht Hm. revert restored start s l Hr Ht.
  induction kills as [|k kills IH]; intros restored start s l Hr Ht;
    cbn [run_chain]; rewrite (run_from a restored start s l f m H1 H2 Hr Ht Hm); cbn [published metrics]; [done|].
  set (n := Z.to_nat (epochs a - start)) in *.
  assert (n = min k n + (n - min k n))%nat as Hn by lia. rewrite Hn in Ht.
  destruct (train_app _ _ _ _ _ _ _ Ht) as (l1 & s1 & l2 & T1 & T2 & -> & Hlen & Hlast).
  assert (take k (l1 ++ l2) = l1) as ->.
  { destruct (decide (k ≤ n)%nat).
    - rewrite take_app_le by lia. by rewrite take_ge by lia.
    - replace (n - min k n)%nat with 0%nat in T2 by lia. cbn in T2. injection T2 as <- _.
      rewrite app_nil_r. by rewrite take_ge by lia. }
  destruct (decide (min k n = 0)%nat) as [Hz|Hz].
  { destruct l1; [|simpl in Hlen; lia]. cbn [last app]. rewrite Hz in T1, T2. cbn in T1.
    injection T1 as <-. rewrite Z.add_0_r, Nat.sub_0_r in T2. by rewrite (IH restored start s l2 Hr T2). }
  rewrite Hlast by lia. cbv match.
  erewrite (IH _ (start + Z.of_nat (min k n))%Z s1 l2); [done|by apply restore_checkpoint|].
  by replace (Z.to_nat (epochs a - (start + Z.of_nat (min k n)))) with (n - min k n)%nat by lia.
Qed.

Lemma run_chain_uninterrupted a kills r :
  text_args a = true → run a None = inr r → run_chain a None kills = inr (published r, metrics r).
Proof using load_save save_text.
  intros Ha (start & s & f & Hr & H1 & H2 & Ht & Hm & _)%run_inr. by eapply run_chain_from.
Qed.

(** An experiment resumes exactly: if the uninterrupted run ends, then however often and
    wherever its attempts are killed, the chain of attempts that resume from the last acknowledged
    checkpoint ends too, publishes the checkpoints of the uninterrupted run, once each and in
    order, and reports the same metrics. *)
Theorem resumed_training_is_uninterrupted a kills r :
  text_args a = true → run a None = inr r → run_chain a None kills = inr (published r, metrics r).
Proof using load_save save_text. apply run_chain_uninterrupted. Qed.

(** A checkpoint of another experiment is refused: when any of study, dataset, regime,
    model, seed, epochs, dimension or split manifest differs, the run raises before training. *)
Theorem foreign_checkpoint_refused a b epoch s :
  text_args b = true → (a, digest a) ≠ (b, digest b) →
  run a (Some (dumps (checkpoint_json b epoch s))) = inl (ValueError "checkpoint configuration mismatch").
Proof using load_save save_text.
  intros Hb Hne. unfold run, restore_state. rewrite loads_dumps_eq by by apply checkpoint_ok.
  unfold checkpoint_json, find_key at 1 2 3.
  cbn [List.find fst snd fmap option_fmap option_map String.eqb Ascii.eqb Bool.eqb].
  assert (dict_eqb (identity b) (identity a) = false) as ->; [|done].
  apply not_true_is_false. intros He. apply Hne. clear Hne Hb.
  unfold dict_eqb, identity, find_key in He.
  cbn [length forallb List.find fst snd fmap option_fmap option_map scalar_eqb] in He.
  cbn [String.eqb Ascii.eqb Bool.eqb Nat.eqb andb fmap option_fmap option_map snd scalar_eqb] in He.
  rewrite !andb_true_iff, !String.eqb_eq, !Z.eqb_eq in He.
  destruct a, b. cbn in *. destruct_and!. by subst.
Qed.
End Task.

(** ** A training that counts *)
Definition demo_args (seed : Z) : args := Args "expanded-v2" "MovieLens" "random" "MF" seed 3 16.
Abbreviation demo_state := (tstate (Mo:=Z) (Op:=unit) (Ge:=unit) (Rn:=unit)).
Definition demo_state_of (z : Z) : demo_state := TState z tt tt tt.
Definition demo_save (s : demo_state) : string := pretty (t_model s).
Definition demo_load (t : string) : option demo_state :=
  match parse_num t with Some (z, _) => Some (demo_state_of z) | None => None end.

Lemma demo_load_save s : demo_load (demo_save s) = Some s.
Proof.
  unfold demo_load, demo_save. rewrite <- (string_app_nil_r (pretty _)), parse_num_pretty by done.
  by destruct s as [z [] [] []].
Qed.

Definition demo_run : args → option string → exn + result :=
  run (λ a, demo_state_of (seed a)) (λ _ s, inr (demo_state_of (t_model s + 10))) (λ _ s, inr (t_model s))
    demo_save demo_load (λ _, "d1") (λ _, 5%Z) (λ _, 2%Z).

Definition demo_chain (kills : list nat) : exn + (list json * Z) :=
  run_chain (λ a, demo_state_of (seed a)) (λ _ s, inr (demo_state_of (t_model s + 10))) (λ _ s, inr (t_model s))
    demo_save demo_load (λ _, "d1") (λ _, 5%Z) (λ _, 2%Z) (demo_args 7) None kills.

Lemma resumed_training_is_uninterrupted_witness :
  ∃ r, demo_run (demo_args 7) None = inr r ∧ metrics r = 37%Z ∧
       demo_chain [1%nat; 1%nat] = inr (published r, metrics r).
Proof.
  destruct (demo_run (demo_args 7) None) as [e|r] eqn:Hr; [vm_compute in Hr; discriminate Hr|].
  exists r. split; [reflexivity|]. split; [vm_compute in Hr; injection Hr as <-; reflexivity|].
  apply (resumed_training_is_uninterrupted (λ a, demo_state_of (seed a))
    (λ _ s, inr (demo_state_of (t_model s + 10))) (λ _ s, inr (t_model s)) demo_save demo_load (λ _, "d1")
    (λ _, 5%Z) (λ _, 2%Z) demo_load_save (λ s, ascii_str _ (Invoke.pretty_Z_ok _)) (demo_args 7) [1%nat; 1%nat] r).
  - reflexivity.
  - exact Hr.
Defined.

Lemma foreign_checkpoint_refused_witness :
  demo_run (demo_args 7) (Some (dumps (checkpoint_json demo_save (λ _, "d1") (demo_args 8) 1 (demo_state_of 18))))
  = inl (ValueError "checkpoint configuration mismatch").
Proof.
  apply (foreign_checkpoint_refused (λ a, demo_state_of (seed a)) (λ _ s, inr (demo_state_of (t_model s + 10)))
    (λ _ s, inr (t_model s)) demo_save demo_load (λ _, "d1") (λ _, 5%Z) (λ _, 2%Z) demo_load_save
    (λ s, ascii_str _ (Invoke.pretty_Z_ok _)) (demo_args 7) (demo_args 8) 1 (demo_state_of 18)); [reflexivity|discriminate].
Defined.
