(* ===== verification/TaskRun.v ===== *)
(** * TaskRun: an experiment from its command line to its metrics (examples/heterosplit/task.py)

    The command line of a task, the whole of [run] with the training of [Study] in the place of
    [Task]'s parameters, and what ties the scripts of the study together: the command of every
    job the grid submits parses to its cell, and the metrics of a task, killed and resumed as
    often as it may be, are the ones the research script computes. *)
From Stdlib Require Import QArith.
From S2P Require Import Prelude Effects PyStr Utf8 Json JsonParse JsonRound PyInt Argparse Checkpoint Client.
From S2P Require Import Protocols Research Study Task.
Local Open Scope string_scope.
Local Open Scope list_scope.
Local Open Scope Z_scope.

(** ** The command line *)
Record options := Options { o_args : args; o_data : string; o_max_rows : Z }.

Definition task_options : list option_ :=
  [Option_ "--dataset" (TChoice ["DrugComb"; "MovieLens"]) true VNone;
   Option_ "--study" (TChoice (fst <$> STUDIES)) false (VStr "original-v1");
   Option_ "--data" TPath true VNone;
   Option_ "--regime" TStr true VNone;
   Option_ "--model" (TChoice ["MF"; "SAGE"]) true VNone;
   Option_ "--seed" TInt true VNone;
   Option_ "--epochs" TInt false (VInt 3);
   Option_ "--dim" TInt false (VInt 16);
   Option_ "--max-rows" TInt false (VInt 120000)].

Definition parse_task (argv : list string) : exn + options :=
  match parse_args task_options argv with
  | inl e => inl e
  | inr ns =>
      inr (Options
        (Args (get_str ns "--study") (get_str ns "--dataset") (get_str ns "--regime")
           (get_str ns "--model") (get_int ns "--seed") (get_int ns "--epochs") (get_int ns "--dim"))
        (get_str ns "--data") (get_int ns "--max-rows"))
  end.

(** ** [run] *)
Section TaskRun.
Context `{T : Torch}.
Context {records role result_ : Type}.
(** The splitting library. *)
Context (edge_of : records → string) (roles : records → list (string * role))
        (decoded : records → string → list string) (context : string → role)
        (from_columns : string → list (string * role) → list (string * list string) → records)
        (split_records : records → spec (role := role) → result_) (leaks : result_ → bool)
        (counts : result_ → list (string * Z)) (as_split : result_ → split)
        (manifest_digest : result_ → string).
(** Its loaders, and the rows of a file. *)
Context (drugcomb movielens : string → Z → exn + records) (from_table : Movie.table → records)
        (read_csv : string → list string * list (gmap string string)).

Abbreviation state := (tstate (Mo := encoder conv) (Op := optim) (Ge := gen) (Rn := rng)).
Context (torch_save : state → string) (torch_load : string → option state).

Definition task_init (p : prepared) (a : args) : state :=
  let '(l, r) := start p (a_model a) (dim a) (seed a) (1 # 100)%Q in
  TState (l_model l) (l_optimizer l) (l_gen l) r.

(** The gradients left by the epoch before are cleared first, so they are not part of the state. *)
Definition task_epoch (p : prepared) (s : state) : exn + state :=
  match train_epoch p (Loop (t_model s) (t_optimizer s) no_grads (t_generator s)) with
  | inl e => inl e
  | inr l => inr (TState (l_model l) (l_optimizer l) (l_gen l) (t_rng s))
  end.

(** [json.dumps(metrics, allow_nan=False)] refuses nan. *)
Definition without_nan (m : exn + (option Q * option Q)) : exn + (Q * Q) :=
  match m with
  | inl e => inl e
  | inr (Some auc, Some ap) => inr (auc, ap)
  | inr _ => inl (ValueError "Out of range float values are not JSON compliant")
  end.

Definition task_evaluate (p : prepared) (s : state) : exn + (Q * Q) :=
  without_nan (evaluate p (t_model s) (t_generator s)).

Definition load (o : options) : exn + records :=
  Movie.load_records (drugcomb (o_data o)) (movielens (o_data o)) from_table
    (dataset (o_args o)) (study (o_args o)) (read_csv (o_data o)).1 (read_csv (o_data o)).2
    (o_max_rows o).

Definition split_of (o : options) (r : records) : exn + result_ :=
  split_protocol edge_of roles decoded context from_columns split_records leaks counts r
    (dataset (o_args o)) (regime (o_args o)) (seed (o_args o)) (study (o_args o)).

(** The run on a split, and a chain of attempts at it. *)
Definition run_on (res : result_) (a : args) (restored : option string) : exn + result :=
  let p := _prepare (as_split res) in
  Task.run (task_init p) (λ _, task_epoch p) (λ _, task_evaluate p) torch_save torch_load
    (λ _, manifest_digest res) (λ _, Z.of_nat (length (train_pos p)))
    (λ _, Z.of_nat (length (test_pos p))) a restored.

Definition chain_on (res : result_) (a : args) (kills : list nat) : exn + (list json * (Q * Q)) :=
  let p := _prepare (as_split res) in
  run_chain (task_init p) (λ _, task_epoch p) (λ _, task_evaluate p) torch_save torch_load
    (λ _, manifest_digest res) (λ _, Z.of_nat (length (train_pos p)))
    (λ _, Z.of_nat (length (test_pos p))) a None kills.

Definition on_split {A} (o : options) (f : result_ → exn + A) : exn + A :=
  match load o with
  | inl e => inl e
  | inr r => match split_of o r with inl e => inl e | inr res => f res end
  end.

Definition task (o : options) (restored : option string) : exn + result :=
  on_split o (λ res, run_on res (o_args o) restored).

(** The attempts of the job of a task: each loads and splits the data again. *)
Definition task_chain (o : options) (kills : list nat) : exn + (list json * (Q * Q)) :=
  on_split o (λ res, chain_on res (o_args o) kills).

Lemma on_split_inr {A} o r res (f : result_ → exn + A) :
  load o = inr r → split_of o r = inr res → on_split o f = f res.
Proof. intros H1 H2. unfold on_split. by rewrite H1, H2. Qed.

(** ** A task is the research script, whatever happens to its attempts *)
Lemma train_is_train_epochs dg n p a epoch (s : state) gr :
  match (train (λ _, task_epoch p) torch_save (λ _, dg) n a epoch s).2 with
  | inl e => train_epochs n p (Loop (t_model s) (t_optimizer s) gr (t_generator s)) = inl e
  | inr f => ∃ gr', train_epochs n p (Loop (t_model s) (t_optimizer s) gr (t_generator s))
                    = inr (Loop (t_model f) (t_optimizer f) gr' (t_generator f))
  end.
Proof.
  revert epoch s gr. induction n as [|n IH]; intros epoch s gr; cbn [train train_epochs snd]; [by eexists|].
  change (train_epoch p (Loop (t_model s) (t_optimizer s) gr (t_generator s)))
    with (train_epoch p (Loop (t_model s) (t_optimizer s) no_grads (t_generator s))).
  unfold task_epoch at 1. destruct (train_epoch p _) as [e|l] eqn:Hl; [done|].
  specialize (IH (epoch + 1) (TState (l_model l) (l_optimizer l) (l_gen l) (t_rng s)) (l_grads l)).
  destruct (train _ _ _ n a (epoch + 1) _) as [l' f]. cbn [snd] in *. by destruct l.
Qed.

Lemma run_on_metrics res a :
  let p := _prepare (as_split res) in
  train_pos p ≠ [] → test_pos p ≠ [] →
  match run_on res a None with inl e => inl e | inr r => inr (metrics r) end
  = without_nan (train_and_evaluate p (a_model a) (dim a) (epochs a) (seed a) (1 # 100)%Q).
Proof.
  intros p Htrain Htest. unfold run_on. fold p. unfold Task.run, restore_state.
  destruct (Z.eqb_spec (Z.of_nat (length (train_pos p))) 0) as [H0|_].
  { destruct (train_pos p); [done|simpl in H0; lia]. }
  destruct (Z.eqb_spec (Z.of_nat (length (test_pos p))) 0) as [H0|_].
  { destruct (test_pos p); [done|simpl in H0; lia]. }
  cbn [orb]. rewrite Z.sub_0_r. unfold train_and_evaluate, task_init.
  destruct (start p (a_model a) (dim a) (seed a) (1 # 100)%Q) as [l0 r0]. cbn [fst].
  pose proof (train_is_train_epochs (manifest_digest res) (Z.to_nat (epochs a)) p a 0
    (TState (l_model l0) (l_optimizer l0) (l_gen l0) r0) (l_grads l0)) as H.
  destruct (train _ _ _ _ a 0 _) as [l f]. cbn [snd t_model t_optimizer t_generator] in *.
  replace l0 with (Loop (l_model l0) (l_optimizer l0) (l_grads l0) (l_gen l0)) by by destruct l0.
  destruct f as [e|f]; [by rewrite H|]. destruct H as [gr' ->]. cbn [l_model l_gen].
  unfold task_evaluate. by destruct (without_nan _).
Qed.

Hypothesis load_save : ∀ s, torch_load (torch_save s) = Some s.
Hypothesis save_text : ∀ s, str_ok (torch_save s) = true.

Lemma chain_on_metrics res a kills :
  text_args (λ _, manifest_digest res) a = true →
  match chain_on res a kills with inl e => inl e | inr (_, m) => inr m end
  = match run_on res a None with inl e => inl e | inr r => inr (metrics r) end.
Proof using load_save save_text.
  intros Ha. destruct (run_on res a None) as [e|r] eqn:Hr.
  - unfold chain_on, run_on in *. destruct kills; cbn [run_chain]; by rewrite Hr.
  - unfold chain_on. by erewrite run_chain_uninterrupted.
Qed.

(** The regimes [research.py] lists for a dataset. *)
Definition study_regimes (dataset : string) : list (string * option (list (string * string)) * bool) :=
  if String.eqb dataset "DrugComb" then DRUGCOMB_REGIMES else MOVIELENS_REGIMES.

Lemma original_spec r dataset regime holdout undirected seed :
  dataset = "DrugComb" ∨ dataset = "MovieLens" →
  (regime, holdout, undirected) ∈ study_regimes dataset →
  drug_pair (plan_of dataset regime) = false ∧
  spec_of edge_of roles r dataset regime seed
  = Spec (edge_of r) (roles r) regime holdout [(4 # 5)%Q; (1 # 10)%Q; (1 # 10)%Q] seed undirected.
Proof.
  intros [->| ->]; unfold study_regimes; cbn [String.eqb Ascii.eqb Bool.eqb andb];
    unfold DRUGCOMB_REGIMES, MOVIELENS_REGIMES;
    intros Hin; repeat (apply elem_of_cons in Hin as [[= -> -> ->]|Hin]; [by split|]);
    by apply not_elem_of_nil in Hin.
Qed.

End TaskRun.

(** ** The jobs of the grid *)
(** The command of a job, as the worker starts it. *)
Definition command_of (j : list (string * json)) : list string :=
  match dict_get j "command" with
  | Some (JArr l) => omap (λ x, match x with JStr s => Some s | _ => None end) l
  | _ => []
  end.

(** A name that can be the value of an option. *)
Definition plain (s : string) : bool := negb (has_prefix "-" s).

Lemma parse_task_command study dataset data regime model seed epochs max_rows :
  plain dataset = true → plain data = true → str_path data = data → plain regime = true → plain model = true → plain study = true →
  In dataset ["DrugComb"; "MovieLens"] → In model ["MF"; "SAGE"] → In study (fst <$> STUDIES) →
  0 ≤ seed → 0 ≤ epochs → 0 ≤ max_rows →
  parse_task ["--dataset"; dataset; "--data"; data; "--regime"; regime; "--model"; model;
              "--seed"; pretty seed; "--epochs"; pretty epochs; "--max-rows"; pretty max_rows;
              "--study"; study]
  = inr (Options (Args study dataset regime model seed epochs 16) data max_rows).
Proof.
  unfold plain. rewrite !negb_true_iff. intros P1 P2 Pd P3 P4 P5 I1 I2 I3 Hs He Hm.
  assert (∀ s l, In s l → convert (TChoice l) s = Some (VStr s)) as Hchoice.
  { intros s l Hin. unfold convert. assert (existsb (String.eqb s) l = true) as ->; [|done].
    apply existsb_exists. exists s. by rewrite String.eqb_refl. }
  assert (∀ z, convert TInt (pretty z) = Some (VInt z)) as Hint
    by (intros z; cbn; by rewrite py_int_pretty).
  unfold parse_task, parse_args.
  rewrite (consume_option _ (Option_ "--dataset" (TChoice ["DrugComb"; "MovieLens"]) true VNone) "--dataset" _ _ _ _ (VStr dataset))
    by (reflexivity || by apply plain_value || by apply Hchoice).
  rewrite (consume_option _ (Option_ "--data" TPath true VNone) "--data" _ _ _ _ (VStr data))
    by (reflexivity || by apply plain_value || (cbn [type convert]; by rewrite Pd)).
  rewrite (consume_option _ (Option_ "--regime" TStr true VNone) "--regime" _ _ _ _ (VStr regime))
    by (reflexivity || by apply plain_value).
  rewrite (consume_option _ (Option_ "--model" (TChoice ["MF"; "SAGE"]) true VNone) "--model" _ _ _ _ (VStr model))
    by (reflexivity || by apply plain_value || by apply Hchoice).
  rewrite (consume_option _ (Option_ "--seed" TInt true VNone) "--seed" _ _ _ _ (VInt seed))
    by (reflexivity || by apply pretty_is_value || apply Hint).
  rewrite (consume_option _ (Option_ "--epochs" TInt false (VInt 3)) "--epochs" _ _ _ _ (VInt epochs))
    by (reflexivity || by apply pretty_is_value || apply Hint).
  rewrite (consume_option _ (Option_ "--max-rows" TInt false (VInt 120000)) "--max-rows" _ _ _ _ (VInt max_rows))
    by (reflexivity || by apply pretty_is_value || apply Hint).
  rewrite (consume_option _ (Option_ "--study" (TChoice (fst <$> STUDIES)) false (VStr "original-v1")) "--study" _ _ _ _ (VStr study))
    by (reflexivity || by apply plain_value || by apply Hchoice).
  reflexivity.
Qed.

(** The names of the studies never look like options. *)
Lemma study_names_plain study datasets dataset regimes :
  dict_get STUDIES study = Some datasets → (dataset, regimes) ∈ datasets →
  plain study = true ∧ plain dataset = true ∧ In dataset ["DrugComb"; "MovieLens"] ∧
  dict_get datasets dataset = Some regimes ∧ Forall (λ r, plain r = true) regimes.
Proof.
  intros Hs%dict_get_elem Hd. unfold STUDIES in Hs.
  repeat (apply elem_of_cons in Hs as [[= -> ->]|Hs];
    [repeat (apply elem_of_cons in Hd as [[= -> ->]|Hd];
       [split_and!; [done|done|by simpl; auto|done|by repeat constructor]|]);
     by apply not_elem_of_nil in Hd|]).
  by apply not_elem_of_nil in Hs.
Qed.

Lemma cells_elem {A} seeds (f : string → string → string → Z → A) datasets j :
  j ∈ Grid.cells seeds f datasets →
  ∃ dataset regimes regime model seed, (dataset, regimes) ∈ datasets ∧ regime ∈ regimes ∧
    model ∈ Grid.models ∧ 0 ≤ seed < seeds ∧ j = f dataset regime model seed.
Proof.
  unfold Grid.cells. intros ([dataset regimes] & Hj & Hd)%list_elem_of_bind.
  apply list_elem_of_bind in Hj as (regime & Hj & Hr). apply list_elem_of_bind in Hj as (model & Hj & Hm).
  apply list_elem_of_fmap in Hj as (seed & -> & Hseed%elem_of_seqZ).
  exists dataset, regimes, regime, model, seed. split_and!; try done; lia.
Qed.

Lemma grid_job_cell run_id seeds epochs max_rows study jobs :
  Grid.definitions run_id seeds epochs max_rows study = inr jobs →
  Forall (λ j, ∃ dataset regimes regime model seed,
    (dict_get STUDIES study ≫= λ d, dict_get d dataset) = Some regimes ∧ regime ∈ regimes ∧
    0 ≤ seed < seeds ∧
    dict_get j "name" = Some (JStr (Grid.job_name dataset regime model seed)) ∧
    take 2 (command_of j) = ["python"; "examples/heterosplit/task.py"] ∧
    parse_task (drop 2 (command_of j))
    = inr (Options (Args study dataset regime model seed epochs 16) (Grid.data_path dataset) max_rows)) jobs.
Proof.
  unfold Grid.definitions. destruct (Z.leb_spec (Z.min seeds (Z.min epochs max_rows)) 0) as [|Hpos]; [done|].
  destruct (dict_get STUDIES study) as [datasets|] eqn:Hst; [|done]. intros [= <-].
  apply Forall_forall. intros j (dataset & regimes & regime & model & seed & Hd & Hr & Hm & Hseed & ->)%cells_elem.
  destruct (study_names_plain study datasets dataset regimes Hst Hd) as (P1 & P2 & Hin & Hget & Hplain).
  rewrite Forall_forall in Hplain.
  exists dataset, regimes, regime, model, seed. split_and!; [done|done|lia|lia|reflexivity|reflexivity|].
  change (drop 2 (command_of (Grid.job run_id epochs max_rows study dataset regime model seed)))
    with ["--dataset"; dataset; "--data"; Grid.data_path dataset; "--regime"; regime; "--model"; model;
          "--seed"; pretty seed; "--epochs"; pretty epochs; "--max-rows"; pretty max_rows; "--study"; study].
  apply parse_task_command; try lia; auto.
  - unfold Grid.data_path. by destruct (String.eqb dataset "DrugComb").
  - unfold Grid.data_path. by destruct (String.eqb dataset "DrugComb").
  - unfold Grid.models in Hm. set_solver.
  - by apply list_elem_of_In.
  - apply list_elem_of_In. apply dict_get_elem in Hst. by apply (list_elem_of_fmap_2 fst) in Hst.
Qed.

(** C32. Every job of the grid runs its own cell: the command of a submitted job, parsed by the task
    it starts, is the experiment of the dataset, regime, model and seed in the job's name, with
    the study, epochs and rows of the submission and the data file of its dataset; and the regime
    is one the study's split accepts. *)
Theorem grid_jobs_run_their_cell run_id seeds epochs max_rows study jobs :
  Grid.definitions run_id seeds epochs max_rows study = inr jobs →
  Forall (λ j, ∃ dataset regimes regime model seed,
    (dict_get STUDIES study ≫= λ d, dict_get d dataset) = Some regimes ∧ regime ∈ regimes ∧
    0 ≤ seed < seeds ∧
    dict_get j "name" = Some (JStr (Grid.job_name dataset regime model seed)) ∧
    take 2 (command_of j) = ["python"; "examples/heterosplit/task.py"] ∧
    parse_task (drop 2 (command_of j))
    = inr (Options (Args study dataset regime model seed epochs 16) (Grid.data_path dataset) max_rows)) jobs.
Proof. apply grid_job_cell. Qed.

Lemma grid_jobs_run_their_cell_witness :
  ∃ jobs, Grid.definitions "r1" 5 3 120000 "expanded-v2" = inr jobs ∧ length jobs = 160%nat ∧
    Forall (λ j, ∃ o, parse_task (drop 2 (command_of j)) = inr o) jobs.
Proof.
  destruct (Grid.definitions "r1" 5 3 120000 "expanded-v2") as [e|jobs] eqn:Hd;
    [vm_compute in Hd; discriminate Hd|].
  exists jobs. split; [reflexivity|]. split; [vm_compute in Hd; injection Hd as <-; reflexivity|].
  pose proof (grid_jobs_run_their_cell "r1" 5 3 120000 "expanded-v2" jobs Hd) as H.
  eapply Forall_impl; [exact H|]. intros j (? & ? & ? & ? & ? & _ & _ & _ & _ & _ & Hj).
  eexists. exact Hj.
Defined.

(** ** Two killed attempts of a task on the toy library *)
Abbreviation toy_state := (tstate (Mo := encoder Z) (Op := unit) (Ge := nat) (Rn := Z)).
#[export] Instance toy_encoder_eq_dec : EqDecision (encoder Z).
Proof. solve_decision. Defined.
#[export] Instance toy_encoder_countable : Countable (encoder Z).
Proof.
  refine (inj_countable' (λ e, (embedding e, convs e)) (λ '(w, c), Encoder_ w c) _). by intros [].
Defined.
#[export] Instance toy_state_eq_dec : EqDecision toy_state.
Proof. solve_decision. Defined.
#[export] Instance toy_state_countable : Countable toy_state.
Proof.
  refine (inj_countable' (λ s, (t_model s, t_generator s, t_rng s)) (λ '(m, g, r), TState m tt g r) _).
  by intros [m [] g r].
Defined.

Definition toy_save (s : toy_state) : string := bits (countable.encode s).
Definition toy_load (t : string) : option toy_state := countable.decode (of_bits t).

Lemma toy_load_save s : toy_load (toy_save s) = Some s.
Proof. unfold toy_load, toy_save. by rewrite of_bits_bits, decode_encode. Qed.
Lemma toy_save_text s : str_ok (toy_save s) = true.
Proof. apply ascii_str. unfold toy_save. generalize (countable.encode s). induction p; simpl; auto. Qed.

Definition demo_options : options :=
  Options (Args "original-v1" "MovieLens" "random" "MF" 7 2 2) "/data/ratings.csv" 10.
Definition demo_chain_metrics (kills : list nat) : exn + (Q * Q) :=
  match task_chain (T := toy_torch) (records := unit) (role := unit) (result_ := split)
          (λ _, "e") (λ _, []) (λ _ _, []) (λ _, tt) (λ _ _ _, tt) (λ _ _, demo_split) (λ _, false) (λ _, [])
          (λ s, s) (λ _, "d1") (λ _ _, inr tt) (λ _ _, inr tt) (λ _, tt) (λ _, ([], []))
          toy_save toy_load demo_options kills with
  | inl e => inl e
  | inr (_, m) => inr m
  end.

