(* ===== verification/StudyScripts.v ===== *)
(** * StudyScripts: validating and smoke-testing a study
      (examples/heterosplit/preflight.py, examples/heterosplit/smoke.py, the main of submit.py)

    [preflight] splits every dataset, regime and seed of a study before the grid is started;
    [smoke] trains every cell once, resumes it from its checkpoint and asserts that nothing
    changed.  The theorems say what the scripts are for: a study that passed the preflight does
    not fail in a task's loading or splitting, and the assertions of the smoke test cannot fail. *)
From Stdlib Require Import QArith.
From S2P Require Import Prelude Effects PyStr Utf8 Json JsonParse JsonRound PyInt Argparse Checkpoint Client.
From S2P Require Import Protocols Research Study Task TaskRun.
Local Open Scope string_scope.
Local Open Scope list_scope.
Local Open Scope Z_scope.

Definition data_file (data_dir dataset : string) : string :=
  path_join data_dir (if String.eqb dataset "DrugComb" then "summary_v_1_5.csv"
                      else "ml/ml-latest-small/ratings.csv").

(** A loop that prints: the lines so far, and the rows or the exception that ended it. *)
Definition printing (A : Type) : Type := list string * (exn + A).

Fixpoint for_each {A B} (f : A → printing (list B)) (l : list A) : printing (list B) :=
  match l with
  | [] => ([], inr [])
  | x :: l =>
      match f x with
      | (out, inl e) => (out, inl e)
      | (out, inr rows) =>
          let '(out', r) := for_each f l in
          (out ++ out', match r with inl e => inl e | inr rows' => inr (rows ++ rows') end)
      end
  end.

Lemma for_each_inr {A B} (f : A → printing (list B)) l rows :
  (for_each f l).2 = inr rows → Forall (λ x, ∃ r, (f x).2 = inr r) l.
Proof.
  revert rows. induction l as [|x l IH]; intros rows; cbn [for_each]; [constructor|].
  destruct (f x) as [out [e|r]] eqn:Hx; [done|].
  destruct (for_each f l) as [out' [e|rows']]; [done|]. intros _.
  constructor; [rewrite Hx; by eexists|by eapply IH].
Qed.

Section Scripts.
Context `{T : Torch}.
Context {records role result_ : Type}.
Context (edge_of : records → string) (roles : records → list (string * role))
        (decoded : records → string → list string) (context : string → role)
        (from_columns : string → list (string * role) → list (string * list string) → records)
        (split_records : records → spec (role := role) → result_) (leaks : result_ → bool)
        (counts : result_ → list (string * Z)) (as_split : result_ → split)
        (manifest_digest : result_ → string)
        (n_records : records → Z) (n_excluded : result_ → Z).
Context (drugcomb movielens : string → Z → exn + records) (from_table : Movie.table → records)
        (read_csv : string → list string * list (gmap string string)).
Context (torch_save : tstate (Mo := encoder conv) (Op := optim) (Ge := gen) (Rn := rng) → string)
        (torch_load : string → option (tstate (Mo := encoder conv) (Op := optim) (Ge := gen) (Rn := rng))).

Local Abbreviation load_records_ o := (TaskRun.load drugcomb movielens from_table read_csv o).
Local Abbreviation split_ o r :=
  (split_of edge_of roles decoded context from_columns split_records leaks counts o r).

(** ** Preflight *)
Definition preflight_options : list option_ :=
  [Option_ "--data-dir" TPath false (VStr "/data");
   Option_ "--max-rows" TInt false (VInt 120000);
   Option_ "--study" (TChoice (fst <$> STUDIES)) false (VStr "expanded-v2");
   Option_ "--output" TPath false VNone].

(** What a task of the cell would be given, as far as loading and splitting go. *)
Definition cell (study dataset regime path : string) (seed max_rows : Z) : options :=
  Options (Args study dataset regime EmptyString seed 0 0) path max_rows.

Definition preflight_row (study dataset regime : string) (seed : Z) (r : records) (res : result_) : json :=
  JObj [("study", JStr study); ("dataset", JStr dataset); ("regime", JStr regime); ("seed", JNum seed);
        ("records", JNum (n_records r));
        ("counts", JObj ((λ c, (c.1, JNum c.2)) <$> counts res));
        ("excluded", JNum (n_excluded res)); ("manifest_digest", JStr (manifest_digest res))].

Definition preflight_split (study dataset path : string) (max_rows : Z) (r : records)
    (regime : string) (seed : Z) : printing (list json) :=
  match split_ (cell study dataset regime path seed max_rows) r with
  | inl e => ([], inl e)
  | inr res => let row := preflight_row study dataset regime seed r res in ([dumps row], inr [row])
  end.

Definition preflight_dataset (data_dir study : string) (max_rows : Z)
    (d : string * list string) : printing (list json) :=
  let '(dataset, regimes) := d in
  let path := data_file data_dir dataset in
  match load_records_ (cell study dataset EmptyString path 0 max_rows) with
  | inl e => ([], inl e)
  | inr r =>
      if n_records r =? 0
      then ([], inl (ValueError (dataset +:+ ": no usable records; increase --max-rows")))
      else
        let '(out, rows) :=
          for_each (λ regime, for_each (preflight_split study dataset path max_rows r regime) (seqZ 0 5)) regimes in
        match rows with
        | inl e => (out, inl e)
        | inr rows =>
            (out ++ [dataset +:+ ": " +:+ pretty (Z.of_nat (length regimes) * 5)
                     +:+ " regime/seed splits validated"], inr rows)
        end
  end.

(** The rows; they are written to [--output] when it is given. *)
Definition preflight (data_dir study : string) (max_rows : Z) : printing (list json) :=
  match dict_get STUDIES study with
  | None => ([], inl (KeyError study))
  | Some datasets => for_each (preflight_dataset data_dir study max_rows) datasets
  end.

Definition preflight_main (argv : list string) : printing (option (string * list json)) :=
  match parse_args preflight_options argv with
  | inl e => ([], inl e)
  | inr ns =>
      let '(out, r) := preflight (get_str ns "--data-dir") (get_str ns "--study") (get_int ns "--max-rows") in
      (out, match r with
            | inl e => inl e
            | inr rows => inr (match ns !! "--output" with
                               | Some (VStr path) => Some (path, rows)
                               | _ => None
                               end)
            end)
  end.

(** ** The smoke test *)
Definition smoke_options : list option_ :=
  [Option_ "--data-dir" TPath true VNone; Option_ "--output" TPath true VNone].

Definition smoke_config (data_dir dataset regime model : string) : options :=
  Options (Args "expanded-v2" dataset regime model 0 1 16) (data_file data_dir dataset) 120000.

Local Abbreviation run_task := (task edge_of roles decoded context from_columns split_records leaks counts
  as_split manifest_digest drugcomb movielens from_table read_csv torch_save torch_load).

Definition same_metrics (a b : Q * Q) : bool := Qeq_bool a.1 b.1 && Qeq_bool a.2 b.2.

(** One cell: a run, a run from its checkpoint, and the assertions. *)
Definition smoke_cell (o : options) : exn + unit :=
  match run_task o None with
  | inl e => inl e
  | inr before =>
      match published before with
      | [] => inl (ValueError "StopIteration")
      | j :: _ =>
          match run_task o (Some (dumps j)) with
          | inl e => inl e
          | inr after =>
              if negb (resumed_epoch after =? 1) then inl (AssertionError "resumed_epoch")
              else if negb (same_metrics (metrics before) (metrics after)) then inl (AssertionError "metrics")
              else inr tt
          end
      end
  end.

Fixpoint smoke_cells (l : list options) : exn + unit :=
  match l with
  | [] => inr tt
  | o :: l => match smoke_cell o with inl e => inl e | inr _ => smoke_cells l end
  end.

Definition smoke_configs (data_dir : string) : list options :=
  REGIMES ≫= λ '(dataset, regimes), regimes ≫= λ regime,
    smoke_config data_dir dataset regime <$> ["MF"; "SAGE"].

(** [exists]: the output path exists already. *)
Definition smoke_main (argv : list string) (exists_ : string → bool) : exn + string :=
  match parse_args smoke_options argv with
  | inl e => inl e
  | inr ns =>
      if exists_ (get_str ns "--output") then usage_error
      else match smoke_cells (smoke_configs (get_str ns "--data-dir")) with
           | inl e => inl e
           | inr _ => inr "32 local training/checkpoint round trips passed (seed 0, one epoch); not 160 distributed completions."
           end
  end.

(** ** What the preflight is worth *)
Lemma preflight_inr data_dir study max_rows rows datasets dataset regimes regime seed :
  (preflight data_dir study max_rows).2 = inr rows → dict_get STUDIES study = Some datasets →
  (dataset, regimes) ∈ datasets → regime ∈ regimes → 0 ≤ seed < 5 →
  ∃ r res, load_records_ (cell study dataset EmptyString (data_file data_dir dataset) 0 max_rows) = inr r ∧
    n_records r ≠ 0 ∧
    split_ (cell study dataset regime (data_file data_dir dataset) seed max_rows) r = inr res.
Proof.
  intros Hp Hst Hd Hr Hseed. unfold preflight in Hp. rewrite Hst in Hp.
  apply for_each_inr in Hp. rewrite Forall_forall in Hp. destruct (Hp _ Hd) as [rs Hds].
  unfold preflight_dataset in Hds.
  destruct (load_records_ _) as [e|r] eqn:Hload; [done|].
  destruct (Z.eqb_spec (n_records r) 0); [done|].
  destruct (for_each _ regimes) as [out [e|rows']] eqn:Hf; [done|].
  assert ((for_each (λ regime, for_each (preflight_split study dataset (data_file data_dir dataset) max_rows r regime)
    (seqZ 0 5)) regimes).2 = inr rows') as Hf' by by rewrite Hf.
  apply for_each_inr in Hf'. rewrite Forall_forall in Hf'. destruct (Hf' _ Hr) as [rs' Hseeds].
  apply for_each_inr in Hseeds. rewrite Forall_forall in Hseeds.
  destruct (Hseeds seed) as [row Hrow]; [apply elem_of_seqZ; lia|].
  unfold preflight_split in Hrow. destruct (split_ _ r) as [e|res] eqn:Hs; [done|].
  by exists r, res.
Qed.

(** C33. A study that passed the preflight does not fail in the grid before it trains: if [preflight]
    on [/data] ends without an exception, then every job submitted for the study with the same
    number of rows and at most five seeds parses its command, loads records (more than none) and
    gets its split; what its task does is the training on that split. *)
Theorem preflight_covers_grid run_id seeds epochs max_rows study rows jobs :
  (preflight "/data" study max_rows).2 = inr rows →
  Grid.definitions run_id seeds epochs max_rows study = inr jobs → seeds ≤ 5 →
  Forall (λ j, ∃ o r res, parse_task (drop 2 (command_of j)) = inr o ∧
    load_records_ o = inr r ∧ n_records r ≠ 0 ∧ split_ o r = inr res ∧
    ∀ restored, run_task o restored
      = run_on as_split manifest_digest torch_save torch_load res (o_args o) restored) jobs.
Proof.
  intros Hp Hdefs Hseeds. pose proof (grid_job_cell run_id seeds epochs max_rows study jobs Hdefs) as Hjobs.
  eapply Forall_impl; [exact Hjobs|]. cbn beta.
  intros j (dataset & regimes & regime & model & seed & Hst & Hr & Hseed & _ & _ & Hparse).
  destruct (dict_get STUDIES study) as [datasets|] eqn:Hs; [|done]. cbn in Hst.
  destruct (preflight_inr "/data" study max_rows rows datasets dataset regimes regime seed)
    as (r & res & Hload & Hn & Hsplit); [done|done|by apply dict_get_elem|done|lia|].
  assert (data_file "/data" dataset = Grid.data_path dataset) as Hpath.
  { unfold data_file, Grid.data_path. by destruct (String.eqb dataset "DrugComb"). }
  rewrite Hpath in Hload, Hsplit.
  eexists _, r, res. split; [exact Hparse|]. split; [exact Hload|]. split; [done|]. split; [exact Hsplit|].
  intros restored. unfold task. erewrite on_split_inr; [reflexivity|exact Hload|exact Hsplit].
Qed.

(** ** The assertions of the smoke test *)
Hypothesis load_save : ∀ s, torch_load (torch_save s) = Some s.
Hypothesis save_text : ∀ s, str_ok (torch_save s) = true.
Hypothesis digest_text : ∀ res, str_ok (manifest_digest res) = true.

Lemma run_on_resumed res a before j :
  text_args (λ _, manifest_digest res) a = true → epochs a = 1 →
  run_on as_split manifest_digest torch_save torch_load res a None = inr before →
  published before = [j] →
  run_on as_split manifest_digest torch_save torch_load res a (Some (dumps j))
  = inr (Result [] 1 (metrics before)).
Proof using load_save save_text.
  intros Ha He (start & s & f & Hr & H1 & H2 & Ht & Hm & _)%run_inr Hpub.
  cbn in Hr. injection Hr as <- <-. rewrite He, Hpub in Ht. change (Z.to_nat (1 - 0)) with 1%nat in Ht. cbn [train] in Ht.
  destruct (task_epoch _ _) as [e|s1] eqn:Hs1; [done|]. injection Ht as <- <-.
  unfold run_on. eapply run_from; [exact H1|exact H2|by apply restore_checkpoint| |exact Hm].
  rewrite He. reflexivity.
Qed.

Lemma smoke_cell_inl o e :
  text_args (λ _, "") (o_args o) = true → epochs (o_args o) = 1 →
  smoke_cell o = inl e → run_task o None = inl e.
Proof using load_save save_text digest_text.
  intros Ha He. unfold smoke_cell, task, on_split.
  destruct (load_records_ o) as [x|r]; [by intros [= ->]|].
  destruct (split_ o r) as [x|res]; [by intros [= ->]|].
  assert (text_args (λ _, manifest_digest res) (o_args o) = true) as Ha'.
  { unfold text_args in *. cbn [forallb] in *. rewrite digest_text.
    rewrite !andb_true_iff in *. naive_solver. }
  destruct (run_on _ _ _ _ res _ None) as [x|before] eqn:Hb; [by intros [= ->]|].
  assert (∃ j, published before = [j]) as [j Hj].
  { pose proof Hb as (start & s & f & Hr & _ & _ & Ht & _)%run_inr. cbn in Hr. injection Hr as <- <-.
    rewrite He in Ht. change (Z.to_nat (1 - 0)) with 1%nat in Ht. cbn [train] in Ht. destruct (task_epoch _ _); [done|]. injection Ht as Ht _. by eexists. }
  rewrite Hj. rewrite (run_on_resumed res _ before j) by done. cbn [resumed_epoch metrics Z.eqb].
  unfold same_metrics. cbn [negb]. change (1 =? 1) with true. cbn [negb].
  assert (∀ q, Qeq_bool q q = true) as Hq by (intros q; apply Qeq_bool_iff; reflexivity).
  by rewrite !Hq.
Qed.

Lemma smoke_cells_inl l e :
  Forall (λ o, text_args (λ _, "") (o_args o) = true ∧ epochs (o_args o) = 1) l →
  smoke_cells l = inl e → ∃ o, o ∈ l ∧ run_task o None = inl e.
Proof using load_save save_text digest_text.
  induction 1 as [|o l [Ha He] _ IH]; cbn [smoke_cells]; [done|].
  destruct (smoke_cell o) as [x|[]] eqn:Hc.
  - intros [= ->]. exists o. split; [apply elem_of_cons; by left|]. by apply smoke_cell_inl.
  - intros (o' & ? & ?)%IH. exists o'. split; [apply elem_of_cons; by right|done].
Qed.

(** The assertions of the smoke test cannot fail: with a tensor library that loads what it
    saved, the smoke test ends with its message for all 32 cells, unless the first, uninterrupted
    run of a cell raises, and then with that exception. *)
Theorem smoke_fails_only_in_a_task data_dir output exists_ :
  plain data_dir = true → plain output = true → str_path data_dir = data_dir → str_path output = output → exists_ output = false →
  length (smoke_configs data_dir) = 32%nat ∧
  match smoke_main ["--data-dir"; data_dir; "--output"; output] exists_ with
  | inl e => ∃ o, o ∈ smoke_configs data_dir ∧ run_task o None = inl e
  | inr _ => True
  end.
Proof using load_save save_text digest_text.
  unfold plain. rewrite !negb_true_iff. intros Hd Ho Nd No Hex. split; [reflexivity|].
  unfold smoke_main, parse_args.
  rewrite (consume_option _ (Option_ "--data-dir" TPath true VNone) "--data-dir" _ _ _ _ (VStr data_dir))
    by (reflexivity || by apply plain_value || (cbn [type convert]; by rewrite ?Nd, ?No)).
  rewrite (consume_option _ (Option_ "--output" TPath true VNone) "--output" _ _ _ _ (VStr output))
    by (reflexivity || by apply plain_value || (cbn [type convert]; by rewrite ?Nd, ?No)).
  set (ns := <["--output" := VStr output]> (<["--data-dir" := VStr data_dir]> ∅)).
  change (consume smoke_options None [] ns false) with (@inr exn _ ns). cbv match.
  change (get_str ns "--output") with output. change (get_str ns "--data-dir") with data_dir.
  rewrite Hex. destruct (smoke_cells _) as [e|] eqn:Hc; [|done].
  apply smoke_cells_inl; [|done]. repeat constructor.
Qed.
End Scripts.

(** ** The scripts on the toy library *)
Definition demo_csv (path : string) : list string * list (gmap string string) :=
  (["userId"; "movieId"; "rating"; "timestamp"],
   [{["userId" := "1"; "movieId" := "2"; "rating" := "4.0"; "timestamp" := "964982703"]}]).

Definition demo_preflight : printing (list json) :=
  preflight (records := unit) (role := unit) (result_ := split)
    (λ _, "e") (λ _, [("drug_row", tt); ("drug_col", tt)]) (λ _ _, []) (λ _, tt) (λ _ _ _, tt)
    (λ _ _, demo_split) (λ _, false) (λ _, [("train", 8); ("test", 1)]) (λ _, "d1") (λ _, 5) (λ _, 0)
    (λ _ _, inr tt) (λ _ _, inr tt) (λ _, tt) demo_csv "/data" "expanded-v2" 120000.

Lemma preflight_covers_grid_witness :
  ∃ jobs, Grid.definitions "r1" 5 3 120000 "expanded-v2" = inr jobs ∧
    Forall (λ j, ∃ o, parse_task (drop 2 (command_of j)) = inr o) jobs.
Proof.
  destruct (Grid.definitions "r1" 5 3 120000 "expanded-v2") as [e|jobs] eqn:Hd;
    [vm_compute in Hd; discriminate Hd|].
  exists jobs. split; [reflexivity|].
  assert (∃ rows, demo_preflight.2 = inr rows) as [rows Hp] by (eexists; vm_compute; reflexivity).
  pose proof (preflight_covers_grid (T := toy_torch) (λ _, "e") (λ _, [("drug_row", tt); ("drug_col", tt)])
    (λ _ _, []) (λ _, tt) (λ _ _ _, tt) (λ _ _, demo_split) (λ _, false) (λ _, [("train", 8); ("test", 1)])
    (λ s, s) (λ _, "d1") (λ _, 5) (λ _, 0) (λ _ _, inr tt) (λ _ _, inr tt) (λ _, tt) demo_csv
    toy_save toy_load "r1" 5 3 120000 "expanded-v2" rows jobs Hp Hd ltac:(lia)) as H.
  eapply Forall_impl; [exact H|]. intros j (o & r & res & Hj & _). exists o. exact Hj.
Defined.

Lemma smoke_fails_only_in_a_task_witness :
  match smoke_main (T := toy_torch) (records := unit) (role := unit) (result_ := split)
          (λ _, "e") (λ _, [("drug_row", tt); ("drug_col", tt)]) (λ _ _, []) (λ _, tt) (λ _ _ _, tt)
          (λ _ _, demo_split) (λ _, false) (λ _, [("train", 8); ("test", 1)]) (λ s, s) (λ _, "d1")
          (λ _ _, inr tt) (λ _ _, inr tt) (λ _, tt) demo_csv toy_save toy_load
          ["--data-dir"; "/data"; "--output"; "/tmp/smoke"] (λ _, false) with
  | inl e => ∃ o, o ∈ smoke_configs "/data" ∧
      task (T := toy_torch) (λ _, "e") (λ _, [("drug_row", tt); ("drug_col", tt)]) (λ _ _, []) (λ _, tt)
        (λ _ _ _, tt) (λ _ _, demo_split) (λ _, false) (λ _, [("train", 8); ("test", 1)]) (λ s, s) (λ _, "d1")
        (λ _ _, inr tt) (λ _ _, inr tt) (λ _, tt) demo_csv toy_save toy_load o None = inl e
  | inr _ => True
  end.
Proof.
  apply (smoke_fails_only_in_a_task (T := toy_torch) (λ _, "e") (λ _, [("drug_row", tt); ("drug_col", tt)])
    (λ _ _, []) (λ _, tt) (λ _ _ _, tt) (λ _ _, demo_split) (λ _, false) (λ _, [("train", 8); ("test", 1)])
    (λ s, s) (λ _, "d1") (λ _ _, inr tt) (λ _ _, inr tt) (λ _, tt) demo_csv toy_save toy_load
    toy_load_save toy_save_text (λ _, eq_refl) "/data" "/tmp/smoke" (λ _, false)).
  - reflexivity.
  - reflexivity.
  - reflexivity.
  - reflexivity.
  - reflexivity.
Defined.
