(* ===== verification/StudySubmit.v ===== *)
(** * StudySubmit: submitting a study (examples/heterosplit/submit.py)

    The command line of submit.py: the grid of a study is posted as one batch, and the jobs the
    API answers with are kept in a tracking file, which aggregate.py reads.  Paths are normalized. *)
From S2P Require Import Prelude Effects PyStr Utf8 Json JsonParse JsonRound Argparse Checkpoint Client Protocols.
Local Open Scope string_scope.
Local Open Scope list_scope.
Local Open Scope Z_scope.

Definition submit_options : list option_ :=
  [Option_ "--run-id" TStr true VNone;
   Option_ "--study" (TChoice (fst <$> STUDIES)) false (VStr "expanded-v2");
   Option_ "--seeds" TInt false (VInt 5);
   Option_ "--epochs" TInt false (VInt 3);
   Option_ "--max-rows" TInt false (VInt 120000);
   Option_ "--output" TPath false (VStr "results/heterosplit/jobs.json")].

(** What a run leaves: the request it sent, the file it wrote, and its message or exception. *)
Record submission := Submission {
  sent : option Client.http; tracking : option (string * string); outcome_ : exn + string }.

(** [len(v)] *)
Definition json_len (v : json) : exn + Z :=
  match v with
  | JArr l => inr (Z.of_nat (length l))
  | JObj d => inr (Z.of_nat (length d))
  | JStr s => inr (Z.of_nat (py_len s))
  | _ => inl (TypeError "object of type has no len()")
  end.

Section Submit.
Context (uuid : string)                        (* the identifier of the request *)
        (api : Client.http → exn + json).      (* the API's answer *)

Definition submit_main (argv : list string) : submission :=
  match parse_args submit_options argv with
  | inl e => Submission None None (inl e)
  | inr ns =>
      match Grid.definitions (get_str ns "--run-id") (get_int ns "--seeds") (get_int ns "--epochs")
              (get_int ns "--max-rows") (get_str ns "--study") with
      | inl e => Submission None None (inl e)
      | inr jobs =>
          let req := Client.batch (Client.new "http://localhost:8080") uuid (JObj <$> jobs) in
          match api req with
          | inl e => Submission (Some req) None (inl e)
          | inr answer =>
              let output := get_str ns "--output" in
              Submission (Some req) (Some (output, dumps_indent EmptyString answer))
                (match json_len answer with
                 | inl e => inl e
                 | inr n => inr ("Submitted " +:+ pretty n +:+ " jobs; tracking file: " +:+ output)
                 end)
          end
      end
  end.

(** Nothing is sent for a command line or a grid that is refused; otherwise one request posts the
    whole grid, and a tracking file is written exactly when the API answered, holding its answer. *)
Theorem submission_is_tracked argv :
  match sent (submit_main argv) with
  | None => tracking (submit_main argv) = None ∧ ∃ e, outcome_ (submit_main argv) = inl e
  | Some req =>
      (∃ run_id seeds epochs max_rows study jobs,
        Grid.definitions run_id seeds epochs max_rows study = inr jobs ∧
        Client.h_method req = "POST" ∧ Client.h_url req = "http://localhost:8080/v1/jobs/batch" ∧
        Client.h_body req = Some (dumps (JArr (JObj <$> jobs)))) ∧
      match api req with
      | inl e => tracking (submit_main argv) = None ∧ outcome_ (submit_main argv) = inl e
      | inr answer => ∃ path text, tracking (submit_main argv) = Some (path, text) ∧
                        (json_ok answer = true → loads text = Some answer)
      end
  end.
Proof.
  unfold submit_main. destruct (parse_args submit_options argv) as [e|ns]; [by split; [|exists e]|].
  destruct (Grid.definitions _ _ _ _ _) as [e|jobs] eqn:Hd; [by split; [|exists e]|].
  set (req := Client.batch _ _ _).
  assert (∃ run_id seeds epochs max_rows study jobs,
        Grid.definitions run_id seeds epochs max_rows study = inr jobs ∧
        Client.h_method req = "POST" ∧ Client.h_url req = "http://localhost:8080/v1/jobs/batch" ∧
        Client.h_body req = Some (dumps (JArr (JObj <$> jobs)))) as Hreq.
  { do 5 eexists. exists jobs. split_and!; [exact Hd|reflexivity..]. }
  destruct (api req) as [e|answer] eqn:Ha; cbn [sent tracking outcome_]; rewrite Ha; (split; [exact Hreq|]).
  - done.
  - eexists _, _. split; [done|]. apply loads_dumps_indent.
Qed.
End Submit.
