(* ===== verification/StudyGrid.v ===== *)
(** * StudyGrid: the grid of a study, submitted

    submit.py, the SDK's client, the HTTP interface and the store together: the definitions the
    script generates are jobs the control plane accepts, they are stored as one batch, and the
    tracking file lists them. *)
From stdpp Require Import sorting.
From S2P Require Import Prelude Effects PyStr Utf8 Json JsonParse JsonRound Calendar Times Sha256 Wire World.
From S2P Require Import Rpc Artifacts Worker WorkerSafety Logs Checkpoint Control ControlSpec ControlRefine ControlProps ControlBatch.
From S2P Require Import EndToEnd WireText Queries Client Api ApiText ApiProps Argparse Protocols StudySubmit.
Import Store Query Api.
Local Open Scope string_scope.
Local Open Scope list_scope.
Local Open Scope Z_scope.

Lemma stored_row d j id : stored d j id → ∃ row, jobs d !! id = Some row ∧ Definition_ row = j.
Proof. intros (_ & row & Hrow & _ & _ & Hm%job_text_inj). eauto. Qed.

(** ** The jobs of the grid *)
Definition grid_env : gmap string string :=
  <["MKL_NUM_THREADS" := "1"]> (<["OMP_NUM_THREADS" := "1"]> ∅).

Lemma dec_grid_env :
  dec_map None (JObj [("OMP_NUM_THREADS", JStr "1"); ("MKL_NUM_THREADS", JStr "1")]) = Some (Some grid_env).
Proof. vm_compute. reflexivity. Qed.

Section Grid.
Context (run_id : string) (epochs max_rows : Z) (study : string).

Definition grid_command (dataset regime model : string) (seed : Z) : list string :=
  ["python"; "examples/heterosplit/task.py"; "--dataset"; dataset; "--data"; Grid.data_path dataset;
   "--regime"; regime; "--model"; model; "--seed"; pretty seed; "--epochs"; pretty epochs;
   "--max-rows"; pretty max_rows; "--study"; study].
Definition grid_prefix (name : string) : string := "heterosplit/" +:+ study +:+ "/" +:+ run_id +:+ "/" +:+ name.

(** What the API makes of a cell. *)
Definition grid_job (dataset regime model : string) (seed : Z) : Job :=
  let name := Grid.job_name dataset regime model seed in
  MkJob name (grid_command dataset regime model seed) (Some grid_env) (MkResources 1 2048 0) 3 1800
    (Grid.idempotency_key run_id study name) (grid_prefix name).

Lemma dec_grid_job dataset regime model seed :
  dec_job (JObj (Grid.job run_id epochs max_rows study dataset regime model seed))
  = Some (grid_job dataset regime model seed).
Proof.
  unfold dec_job, Grid.job. cbn [dec_struct].
  eapply dec_next; [reflexivity|].
  eapply dec_next.
  { change (set_job "command" ?v (MkJob ?n ?c ?m ?r ?x ?t ?k ?p)) with
      (l ← dec_slice (dec_string EmptyString) v; Some (MkJob n (default [] l) m r x t k p)).
    cbn [dec_slice]. fold (grid_command dataset regime model seed).
    rewrite (mapM_some (dec_string EmptyString) JStr (λ _, true)); [reflexivity|done|done]. }
  eapply dec_next.
  { change (set_job "environment" ?v (MkJob ?n ?c ?m ?r ?x ?t ?k ?p)) with
      (y ← dec_map m v; Some (MkJob n c y r x t k p)).
    rewrite dec_grid_env. reflexivity. }
  do 5 (eapply dec_next; [reflexivity|]). reflexivity.
Qed.

(** *** Its parts *)
Definition cell_ok (study dataset regime model : string) : bool :=
  let stem := Grid.stem dataset regime model in
  forallb text_ok [dataset; Grid.data_path dataset; regime; model; study] && forallb ascii_ok [dataset; regime; model; study] &&
  (len stem <=? 64) && (len study <=? 16) && nonempty stem &&
  ascii_ok stem && text_ok stem && all_chars (not_char ".") stem &&
  negb (contains ".." ("heterosplit/" +:+ study)).
Definition cells_ok (s : string * list (string * list string)) : bool :=
  forallb (λ dr : string * list string, forallb (λ regime, forallb (cell_ok s.1 dr.1 regime) Grid.models) dr.2) s.2.
Lemma studies_ok : forallb cells_ok STUDIES = true.
Proof. by vm_compute. Qed.

Lemma cell_is_ok datasets dataset regimes regime model :
  dict_get STUDIES study = Some datasets → (dataset, regimes) ∈ datasets → regime ∈ regimes → model ∈ Grid.models →
  cell_ok study dataset regime model = true.
Proof.
  intros Hs Hd Hr Hm. pose proof studies_ok as H. rewrite forallb_forall in H.
  apply dict_get_elem, list_elem_of_In in Hs. specialize (H _ Hs). unfold cells_ok in H. cbn [fst snd] in H.
  rewrite forallb_forall in H. specialize (H _ (proj1 (list_elem_of_In _ _) Hd)). cbn [fst snd] in H.
  rewrite forallb_forall in H. specialize (H _ (proj1 (list_elem_of_In _ _) Hr)).
  rewrite forallb_forall in H. exact (H _ (proj1 (list_elem_of_In _ _) Hm)).
Qed.

Lemma name_stem dataset regime model seed :
  Grid.job_name dataset regime model seed = Grid.stem dataset regime model +:+ pretty seed.
Proof. unfold Grid.job_name, Grid.stem. by rewrite !string_app_assoc. Qed.

Lemma len_app a b : len (a +:+ b) = len a + len b.
Proof. unfold len. rewrite string_length_app. lia. Qed.
Lemma len_nonneg s : 0 ≤ len s.
Proof. unfold len. lia. Qed.

Lemma small_number seed : 0 ≤ seed < 1000 → 1 ≤ len (pretty seed) ≤ 3.
Proof.
  intros Hs. assert (forallb (λ z, (1 <=? len (pretty z)) && (len (pretty z) <=? 3)) (seqZ 0 1000) = true) as H by by vm_compute.
  rewrite forallb_forall in H. specialize (H seed). rewrite andb_true_iff, !Z.leb_le in H. apply H, list_elem_of_In, elem_of_seqZ. lia.
Qed.

Lemma text_ok_number (z : Z) : text_ok (pretty z) = true.
Proof. unfold text_ok, NUL. rewrite contains_none; [done|]. by apply pretty_not_char. Qed.

(** No two dots over a slash. *)
Lemma dots_slash a b : contains ".." (a +:+ String "/" b) = contains ".." a || contains ".." b.
Proof.
  induction a as [|c a IH]; [done|]. rewrite string_cons_app.
  change (contains ".." (String c (a +:+ String "/" b))) with
    (has_prefix ".." (String c (a +:+ String "/" b)) || contains ".." (a +:+ String "/" b)).
  change (contains ".." (String c a)) with (has_prefix ".." (String c a) || contains ".." a).
  rewrite IH, orb_assoc. f_equal. f_equal. destruct a as [|c' a]; [|done].
  cbn [has_prefix]. by rewrite !andb_false_r.
Qed.
Lemma no_dots s : all_chars (not_char ".") s = true → contains ".." s = false.
Proof.
  induction s as [|c s IH]; [done|]. cbn [all_chars]. intros [Hc Hs]%andb_true_iff.
  change (contains ".." (String c s)) with (has_prefix ".." (String c s) || contains ".." s).
  rewrite IH, orb_false_r by done. cbn [has_prefix]. unfold not_char in Hc. rewrite Ascii.eqb_sym.
  by destruct (Ascii.eqb c ".").
Qed.

(** A run identifier the control plane takes: ASCII, no character 0, no two dots, 128 bytes. *)
Definition run_id_ok : bool :=
  ascii_ok run_id && text_ok run_id && negb (contains ".." run_id) && (len run_id <=? 128).

Section Cell.
Context (dataset regime model : string) (seed : Z).
Context (Hrun : run_id_ok = true) (Hcell : cell_ok study dataset regime model = true) (Hseed : 0 ≤ seed < 1000).
Let name := Grid.job_name dataset regime model seed.

Lemma cell_facts :
  forallb text_ok [dataset; Grid.data_path dataset; regime; model; study] = true ∧
  forallb ascii_ok [dataset; regime; model; study] = true ∧
  len study ≤ 16 ∧ 1 ≤ len name ≤ 67 ∧ ascii_ok name = true ∧ text_ok name = true ∧
  contains ".." name = false ∧ contains ".." ("heterosplit/" +:+ study) = false.
Proof using Hcell Hseed.
  pose proof (small_number seed Hseed) as Hs. pose proof (len_nonneg (Grid.stem dataset regime model)).
  unfold cell_ok in Hcell. rewrite !andb_true_iff, !Z.leb_le, negb_true_iff in Hcell.
  destruct Hcell as ((((((((Ht & Ha) & Hl) & Hst) & Hn) & Has) & Hts) & Hd) & Hp).
  unfold name. rewrite name_stem, len_app. split_and!; try done; try lia.
  - by rewrite Invoke.ascii_ok_app, Has, Invoke.pretty_Z_ok.
  - apply text_ok_app; [done|apply text_ok_number].
  - apply no_dots. rewrite all_chars_app, Hd. by apply pretty_not_char.
Qed.

Lemma run_id_facts :
  ascii_ok run_id = true ∧ text_ok run_id = true ∧ contains ".." run_id = false ∧ len run_id ≤ 128.
Proof using Hrun.
  clear -Hrun. unfold run_id_ok in Hrun. rewrite !andb_true_iff, negb_true_iff, Z.leb_le in Hrun. tauto.
Qed.

Lemma grid_job_valid :
  acceptable (grid_job dataset regime model seed).
Proof using Hrun Hcell Hseed.
  destruct cell_facts as (Ht & Ha & Hst & Hl & Hna & Hnt & Hnd & Hpd).
  destruct run_id_facts as (Hra & Hrt & Hrd & Hrl).
  pose proof (len_nonneg run_id). pose proof (len_nonneg study).
  cbn [forallb] in Ht. rewrite !andb_true_iff in Ht. destruct Ht as (T1 & T2 & T3 & T4 & T5 & _).
  assert (len (Grid.idempotency_key run_id study name) = 14 + len study + len run_id + len name) as Hkl.
  { unfold Grid.idempotency_key. rewrite !len_app. unfold len. simpl. lia. }
  assert (len (grid_prefix name) = 14 + len study + len run_id + len name) as Hpl.
  { unfold grid_prefix. rewrite !len_app. unfold len. simpl. lia. }
  assert (text_ok (Grid.idempotency_key run_id study name) = true ∧ text_ok (grid_prefix name) = true) as [K1 K2].
  { unfold Grid.idempotency_key, grid_prefix. split; repeat first [assumption | reflexivity | apply text_ok_app]. }
  assert (contains ".." (grid_prefix name) = false) as Hdots.
  { unfold grid_prefix. rewrite <- (string_app_assoc "heterosplit/" study).
    change ("/" +:+ run_id +:+ "/" +:+ name) with (String "/" (run_id +:+ String "/" name)).
    by rewrite !dots_slash, Hpd, Hrd, Hnd. }
  split.
  - unfold Validate, grid_job.
    cbn [Name Command Environment JobResources JobMaxAttempts TimeoutSeconds IdempotencyKey ArtifactPrefix]. fold name.
    rewrite Hkl, Hpl, Hdots. change (has_prefix "/" (grid_prefix name)) with false.
    rewrite !andb_true_iff, !Z.leb_le, !negb_true_iff. split_and!; try lia; try done.
    unfold grid_command. cbn [forallb]. by rewrite !text_ok_number, T1, T2, T3, T4, T5.
  - unfold texts_ok, grid_job. cbn [Name IdempotencyKey ArtifactPrefix]. fold name. by rewrite Hnt, K1, K2.
Qed.

Lemma grid_definition_ok : json_ok (JObj (Grid.job run_id epochs max_rows study dataset regime model seed)) = true.
Proof using Hrun Hcell Hseed.
  destruct cell_facts as (_ & Ha & _ & _ & Hna & _). destruct run_id_facts as (Hra & _).
  cbn [forallb] in Ha. rewrite !andb_true_iff in Ha. destruct Ha as (A1 & A2 & A3 & A4 & _).
  assert (json_ok (JArr (JStr <$> grid_command dataset regime model seed)) = true) as Hc.
  { apply (json_ok_map JStr str_ok); [done|]. unfold grid_command. cbn [forallb].
    rewrite !(ascii_str _ (Invoke.pretty_Z_ok _)), (ascii_str _ A1), (ascii_str _ A2), (ascii_str _ A3), (ascii_str _ A4).
    assert (str_ok (Grid.data_path dataset) = true) as ->; [|done].
    unfold Grid.data_path. by destruct (String.eqb _ _). }
  assert (str_ok name = true) as Hn by by apply ascii_str.
  assert (str_ok (Grid.idempotency_key run_id study name) = true ∧ str_ok (grid_prefix name) = true) as [Hk Hp].
  { unfold Grid.idempotency_key, grid_prefix. split; apply ascii_str; by rewrite !Invoke.ascii_ok_app, A4, Hra, Hna. }
  unfold Grid.job. fold name. fold (grid_command dataset regime model seed). fold (grid_prefix name).
  cbn [json_ok forallb fst snd map]. cbn [json_ok] in Hc. rewrite Hn, Hk, Hp, Hc. vm_compute. reflexivity.
Qed.
End Cell.
End Grid.

(** ** The batch *)
Definition cell_tuples (seeds : Z) (datasets : list (string * list string)) : list (string * string * string * Z) :=
  Grid.cells seeds (λ d r m s, (d, r, m, s)) datasets.
Lemma cells_tuples {A} seeds (f : string → string → string → Z → A) datasets :
  Grid.cells seeds f datasets = (λ '(d, r, m, s), f d r m s) <$> cell_tuples seeds datasets.
Proof. unfold cell_tuples. by rewrite Grid.cells_fmap. Qed.

Lemma tuple_elem seeds datasets d r m s :
  (d, r, m, s) ∈ cell_tuples seeds datasets →
  ∃ regimes, (d, regimes) ∈ datasets ∧ r ∈ regimes ∧ m ∈ Grid.models ∧ 0 ≤ s < seeds.
Proof.
  unfold cell_tuples, Grid.cells. intros ([d' rs] & H & Hd)%list_elem_of_bind.
  apply list_elem_of_bind in H as (r' & H & Hr). apply list_elem_of_bind in H as (m' & H & Hm).
  apply list_elem_of_fmap in H as (s' & [= <- <- <- <-] & Hs%elem_of_seqZ). exists rs. split_and!; done || lia.
Qed.

Lemma mapM_fmap_some {A B C} (f : B → option C) (g : A → B) (h : A → C) (l : list A) :
  (∀ x, x ∈ l → f (g x) = Some (h x)) → mapM f (g <$> l) = Some (h <$> l).
Proof.
  induction l as [|x l IH]; intros H; [done|]. rewrite !fmap_cons. cbn [mapM].
  rewrite H by (apply elem_of_cons; by left). cbn [mbind option_bind].
  rewrite IH by (intros y Hy; apply H, elem_of_cons; by right). done.
Qed.

Section Batch.
Context (run_id : string) (seeds epochs max_rows : Z) (study : string) (datasets : list (string * list string)).
Context (Hstudy : dict_get STUDIES study = Some datasets) (Hrun : run_id_ok run_id = true) (Hseeds : 0 < seeds < 1000).
Let f := Grid.job run_id epochs max_rows study.
Let g := grid_job run_id epochs max_rows study.

Lemma cell_of d r m s :
  (d, r, m, s) ∈ cell_tuples seeds datasets → cell_ok study d r m = true ∧ 0 ≤ s < 1000.
Proof using Hstudy Hseeds.
  intros (rs & Hd & Hr & Hm & Hs)%tuple_elem. split; [by eapply cell_is_ok|lia].
Qed.

Lemma grid_decodes : dec_jobs (JArr (JObj <$> Grid.cells seeds f datasets)) = Some (Grid.cells seeds g datasets).
Proof using Type.
  unfold dec_jobs. cbn [dec_slice]. rewrite !cells_tuples, <- list_fmap_compose.
  erewrite mapM_fmap_some; [reflexivity|]. intros [[[d r] m] s] _. apply dec_grid_job.
Qed.

Lemma grid_json_ok : json_ok (JArr (JObj <$> Grid.cells seeds f datasets)) = true.
Proof using Hstudy Hrun Hseeds.
  rewrite cells_tuples, <- list_fmap_compose. cbn [json_ok]. apply forallb_forall.
  intros v Hv%list_elem_of_In. apply list_elem_of_fmap in Hv as ([[[d r] m] s] & -> & Hin).
  destruct (cell_of _ _ _ _ Hin). by apply grid_definition_ok.
Qed.

Lemma grid_valid : Forall acceptable (Grid.cells seeds g datasets).
Proof using Hstudy Hrun Hseeds.
  rewrite cells_tuples. apply Forall_fmap, Forall_forall. intros [[[d r] m] s] Hin.
  destruct (cell_of _ _ _ _ Hin). by apply grid_job_valid.
Qed.

Lemma grid_keys : IdempotencyKey <$> Grid.cells seeds g datasets
  = Grid.idempotency_key run_id study <$> Grid.cells seeds Grid.job_name datasets.
Proof using Type. by rewrite !Grid.cells_fmap. Qed.
Lemma grid_keys_distinct : NoDup (IdempotencyKey <$> Grid.cells seeds g datasets).
Proof using Hstudy.
  rewrite grid_keys. apply NoDup_fmap_2; [|by eapply Grid.names_distinct].
  intros n n' Hn. unfold Grid.idempotency_key in Hn. by repeat apply app_inj_l in Hn.
Qed.
End Batch.

(** What the keys of a run begin with. *)
Definition run_keys (run_id study : string) : string := "heterosplit-" +:+ study +:+ "-" +:+ run_id +:+ "-".

Section Server.
Context (zone_at : Z → Z) (pg_time : Z → string) (event_id : nat → Z) (text_leb : string → string → bool)
        (metrics ping : bool).
Notation Handler := (Handler zone_at pg_time event_id text_leb metrics ping).

Lemma serve_batch base u js e d q :
  received base (Client.batch base u js) = Some q →
  Handler e q d = PostBatch_handler zone_at e q d ∧ Body q = dumps (JArr js).
Proof.
  unfold Client.batch. change "/v1/jobs/batch" with (path_of ["v1"; "jobs"; "batch"]).
  rewrite received_path by by repeat constructor. intros [= <-]. split; [|done].
  unfold Api.Handler. rewrite found by by repeat constructor. by destruct metrics.
Qed.

(** C34. A study is submitted as it was defined: for a run identifier the control plane takes and a
    grid of at most 1000 jobs, none of them submitted before and identifiers that are not in use, the request of submit.py is
    answered with 200 and one row per cell, in order, with exactly the definition the script
    generated for it; the answer gives aggregate.py the identifier of each, and in every later
    state the API shows that job and a worker that leases it is given that definition. *)
Theorem study_is_submitted L T d e base u run_id seeds epochs max_rows study defs q :
  reached L T d → ticking e → run_id_ok run_id = true →
  Grid.definitions run_id seeds epochs max_rows study = inr defs → (length defs ≤ 1000)%nat →
  len (dumps (JArr (JObj <$> defs))) ≤ 4194304 →
  (∀ k j, jobs d !! k = Some j → has_prefix (run_keys run_id study) (IdempotencyKey (Definition_ j)) = false) →
  unused e 0 (length defs) d →
  received base (Client.batch base u (JObj <$> defs)) = Some q →
  ∃ rows d1, Handler e q d = (Answer (rows_json zone_at rows), d1) ∧
    Forall2 (λ def row, dec_job (JObj def) = Some (Definition_ row)) defs rows ∧
    Forall (λ row, text_item (jobrow_json zone_at row) "id" = inr (ID row)) rows ∧
    ∀ T1 cs T2 d2, runs L T1 d1 cs T2 d2 →
      Forall (λ row, kept zone_at pg_time event_id text_leb metrics ping L base (ID row) (Definition_ row) d2) rows.
Proof.
  intros [HI _]%reached_inv He Hrun Hdefs Hlen Hbody Hkeys Hfresh Hq.
  unfold Grid.definitions in Hdefs. destruct (Z.leb_spec (Z.min seeds (Z.min epochs max_rows)) 0) as [|Hpos]; [done|].
  destruct (dict_get STUDIES study) as [datasets|] eqn:Hst; [|done]. injection Hdefs as <-.
  assert (0 < seeds ∧ 0 < epochs ∧ 0 < max_rows) as (Hs & Hep & Hmr) by lia.
  destruct (Grid.grid_has_one_job_per_cell run_id seeds epochs max_rows study datasets Hst Hs Hep Hmr) as (defs & Hd & _ & Hn).
  assert (defs = Grid.cells seeds (Grid.job run_id epochs max_rows study) datasets) as ->.
  { unfold Grid.definitions in Hd. rewrite (proj2 (Z.leb_gt _ _)), Hst in Hd by lia. by injection Hd. }
  set (js := Grid.cells seeds (grid_job run_id epochs max_rows study) datasets).
  assert (length js = length (Grid.cells seeds (Grid.job run_id epochs max_rows study) datasets)) as Hlj.
  { unfold js. by rewrite !cells_tuples, !length_fmap. }
  assert (0 < seeds < 1000 ∧ (1 ≤ length js ≤ 1000)%nat) as [Hseeds Hjs].
  { destruct (String.eqb study "expanded-v2"); lia. }
  destruct (batch_accepted js e d) as (rows & d1 & Ht & [Hds _ _ _ _] & HI1 & Hst1); try done.
  { by apply grid_valid. }
  { by apply grid_keys_distinct. }
  { apply Forall_forall. intros j Hj. apply no_job_with_key. intros k x Hx Heq. specialize (Hkeys k x Hx).
    assert (IdempotencyKey j ∈ IdempotencyKey <$> js) as Hin by by apply list_elem_of_fmap_2.
    unfold js in Hin. rewrite grid_keys in Hin. apply list_elem_of_fmap in Hin as (name & Hname & _).
    rewrite Heq, Hname in Hkeys. unfold Grid.idempotency_key, run_keys in Hkeys.
    rewrite <- !string_app_assoc, has_prefix_app in Hkeys. done. }
  { by rewrite Hlj. }
  exists rows, d1. destruct (serve_batch base u _ e d q Hq) as [Hserve Hb]. split_and!.
  - rewrite Hserve. unfold PostBatch_handler, decode. rewrite Hb, (proj2 (Z.leb_le _ _)) by done.
    rewrite loads_dumps_eq by by apply grid_json_ok. cbn [mbind option_bind]. rewrite grid_decodes. fold js.
    by rewrite Ht.
  - assert (Forall2 (λ def j, dec_job (JObj def) = Some j)
      (Grid.cells seeds (Grid.job run_id epochs max_rows study) datasets) js) as H2.
    { unfold js. rewrite !cells_tuples. apply Forall2_fmap, Forall_Forall2_diag, Forall_forall.
      intros [[[dd r] m] s] _. apply dec_grid_job. }
    rewrite <- Hds in H2. by apply Forall2_fmap_r in H2.
  - apply Forall_forall. done.
  - intros T1 cs T2 d2 Hr. destruct (runs_steps _ _ _ _ _ _ Hr HI1) as (ls & Hss & _).
    eapply Forall_impl; [exact Hst1|]. intros row Hrow.
    apply (stored_steps L d1 ls d2) in Hrow as (row' & Hrow' & Hdef)%stored_row; [|done..].
    eapply stored_is_kept; [by eapply steps_inv|done|done].
Qed.
End Server.

Lemma study_is_submitted_witness :
  ∃ defs q rows d1, Grid.definitions "run-7" 1 3 1000 "original-v1" = inr defs ∧ length defs = 16%nat ∧
    Api.Handler (λ _, 0) (rfc3339 0) Z.of_nat String.leb true true (demo_at 1) q empty_db
      = (Answer (rows_json (λ _, 0) rows), d1) ∧
    Forall2 (λ def row, dec_job (JObj def) = Some (Definition_ row)) defs rows.
Proof.
  destruct (Grid.definitions "run-7" 1 3 1000 "original-v1") as [x|defs] eqn:Hdefs; [vm_compute in Hdefs; discriminate|].
  assert (length defs = 16%nat ∧ (len (dumps (JArr (JObj <$> defs))) <=? 4194304) = true) as [Hl Hb].
  { pose proof Hdefs as H. vm_compute in H. injection H as <-. by vm_compute. }
  exists defs. eexists (MkReq "POST" "/v1/jobs/batch" EmptyString "u1" (dumps (JArr (JObj <$> defs)))).
  destruct (study_is_submitted (λ _, 0) (rfc3339 0) Z.of_nat String.leb true true 15 0 empty_db (demo_at 1)
    demo_base "u1" "run-7" 1 3 1000 "original-v1" defs
    (MkReq "POST" "/v1/jobs/batch" EmptyString "u1" (dumps (JArr (JObj <$> defs))))) as (rows & d1 & H1 & H2 & _).
  - exists 0, []. constructor.
  - apply demo_ticking.
  - by vm_compute.
  - exact Hdefs.
  - rewrite Hl. lia.
  - by apply Z.leb_le.
  - intros k j Hj. discriminate Hj.
  - split; [intros k _; reflexivity|]. intros k k' _ _ Heq. simpl in Heq. unfold demo_id in Heq. apply app_inj_l in Heq. apply (inj pretty) in Heq. lia.
  - apply (received_path demo_base "u1" "POST" "v1" ["jobs"; "batch"] (Some (JArr (JObj <$> defs))) None). by repeat constructor.
  - exists rows, d1. split; [reflexivity|]. split; [exact Hl|]. split; [exact H1|exact H2].
Defined.
