(* ===== verification/Aggregate.v ===== *)
(** * Aggregate: collecting the results of a study (examples/heterosplit/aggregate.py)

    The control plane and the object store are parameters: what the API answers for a job, its
    attempts and artifacts, the bytes of an object; so is the decoder of a metrics file.  AUC
    values are exact rationals; the table prints them rounded to four digits. *)
From Stdlib Require Import QArith.
From stdpp Require Import sorting.
From S2P Require Import Prelude Effects PyStr Json JsonParse JsonRound PyInt Calendar Times Argparse Sha256 Wire Checkpoint Client.
Local Open Scope string_scope.
Local Open Scope list_scope.

Record stored := Stored { s_attempt : string; s_key : string; s_checksum : string }.
Record row := Row { r_study : option string; r_dataset : string; r_regime : string; r_model : string; r_auc : Q }.

Definition terminal (state : string) : bool :=
  existsb (String.eqb state) ["SUCCEEDED"; "FAILED"; "CANCELLED"].

(** ** The table *)
Definition key : Type := string * string * string * string.
Definition group_key (r : row) : key :=
  (default "original-v1" (r_study r), r_dataset r, r_regime r, r_model r).

(** [groups[key].append(value)] of a [defaultdict(list)] *)
Fixpoint append_to (g : list (key * list Q)) k v :=
  match g with
  | [] => [(k, [v])]
  | (k', vs) :: g => if bool_decide (k = k') then (k', vs ++ [v]) :: g else (k', vs) :: append_to g k v
  end.
Definition groups (rows : list row) : list (key * list Q) :=
  foldl (λ g r, append_to g (group_key r) (r_auc r)) [] rows.

(** [sorted(groups.items())]: the keys are different and compared column by column. *)
Definition key_parts (k : key) : list string := let '(a, b, c, d) := k in [a; b; c; d].
Definition group_le (x y : key * list Q) : Prop := parts_leb (key_parts x.1) (key_parts y.1) = true.
#[export] Instance group_le_dec x y : Decision (group_le x y).
Proof. unfold group_le. apply _. Defined.
Definition sorted_groups (rows : list row) : list (key * list Q) := merge_sort group_le (groups rows).

(** [f"{q:.4f}"]: to the nearest, a tie to the even digit. *)
Definition round_half_even (a : Z) (b : positive) : Z :=
  let q := (a / Zpos b)%Z in
  let r := (2 * (a mod Zpos b))%Z in
  if (r <? Zpos b)%Z then q else if (Zpos b <? r)%Z then (q + 1)%Z else if Z.even q then q else (q + 1)%Z.
Definition digits4 (n : Z) : string := pretty (n / 10000)%Z +:+ "." +:+ dec 4 (n mod 10000)%Z.
Definition fixed4 (q : Q) : string :=
  (if (Qnum q <? 0)%Z then "-" else EmptyString) +:+ digits4 (round_half_even (Z.abs (Qnum q) * 10000) (Qden q)).

(** [statistics.mean] and, rounded to four digits, [statistics.stdev]. *)
Definition sum (l : list Q) : Q := foldr Qplus 0%Q l.
Definition mean (l : list Q) : Q := (sum l / inject_Z (Z.of_nat (length l)))%Q.
Definition variance (l : list Q) : Q :=
  (sum ((λ x, (x - mean l) * (x - mean l)) <$> l) / inject_Z (Z.of_nat (length l) - 1))%Q.
Definition sqrt4 (v : Q) : string := digits4 ((Z.sqrt (400000000 * Qnum v / Zpos (Qden v)) + 1) / 2)%Z.
Definition stdev4 (l : list Q) : string :=
  if (1 <? length l)%nat then sqrt4 (variance l) else fixed4 0.

Definition table_line (g : key * list Q) : string :=
  "| " +:+ join " | " (key_parts g.1) +:+ " | " +:+ pretty (Z.of_nat (length g.2)) +:+ " | "
  +:+ fixed4 (mean g.2) +:+ " | " +:+ stdev4 g.2 +:+ " |".

Definition heading : list string :=
  ["# HeteroSplit distributed experiment results"; EmptyString;
   "A scheduler demonstration; reduced data/epochs are not a replication of the published study."; EmptyString;
   "Context holdouts use context-blind link predictors; month holdouts are not chronological forecasting."; EmptyString;
   "| Study | Dataset | Regime | Model | Seeds | AUC mean | AUC std |"; "|---|---|---|---|---:|---:|---:|"].
Definition newline : string := String "010" EmptyString.
Definition summary_text (table : list (key * list Q)) : string :=
  join newline (heading ++ (table_line <$> table)) +:+ newline.

Example rounding :
  fixed4 (mean [(1 # 2)%Q; (2 # 3)%Q]) = "0.5833" ∧ stdev4 [(1 # 2)%Q; (2 # 3)%Q] = "0.1179" ∧
  stdev4 [(1 # 2)%Q] = "0.0000" ∧ fixed4 (1 # 20000) = "0.0000" ∧ fixed4 (3 # 20000) = "0.0002".
Proof. by vm_compute. Qed.

(** ** The script *)
Section Aggregate.
Context (get_job : nat → string → exn + (string * string))   (* id and state, at the [n]-th poll *)
        (clock : nat → Z)                       (* time.monotonic() after the [n]-th poll *)
        (attempts : string → list string)       (* attempt ids of a job, oldest first *)
        (artifacts : string → list stored)
        (get_object : string → string)
        (decode_row : string → option row).

(** [[client.get(j["id"]) for j in jobs]] *)
Fixpoint states_of (n : nat) (jobs : list json) : exn + list (string * string) :=
  match jobs with
  | [] => inr []
  | j :: jobs =>
      match text_item j "id" with
      | inl e => inl e
      | inr id =>
          match get_job n id with
          | inl e => inl e
          | inr s => match states_of n jobs with inl e => inl e | inr ss => inr (s :: ss) end
          end
      end
  end.

(** The loop that waits for the jobs to end; [fuel] bounds the polls. *)
Fixpoint wait_all (fuel n : nat) (jobs : list json) (deadline : Z) : outcome (list (string * string)) :=
  match fuel with
  | O => OutOfFuel
  | S fuel =>
      match states_of n jobs with
      | inl e => Raised e
      | inr states =>
          if forallb (λ j, terminal j.2) states then Ok states
          else if (deadline <=? clock n)%Z then Raised (OSError "research jobs still active")
          else wait_all fuel (S n) jobs deadline
      end
  end.

(** The metrics of one job, of its last attempt. *)
Definition collect (job : string) : exn + row :=
  match last (attempts job) with
  | None => inl (KeyError "list index out of range")
  | Some attempt =>
      let mine := List.filter (λ a, String.eqb (s_attempt a) attempt) (artifacts job) in
      match List.filter (λ a, ends_with "-metrics.json" (s_key a)) mine with
      | [m] =>
          let data := get_object (s_key m) in
          if String.eqb (sha256_hex data) (s_checksum m) then
            match decode_row data with
            | Some r => inr r
            | None => inl (ValueError "metrics")
            end
          else inl (ValueError "metrics checksum mismatch")
      | _ => inl (ValueError "expected one committed metrics artifact")
      end
  end.

Fixpoint collect_all (jobs : list (string * string)) : exn + list row :=
  match jobs with
  | [] => inr []
  | j :: jobs => match collect j.1 with
                 | inl e => inl e
                 | inr r => match collect_all jobs with inl e => inl e | inr rs => inr (r :: rs) end
                 end
  end.

Definition rows_of (states : list (string * string)) : exn + list row :=
  if existsb (λ j, negb (String.eqb j.2 "SUCCEEDED")) states
  then inl (RuntimeError "not all experiments succeeded; inspect jobs before aggregating")
  else collect_all states.

(** Polls that fit in [timeout] seconds, five seconds apart. *)
Definition poll_fuel (timeout : Z) : nat := Z.to_nat (Z.max 0 timeout / 5 + 2).

(** What [for j in jobs] iterates over. *)
Definition iterate (v : json) : exn + list json :=
  match v with
  | JArr l => inr l
  | JObj d => inr (JStr <$> (fst <$> d))
  | JStr s => inr (if nonempty s then [v] else [])
  | _ => inl (TypeError "object is not iterable")
  end.

(** From the text of the tracking file and the time the script starts: the rows of metrics.json
    and the text of summary.md. *)
Definition aggregate (tracking : string) (start timeout : Z) : outcome (list row * string) :=
  match loads tracking with
  | None => Raised (ValueError "Expecting value")
  | Some v =>
      match iterate v with
      | inl e => Raised e
      | inr jobs =>
          match wait_all (poll_fuel timeout) 0 jobs (start + sec timeout) with
          | Ok states =>
              match rows_of states with
              | inl e => Raised e
              | inr rows => Ok (rows, summary_text (sorted_groups rows))
              end
          | Raised e => Raised e
          | OutOfFuel => OutOfFuel
          end
      end
  end.

(** *** The command line *)
Definition aggregate_options : list option_ :=
  [Option_ "jobs" TPath true VNone; Option_ "--output" TPath false (VStr "results/heterosplit");
   Option_ "--timeout" TInt false (VInt 7200)].

(** The files the script writes, and what it prints at the end. *)
Record aggregated := Aggregated { ag_metrics : string * list row; ag_summary : string * string; ag_printed : string }.

(** [read_text] is [args.jobs.read_text()]; [start] the first reading of the clock. *)
Definition aggregate_main (argv : list string) (read_text : string → exn + string) (start : Z) : outcome aggregated :=
  match parse_args aggregate_options argv with
  | inl e => Raised e
  | inr ns =>
      match read_text (get_str ns "jobs") with
      | inl e => Raised e
      | inr tracking =>
          match aggregate tracking start (get_int ns "--timeout") with
          | Ok (rows, text) =>
              let summary := path_join (get_str ns "--output") "summary.md" in
              Ok (Aggregated (path_join (get_str ns "--output") "metrics.json", rows) (summary, text) summary)
          | Raised e => Raised e
          | OutOfFuel => OutOfFuel
          end
      end
  end.

(** *** What reaches the summary *)
(** The row of a job is its metrics file: exactly one of its last attempt, with the recorded
    digest. *)
Definition committed (job : string) (r : row) : Prop :=
  ∃ attempt m, last (attempts job) = Some attempt ∧
    List.filter (λ a, ends_with "-metrics.json" (s_key a))
      (List.filter (λ a, String.eqb (s_attempt a) attempt) (artifacts job)) = [m] ∧
    sha256_hex (get_object (s_key m)) = s_checksum m ∧ decode_row (get_object (s_key m)) = Some r.

Lemma collect_committed job r : collect job = inr r → committed job r.
Proof.
  unfold collect. destruct (last (attempts job)) as [attempt|] eqn:Ha; [|done].
  destruct (List.filter _ (List.filter _ _)) as [|m [|]] eqn:Hm; try done.
  destruct (String.eqb_spec (sha256_hex (get_object (s_key m))) (s_checksum m)) as [Hc|]; [|done].
  destruct (decode_row _) as [r'|] eqn:Hd; [|done]. intros [= ->]. by exists attempt, m.
Qed.

Lemma rows_committed states rows :
  rows_of states = inr rows →
  Forall (λ j, j.2 = "SUCCEEDED") states ∧ Forall2 committed (fst <$> states) rows.
Proof.
  unfold rows_of. destruct (existsb _ states) eqn:Hs; [done|]. intros Hr. split.
  - apply Forall_forall. intros j Hj. apply not_true_iff_false in Hs.
    destruct (String.eqb_spec j.2 "SUCCEEDED") as [|Hne]; [done|]. exfalso. apply Hs.
    apply existsb_exists. exists j. split; [by apply list_elem_of_In|].
    by rewrite (proj2 (String.eqb_neq _ _) Hne).
  - clear Hs. revert rows Hr. induction states as [|j states IH]; intros rows Hr; simpl in Hr.
    { simplify_eq. constructor. }
    destruct (collect j.1) eqn:Hc; [done|]. destruct (collect_all states); [done|]. simplify_eq.
    constructor; [by apply collect_committed|by apply IH].
Qed.

(** The states of one poll, job by job. *)
Lemma states_of_spec n jobs states :
  states_of n jobs = inr states →
  Forall2 (λ j s, ∃ id, text_item j "id" = inr id ∧ get_job n id = inr s) jobs states.
Proof.
  revert states. induction jobs as [|j jobs IH]; intros states; cbn [states_of]; [intros [= <-]; constructor|].
  destruct (text_item j "id") as [|id] eqn:Hid; [done|]. destruct (get_job n id) as [|s] eqn:Hg; [done|].
  destruct (states_of n jobs) as [|ss]; [done|]. intros [= <-]. constructor; [by exists id|by apply IH].
Qed.

Lemma wait_all_ok fuel n jobs deadline states :
  wait_all fuel n jobs deadline = Ok states → ∃ k, (n ≤ k)%nat ∧ states_of k jobs = inr states.
Proof.
  revert n. induction fuel as [|fuel IH]; intros n; cbn [wait_all]; [done|].
  destruct (states_of n jobs) as [|ss] eqn:Hs; [done|].
  destruct (forallb _ ss); [intros [= <-]; by exists n|]. destruct (_ <=? _)%Z; [done|].
  intros (k & Hk & Hst)%IH. exists k. split; [lia|done].
Qed.

Lemma wait_all_ends fuel n jobs deadline :
  (∀ k, clock k + sec 5 ≤ clock (S k))%Z → (1 ≤ fuel)%nat →
  (deadline - clock n ≤ sec 5 * (Z.of_nat fuel - 1))%Z → wait_all fuel n jobs deadline ≠ OutOfFuel.
Proof.
  intros Hclock. revert n. induction fuel as [|fuel IH]; intros n Hf Hd; [lia|]. cbn [wait_all].
  destruct (states_of n jobs) as [|ss]; [done|]. destruct (forallb _ ss); [done|].
  destruct (Z.leb_spec deadline (clock n)) as [|Hlt]; [done|]. specialize (Hclock n). unfold sec in *.
  apply IH; lia.
Qed.

(** *** Groups *)
Lemma append_to_values g k v : mjoin (snd <$> append_to g k v) ≡ₚ v :: mjoin (snd <$> g).
Proof.
  induction g as [|[k' vs] g IH]; cbn [append_to]; [done|].
  destruct (bool_decide (k = k')); cbn.
  - rewrite <- app_assoc. symmetry. apply Permutation_middle.
  - rewrite IH. symmetry. apply Permutation_middle.
Qed.

Lemma append_to_keys g k v : NoDup (fst <$> g) → NoDup (fst <$> append_to g k v).
Proof.
  assert (∀ g x, x ∈ fst <$> append_to g k v → x = k ∨ x ∈ fst <$> g) as Hin.
  { clear. induction g as [|[k' vs] g IH]; intros x; cbn [append_to].
    - cbn. set_solver.
    - case_bool_decide; cbn; rewrite !elem_of_cons; naive_solver. }
  induction g as [|[k' vs] g IH]; cbn [append_to].
  - intros _. apply NoDup_singleton.
  - cbn. intros [Hk Hnd]%NoDup_cons. case_bool_decide as Hkk; cbn; apply NoDup_cons; split; try done; auto.
    intros [->|?]%Hin; done.
Qed.

(** A group holds the AUC of its rows, in their order. *)
Definition aucs_of (k : key) (rows : list row) : list Q :=
  r_auc <$> List.filter (λ r, bool_decide (group_key r = k)) rows.

Definition groups_ok (g : list (key * list Q)) (rows : list row) : Prop :=
  NoDup (fst <$> g) ∧ ∀ k vs, (k, vs) ∈ g ↔ vs = aucs_of k rows ∧ vs ≠ [].

Lemma append_to_elem g k v k' vs :
  NoDup (fst <$> g) →
  (k', vs) ∈ append_to g k v ↔
  (k' ≠ k ∧ (k', vs) ∈ g) ∨
  (k' = k ∧ ((∃ old, (k, old) ∈ g ∧ vs = old ++ [v]) ∨ (k ∉ (fst <$> g) ∧ vs = [v]))).
Proof.
  induction g as [|[k0 vs0] g IH]; intros Hnd; cbn [append_to].
  { set_solver. }
  cbn in Hnd. apply NoDup_cons in Hnd as [Hk0 Hnd]. specialize (IH Hnd).
  assert (∀ old, (k0, old) ∈ g → k0 ∈ fst <$> g) as Hfst by (intros old Hin; by apply (list_elem_of_fmap_2 fst) in Hin).
  case_bool_decide as Hk.
  - subst k0. rewrite !elem_of_cons. cbn. setoid_rewrite elem_of_cons. setoid_rewrite pair_eq. naive_solver.
  - rewrite !elem_of_cons, IH. cbn. setoid_rewrite elem_of_cons. rewrite !pair_eq. naive_solver.
Qed.

Lemma aucs_of_snoc k rows r :
  aucs_of k (rows ++ [r]) = aucs_of k rows ++ (if bool_decide (group_key r = k) then [r_auc r] else []).
Proof. unfold aucs_of. rewrite List.filter_app, fmap_app. cbn. by case_bool_decide. Qed.

Lemma groups_grouped rows : groups_ok (groups rows) rows.
Proof.
  induction rows as [|r rows IH] using rev_ind.
  { split; [constructor|]. intros k vs. cbn. split; [by intros ?%not_elem_of_nil|]. by intros [-> ?]. }
  unfold groups in *. rewrite foldl_snoc. destruct IH as [IH1 IH2]. split; [by apply append_to_keys|].
  intros k vs. rewrite append_to_elem, aucs_of_snoc by done. setoid_rewrite IH2.
  assert (group_key r ∉ fst <$> foldl (λ g r, append_to g (group_key r) (r_auc r)) [] rows ↔
          aucs_of (group_key r) rows = []) as Hfresh.
  { split.
    - intros Hk. destruct (aucs_of (group_key r) rows) eqn:Ha; [done|]. exfalso. apply Hk.
      apply list_elem_of_fmap. exists (group_key r, q :: l). split; [done|]. by rewrite IH2, Ha.
    - intros Ha ([k' vs'] & Hk & Hin)%list_elem_of_fmap. cbn in Hk. subst k'.
      apply IH2 in Hin as [-> ?]. done. }
  rewrite Hfresh. case_bool_decide as Hk; [subst k|rewrite app_nil_r]; [|naive_solver].
  split; [|intros [-> _]; right; split; [done|]].
  - intros [?|[_ [(old & [-> _] & ->)|[-> ->]]]]; [naive_solver|..]; (split; [done|by destruct (aucs_of _ _)]).
  - destruct (aucs_of (group_key r) rows) as [|q l]; [by right|]. left. by exists (q :: l).
Qed.

(** *** The order of the table *)
Lemma compare_lt_trans x y z : String.compare x y = Lt → String.compare y z = Lt → String.compare x z = Lt.
Proof.
  revert y z. induction x as [|c x IH]; intros [|d y] [|e z]; cbn; try done.
  unfold Ascii.compare. intros H1 H2.
  destruct (N.compare_spec (N_of_ascii c) (N_of_ascii d)) as [Hcd|Hcd|]; try done;
  destruct (N.compare_spec (N_of_ascii d) (N_of_ascii e)) as [Hde|Hde|]; try done;
  destruct (N.compare_spec (N_of_ascii c) (N_of_ascii e)) as [Hce|Hce|]; try done; try lia. by eapply IH.
Qed.
Lemma compare_refl x : String.compare x x = Eq.
Proof. induction x as [|c x IH]; [done|]. cbn. unfold Ascii.compare. by rewrite N.compare_refl. Qed.

Lemma parts_leb_total a b : parts_leb a b = true ∨ parts_leb b a = true.
Proof.
  revert b. induction a as [|x a IH]; intros [|y b]; cbn; auto.
  rewrite (String.compare_antisym y x). destruct (String.compare x y); cbn; auto.
Qed.
Lemma parts_leb_trans a b c : parts_leb a b = true → parts_leb b c = true → parts_leb a c = true.
Proof.
  revert b c. induction a as [|x a IH]; intros [|y b] [|z c]; cbn; try done.
  destruct (String.compare x y) eqn:Hxy; [|intros _|done].
  - apply String.compare_eq_iff in Hxy as ->. destruct (String.compare y z); try done. by apply IH.
  - destruct (String.compare y z) eqn:Hyz; [|intros _|done].
    + apply String.compare_eq_iff in Hyz as ->. intros _. by rewrite Hxy.
    + by rewrite (compare_lt_trans x y z).
Qed.

#[local] Instance group_le_total : Total group_le.
Proof. intros x y. apply parts_leb_total. Qed.
#[local] Instance group_le_trans : Transitive group_le.
Proof. intros x y z. apply parts_leb_trans. Qed.

(** The lines of the table: sorted, one for each combination of study, dataset, regime and model
    that has a row, with the AUC of all its rows. *)
Lemma sorted_groups_ok rows : StronglySorted group_le (sorted_groups rows) ∧ groups_ok (sorted_groups rows) rows.
Proof.
  split; [by apply StronglySorted_merge_sort; apply _|].
  destruct (groups_grouped rows) as [Hnd Hg]. unfold sorted_groups. split.
  - by rewrite merge_sort_Permutation.
  - intros k vs. by rewrite merge_sort_Permutation.
Qed.

Lemma aggregate_verified tracking start timeout :
  (∀ k, clock k + sec 5 ≤ clock (S k))%Z → (start ≤ clock 0)%Z →
  match aggregate tracking start timeout with
  | OutOfFuel => False
  | Raised _ => True
  | Ok (rows, text) =>
      ∃ v jobs states n table, loads tracking = Some v ∧ iterate v = inr jobs ∧
        Forall2 (λ j s, ∃ id, text_item j "id" = inr id ∧ get_job n id = inr s ∧ s.2 = "SUCCEEDED") jobs states ∧
        Forall2 committed (fst <$> states) rows ∧
        text = summary_text table ∧ StronglySorted group_le table ∧ groups_ok table rows
  end.
Proof.
  intros Hclock Hstart. unfold aggregate. destruct (loads tracking) as [v|]; [|done].
  destruct (iterate v) as [|jobs] eqn:Hj; [done|].
  destruct (wait_all _ _ _ _) as [states|e|] eqn:Hw; [|done|].
  - destruct (rows_of states) as [|rows] eqn:Hr; [done|]. apply rows_committed in Hr as [Hs Hc].
    apply wait_all_ok in Hw as (n & _ & Hst%states_of_spec).
    exists v, jobs, states, n, (sorted_groups rows). split_and!; try done; [|by apply sorted_groups_ok..].
    clear -Hst Hs. induction Hst as [|j s jobs states (id & H1 & H2) Hst IH]; [constructor|].
    apply Forall_cons in Hs as [??]. constructor; [by exists id|by apply IH].
  - revert Hw. assert (0 ≤ Z.max 0 timeout / 5)%Z by (apply Z.div_pos; lia).
    pose proof (Z.div_mod (Z.max 0 timeout) 5 ltac:(lia)). pose proof (Z.mod_pos_bound (Z.max 0 timeout) 5 ltac:(lia)).
    apply wait_all_ends; [done|unfold poll_fuel; lia|unfold poll_fuel, sec; lia].
Qed.

(** C37. Only verified results of finished jobs are aggregated, and all of them.  When the script
    ends normally, every job of the tracking file was found to have succeeded in one poll; there
    is one row per job, in the order of the file, and it is the one metrics file of the job's
    last attempt whose content has the recorded SHA-256.  The table has one line for each
    combination of study, dataset, regime and model that occurs in the rows, in order, computed
    from the AUC of exactly its rows.  And the script ends, whatever its command line, at the latest
    when its time is up. *)
Theorem only_verified_results_aggregated argv read_text start :
  (∀ k, clock k + sec 5 ≤ clock (S k))%Z → (start ≤ clock 0)%Z →
  match aggregate_main argv read_text start with
  | OutOfFuel => False
  | Raised _ => True
  | Ok out =>
      ∃ ns tracking v jobs states n table,
        parse_args aggregate_options argv = inr ns ∧ read_text (get_str ns "jobs") = inr tracking ∧
        loads tracking = Some v ∧ iterate v = inr jobs ∧
        Forall2 (λ j s, ∃ id, text_item j "id" = inr id ∧ get_job n id = inr s ∧ s.2 = "SUCCEEDED") jobs states ∧
        Forall2 committed (fst <$> states) (ag_metrics out).2 ∧
        (ag_summary out).2 = summary_text table ∧ StronglySorted group_le table ∧ groups_ok table (ag_metrics out).2
  end.
Proof.
  intros Hclock Hstart. unfold aggregate_main. destruct (parse_args aggregate_options argv) as [|ns]; [done|].
  destruct (read_text (get_str ns "jobs")) as [|tracking] eqn:Hread; [done|].
  pose proof (aggregate_verified tracking start (get_int ns "--timeout") Hclock Hstart) as Ha.
  destruct (aggregate tracking start (get_int ns "--timeout")) as [[rows text]| |]; [|done|done].
  destruct Ha as (v & jobs & states & n & table & Ha). by exists ns, tracking, v, jobs, states, n, table.
Qed.
End Aggregate.

Definition demo_tracking : string := dumps_indent EmptyString (JArr [JObj [("id", JStr "j1")]]).
Definition demo_row : row := Row None "MovieLens" "random" "MF" (1 # 2)%Q.
Definition demo_aggregate : outcome aggregated :=
  aggregate_main (λ _ id, inr (id, "SUCCEEDED")) (λ n, sec 5 * Z.of_nat n)%Z (λ _, ["a1"; "a2"])
    (λ _, [Stored "a2" "k-metrics.json" (sha256_hex "abc")]) (λ _, "abc") (λ _, Some demo_row)
    ["--timeout"; "60"; "jobs.json"] (λ path, if String.eqb path "jobs.json" then inr demo_tracking else inl (FileNotFoundError path)) 0.

Lemma only_verified_results_aggregated_witness :
  ∃ text, demo_aggregate = Ok (Aggregated ("results/heterosplit/metrics.json", [demo_row])
                                 ("results/heterosplit/summary.md", text) "results/heterosplit/summary.md") ∧
  ∃ table, text = summary_text table ∧ StronglySorted group_le table ∧ groups_ok table [demo_row].
Proof.
  assert (∃ text, demo_aggregate = Ok (Aggregated ("results/heterosplit/metrics.json", [demo_row])
    ("results/heterosplit/summary.md", text) "results/heterosplit/summary.md")) as [text Heq]
    by (eexists; vm_compute; reflexivity).
  exists text. split; [exact Heq|].
  pose proof (only_verified_results_aggregated (λ _ id, inr (id, "SUCCEEDED")) (λ n, sec 5 * Z.of_nat n)%Z
    (λ _, ["a1"; "a2"]) (λ _, [Stored "a2" "k-metrics.json" (sha256_hex "abc")]) (λ _, "abc")
    (λ _, Some demo_row) ["--timeout"; "60"; "jobs.json"]
    (λ path, if String.eqb path "jobs.json" then inr demo_tracking else inl (FileNotFoundError path)) 0) as H.
  fold demo_aggregate in H. rewrite Heq in H.
  destruct H as (_ & _ & _ & _ & _ & _ & table & _ & _ & _ & _ & _ & _ & H); [intros k; unfold sec; lia|lia|].
  exists table. exact H.
Defined.
