(* ===== verification/StudyApi.v ===== *)
(** * StudyApi: aggregate.py over the control plane

    The parameters of Aggregate (what the API answers for a job, its attempts and artifacts)
    filled in by the SDK's client, the HTTP interface and the store: the attempt whose metrics are
    collected is the one that succeeded. *)
From stdpp Require Import sorting.
From S2P Require Import Prelude Effects PyStr Utf8 Json JsonParse JsonRound Calendar Times Sha256 Wire World.
From S2P Require Import Rpc Artifacts Worker WorkerSafety Logs Checkpoint Control ControlSpec ControlRefine ControlProps.
From S2P Require Import EndToEnd WireText Queries Client Api ApiText ApiProps Aggregate.
Import Store Query Api.
Local Open Scope string_scope.
Local Open Scope list_scope.
Local Open Scope Z_scope.

Section Study.
Context (zone_at : Z → Z) (pg_time : Z → string) (event_id : nat → Z) (text_leb : string → string → bool)
        (metrics ping : bool) (base u : string) (e : env).
Notation Handler := (Handler zone_at pg_time event_id text_leb metrics ping).

(** The rows a client method gets. Only jobs that exist are looked at below, for which the server
    answers with an array. *)
Definition rows_answered (h : Client.http) (d : db) : list json :=
  match received base h with
  | Some q => match (Handler e q d).1 with Answer (JArr l) => l | _ => [] end
  | None => []
  end.
Definition attempt_id_of (v : json) : option string := m ← as_dict v; str_at m "id".
Definition stored_of (v : json) : option stored :=
  m ← as_dict v; a ← str_at m "attempt_id"; k ← str_at m "object_key"; c ← str_at m "checksum";
  Some (Stored a k c).

(** [client.attempts(job)] and [client.artifacts(job)], reduced to the members aggregate.py reads.
    Every row of the server has them ([attempt_row_id], [artifact_row_stored]), so that no row is
    left out here where Python would raise KeyError. *)
Definition api_attempts (d : db) (job : string) : list string :=
  omap attempt_id_of (rows_answered (Client.attempts base u job) d).
Definition api_artifacts (d : db) (job : string) : list stored :=
  omap stored_of (rows_answered (Client.artifacts base u job) d).

Lemma page_limit m path rid body : page (MkReq m path "limit=1000" rid body) = inr (1000, 0).
Proof. by vm_compute. Qed.

Lemma received_rows id kind :
  uuid id = true → plain kind = true →
  received base (Client.request base u "GET" ("/v1/jobs/" +:+ id +:+ "/" +:+ kind +:+ "?limit=1000") None None)
  = Some (MkReq "GET" (path_of ["v1"; "jobs"; id; kind]) "limit=1000" u EmptyString).
Proof.
  intros Hid Hk.
  replace ("/v1/jobs/" +:+ id +:+ "/" +:+ kind +:+ "?limit=1000") with
    (path_of ["v1"; "jobs"; id; kind] +:+ String "?" "limit=1000").
  - apply (received_query base u "GET" "v1" ["jobs"; id; kind]). apply plain_job_path; [done|]. by repeat constructor.
  - unfold path_of. rewrite !join_cons. change (join "/" [kind]) with kind. by rewrite !string_app_assoc.
Qed.

Lemma serve_rows id kind d row :
  uuid id = true → lower id = id → kind ∈ ["attempts"; "events"; "artifacts"] → jobs d !! id = Some row →
  Handler e (MkReq "GET" (path_of ["v1"; "jobs"; id; kind]) "limit=1000" u EmptyString) d
  = (reply JArr (ReadRows pg_time event_id kind id 1000 0 d), d).
Proof.
  intros Hid Hl Hk Hrow. unfold Api.Handler. rewrite route_rows by done. cbn [serve_route].
  unfold JobRows_handler, Get. by rewrite Hid, page_limit, Hl, Hrow.
Qed.

Lemma window_short {A} (l : list A) : (length l ≤ 1000)%nat → window 1000 0 l = l.
Proof.
  intros Hl. unfold window. rewrite Z.min_l by lia. cbn [Z.to_nat drop]. apply take_ge. lia.
Qed.

Lemma window_elem {A} limit offset (l : list A) x : x ∈ window limit offset l → x ∈ l.
Proof.
  unfold window. set (k := Z.to_nat (Z.min _ _)). intros Hx. rewrite <- (take_drop k l), elem_of_app. right.
  rewrite <- (take_drop (Z.to_nat limit) (drop k l)), elem_of_app. by left.
Qed.

Lemma attempt_row_id i a :
  attempt_id_of (jsonb (JObj (without "lease_token" (attempt_columns pg_time i a)))) = Some i.
Proof.
  destruct (jsonb_get (without "lease_token" (attempt_columns pg_time i a)) "id" (JStr i)) as (m & Hm & Hg).
  - compute_done.
  - done.
  - rewrite Hm. unfold attempt_id_of, str_at. cbn [as_dict mbind option_bind]. by rewrite Hg.
Qed.

Lemma artifact_row_stored x :
  stored_of (jsonb (JObj (artifact_columns pg_time x)))
  = Some (Stored (ar_attempt x) (object_key (ar_data x)) (checksum (ar_data x))).
Proof.
  assert (NoDup (map fst (artifact_columns pg_time x))) as Hnd by compute_done.
  destruct (jsonb_get _ "attempt_id" (JStr (ar_attempt x)) Hnd eq_refl) as (m & Hm & H1).
  destruct (jsonb_get _ "object_key" (JStr (object_key (ar_data x))) Hnd eq_refl) as (m2 & Hm2 & H2).
  destruct (jsonb_get _ "checksum" (JStr (checksum (ar_data x))) Hnd eq_refl) as (m3 & Hm3 & H3).
  assert (m2 = m ∧ m3 = m) as [-> ->] by (split; congruence).
  rewrite Hm. unfold stored_of, str_at. cbn [as_dict mbind option_bind]. by rewrite H1, H2, H3.
Qed.

Lemma omap_fmap_some {A B C} (g : B → option C) (f : A → B) (h : A → C) (l : list A) :
  (∀ x, g (f x) = Some (h x)) → omap g (f <$> l) = h <$> l.
Proof. intros Hg. induction l as [|x l IH]; [done|]. rewrite !fmap_cons. cbn [omap list_omap]. by rewrite Hg, <- IH. Qed.

Lemma api_attempts_are d job row :
  uuid job = true → lower job = job → jobs d !! job = Some row →
  (length (attempts_of d job) ≤ 1000)%nat → api_attempts d job = (sorted_attempts d job).*1.
Proof.
  intros Hid Hl Hrow Hlen. unfold api_attempts, rows_answered, Client.attempts.
  change ("/v1/jobs/" +:+ job +:+ "/attempts?limit=1000") with
    ("/v1/jobs/" +:+ job +:+ "/" +:+ "attempts" +:+ "?limit=1000").
  rewrite received_rows by done. erewrite serve_rows by (done || set_solver).
  unfold ReadRows. rewrite String.eqb_refl, Hl, window_short by by rewrite sorted_attempts_perm.
  cbn [reply fst]. apply omap_fmap_some. intros [i a]. apply attempt_row_id.
Qed.

Lemma api_artifacts_elem d job row s :
  uuid job = true → lower job = job → jobs d !! job = Some row → s ∈ api_artifacts d job →
  ∃ x, x ∈ artifacts d ∧ ar_job x = job ∧
       s = Stored (ar_attempt x) (object_key (ar_data x)) (checksum (ar_data x)).
Proof.
  intros Hid Hl Hrow. unfold api_artifacts, rows_answered, Client.artifacts.
  change ("/v1/jobs/" +:+ job +:+ "/artifacts?limit=1000") with
    ("/v1/jobs/" +:+ job +:+ "/" +:+ "artifacts" +:+ "?limit=1000").
  rewrite received_rows by done. erewrite serve_rows by (done || set_solver).
  unfold ReadRows. change (String.eqb "artifacts" "attempts") with false.
  change (String.eqb "artifacts" "events") with false. rewrite String.eqb_refl, Hl. cbn [reply fst].
  rewrite (omap_fmap_some _ _ _ _ artifact_row_stored). intros (x & -> & Hx)%list_elem_of_fmap.
  exists x. apply window_elem in Hx. unfold job_artifacts in Hx. rewrite merge_sort_Permutation in Hx.
  apply list_elem_of_In, List.filter_In in Hx as [Hx%list_elem_of_In Heq%String.eqb_eq]. done.
Qed.

(** [client.get(job)["state"]] *)
Definition api_state (d : db) (job : string) : option string :=
  q ← received base (Client.get base u job);
  match (Handler e q d).1 with
  | Answer v => m ← as_dict v; str_at m "state"
  | _ => None
  end.

Lemma api_state_is d job row :
  uuid job = true → lower job = job → jobs d !! job = Some row → api_state d job = Some (state_name (State row)).
Proof.
  intros Hid Hl Hrow. unfold api_state. rewrite received_lookup by done. cbn [mbind option_bind].
  erewrite serve_lookup by done. done.
Qed.

Lemma api_state_row d job s :
  uuid job = true → lower job = job → api_state d job = Some s → ∃ row, jobs d !! job = Some row.
Proof.
  intros Hid Hl. unfold api_state. rewrite received_lookup by done. cbn [mbind option_bind].
  unfold Api.Handler, lookup_request. rewrite route_job by done. cbn [serve_route].
  unfold GetJob_handler, Get. rewrite Hid, Hl. destruct (jobs d !! job); [eauto|done].
Qed.

(** C38. aggregate.py collects the metrics of the attempt that succeeded: when the API showed the job
    SUCCEEDED and a row is then collected from what the API lists, at that time or later, the row is
    decoded from an object whose digest is the checksum of a metrics artifact that the store
    recorded for the job's successful attempt, which is its last one. *)
Theorem metrics_are_of_the_success L T d T1 cs T2 d2 job get_object decode_row r :
  reached L T d → uuid job = true → lower job = job → api_state d job = Some "SUCCEEDED" →
  runs L T1 d cs T2 d2 → (length (attempts_of d2 job) ≤ 1000)%nat →
  collect (api_attempts d2) (api_artifacts d2) get_object decode_row job = inr r →
  ∃ i a x, winner d2 job i a ∧ x ∈ artifacts d2 ∧ ar_job x = job ∧ ar_attempt x = i ∧
    ends_with "-metrics.json" (object_key (ar_data x)) = true ∧
    sha256_hex (get_object (object_key (ar_data x))) = checksum (ar_data x) ∧
    decode_row (get_object (object_key (ar_data x))) = Some r.
Proof.
  intros Hre Hid Hl Hst Hr Hlen Hc. pose proof (proj1 (reached_inv _ _ _ Hre)) as HI.
  destruct (api_state_row _ _ _ Hid Hl Hst) as [row Hrow]. rewrite (api_state_is d job row) in Hst by done.
  assert (State row = SUCCEEDED) as Hs by by destruct (State row).
  destruct (reached_won _ _ _ Hre _ _ Hrow Hs) as (i & a & Hwin).
  destruct (runs_steps _ _ _ _ _ _ Hr HI) as (ls & Hss & _).
  pose proof (steps_winner _ _ _ _ _ _ _ Hss HI Hwin) as Hwin2.
  pose proof (steps_inv _ _ _ _ HI Hss) as HI2.
  destruct (steps_job _ _ _ _ _ _ Hss HI Hrow) as (row2 & Hrow2 & _).
  unfold collect in Hc. rewrite (api_attempts_are d2 job row2) in Hc by done.
  pose proof Hwin2 as (Ha & Hj & _ & Hmax).
  rewrite fmap_last, (last_attempt d2 job i a) in Hc by done. cbn [fmap option_fmap option_map fst] in Hc.
  destruct (List.filter (λ a, ends_with "-metrics.json" (s_key a)) _) as [|m [|]] eqn:Hf; [done| |done].
  assert (m ∈ List.filter (λ a, ends_with "-metrics.json" (s_key a))
    (List.filter (λ a, String.eqb (s_attempt a) i) (api_artifacts d2 job))) as Hm.
  { rewrite Hf. by apply list_elem_of_singleton. }
  apply list_elem_of_In, List.filter_In in Hm as [[Hm Hat%String.eqb_eq]%List.filter_In Hend].
  apply list_elem_of_In, (api_artifacts_elem d2 job row2) in Hm as (x & Hx & Hxj & ->); [|done..].
  cbn [s_key s_attempt s_checksum] in *.
  destruct (String.eqb_spec (sha256_hex (get_object (object_key (ar_data x)))) (checksum (ar_data x))) as [Hsum|]; [|done].
  destruct (decode_row _) as [r'|] eqn:Hd; [|done]. injection Hc as ->.
  exists i, a, x. split_and!; done.
Qed.
End Study.

(** ** A job that succeeded *)
Definition demo_data : string := "{}".
Definition demo_metrics : artifact :=
  Artifact ("demo/" +:+ demo_job_id +:+ "/" +:+ demo_attempt_id +:+ "/gcn-metrics.json") "application/json" 2
    (sha256_hex demo_data) "output".
Definition demo_completion : Request :=
  MkRequest "r4" "w1" "s1" demo_attempt_id demo_token "host" (MkResources 0 0 0) 0 EmptyString None (Some [demo_metrics]).
Definition demo_succeeded : db := after 15 (Call (demo_at 5) (OpRpc CompleteAttempt demo_completion)) demo_running.
Definition demo_study_row : row := Row None "d" "random" "gcn" (QArith_base.Qmake 1 2).

Lemma metrics_are_of_the_success_witness :
  ∃ i a x, winner demo_succeeded demo_job_id i a ∧ x ∈ artifacts demo_succeeded ∧ ar_attempt x = i ∧
    sha256_hex demo_data = checksum (ar_data x).
Proof.
  destruct (metrics_are_of_the_success (λ _, 0) (rfc3339 0) Z.of_nat String.leb true true demo_base "u1" (demo_at 9)
    15 (sec 5 + 50) demo_succeeded (sec 6) [] (sec 6) demo_succeeded demo_job_id (λ _, demo_data)
    (λ _, Some demo_study_row) demo_study_row) as (i & a & x & Hw & Hx & _ & Hi & _ & Hsum & _).
  - eapply (demo_reached_next _ _ 5); [exact demo_running_reached|unfold sec; lia].
  - by vm_compute.
  - by vm_compute.
  - by vm_compute.
  - constructor.
  - vm_compute. lia.
  - by vm_compute.
  - exists i, a, x. split; [exact Hw|]. split; [exact Hx|]. split; [exact Hi|exact Hsum].
Defined.
