(* ===== verification/Bench.v ===== *)
(** * Bench: percentiles and batches of a benchmark case (benchmarks/run.py)

    The percentile of the latency report and the batches a case is submitted in; samples are exact
    rationals. *)
From Stdlib Require Import QArith Qround Sorted.
From S2P Require Import Prelude Effects PyStr Json Wire Protocols.
Local Open Scope string_scope.
Local Open Scope list_scope.

(** ** [percentile] *)
Fixpoint insert_q (x : Q) (l : list Q) : list Q :=
  match l with
  | [] => [x]
  | y :: l' => if Qle_bool x y then x :: l else y :: insert_q x l'
  end.
Definition sorted_q (l : list Q) : list Q := foldr insert_q [] l.

Definition percentile (values : list Q) (p : Q) : option Q :=
  let v := sorted_q values in
  match v with
  | [] => None
  | _ =>
      let i := (inject_Z (Z.of_nat (length v) - 1) * p)%Q in
      let lo := Z.to_nat (Qfloor i) in
      let hi := Nat.min (lo + 1) (length v - 1) in
      Some (nth lo v 0 + (nth hi v 0 - nth lo v 0) * (i - inject_Z (Qfloor i)))%Q
  end.

(** ** [run_case]: submission *)
Definition bench_key (run_id : string) (i : Z) : string := "bench-" +:+ run_id +:+ "-" +:+ pretty i.
Definition bench_job (run_id workload : string) (command : list string) (i : Z) : json :=
  JObj [("name", JStr ("bench-" +:+ workload)); ("command", JArr (JStr <$> command)); ("environment", JObj []);
        ("resources", JObj [("cpu", JNum 1); ("memory_mb", JNum 64); ("gpu", JNum 0)]); ("max_attempts", JNum 3);
        ("timeout_seconds", JNum 60); ("idempotency_key", JStr (bench_key run_id i));
        ("artifact_prefix", JStr ("benchmarks/" +:+ run_id))].
Definition bench_command (workload : string) : list string :=
  if String.eqb workload "noop" then ["true"] else ["python"; "-c"; "sum(i*i for i in range(10000))"].

(** [for offset in range(0, count, 1000)]: the numbers of the jobs of each batch. *)
Definition bench_ranges (count : Z) : list (list Z) :=
  (λ n, let offset := (1000 * Z.of_nat n)%Z in seqZ offset (Z.min count (offset + 1000) - offset))
  <$> seq 0 (Z.to_nat ((count + 999) / 1000)).
Definition bench_batches (run_id workload : string) (count : Z) : list (list json) :=
  map (map (bench_job run_id workload (bench_command workload))) (bench_ranges count).

(** *** Sorting and percentiles *)
Lemma insert_q_perm x l : insert_q x l ≡ₚ x :: l.
Proof.
  induction l as [|y l IH]; cbn; [done|]. destruct (Qle_bool x y); [done|].
  rewrite IH. apply Permutation_swap.
Qed.
Lemma sorted_q_perm l : sorted_q l ≡ₚ l.
Proof. induction l as [|x l IH]; cbn; [done|]. by rewrite insert_q_perm, IH. Qed.

Lemma insert_q_sorted x l : StronglySorted Qle l → StronglySorted Qle (insert_q x l).
Proof.
  induction 1 as [|y l Hl IH Hall]; cbn; [repeat constructor|].
  destruct (Qle_bool x y) eqn:Hxy.
  - apply Qle_bool_iff in Hxy. constructor; [by constructor|]. constructor; [done|].
    eapply Forall_impl; [exact Hall|]. intros z Hz. by eapply Qle_trans.
  - constructor; [done|]. rewrite insert_q_perm. constructor; [|done].
    apply Qlt_le_weak, Qnot_le_lt. intros H%Qle_bool_iff. congruence.
Qed.
Lemma sorted_q_sorted l : StronglySorted Qle (sorted_q l).
Proof. induction l as [|x l IH]; [constructor|]. by apply insert_q_sorted. Qed.

Lemma sorted_nth v i j :
  StronglySorted Qle v → (i ≤ j < length v)%nat → (nth i v 0 <= nth j v 0)%Q.
Proof.
  intros Hs. revert i j. induction Hs as [|x v Hs IH Hall]; intros i j Hij; cbn in Hij; [lia|].
  destruct i as [|i], j as [|j]; cbn; [apply Qle_refl| |lia|apply IH; lia].
  rewrite Forall_forall in Hall. apply Hall, list_elem_of_In, nth_In. lia.
Qed.

(** A value between [a] and [b]. *)
Lemma interpolate_bounds (a b t : Q) :
  (a <= b)%Q → (0 <= t)%Q → (t <= 1)%Q → (a <= a + (b - a) * t)%Q ∧ (a + (b - a) * t <= b)%Q.
Proof.
  intros Hab Ht0 Ht1. assert (0 <= b - a)%Q as Hd by (unfold Qminus; by rewrite <- Qle_minus_iff). split.
  - rewrite <- (Qplus_0_r a) at 1. apply Qplus_le_compat; [apply Qle_refl|]. by apply Qmult_le_0_compat.
  - apply (Qle_trans _ (a + (b - a) * 1)%Q).
    + apply Qplus_le_compat; [apply Qle_refl|]. rewrite !(Qmult_comm (b - a)). by apply Qmult_le_compat_r.
    + setoid_replace (a + (b - a) * 1)%Q with b using relation Qeq by ring. apply Qle_refl.
Qed.

(** A percentile is where it should be: for [0 <= p <= 1] it lies between two neighbours of
    the sorted samples around position [(n - 1) p]; it is the smallest sample at 0 and the
    largest at 1; it is undefined exactly without samples. *)
Theorem percentile_between_neighbours values p :
  (0 <= p)%Q → (p <= 1)%Q →
  let v := sorted_q values in
  match percentile values p with
  | None => values = []
  | Some x =>
      v ≡ₚ values ∧ StronglySorted Qle v ∧
      ∃ lo, (lo < length v)%nat ∧
        (inject_Z (Z.of_nat lo) <= inject_Z (Z.of_nat (length v) - 1) * p)%Q ∧
        (inject_Z (Z.of_nat (length v) - 1) * p < inject_Z (Z.of_nat lo + 1))%Q ∧
        (nth lo v 0 <= x)%Q ∧ (x <= nth (Nat.min (lo + 1) (length v - 1)) v 0)%Q ∧
        (p == 0 → x == nth 0 v 0)%Q ∧ (p == 1 → x == nth (length v - 1) v 0)%Q
  end.
Proof.
  intros Hp0 Hp1 v. unfold percentile. fold v. pose proof (sorted_q_sorted values) as Hs. fold v in Hs.
  destruct (decide (length v = 0)%nat) as [Hv|Hv].
  { apply nil_length_inv in Hv. rewrite Hv. apply Permutation_nil_r. rewrite <- Hv. symmetry. apply sorted_q_perm. }
  destruct v as [|v0 v'] eqn:Ev; [done|]. rewrite <- Ev in *. clear Ev v0 v'.
  set (n := length v) in *. set (i := (inject_Z (Z.of_nat n - 1) * p)%Q).
  assert (0 <= inject_Z (Z.of_nat n - 1))%Q as Hn by (change 0%Q with (inject_Z 0); rewrite <- Zle_Qle; lia).
  assert (0 <= i)%Q as Hi0 by (apply Qmult_le_0_compat; done).
  assert (i <= inject_Z (Z.of_nat n - 1))%Q as Hi1.
  { unfold i. rewrite <- (Qmult_1_r (inject_Z (Z.of_nat n - 1))) at 2.
    rewrite !(Qmult_comm (inject_Z _)). by apply Qmult_le_compat_r. }
  assert (0 ≤ Qfloor i ≤ Z.of_nat n - 1)%Z as Hf.
  { split; [rewrite <- (Qfloor_Z 0)|rewrite <- (Qfloor_Z (Z.of_nat n - 1))]; by apply Qfloor_resp_le. }
  set (lo := Z.to_nat (Qfloor i)).
  assert (inject_Z (Qfloor i) = inject_Z (Z.of_nat lo)) as Hlo by (unfold lo; f_equal; lia).
  pose proof (Qfloor_le i) as Hfl. pose proof (Qlt_floor i) as Hfl'.
  set (hi := Nat.min (lo + 1) (n - 1)).
  assert (nth lo v 0 <= nth hi v 0)%Q as Hle by (apply sorted_nth; [done|unfold lo, hi, n in *; lia]).
  assert (0 <= i - inject_Z (Qfloor i))%Q as Hd0 by (unfold Qminus; rewrite <- Qle_minus_iff; done).
  assert (i - inject_Z (Qfloor i) <= 1)%Q as Hd1.
  { apply Qlt_le_weak. rewrite inject_Z_plus in Hfl'. apply Qlt_minus_iff. apply Qlt_minus_iff in Hfl'.
    setoid_replace (1 + - (i - inject_Z (Qfloor i)))%Q with (inject_Z (Qfloor i) + inject_Z 1 + - i)%Q
      using relation Qeq by (change (inject_Z 1) with 1%Q; ring). done. }
  split_and!; [apply sorted_q_perm|done|]. exists lo.
  set (t := (i - inject_Z (Qfloor i))%Q) in *.
  assert (∀ (k : nat) z, Z.of_nat k = z → (i == inject_Z z)%Q →
    (nth lo v 0 + (nth hi v 0 - nth lo v 0) * t == nth k v 0)%Q) as Hexact.
  { intros k z Hk Hz. assert (Qfloor i = z) as Hfz by (rewrite (Qfloor_comp _ _ Hz); apply Qfloor_Z).
    assert (lo = k) as -> by (unfold lo; lia).
    assert (t == 0)%Q as -> by (unfold t; rewrite Hfz, Hz; ring). ring. }
  destruct (interpolate_bounds _ _ t Hle Hd0 Hd1) as [Hb1 Hb2].
  split_and!; [unfold lo, n in *; lia|by rewrite <- Hlo| |done|done| |].
  - rewrite inject_Z_plus, <- Hlo, <- inject_Z_plus. done.
  - intros Hp. apply (Hexact 0%nat 0%Z); [done|]. unfold i. rewrite Hp. ring.
  - intros Hp. apply (Hexact (n - 1)%nat (Z.of_nat n - 1)%Z); [unfold n; lia|]. unfold i. rewrite Hp. ring.
Qed.

Lemma percentile_between_neighbours_witness :
  ∃ x, percentile [3%Q; 1%Q; 2%Q] 1 = Some x ∧ (x == 3)%Q.
Proof.
  destruct (percentile [3%Q; 1%Q; 2%Q] 1) as [x|] eqn:E; [|discriminate E].
  pose proof (percentile_between_neighbours [3%Q; 1%Q; 2%Q] 1%Q) as H. rewrite E in H.
  destruct H as (_ & _ & lo & _ & _ & _ & _ & _ & _ & H); [discriminate|discriminate|].
  exists x. split; [reflexivity|]. apply H. reflexivity.
Defined.

(** *** Batches *)
Lemma seqZ_chunks k n :
  mjoin ((λ j, let offset := (1000 * Z.of_nat j)%Z in seqZ offset (Z.min n (offset + 1000) - offset)) <$> seq 0 k)
  = seqZ 0 (Z.min n (1000 * Z.of_nat k)).
Proof.
  induction k as [|k IH]; [cbn; symmetry; apply seqZ_nil; lia|].
  rewrite seq_S, fmap_app, join_app, IH. cbn [fmap list_fmap mjoin list_join Nat.add]. cbv zeta.
  rewrite app_nil_r. apply list_eq. intros i.
  destruct (decide (Z.of_nat i < Z.min n (1000 * Z.of_nat k))%Z).
  - rewrite lookup_app_l by (rewrite length_seqZ; lia). by rewrite !lookup_seqZ_lt by lia.
  - rewrite lookup_app_r by (rewrite length_seqZ; lia). rewrite length_seqZ.
    destruct (decide (Z.of_nat i < Z.min n (1000 * Z.of_nat (S k)))%Z).
    + rewrite !lookup_seqZ_lt by lia. f_equal. lia.
    + by rewrite !lookup_seqZ_ge by lia.
Qed.

(** A benchmark case of [count] jobs is submitted completely and within the API's limits: the
    batches together are the jobs 0 to [count - 1], once each and in order, with distinct
    idempotency keys, and each batch has 1 to 1000 jobs. *)
Theorem bench_batches_cover run_id workload count :
  (1 ≤ count)%Z →
  mjoin (bench_batches run_id workload count)
    = bench_job run_id workload (bench_command workload) <$> seqZ 0 count ∧
  NoDup (bench_key run_id <$> seqZ 0 count) ∧
  Forall (λ b, 1 ≤ length b ≤ N.to_nat 1000)%nat (bench_batches run_id workload count).
Proof.
  intros Hc. assert (0 ≤ (count + 999) / 1000)%Z as Hq by (apply Z.div_pos; lia).
  assert (count ≤ 1000 * ((count + 999) / 1000))%Z as Hup.
  { pose proof (Z.div_mod (count + 999) 1000 ltac:(lia)).
    pose proof (Z.mod_pos_bound (count + 999) 1000 ltac:(lia)). lia. }
  assert (1000 * ((count + 999) / 1000) ≤ count + 999)%Z as Hlow by (apply Z.mul_div_le; lia).
  split_and!.
  - unfold bench_batches. set (f := bench_job _ _ _).
    assert (∀ l : list (list Z), mjoin (map (map f) l) = f <$> mjoin l) as ->.
    { induction l as [|x l IH]; [done|]. cbn. rewrite fmap_app. f_equal. exact IH. }
    f_equal. unfold bench_ranges. rewrite seqZ_chunks. f_equal. lia.
  - apply NoDup_fmap_2; [|apply NoDup_seqZ]. intros i j Hij. unfold bench_key in Hij.
    repeat apply app_inj_l in Hij. by apply (inj pretty).
  - apply Forall_forall. intros b Hb. unfold bench_batches, bench_ranges in Hb.
    apply list_elem_of_In, in_map_iff in Hb as (l & <- & Hl). rewrite length_map.
    apply list_elem_of_In, list_elem_of_fmap in Hl as (j & -> & Hj). apply elem_of_seq in Hj.
    cbv zeta. rewrite length_seqZ. lia.
Qed.

Lemma bench_batches_cover_witness : length (bench_batches "r1" "noop" 2500) = 3%nat ∧
  Forall (λ b, 1 ≤ length b ≤ N.to_nat 1000)%nat (bench_batches "r1" "noop" 2500).
Proof.
  split; [vm_compute; reflexivity|]. apply (bench_batches_cover "r1" "noop" 2500). lia.
Defined.
