(* ===== verification/BenchRun.v ===== *)
(** * BenchRun: the measurement scripts as programs (benchmarks/run.py, benchmarks/recovery.py)

    The scripts drive a cluster of containers: they stop and start its workers, submit jobs, read
    the database through [psql] until the jobs have ended, sample the database container from a
    second thread, and write what they measured.  They are trees of calls to Docker, the API, the
    clock and the file system.  Times are microseconds; the numbers of a result are exact
    rationals, and the text [json.dumps] writes of them is not modelled: a result is written as a
    record. *)
From Stdlib Require Import QArith.
From S2P Require Import Prelude Effects PyStr Csv Json JsonParse JsonRound PyInt Calendar Times Argparse Wire Checkpoint Client Protocols Bench.
Local Open Scope string_scope.
Local Open Scope list_scope.
Local Open Scope Z_scope.

(** ** Data *)
(** What the sampling thread appends. *)
Inductive entry :=
| Measured (time : string) (cpu_percent : Q) (connections : Z) (memory : json)
| Failed (e : exn).

(** The [summary] of a case. *)
Record summary := Summary {
  s_run_id : string; s_jobs : Z; s_workers : Z; s_workload : string;
  s_submission_seconds : Q; s_submission_rate : Q;
  s_execution_seconds : Q; s_end_to_end_rate : Q;
  s_span : Q; s_scheduling_rate : option Q;
  s_p50 : option Q; s_p95 : option Q; s_p99 : option Q;
  s_succeeded : nat; s_attempts : nat; s_revision : string; s_dirty : bool;
  s_platform : string; s_python : string; s_docker : string; s_compose_config : string; s_timestamp : string }.

(** The [result] of a recovery case; the middle one of the times is the lease of the replacement
    or the readiness of the server. *)
Record recovery := Recovery {
  v_fault : string; v_job_id : string; v_started_at : string; v_recovered : Q;
  v_completion : Q; v_attempts : json; v_state : string }.

(** ** The calls *)
Inductive bop :=
| CheckOutput (argv : list string)    (* subprocess.check_output(argv, text=True) *)
| RunCheck (argv : list string)       (* subprocess.run(argv, check=True) *)
| Http (h : Client.http)              (* urlopen, and json.load of the response *)
| Uuid4
| PerfCounter
| Monotonic
| Sleep (d : Z)
| UtcNow                              (* datetime.now(timezone.utc).isoformat() *)
| Platform
| PythonVersion
| SamplerStart
| StopSet
| StopIsSet
| StopWait (d : Z)
| SamplerJoin (timeout : Z)
| SamplesAppend (e : entry)
| SamplesRead
| Mkdir (path : string)
| WriteText (path text : string)
| WriteSamples (path : string) (l : list entry)
| WriteSummary (path : string) (s : summary)
| PrintSummary (s : summary)
| WriteResults (path revision platform : string) (l : list recovery)
| PrintResult (v : recovery).

Definition bans (o : bop) : Type :=
  match o with
  | CheckOutput _ => exn + string
  | RunCheck _ | Mkdir _ | WriteText _ _ | WriteSamples _ _ | WriteSummary _ _ | WriteResults _ _ _ _ => exn + unit
  | Http _ => exn + json
  | Uuid4 | UtcNow | Platform | PythonVersion => string
  | PerfCounter | Monotonic => Z
  | StopIsSet | StopWait _ => bool
  | SamplesRead => list entry
  | _ => unit
  end.
Definition BenchSig : sig := Sig bop bans.
Abbreviation B := (py BenchSig).
Abbreviation bevent := (event BenchSig).
Definition bev (o : bop) (x : bans o) : bevent := existT (o : op BenchSig) x.
Notation "'ask' o" := (call_op (S:=BenchSig) o) (at level 10, o at level 9) : py_scope.
(** A call that may raise. *)
Notation "'must' o" := (bind (call_op (S:=BenchSig) o) unwrap) (at level 10, o at level 9) : py_scope.

(** ** Docker Compose and the database *)
Definition COMPOSE : list string := ["docker"; "compose"; "-f"; "deploy/docker-compose.yml"].

Definition compose (args : list string) : B string :=
  out <- must (CheckOutput (COMPOSE ++ args));
  ret (strip is_space out).

Definition psql (flag query : string) : list string :=
  ["exec"; "-T"; "postgres"; "psql"; "-U"; "rungrid"; "-d"; "rungrid"; flag; query].

Definition samples_query (run_id : string) : string :=
  "COPY (SELECT j.id,j.state,j.created_at,a.id attempt_id,a.attempt_number,a.state attempt_state,
    a.created_at leased_at,a.started_at,a.finished_at,
    extract(epoch FROM a.created_at-j.created_at) scheduling_latency_seconds,
    extract(epoch FROM a.finished_at-a.started_at) runtime_seconds
    FROM jobs j LEFT JOIN attempts a ON a.job_id=j.id
    WHERE j.idempotency_key LIKE 'bench-" +:+ run_id +:+ "-%' ORDER BY j.created_at,a.attempt_number)
    TO STDOUT WITH CSV HEADER".

Definition uuid_char (c : ascii) : bool := contains (String c EmptyString) "abcdef0123456789-".
Fixpoint all_chars (p : ascii → bool) (s : string) : bool :=
  match s with EmptyString => true | String c s => p c && all_chars p s end.

Definition database_samples (run_id : string) : B string :=
  if all_chars uuid_char run_id then
    out <- compose (psql "-c" (samples_query run_id));
    ret (out +:+ String lf EmptyString)
  else raise (AssertionError EmptyString).

(** ** The sampling thread *)
(** [float(s)] of decimal notation. *)
Fixpoint decimal (acc : Z) (scale : positive) (dot any : bool) (s : string) : option Q :=
  match s with
  | EmptyString => if any then Some (acc # scale) else None
  | String c r =>
      match digit c with
      | Some d => decimal (acc * 10 + Z.of_N d) (if dot then scale * 10 else scale)%positive dot true r
      | None => if Ascii.eqb c "." && negb dot then decimal acc scale true any r else None
      end
  end.
Definition py_float (s : string) : option Q :=
  match strip is_space s with
  | String "-" r => Qopp <$> decimal 0 1 false false r
  | String "+" r => decimal 0 1 false false r
  | r => decimal 0 1 false false r
  end.

Definition cpu_of (v : json) : exn + Q :=
  match v with
  | JStr s => match py_float (rstrip (is_char "%") s) with
              | Some q => inr q
              | None => inl (ValueError "could not convert string to float")
              end
  | _ => inl (AttributeError "rstrip")
  end.

(** The body of the [try] in the loop. *)
Definition measure (container : string) : B entry :=
  text <- must (CheckOutput ["docker"; "stats"; "--no-stream"; "--format"; "{{json .}}"; container]);
  match loads text with
  | None => raise (ValueError "Expecting value")
  | Some stats =>
      connections <- compose (psql "-Atc"
        ("SELECT count(" +:+ "*) FROM pg_stat_activity WHERE datname=current_database()"));
      now <- ask UtcNow;
      cpu <- unwrap (item stats "CPUPerc");
      cpu <- unwrap (cpu_of cpu);
      match py_int connections with
      | None => raise (ValueError "invalid literal for int()")
      | Some n => memory <- unwrap (item stats "MemUsage"); ret (Measured now cpu n memory)
      end
  end.

Definition tolerated (e : exn) : bool :=
  match e with CalledProcessError _ | ValueError _ | KeyError _ => true | _ => false end.

Definition sample_once (container : string) : B unit :=
  try_except (e <- measure container; ask (SamplesAppend e))
    (λ exc, if tolerated exc then Some (ask (SamplesAppend (Failed exc))) else None).

Fixpoint sample_loop (fuel : nat) (container : string) : B unit :=
  match fuel with
  | O => diverge
  | S fuel =>
      stop <- ask StopIsSet;
      if (stop : bool) then ret tt
      else sample_once container ;;; _ <- ask (StopWait (sec 1)); sample_loop fuel container
  end.
Definition sample_resources (fuel : nat) : B unit :=
  container <- compose ["ps"; "-q"; "postgres"];
  sample_loop fuel container.

(** ** [run_case] *)
(** [client.batch(batch)] for each batch, into the list [submitted]. *)
Fixpoint submit_batches (self : string) (bs : list (list json)) : B unit :=
  match bs with
  | [] => ret tt
  | b :: bs =>
      uuid <- ask Uuid4;
      answer <- must (Http (Client.batch self uuid b));
      match answer with
      | JNull | JBool _ | JNum _ => raise (TypeError "object is not iterable")
      | _ => submit_batches self bs
      end
  end.

(** *** Reading the rows *)
(** [r[k]] of a row *)
Definition cell (r : dict) (k : string) : exn + option string :=
  match r !! k with Some v => inr v | None => inl (KeyError k) end.

(** [[f(r) for r in rows if ...]]: [f] answers [None] for a row that is left out. *)
Fixpoint comprehend {X} (f : dict → exn + option X) (rows : list dict) : exn + list X :=
  match rows with
  | [] => inr []
  | r :: rows =>
      match f r with
      | inl e => inl e
      | inr x => match comprehend f rows with
                 | inl e => inl e
                 | inr xs => inr (match x with Some x => x :: xs | None => xs end)
                 end
      end
  end.

(** [{r["id"] for r in rows if r["state"] in states}] *)
Definition ids_in (states : list string) (rows : list dict) : exn + list (option string) :=
  match comprehend (λ r, match cell r "state" with
                         | inl e => inl e
                         | inr (Some s) => if mem s states
                                           then match cell r "id" with inl e => inl e | inr i => inr (Some i) end
                                           else inr None
                         | inr None => inr None
                         end) rows with
  | inl e => inl e
  | inr ids => inr (remove_dups ids)
  end.
Definition terminal_ids : list dict → exn + list (option string) := ids_in ["SUCCEEDED"; "FAILED"; "CANCELLED"].

(** The rows of first attempts. *)
Definition first_attempts (rows : list dict) : exn + list dict :=
  comprehend (λ r, match cell r "attempt_number" with
                   | inl e => inl e
                   | inr n => inr (if bool_decide (n = Some "1") then Some r else None)
                   end) rows.

Definition latency_of (r : dict) : exn + option Q :=
  match cell r "scheduling_latency_seconds" with
  | inl e => inl e
  | inr None => inl (TypeError "float() argument must be a string or a real number")
  | inr (Some s) => match py_float s with
                    | Some q => inr (Some q)
                    | None => inl (ValueError "could not convert string to float")
                    end
  end.
(** [datetime.fromisoformat(r["leased_at"]).timestamp()] *)
Definition leased_of (r : dict) : exn + option Q :=
  match cell r "leased_at" with
  | inl e => inl e
  | inr None => inl (TypeError "fromisoformat: argument must be str")
  | inr (Some s) => match fromisoformat s with
                    | Some t => inr (Some (t # 1000000))
                    | None => inl (ValueError "Invalid isoformat string")
                    end
  end.

(** *** Waiting for the jobs *)
Fixpoint watch (fuel : nat) (run_id : string) (count timeout execution_started : Z) : B (string * list dict) :=
  match fuel with
  | O => diverge
  | S fuel =>
      raw <- database_samples run_id;
      rows <- unwrap (dict_rows raw);
      ids <- unwrap (terminal_ids rows);
      if Z.of_nat (length ids) =? count then ret (raw, rows)
      else
        now <- ask PerfCounter;
        if now - execution_started >? sec timeout then
          raise (OSError ("benchmark timed out: " +:+ pretty (Z.of_nat (length ids)) +:+ "/" +:+ pretty count))
        else ask (Sleep (ms 500)) ;;; watch fuel run_id count timeout execution_started
  end.

(** Polls that fit in [timeout] seconds, half a second apart. *)
Definition watch_fuel (timeout : Z) : nat := Z.to_nat (2 * Z.max 0 timeout + 2).

Definition scale (n : Z) : list string := ["up"; "-d"; "--scale"; "worker=" +:+ pretty n; "worker"].

(** The [try] block: the rows at the end, and the time they took. *)
Definition execute_case (run_id : string) (count workers timeout execution_started : Z)
    : B (string * list dict * Z) :=
  _ <- compose (scale workers);
  r <- watch (watch_fuel timeout) run_id count timeout execution_started;
  now <- ask PerfCounter;
  ret (r, now - execution_started).

(** *** The report *)
Definition qmax (l : list Q) : Q := foldr (λ x y, if Qle_bool x y then y else x) (hd 0%Q l) l.
Definition qmin (l : list Q) : Q := foldr (λ x y, if Qle_bool x y then x else y) (hd 0%Q l) l.

Definition seconds (us : Z) : Q := (us # 1000000).
Definition rate (count us : Z) : exn + Q :=
  if us =? 0 then inl ZeroDivisionError else inr (inject_Z count / seconds us)%Q.

Definition schedule_span (leases : list Q) : Q :=
  if (1 <? length leases)%nat then (qmax leases - qmin leases)%Q else 0%Q.

Definition case_dir (output workload : string) (workers count : Z) (run_id : string) : string :=
  path_join output (workload +:+ "-" +:+ pretty workers +:+ "workers-" +:+ pretty count +:+ "jobs-"
                    +:+ py_take 8 run_id).

(** From the end of the [finally] block to the [return]. *)
Definition report_case (run_id workload output raw : string) (rows : list dict)
    (count workers submit_us elapsed : Z) : B summary :=
  let case := case_dir output workload workers count run_id in
  _ <- must (Mkdir case);
  _ <- must (WriteText (case +:+ "/attempts.csv") raw);
  samples <- ask SamplesRead;
  _ <- must (WriteSamples (case +:+ "/resources.json") samples);
  first <- unwrap (first_attempts rows);
  latencies <- unwrap (comprehend latency_of first);
  leases <- unwrap (comprehend leased_of first);
  let span := schedule_span leases in
  submission_rate <- unwrap (rate count submit_us);
  end_to_end <- unwrap (rate count elapsed);
  succeeded <- unwrap (ids_in ["SUCCEEDED"] rows);
  revision <- must (CheckOutput ["git"; "rev-parse"; "HEAD"]);
  dirty <- must (CheckOutput ["git"; "status"; "--porcelain"]);
  platform <- ask Platform;
  python <- ask PythonVersion;
  docker <- must (CheckOutput ["docker"; "version"; "--format"; "{{.Server.Version}}"]);
  config <- compose ["config"];
  now <- ask UtcNow;
  let s := {| s_run_id := run_id; s_jobs := count; s_workers := workers; s_workload := workload;
              s_submission_seconds := seconds submit_us; s_submission_rate := submission_rate;
              s_execution_seconds := seconds elapsed; s_end_to_end_rate := end_to_end;
              s_span := span;
              s_scheduling_rate := if Qeq_bool span 0 then None else Some (inject_Z (count - 1) / span)%Q;
              s_p50 := percentile latencies (50 # 100); s_p95 := percentile latencies (95 # 100);
              s_p99 := percentile latencies (99 # 100);
              s_succeeded := length succeeded; s_attempts := length rows;
              s_revision := strip is_space revision; s_dirty := nonempty dirty; s_platform := platform;
              s_python := python; s_docker := strip is_space docker; s_compose_config := config;
              s_timestamp := now |} in
  _ <- must (WriteSummary (case +:+ "/summary.json") s);
  ask (PrintSummary s) ;;;
  if Z.of_nat (s_succeeded s) =? count then ret s
  else raise (AssertionError "failed jobs: inspect raw results").

Definition run_case (self : string) (count workers : Z) (workload output : string) (timeout : Z) : B summary :=
  run_id <- ask Uuid4;
  _ <- compose ["stop"; "worker"];
  started <- ask PerfCounter;
  submit_batches self (bench_batches run_id workload count) ;;;
  submitted <- ask PerfCounter;
  ask SamplerStart ;;;
  execution_started <- ask PerfCounter;
  r <- try_finally (execute_case run_id count workers timeout execution_started)
         (ask StopSet ;;; ask (SamplerJoin (sec 10)));
  report_case run_id workload output r.1.1 r.1.2 count workers (submitted - started) r.2.

(** ** [main] of run.py *)
Record bench_args := BenchArgs {
  a_jobs : Z; a_workers : list Z; a_workloads : list string; a_output : string; a_timeout : Z; a_repeat : Z }.

Fixpoint run_cases (self : string) (a : bench_args) (cases : list (string * Z)) : B unit :=
  match cases with
  | [] => ret tt
  | (workload, workers) :: cases =>
      _ <- run_case self (a_jobs a) workers workload (a_output a) (a_timeout a);
      run_cases self a cases
  end.

(** [for _ in range(repeat): for workload in workloads: for workers in workers] *)
Definition bench_cases (a : bench_args) : list (string * Z) :=
  mjoin (replicate (Z.to_nat (a_repeat a)) (w ← a_workloads a; n ← a_workers a; [(w, n)])).

Definition default_url : string := Client.new "http://localhost:8080".
Definition restore_cluster : B unit := _ <- compose (scale 2); ret tt.

Definition bench_main (a : bench_args) : B unit :=
  if (a_jobs a <? 1) || (100000 <? a_jobs a) || existsb (λ n, n <? 1) (a_workers a)
  then raise (SystemExit 2)
  else try_finally (run_cases default_url a (bench_cases a)) restore_cluster.

(** The command line *)
Definition bench_options : list option_ :=
  [Option_ "--jobs" TInt false (VInt 100);
   Option_ "--workers" (TMany TInt) false (VList (VInt <$> [1; 2; 4; 8; 16]));
   Option_ "--workloads" (TMany (TChoice ["noop"; "python"])) false (VList (VStr <$> ["noop"; "python"]));
   Option_ "--output" TPath false (VStr "results/benchmarks");
   Option_ "--timeout" TInt false (VInt 7200);
   Option_ "--repeat" TInt false (VInt 1)].
Definition bench_args_of (argv : list string) : exn + bench_args :=
  match parse_args bench_options argv with
  | inl e => inl e
  | inr ns => inr (BenchArgs (get_int ns "--jobs") (get_ints ns "--workers") (get_strs ns "--workloads")
                     (get_str ns "--output") (get_int ns "--timeout") (get_int ns "--repeat"))
  end.
Definition bench_script (argv : list string) : B unit :=
  match bench_args_of argv with inl e => raise e | inr a => bench_main a end.

Example bench_command_line :
  bench_args_of ["--workers"; "2"; "4"; "--jobs=50"; "--workloads"; "noop"; "--out"; "./r/"]
  = inr (BenchArgs 50 [2; 4] ["noop"] "r" 7200 1) ∧
  bench_args_of [] = inr (BenchArgs 100 [1; 2; 4; 8; 16] ["noop"; "python"] "results/benchmarks" 7200 1) ∧
  bench_args_of ["--workers"] = inl (SystemExit 2) ∧ bench_args_of ["--workloads"; "noop"; "x"] = inl (SystemExit 2).
Proof. by vm_compute. Qed.

(** ** recovery.py *)
(** [wait(fn, timeout)]: an [OSError] of the condition is another try. *)
Fixpoint wait_loop (fuel : nat) (fn : B bool) (end_ : Z) : B unit :=
  match fuel with
  | O => diverge
  | S fuel =>
      now <- ask Monotonic;
      if now <? end_ then
        holds <- try_except fn (λ e, match e with OSError _ => Some (ret false) | _ => None end);
        if (holds : bool) then ret tt else ask (Sleep (ms 50)) ;;; wait_loop fuel fn end_
      else raise (OSError "recovery deadline exceeded")
  end.
(** Tries that fit in [timeout] seconds, 50 ms apart. *)
Definition wait_fuel (timeout : Z) : nat := Z.to_nat (20 * Z.max 0 timeout + 2).
Definition wait (fn : B bool) (timeout : Z) : B unit :=
  now <- ask Monotonic;
  wait_loop (wait_fuel timeout) fn (now + sec timeout).

(** *** The API *)
Definition http (f : string → Client.http) : B json := uuid <- ask Uuid4; must (Http (f uuid)).

Definition job_state (self job : string) : B string :=
  j <- http (λ u, Client.get self u job); unwrap (text_item j "state").
Definition job_attempts (self job : string) : B json := http (λ u, Client.attempts self u job).

Definition attempts_list (v : json) : exn + list json :=
  match v with JArr l => inr l | _ => inl (TypeError "attempts") end.

(** *** The container of a worker *)
(** [text.splitlines()] of ASCII text *)
Definition line_break (c : ascii) : bool :=
  let n := N_of_ascii c in ((10 <=? n) && (n <=? 13) || (28 <=? n) && (n <=? 30))%N.
Fixpoint splitlines (cur s : string) : list string :=
  match s with
  | EmptyString => if nonempty cur then [cur] else []
  | String c r =>
      if line_break c then
        cur :: match r with
               | String d r' => if Ascii.eqb c cr && Ascii.eqb d lf then splitlines EmptyString r'
                                else splitlines EmptyString r
               | EmptyString => []
               end
      else splitlines (cur +:+ String c EmptyString) r
  end.

(** The first container whose host name starts the name of the worker. *)
Fixpoint find_container (worker : string) (containers : list string) : B (option string) :=
  match containers with
  | [] => ret None
  | c :: cs =>
      hostname <- must (CheckOutput ["docker"; "inspect"; "-f"; "{{.Config.Hostname}}"; c]);
      if has_prefix (strip is_space hostname +:+ "-") worker then ret (Some c)
      else find_container worker cs
  end.

(** *** [case] *)
Definition recovery_job (uuid : string) : json :=
  JObj [("name", JStr "recovery-benchmark");
        ("command", JArr (JStr <$> ["python"; "-c"; "import time;time.sleep(5)"]));
        ("environment", JObj []);
        ("resources", JObj [("cpu", JNum 1); ("memory_mb", JNum 128); ("gpu", JNum 0)]);
        ("max_attempts", JNum 3); ("timeout_seconds", JNum 60); ("idempotency_key", JStr uuid);
        ("artifact_prefix", JStr "recovery-benchmark")].

(** The worker that holds the job is killed; the time from there to the next attempt. *)
Definition kill_worker (self job : string) (attempts : json) : B (Z * Z) :=
  l <- unwrap (attempts_list attempts);
  last_ <- unwrap (match last l with Some a => inr a | None => inl (IndexError "list index out of range") end);
  worker <- unwrap (text_item last_ "worker_id");
  ps <- compose ["ps"; "-q"; "worker"];
  target <- find_container worker (splitlines EmptyString ps);
  match target with
  | None => raise (ValueError "worker not found")
  | Some c =>
      _ <- must (RunCheck ["docker"; "kill"; c]);
      start <- ask Monotonic;
      wait (v <- job_attempts self job; l <- unwrap (attempts_list v); ret (2 <=? length l)%nat) 90 ;;;
      now <- ask Monotonic;
      ret (start, now - start)
  end.

(** The server is restarted; the time until it is ready. *)
Definition restart_server (self : string) : B (Z * Z) :=
  start <- ask Monotonic;
  _ <- compose ["restart"; "server"];
  wait (v <- http (λ u, Client.request self u "GET" "/readyz" None None);
        s <- unwrap (text_item v "status"); ret (String.eqb s "ready")) 90 ;;;
  now <- ask Monotonic;
  ret (start, now - start).

Definition case (self fault : string) : B recovery :=
  key <- ask Uuid4;
  job <- http (λ u, Client.submit self u (recovery_job key));
  id <- unwrap (text_item job "id");
  wait (s <- job_state self id; ret (String.eqb s "RUNNING")) 90 ;;;
  attempts <- job_attempts self id;
  started_at <- ask UtcNow;
  t <- (if String.eqb fault "worker_kill" then kill_worker self id attempts else restart_server self);
  wait (s <- job_state self id; ret (mem s ["SUCCEEDED"; "FAILED"])) 90 ;;;
  now <- ask Monotonic;
  attempts <- job_attempts self id;
  state <- job_state self id;
  if String.eqb state "SUCCEEDED" then
    _ <- compose (scale 2);
    ret (Recovery fault id started_at (seconds t.2) (seconds (now - t.1)) attempts state)
  else raise (AssertionError "result").

Fixpoint recovery_cases (self output revision platform : string) (done : list recovery) (faults : list string)
    : B unit :=
  match faults with
  | [] => ret tt
  | fault :: faults =>
      v <- case self fault;
      _ <- must (Mkdir (parent output));
      _ <- must (WriteResults output revision platform (done ++ [v]));
      ask (PrintResult v) ;;;
      recovery_cases self output revision platform (done ++ [v]) faults
  end.

Definition recovery_main (repeat : Z) (output : string) : B unit :=
  revision <- must (CheckOutput ["git"; "rev-parse"; "HEAD"]);
  platform <- ask Platform;
  try_finally
    (recovery_cases default_url output (strip is_space revision) platform []
       (mjoin (replicate (Z.to_nat repeat) ["worker_kill"; "control_plane_restart"])))
    restore_cluster.

Definition recovery_options : list option_ :=
  [Option_ "--repeat" TInt false (VInt 3); Option_ "--output" TPath false (VStr "results/recovery.json")].
Definition recovery_script (argv : list string) : B unit :=
  match parse_args recovery_options argv with
  | inl e => raise e
  | inr ns => recovery_main (get_int ns "--repeat") (get_str ns "--output")
  end.

(** ** What has happened

    The facts of a history the theorems speak about, as a state that each call updates. *)
Inductive sampler := Idle | Sampling | Stopping.
#[export] Instance sampler_eq_dec : EqDecision sampler.
Proof. solve_decision. Defined.

Record cluster := Cluster {
  c_down : bool;                          (* the last command about the workers stopped them *)
  c_sampler : sampler;
  c_written : option (string * string);   (* the last file written as text *)
  c_summaries : list summary;
  c_perf : option Z;                      (* the clocks show at least this *)
  c_mono : option Z;
  c_last : option bop }.
Definition cluster0 : cluster := Cluster false Idle None [] None None None.

Definition down_after (argv : list string) (r : exn + string) (b : bool) : bool :=
  if bool_decide (take 4 argv = COMPOSE) then
    if bool_decide (argv !! 4%nat = Some "stop") then match r with inr _ => true | inl _ => false end
    else if bool_decide (argv !! 4%nat = Some "up") then false
    else b
  else b.

Definition advance (d : Z) (b : option Z) : option Z := (λ t, t + Z.max 0 d) <$> b.

Definition step (c : cluster) (e : bevent) : cluster :=
  let 'Cluster d s w l p m _ := c in
  let o : bop := projT1 e in
  match o as o' return bans o' → cluster with
  | CheckOutput argv => λ r, Cluster (down_after argv r d) s w l p m (Some o)
  | PerfCounter => λ t, Cluster d s w l (Some t) m (Some o)
  | Monotonic => λ t, Cluster d s w l p (Some t) (Some o)
  | Sleep t => λ _, Cluster d s w l (advance t p) (advance t m) (Some o)
  | SamplerStart => λ _, Cluster d Sampling w l p m (Some o)
  | StopSet => λ _, Cluster d (match s with Sampling => Stopping | s => s end) w l p m (Some o)
  | SamplerJoin _ => λ _, Cluster d (match s with Stopping => Idle | s => s end) w l p m (Some o)
  | WriteText path text => λ _, Cluster d s (Some (path, text)) l p m (Some o)
  | WriteSummary _ x => λ r, Cluster d s w (match r with inr _ => l ++ [x] | inl _ => l end) p m (Some o)
  | _ => λ _, Cluster d s w l p m (Some o)
  end (projT2 e).
Definition state (h : list bevent) : cluster := foldl step cluster0 h.

Lemma state_snoc h e : state (h ++ [e]) = step (state h) e.
Proof. apply foldl_snoc. Qed.

(** The clocks do not run backwards, and a sleep takes its time. *)
Definition timely (h : list bevent) (e : bevent) : bool :=
  let o : bop := projT1 e in
  match o as o' return bans o' → bool with
  | PerfCounter => λ t, match c_perf (state h) with Some b => b <=? t | None => true end
  | Monotonic => λ t, match c_mono (state h) with Some b => b <=? t | None => true end
  | _ => λ _, true
  end (projT2 e).

(** ** run.py *)
Section Run.
Context (a : bench_args).

(** The summary [s] is that of the rows in the file written before it, which show all jobs ended. *)
Definition measured (raw : string) (s : summary) : Prop :=
  ∃ rows ended ok, dict_rows raw = inr rows ∧ terminal_ids rows = inr ended ∧
    ids_in ["SUCCEEDED"] rows = inr ok ∧
    Z.of_nat (length ended) = a_jobs a ∧ s_jobs s = a_jobs a ∧
    s_succeeded s = length ok ∧ s_attempts s = length rows.

Definition guard (c : cluster) (o : bop) : Prop :=
  match o with
  | Http r => Client.h_method r = "POST" ∧ c_down c = true ∧ c_sampler c = Idle
  | SamplerStart => c_down c = true ∧ c_sampler c = Idle
  | WriteSummary path s =>
      c_sampler c = Idle ∧ ∃ raw, c_written c = Some (parent path +:+ "/attempts.csv", raw) ∧ measured raw s
  | _ => True
  end.
Definition bench_guard (h : list bevent) (o : bop) : Prop := guard (state h) o.

Local Abbreviation wpb := (wp (S:=BenchSig) timely bench_guard).

Lemma wp_op (o : bop) (Q : outcome (bans o) → list bevent → Prop) h :
  guard (state h) o →
  (∀ x h', timely h (bev o x) = true → state h' = step (state h) (bev o x) → Q (Ok x) h') →
  wpb (call_op (S:=BenchSig) o) Q h.
Proof. intros HG HQ. apply wp_call_op; [done|]. intros x Hx. apply HQ; [done|apply state_snoc]. Qed.

Lemma down_compose args r b :
  down_after (COMPOSE ++ args) r b =
  match args with
  | "stop" :: _ => match r with inr _ => true | inl _ => false end
  | "up" :: _ => false
  | _ => b
  end.
Proof.
  unfold down_after. rewrite bool_decide_true by done.
  change ((COMPOSE ++ args) !! 4%nat) with (args !! 0%nat).
  destruct args as [|x args]; [done|]. change ((x :: args) !! 0%nat) with (Some x).
  destruct (decide (x = "stop")) as [->|Hs]; [done|]. rewrite (bool_decide_false (Some x = Some "stop")) by congruence.
  destruct (decide (x = "up")) as [->|Hu]; [done|]. rewrite bool_decide_false by congruence.
  clear -Hs Hu.
  repeat match goal with
  | |- _ = match ?t with _ => _ end => destruct t; try done
  end.
Qed.

(** One call, then what its answer leads to; [Hs] is the state before it. *)
Ltac call_step Hs :=
  let x := fresh "x" in let h' := fresh "h" in let Ht := fresh "Ht" in let Hs' := fresh "Hs" in
  apply wp_op;
  [ cbn [guard]; try exact I
  | intros x h' Ht Hs'; rewrite Hs in Hs'; cbn [step projT1 projT2 bev] in Hs';
    try rewrite down_compose in Hs'; cbn beta iota ].

(** The guard of a call, from the state. *)
Ltac known := match goal with H : state ?k = _ |- context [state ?k] => by rewrite H end.

Ltac py_step :=
  match goal with
  | |- wp _ _ (bind _ _) _ _ => apply wp_bind
  | |- wp _ _ (ret _) _ _ => apply wp_ret; cbn beta iota
  | |- wp _ _ (raise _) _ _ => apply wp_raise; cbn beta iota
  | |- wp _ _ (unwrap ?r) _ _ => destruct r eqn:?; [apply wp_raise|apply wp_ret]; cbn beta iota
  | Hs : state ?h = _ |- wp _ _ (call_op _) _ ?h => call_step Hs
  end.

Lemma wp_compose args Q h d s w l p m z :
  state h = Cluster d s w l p m z →
  (∀ r h', state h' = Cluster (down_after (COMPOSE ++ args) r d) s w l p m (Some (CheckOutput (COMPOSE ++ args))) →
           Q (match r with inl e => Raised e | inr out => Ok (strip is_space out) end) h') →
  wpb (compose args) Q h.
Proof.
  intros Hs HQ. unfold compose. do 2 apply wp_bind. apply wp_op; [exact I|].
  intros x h' _ Hs'. rewrite Hs in Hs'. cbn [step projT1 projT2 bev] in Hs'. apply (HQ x) in Hs'.
  destruct x; [by apply wp_raise|by apply wp_ret].
Qed.

(** *** Reading the database until the jobs have ended *)
Lemma wp_watch run_id timeout es fuel Q d s w l p m z h :
  state h = Cluster d s w l (Some p) m z → (1 ≤ fuel)%nat →
  sec timeout - (p - es) < ms 500 * (Z.of_nat fuel - 1) →
  (∀ r h' p' m' z', r ≠ OutOfFuel → state h' = Cluster d s w l (Some p') m' z' →
     (∀ raw rows, r = Ok (raw, rows) → ∃ ids, dict_rows raw = inr rows ∧ terminal_ids rows = inr ids ∧
        Z.of_nat (length ids) = a_jobs a) → Q r h') →
  wpb (watch fuel run_id (a_jobs a) timeout es) Q h.
Proof.
  intros Hs Hf Ht HQ. revert h p m z Hs Hf Ht. induction fuel as [|fuel IH]; intros h p m z Hs Hf Ht; [lia|].
  assert (∀ e h' p' m' z', state h' = Cluster d s w l (Some p') m' z' → Q (Raised e) h') as HR.
  { intros e h' p' m' z' Hs'. eapply HQ; [discriminate|exact Hs'|intros ?? [=]]. }
  cbn [watch]. apply wp_bind. unfold database_samples.
  destruct (all_chars uuid_char run_id); [|apply wp_raise; by eapply HR].
  apply wp_bind. eapply wp_compose; [done|]. intros r h1 Hs1. rewrite down_compose in Hs1. cbn in Hs1.
  destruct r as [e|out]; [by eapply HR|].
  apply wp_ret. apply wp_bind. set (raw := _ +:+ _).
  destruct (dict_rows raw) as [e|rows] eqn:Hrows; [by eapply HR|].
  apply wp_ret, wp_bind. destruct (terminal_ids rows) as [e|ids] eqn:Hids; [by eapply HR|].
  apply wp_ret. destruct (Z.eqb_spec (Z.of_nat (length ids)) (a_jobs a)) as [Hlen|_].
  { apply wp_ret. eapply HQ; [done|exact Hs1|]. intros raw' rows' [= <- <-]. by exists ids. }
  apply wp_bind. apply wp_op; [exact I|]. intros now h2 Htime Hs2. unfold timely in Htime.
  rewrite Hs1 in Hs2, Htime. cbn in Hs2, Htime. apply Z.leb_le in Htime.
  destruct (_ >? _) eqn:Hto; [apply wp_raise; by eapply HR|].
  rewrite Z.gtb_ltb, Z.ltb_ge in Hto. apply wp_bind, wp_op; [exact I|]. intros [] h3 _ Hs3.
  rewrite Hs2 in Hs3. cbn in Hs3. unfold sec, ms in *.
  eapply IH; [exact Hs3|lia|lia].
Qed.

(** *** A case *)
Lemma wp_submit_batches self bs Q s w l p m z h :
  state h = Cluster true s w l p m z → s = Idle →
  (∀ r h' z', r ≠ OutOfFuel → state h' = Cluster true s w l p m z' → Q r h') →
  wpb (submit_batches self bs) Q h.
Proof.
  intros Hs -> HQ. revert h z Hs. induction bs as [|b bs IH]; intros h z Hs.
  { apply wp_ret. by eapply HQ. }
  cbn [submit_batches]. do 5 py_step; [known|]. py_step; [by eapply HQ|].
  destruct j; try (apply wp_raise; by eapply HQ); by eapply IH.
Qed.

Lemma before_last_app d f : before_last slash f = None → before_last slash (d +:+ "/" +:+ f) = Some d.
Proof.
  intros Hf. induction d as [|c d IH].
  { change (before_last slash (String slash f) = Some EmptyString). cbn [before_last]. by rewrite Hf. }
  rewrite string_cons_app. cbn [before_last]. by rewrite IH.
Qed.
Lemma parent_join d f : d ≠ EmptyString → before_last slash f = None → parent (d +:+ "/" +:+ f) = d.
Proof. intros Hd Hf. unfold parent. rewrite before_last_app by done. by destruct d. Qed.

Lemma case_dir_nonempty output workload workers count run_id :
  case_dir output workload workers count run_id ≠ EmptyString.
Proof.
  unfold case_dir, path_join. set (f := workload +:+ _).
  assert (f ≠ EmptyString) as Hf by by destruct workload.
  destruct (existsb _ _); [done|]. destruct (String.eqb output "/"); [done|]. by destruct output.
Qed.

(** The files and the summary of a case that has ended. *)
Lemma wp_report run_id workload output raw rows workers submit_us elapsed ended Q w l p m z d h :
  state h = Cluster d Idle w l p m z →
  dict_rows raw = inr rows → terminal_ids rows = inr ended → Z.of_nat (length ended) = a_jobs a →
  (∀ r h' d' w' l' z', r ≠ OutOfFuel → state h' = Cluster d' Idle w' l' p m z' →
     (∀ s, r = Ok s → l' = l ++ [s] ∧ s_workload s = workload ∧ s_workers s = workers ∧
                      Z.of_nat (s_succeeded s) = a_jobs a) → Q r h') →
  wpb (report_case run_id workload output raw rows (a_jobs a) workers submit_us elapsed) Q h.
Proof.
  intros Hs Hrows Hended Hlen HQ. unfold report_case.
  assert (∀ e h' d' w' l' z', state h' = Cluster d' Idle w' l' p m z' → Q (Raised e) h') as HR.
  { intros e h' d' w' l' z' Hs'. eapply HQ; [discriminate|exact Hs'|intros ? [=]]. }
  set (case := case_dir _ _ _ _ _). unfold compose.
  repeat (py_step; try by eapply HR).
  - rewrite Hs10. split; [done|]. exists raw. cbn [c_written].
    assert (parent (case +:+ "/summary.json") = case) as ->
      by (apply (parent_join case "summary.json"); [apply case_dir_nonempty|done]).
    split; [done|].
    match goal with H : ids_in ["SUCCEEDED"] rows = inr ?ok |- _ => by exists rows, ended, ok end.
  - match goal with |- context [?n =? a_jobs a] => destruct (Z.eqb_spec n (a_jobs a)) as [Hok|] end;
      [|by eapply HR]. apply wp_ret. eapply HQ; [done|eassumption|]. by intros ? [= <-].
Qed.

Lemma wp_run_case self workers workload output timeout Q w l p m z d h :
  state h = Cluster d Idle w l p m z →
  (∀ r h' d' w' l' p' m' z', r ≠ OutOfFuel → state h' = Cluster d' Idle w' l' p' m' z' →
     (∀ s, r = Ok s → l' = l ++ [s] ∧ s_workload s = workload ∧ s_workers s = workers ∧
                      Z.of_nat (s_succeeded s) = a_jobs a) → Q r h') →
  wpb (run_case self (a_jobs a) workers workload output timeout) Q h.
Proof.
  intros Hs HQ. unfold run_case.
  assert (∀ e h' d' w' l' p' m' z', state h' = Cluster d' Idle w' l' p' m' z' → Q (Raised e) h') as HR.
  { intros e h' d' w' l' p' m' z' Hs'. eapply HQ; [discriminate|exact Hs'|intros ? [=]]. }
  do 2 py_step. apply wp_bind. eapply wp_compose; [done|]. intros r k1 Hk1. rewrite down_compose in Hk1.
  destruct r as [e|out]; [by eapply HR|]. do 3 py_step.
  eapply wp_submit_batches; [done|done|]. intros r k3 z3 Hr Hk3. destruct r as [[]|e|]; [|by eapply HR|done].
  do 4 py_step; [known|]. do 3 py_step. apply wp_try_finally. unfold execute_case.
  apply wp_bind. eapply wp_compose; [done|]. intros r k6 Hk6. rewrite down_compose in Hk6. cbn in Hk6.
  destruct r as [e|out']; [do 3 py_step; by eapply HR|]. apply wp_bind.
  eapply wp_watch; [done|unfold watch_fuel; lia|unfold watch_fuel, sec, ms; lia|].
  intros r k7 p7 m7 z7 Hr7 Hk7 Hok. destruct r as [[raw rows]|e|]; [|do 3 py_step; by eapply HR|done].
  destruct (Hok raw rows eq_refl) as (ids & Hrows & Hids & Hlen).
  do 6 py_step. cbn [fst snd]. eapply wp_report; [done..|]. intros. by eapply HQ.
Qed.

(** *** [main] *)
Lemma wp_run_cases self cases Q w l p m z d h :
  state h = Cluster d Idle w l p m z →
  (∀ r h' d' w' l' p' m' z', r ≠ OutOfFuel → state h' = Cluster d' Idle w' l' p' m' z' →
     (r = Ok tt → ∃ new, l' = l ++ new ∧ ((λ s, (s_workload s, s_workers s)) <$> new) = cases ∧
                  Forall (λ s, Z.of_nat (s_succeeded s) = a_jobs a) new) → Q r h') →
  wpb (run_cases self a cases) Q h.
Proof.
  revert w l p m z d h Q. induction cases as [|[workload workers] cases IH]; intros w l p m z d h Q Hs HQ.
  { apply wp_ret. eapply HQ; [done|done|]. intros _. exists []. by rewrite app_nil_r. }
  cbn [run_cases]. apply wp_bind. eapply wp_run_case; [done|].
  intros r h1 d1 w1 l1 p1 m1 z1 Hr Hs1 Hok. destruct r as [s|e|]; [|by eapply HQ|done].
  destruct (Hok s eq_refl) as (-> & Hw & Hn & Hsuc). eapply IH; [done|].
  intros r h2 d2 w2 l2 p2 m2 z2 Hr2 Hs2 Hok2. eapply HQ; [done|done|].
  intros Hr'. destruct (Hok2 Hr') as (new & -> & Hnew & Hall). exists (s :: new). split_and!.
  - by rewrite <- app_assoc.
  - rewrite fmap_cons. by rewrite Hw, Hn, Hnew.
  - by constructor.
Qed.
End Run.

(** The command that returns the cluster to two workers. *)
Definition restoring : bop := CheckOutput (COMPOSE ++ scale 2).

Definition refused (a : bench_args) : bool :=
  (a_jobs a <? 1) || (100000 <? a_jobs a) || existsb (λ n, n <? 1) (a_workers a).

Lemma bench_main_wp a :
  refused a = false →
  wp (S:=BenchSig) timely (bench_guard a) (bench_main a)
    (λ r h, r ≠ OutOfFuel ∧ c_sampler (state h) = Idle ∧ c_last (state h) = Some restoring ∧
            (r = Ok tt → ((λ s, (s_workload s, s_workers s)) <$> c_summaries (state h)) = bench_cases a ∧
                         Forall (λ s, Z.of_nat (s_succeeded s) = a_jobs a) (c_summaries (state h)))) [].
Proof.
  intros Ha. unfold bench_main. unfold refused in Ha. rewrite Ha. apply wp_try_finally.
  eapply wp_run_cases; [done|]. intros r h1 d1 w1 l1 p1 m1 z1 Hr Hs1 Hok.
  assert (∀ Q', (∀ e h' d', state h' = Cluster d' Idle w1 l1 p1 m1 (Some restoring) → Q' (Raised e) h') →
     (∀ h' d', state h' = Cluster d' Idle w1 l1 p1 m1 (Some restoring) → Q' (Ok tt) h') →
     wp (S:=BenchSig) timely (bench_guard a) restore_cluster Q' h1) as Hrest.
  { intros Q' HE HO. unfold restore_cluster. apply wp_bind. eapply wp_compose; [done|].
    intros [e|out] h2 Hs2; [by eapply HE|]. apply wp_ret. by eapply HO. }
  destruct r as [[]|e|]; [| |done]; apply Hrest; intros; rewrite H; cbn; split_and!; try done.
  intros _. by destruct (Hok eq_refl) as (new & -> & ?).
Qed.

(** ** recovery.py *)
Definition inspect (c : string) : bop := CheckOutput ["docker"; "inspect"; "-f"; "{{.Config.Hostname}}"; c].

(** The container [c] is one of the workers' and carries the name of the worker that holds the
    latest attempt of a job, as the API and Docker answered. *)
Definition holder (h : list bevent) (c : string) : Prop :=
  ∃ self u job l attempt worker ps host,
    bev (Http (Client.attempts self u job)) (inr (JArr l)) ∈ h ∧ last l = Some attempt ∧
    text_item attempt "worker_id" = inr worker ∧
    bev (CheckOutput (COMPOSE ++ ["ps"; "-q"; "worker"])) (inr ps) ∈ h ∧
    c ∈ splitlines EmptyString (strip is_space ps) ∧
    bev (inspect c) (inr host) ∈ h ∧ has_prefix (strip is_space host +:+ "-") worker = true.

Definition recovery_guard (h : list bevent) (o : bop) : Prop :=
  match o with
  | RunCheck argv => ∃ c, argv = ["docker"; "kill"; c] ∧ holder h c
  | WriteResults _ _ _ l => Forall (λ v, v_state v = "SUCCEEDED") l
  | _ => True
  end.
Local Abbreviation wpv := (wp (S:=BenchSig) timely recovery_guard).
Local Abbreviation ends := (λ r _, r ≠ OutOfFuel).

Lemma wpv_op (o : bop) (Q : outcome (bans o) → list bevent → Prop) h :
  recovery_guard h o → (∀ x, timely h (bev o x) = true → Q (Ok x) (h ++ [bev o x])) →
  wpv (call_op (S:=BenchSig) o) Q h.
Proof. apply (wp_call_op (S:=BenchSig)). Qed.

(** A program of calls without a guard that is not about the clock. *)
Ltac free_step :=
  match goal with
  | |- wp _ _ (bind _ _) _ _ => apply wp_bind
  | |- wp _ _ (ret _) _ _ => apply wp_ret; cbn beta iota
  | |- wp _ _ (raise _) _ _ => apply wp_raise; cbn beta iota
  | |- wp _ _ (unwrap ?r) _ _ => destruct r eqn:?; [apply wp_raise|apply wp_ret]; cbn beta iota
  | |- wp _ _ (call_op _) _ _ =>
      let x := fresh "x" in apply wpv_op; [try exact I|intros x ?; cbn beta iota]
  end.

(** The monotonic clock is known to show at least [m]. *)
Definition shows (m : Z) (h : list bevent) : Prop := ∃ t, c_mono (state h) = Some t ∧ m ≤ t.

Lemma shows_snoc m h o x :
  match o with Monotonic => False | _ => True end → shows m h → shows m (h ++ [bev o x]).
Proof.
  intros Ho (t & Ht & Hm). unfold shows. rewrite state_snoc. destruct (state h) as [d s w l p mo z].
  cbn in Ht. subst mo. destruct o; try done; try by exists t. exists (t + Z.max 0 d0). split; [done|lia].
Qed.

(** Calls that keep the time, and end. *)
Definition quick (p : B bool) : Prop :=
  ∀ h m, shows m h → wpv p (λ r h', r ≠ OutOfFuel ∧ shows m h') h.

Lemma wp_wait_loop fn end_ fuel m h :
  quick fn → shows m h → (1 ≤ fuel)%nat → end_ - m < ms 50 * (Z.of_nat fuel - 1) →
  wpv (wait_loop fuel fn end_) ends h.
Proof.
  intros Hfn. revert m h. induction fuel as [|fuel IH]; intros m h (t0 & Hm & Hle) Hf Ht; [lia|].
  cbn [wait_loop]. apply wp_bind, wpv_op; [exact I|]. intros now Hnow.
  unfold timely in Hnow. cbn in Hnow. rewrite Hm in Hnow. apply Z.leb_le in Hnow.
  destruct (Z.ltb_spec now end_) as [Hlt|]; [|by apply wp_raise].
  assert (shows now (h ++ [bev Monotonic now])) as Hs.
  { exists now. split; [|done]. rewrite state_snoc. by destruct (state h). }
  assert (∀ h', shows now h' →
    wpv (call_op (S:=BenchSig) (Sleep (ms 50)) ;;; wait_loop fuel fn end_) ends h') as Hloop.
  { intros h' (t & Ht' & Hle'). apply wp_bind, wpv_op; [exact I|]. intros [] _.
    apply (IH (now + ms 50)); [|unfold ms in *; lia|unfold ms in *; lia].
    exists (t + Z.max 0 (ms 50)). rewrite state_snoc. destruct (state h') as [d s w l p mo z].
    cbn in Ht'. subst mo. split; [done|unfold ms; lia]. }
  apply wp_bind, wp_try_except. eapply wp_mono; [apply (Hfn _ _ Hs)|].
  intros [[]|e|] h' [Hr Hs']; [by apply wp_ret|by apply Hloop| |done].
  destruct e; try done. apply wp_ret. by apply Hloop.
Qed.

Lemma wp_wait fn timeout h : quick fn → wpv (wait fn timeout) ends h.
Proof.
  intros Hfn. apply wp_bind, wpv_op; [exact I|]. intros now _.
  apply (wp_wait_loop _ _ _ now); [done| |unfold wait_fuel; lia|unfold wait_fuel, sec, ms; lia].
  exists now. split; [|done]. rewrite state_snoc. by destruct (state h).
Qed.

(** The conditions the script waits for. *)
Ltac quick_steps :=
  intros ? ? ?; repeat free_step; try (split; [discriminate|]); repeat (apply shows_snoc; [exact I|]); assumption.

Lemma quick_state self job f : quick (s <- job_state self job; ret (f s)).
Proof. unfold job_state, http. quick_steps. Qed.
Lemma quick_attempts self job f :
  quick (v <- job_attempts self job; l <- unwrap (attempts_list v); ret (f l)).
Proof. unfold job_attempts, http. quick_steps. Qed.
Lemma quick_ready self f :
  quick (v <- http (λ u, Client.request self u "GET" "/readyz" None None);
         s <- unwrap (text_item v "status"); ret (f s)).
Proof. unfold http. quick_steps. Qed.

Lemma wp_find_container worker cs h :
  wpv (find_container worker cs)
    (λ r h', r ≠ OutOfFuel ∧ (∃ tr, h' = h ++ tr) ∧
       ∀ c, r = Ok (Some c) → c ∈ cs ∧ ∃ host, bev (inspect c) (inr host) ∈ h' ∧
                               has_prefix (strip is_space host +:+ "-") worker = true) h.
Proof.
  revert h. induction cs as [|c cs IH]; intros h; cbn [find_container].
  { split_and!; [done|by exists []; rewrite app_nil_r|done]. }
  do 3 free_step. free_step; [by split_and!; [done|eexists|]|].
  destruct (has_prefix _ worker) eqn:Hp.
  - apply wp_ret. split_and!; [done|by eexists|]. intros ? [= <-]. split; [by left|].
    exists s. split; [|done]. apply elem_of_app. right. by left.
  - eapply wp_mono; [apply IH|]. intros r h' (Hr & [tr ->] & Hc). split_and!; [done| |].
    + rewrite <- app_assoc. by eexists.
    + intros c' Hc'. destruct (Hc c' Hc') as (? & ?). split; [by right|done].
Qed.

Lemma wp_kill self u job v h :
  bev (Http (Client.attempts self u job)) (inr v) ∈ h → wpv (kill_worker self job v) ends h.
Proof.
  intros Hin. unfold kill_worker, compose. destruct v as [| | | |l|]; try by (apply wp_bind, wp_raise).
  cbn [attempts_list unwrap].
  do 3 free_step. destruct (last l) as [attempt|] eqn:Hlast; [|by repeat free_step].
  repeat (free_step; try done; []).
  simplify_eq. eapply wp_mono; [apply wp_find_container|].
  intros [[c|]|e|] h' (Hr & [tr ->] & Hc); try done. destruct (Hc c eq_refl) as (Hcs & host & Hhost & Hpre).
  do 3 free_step.
  - exists c. split; [done|]. exists self, u, job, l, j, s, s0, host.
    split_and!; try done; set_solver.
  - free_step; [done|]. do 3 free_step. eapply wp_mono; [apply wp_wait, quick_attempts|].
    intros [[]|e|] h' Hr'; by repeat free_step.
Qed.

Lemma wp_restart self h : wpv (restart_server self) ends h.
Proof.
  unfold restart_server, compose. repeat (free_step; try done; []).
  eapply wp_mono; [apply wp_wait, quick_ready|]. intros [[]|e|] h' Hr'; by repeat free_step.
Qed.

(** A case ends, and returns only for a job that succeeded. *)
Lemma wp_case self fault h :
  wpv (case self fault) (λ r _, r ≠ OutOfFuel ∧ ∀ v, r = Ok v → v_state v = "SUCCEEDED") h.
Proof.
  unfold case, http. repeat (free_step; try done; []).
  eapply wp_mono; [apply wp_wait, quick_state|]. intros [[]|e|] h1 Hr1; try done.
  unfold job_attempts at 1, http. repeat (free_step; try done; []).
  match goal with |- wp _ _ _ ?Q ?k => assert (wpv (if String.eqb fault "worker_kill"
    then kill_worker self s j0 else restart_server self) ends k) as Ht end.
  { destruct (String.eqb fault "worker_kill"); [|apply wp_restart]. apply (wp_kill _ x2). set_solver. }
  eapply wp_mono; [exact Ht|]. clear Ht. intros [t|e|] h2 Hr2; try done.
  apply wp_bind. eapply wp_mono; [apply wp_wait, quick_state|]. intros [[]|e|] h3 Hr3; try done.
  unfold job_attempts, job_state, http. repeat (free_step; try done; []).
  destruct (String.eqb_spec s0 "SUCCEEDED") as [->|]; [|by apply wp_raise].
  unfold compose. repeat (free_step; try done; []). split; [done|]. by intros ? [= <-].
Qed.

Lemma wp_recovery_cases self output revision platform done_ faults h :
  Forall (λ v, v_state v = "SUCCEEDED") done_ →
  wpv (recovery_cases self output revision platform done_ faults) ends h.
Proof.
  revert done_ h. induction faults as [|fault faults IH]; intros done_ h Hd; [done|].
  cbn [recovery_cases]. apply wp_bind. eapply wp_mono; [apply wp_case|].
  intros [v|e|] h1 [Hr Hv]; try done. specialize (Hv v eq_refl).
  assert (Forall (λ v, v_state v = "SUCCEEDED") (done_ ++ [v])) as Hd' by (apply Forall_app; by split; [|constructor]).
  do 3 free_step. free_step; [done|]. do 3 free_step; [done|]. free_step; [done|]. do 2 free_step. by apply IH.
Qed.

(** The last call, if any. *)
Definition ended_with (o : bop) (tr : list bevent) : Prop := ∃ tr' x, tr = tr' ++ [bev o x].

Lemma last_call tr o : c_last (state tr) = Some o → ended_with o tr.
Proof.
  destruct tr as [|e tr _] using rev_ind; [done|]. rewrite state_snoc. intros Hl. exists tr.
  assert (c_last (step (state tr) e) = Some (projT1 e)) as Hl'.
  { destruct (state tr), e as [[] x]; done. }
  rewrite Hl in Hl'. injection Hl' as ->. exists (projT2 e). by destruct e.
Qed.

Lemma recovery_main_wp repeat output :
  wpv (recovery_main repeat output)
    (λ r h, r ≠ OutOfFuel ∧ (c_last (state h) = Some restoring ∨
       ∃ e, h = [bev (CheckOutput ["git"; "rev-parse"; "HEAD"]) (inl e)])) [].
Proof.
  unfold recovery_main. do 3 free_step. free_step; [split; [done|]; right; by eexists|]. do 2 free_step.
  apply wp_try_finally. eapply wp_mono; [by apply wp_recovery_cases|].
  assert (∀ Q h, (∀ e h', c_last (state h') = Some restoring → Q (Raised e) h') →
     (∀ h', c_last (state h') = Some restoring → Q (Ok tt) h') → wpv restore_cluster Q h) as Hrest.
  { intros Q h HE HO. unfold restore_cluster, compose. do 4 free_step.
    assert (∀ r, c_last (state (h ++ [bev (CheckOutput (COMPOSE ++ scale 2)) r])) = Some restoring) as Hl.
    { intros r. rewrite state_snoc. by destruct (state h). }
    free_step; [by apply HE|]. do 2 free_step. by apply HO. }
  intros [[]|e|] h1 Hr; [| |done]; apply Hrest; intros; by split; [|left].
Qed.

(** ** Theorems *)
Lemma bench_main_controlled a tr r :
  traces (bench_main a) tr r → consistent timely tr = true →
  if refused a then tr = [] ∧ r = Raised (SystemExit 2)
  else
    r ≠ OutOfFuel ∧ c_sampler (state tr) = Idle ∧ ended_with restoring tr ∧
    (r = Ok tt → ((λ s, (s_workload s, s_workers s)) <$> c_summaries (state tr)) = bench_cases a ∧
                 Forall (λ s, Z.of_nat (s_succeeded s) = a_jobs a) (c_summaries (state tr))) ∧
    (∀ tr1 o x tr2, tr = tr1 ++ bev o x :: tr2 →
       match o with
       | Http q => Client.h_method q = "POST" ∧ c_down (state tr1) = true ∧ c_sampler (state tr1) = Idle
       | WriteSummary path s =>
           ∃ raw, c_written (state tr1) = Some (parent path +:+ "/attempts.csv", raw) ∧ measured a raw s
       | _ => True
       end).
Proof.
  intros Htr Hc. destruct (refused a) eqn:Ha.
  { unfold bench_main in Htr. unfold refused in Ha. by rewrite Ha in Htr. }
  destruct (wp_sound _ _ _ _ [] tr r (bench_main_wp a Ha) Htr Hc) as [(Hr & Hs & Hl & Hok) HG].
  split_and!; [done|done|by apply last_call|done|].
  intros tr1 o x tr2 Heq. specialize (HG tr1 (bev o x) tr2 Heq). cbn in HG.
  destruct o; try done. by destruct HG as [_ HG].
Qed.


(** The recovery benchmark hits the worker it means to and cleans up.  It ends, whatever
    Docker and the API answer; the container it kills is one of the workers' and carries the name
    of the worker that holds the latest attempt of the job; results are written only for jobs that
    succeeded; and, unless [git] failed before anything was touched, the last call returns the
    cluster to two workers. *)
Theorem recovery_is_controlled repeat output tr r :
  traces (recovery_main repeat output) tr r → consistent timely tr = true →
  r ≠ OutOfFuel ∧
  (ended_with restoring tr ∨ ∃ e, tr = [bev (CheckOutput ["git"; "rev-parse"; "HEAD"]) (inl e)]) ∧
  (∀ tr1 argv x tr2, tr = tr1 ++ bev (RunCheck argv) x :: tr2 →
     ∃ c, argv = ["docker"; "kill"; c] ∧ holder tr1 c) ∧
  (∀ tr1 p v q l x tr2, tr = tr1 ++ bev (WriteResults p v q l) x :: tr2 →
     Forall (λ v, v_state v = "SUCCEEDED") l).
Proof.
  intros Htr Hc.
  destruct (wp_sound _ _ _ _ [] tr r (recovery_main_wp repeat output) Htr Hc) as [(Hr & Hl) HG].
  split_and!; [done| | |].
  - destruct Hl as [Hl|Hl]; [left; by apply last_call|by right].
  - intros tr1 argv x tr2 Heq. exact (HG tr1 (bev (RunCheck argv) x) tr2 Heq).
  - intros tr1 p v q l x tr2 Heq. exact (HG tr1 (bev (WriteResults p v q l) x) tr2 Heq).
Qed.

(** ** The sampling thread *)
Definition is_turn (e : bevent) : bool :=
  let o : bop := projT1 e in
  match o as o' return bans o' → bool with StopIsSet => negb | _ => λ _, false end (projT2 e).
Definition is_append (e : bevent) : bool :=
  match (projT1 e : bop) with SamplesAppend _ => true | _ => false end.
(** Turns of the loop, and samples appended. *)
Definition turns (h : list bevent) : nat := length (List.filter is_turn h).
Definition appended (h : list bevent) : nat := length (List.filter is_append h).

Lemma turns_snoc h e : turns (h ++ [e]) = (turns h + if is_turn e then 1 else 0)%nat.
Proof. unfold turns. rewrite List.filter_app, length_app. cbn. by destruct (is_turn e). Qed.
Lemma appended_snoc h e : appended (h ++ [e]) = (appended h + if is_append e then 1 else 0)%nat.
Proof. unfold appended. rewrite List.filter_app, length_app. cbn. by destruct (is_append e). Qed.

Local Abbreviation wps := (wp (S:=BenchSig) (λ _ _, true) (λ _ _, True)).

Ltac sample_step :=
  match goal with
  | |- wp _ _ (bind _ _) _ _ => apply wp_bind
  | |- wp _ _ (ret _) _ _ => apply wp_ret; cbn beta iota
  | |- wp _ _ (raise _) _ _ => apply wp_raise; cbn beta iota
  | |- wp _ _ (unwrap ?r) _ _ => destruct r eqn:?; [apply wp_raise|apply wp_ret]; cbn beta iota
  | |- wp _ _ (call_op _) _ _ =>
      let x := fresh "x" in apply (wp_call_op (S:=BenchSig)); [exact I|intros x _; cbn beta iota]
  | |- wp _ _ (match ?r with _ => _ end) _ _ => destruct r eqn:?
  end.

(** A measurement leaves the counts alone. *)
Lemma wp_measure c n k Q h :
  turns h = n → appended h = k →
  (∀ r h', r ≠ OutOfFuel → turns h' = n → appended h' = k → Q r h') → wps (measure c) Q h.
Proof.
  intros Hn Hk HQ. unfold measure, compose.
  repeat sample_step; apply HQ; try discriminate; rewrite ?turns_snoc, ?appended_snoc; cbn; lia.
Qed.

Lemma wp_sample_once c n k h :
  turns h = n → appended h = k →
  wps (sample_once c) (λ r h', r ≠ OutOfFuel ∧ turns h' = n ∧
    (r = Ok tt → appended h' = S k) ∧ ∀ e, r = Raised e → tolerated e = false) h.
Proof.
  intros Hn Hk. apply wp_try_except, wp_bind. eapply wp_measure; [done..|].
  assert (∀ x h', turns h' = n → appended h' = k →
    wps (call_op (S:=BenchSig) (SamplesAppend x)) (λ r h', r ≠ OutOfFuel ∧ turns h' = n ∧
      (r = Ok tt → appended h' = S k) ∧ ∀ e, r = Raised e → tolerated e = false) h') as Happ.
  { intros x h' Hn' Hk'. sample_step. rewrite turns_snoc, appended_snoc. cbn.
    split_and!; [done|lia|intros _; lia|done]. }
  intros [x|e|] h' Hr Hn' Hk'; [|destruct (tolerated e) eqn:He; [by apply Happ|]|done].
  - eapply wp_mono; [by apply Happ|]. intros [[]|e|] h2 (? & ? & ? & He); [done| |done].
    rewrite (He e eq_refl). done.
  - split_and!; [done|done|done|]. by intros ? [= <-].
Qed.

(** The sampling thread takes one sample per turn until it is told to stop: a failure of Docker
    or of the database and an answer it cannot read become samples, and it ends with another
    exception only. *)
Theorem sampler_samples_every_turn fuel tr r :
  traces (sample_resources fuel) tr r →
  match r with
  | Ok _ => appended tr = turns tr
  | OutOfFuel => appended tr = turns tr ∧ turns tr = fuel
  | Raised e => turns tr = 0%nat ∨ tolerated e = false
  end.
Proof.
  intros Htr.
  assert (∀ c h, appended h = turns h → wps (sample_loop fuel c) (λ r h', match r with
    | Ok _ => appended h' = turns h'
    | OutOfFuel => appended h' = turns h' ∧ turns h' = (turns h + fuel)%nat
    | Raised e => tolerated e = false end) h) as Hloop.
  { clear Htr. induction fuel as [|fuel IH]; intros c h Hh; [split; [done|lia]|].
    cbn [sample_loop]. do 2 sample_step. destruct x.
    { apply wp_ret. rewrite appended_snoc, turns_snoc. cbn. lia. }
    apply wp_bind. eapply wp_mono; [by apply wp_sample_once|].
    intros [[]|e|] h1 (Hr & Hn & Ha & He); [|by apply He|done].
    do 2 sample_step. specialize (Ha eq_refl). rewrite turns_snoc in Hn. rewrite appended_snoc in Ha. cbn in Hn, Ha.
    eapply wp_mono; [apply IH; rewrite appended_snoc, turns_snoc; cbn; lia|].
    intros [|?|] h2; try done. rewrite turns_snoc. cbn. intros [? ?]. split; lia. }
  assert (wps (sample_resources fuel) (λ r h, match r with
    | Ok _ => appended h = turns h
    | OutOfFuel => appended h = turns h ∧ turns h = fuel
    | Raised e => turns h = 0%nat ∨ tolerated e = false end) []) as Hwp.
  { unfold sample_resources, compose. do 4 sample_step. sample_step; [by left|]. do 1 sample_step.
    eapply wp_mono; [by apply Hloop|]. intros [|?|] h2; try done; by right. }
  apply (wp_sound _ _ _ _ [] tr r Hwp Htr). clear. generalize (@nil bevent).
  induction tr as [|e tr IH]; intros h; [done|]. apply IH.
Qed.

(** ** Concrete runs *)
Definition demo_csv : string := csv_text
  [["id"; "state"; "attempt_number"; "leased_at"; "scheduling_latency_seconds"];
   ["j1"; "SUCCEEDED"; "1"; "2025-01-02 03:04:05.25+00"; "0.125000"]].

Definition is_post (e : bevent) : bool :=
  match (projT1 e : bop) with Http r => String.eqb (Client.h_method r) "POST" | _ => false end.

(** The time is a second per call; a job is running for the next eight calls, then done. *)
Definition demo_bench (h : list bevent) (o : bop) : bans o :=
  match o return bans o with
  | CheckOutput argv =>
      inr (if mem "-c" argv then demo_csv
           else if mem "inspect" argv then (if mem "c2" argv then "w2" else "w1")
           else if mem "ps" argv then "c1" +:+ String lf "c2" else EmptyString)
  | RunCheck _ | Mkdir _ | WriteText _ _ | WriteSamples _ _ | WriteSummary _ _ | WriteResults _ _ _ _ => inr tt
  | Http r =>
      let attempt := JObj [("worker_id", JStr "w2-77")] in
      let state := if existsb is_post (drop (length h - 8) h) then "RUNNING" else "SUCCEEDED" in
      inr (if ends_with "batch" (Client.h_url r) then JArr []
           else if contains "/attempts" (Client.h_url r) then JArr [attempt; attempt]
           else JObj [("id", JStr "j1"); ("state", JStr state); ("status", JStr "ready")])
  | Uuid4 => "1a" | UtcNow => "2025-01-02" | Platform => "Linux" | PythonVersion => "3.12"
  | PerfCounter | Monotonic => sec (Z.of_nat (length h))
  | StopIsSet | StopWait _ => false
  | SamplesRead => []
  | _ => tt
  end.

Definition demo_argv : list string :=
  ["--jobs"; "1"; "--workers"; "4"; "--workloads"; "noop"; "--output"; "results/"; "--timeout=60"].
Definition demo_scaling : outcome unit * list bevent :=
  Effects.run (S:=BenchSig) demo_bench (bench_script demo_argv) [].
Definition demo_recovery : outcome unit * list bevent :=
  Effects.run (S:=BenchSig) demo_bench (recovery_main 1 "results/recovery.json") [].


Lemma recovery_is_controlled_witness :
  demo_recovery.1 = Ok tt ∧
  (ended_with restoring demo_recovery.2 ∨
   ∃ e, demo_recovery.2 = [bev (CheckOutput ["git"; "rev-parse"; "HEAD"]) (inl e)]).
Proof.
  assert (demo_recovery.1 = Ok tt) as Hr by by vm_compute.
  destruct (recovery_is_controlled 1 "results/recovery.json" demo_recovery.2 demo_recovery.1)
    as (_ & Hl & _); [apply traces_run|by vm_compute|]. by split.
Defined.
