(* ===== verification/BenchQueue.v ===== *)
(** * BenchQueue: placement behind a long queue (cmd/benchqueue/main.go)

    The program that measures how long [LeaseJob] takes behind jobs the worker cannot run.  It
    works in a schema of its own, as a computation over the schemas of a database; whether a
    connection works, whether a call reaches the database, the readings of the clocks and the
    random bytes of the identifiers are given by the environment.  Times are exact rationals; the
    time stamp of the report is left out, and the flags are taken as parsed.  An answer of
    [LeaseJob] is taken as the value it was marshalled from. *)
From Stdlib Require Import QArith Qround.
From S2P Require Import Prelude Effects PyStr Json JsonParse PyInt Calendar Times Sha256 Wire Control ControlSpec.
From S2P Require Import ControlRefine ControlProps ControlBatch ControlServe ControlReap ControlLive Client Api ApiText Bench.
Import Store Api.
Local Open Scope string_scope.
Local Open Scope list_scope.
Local Open Scope Z_scope.

Module BenchQueue.

Inductive failure :=
| BadFlags                    (* jobs 1..100000, probes 1..1000 *)
| NoDatabase                  (* RUNGRID_TEST_DATABASE_URL required *)
| Unreachable                 (* an error of the connection, or the end of the 30 minutes *)
| StoreFailed (x : error)
| NoCompatibleLease
| InvariantViolated           (* queue invariant violated *)
| NotFinite                   (* the encoder refuses an infinite rate *)
| OutOfFuel.

Record settings := Settings { jobs_flag : Z; probes_flag : Z; dsn : string }.

Record report := Report {
  queued_jobs : Z;
  compatible_probes : Z;
  submission_seconds : Q;
  submission_jobs_per_second : Q;
  placement_samples_seconds : list Q;
  placement_p50_seconds : Q;
  placement_p95_seconds : Q;
  placement_p99_seconds : Q }.

(** The schemas of the database, and how often identifiers, the store and the clock were asked. *)
Record world := World { schemas : gmap string db; drawn : nat; called : nat; clocked : nat }.

Definition B (A : Type) : Type := world → (failure + A) * world.
#[export] Instance B_ret : MRet B := λ A a w, (inr a, w).
#[export] Instance B_bind : MBind B := λ A C f p w,
  match p w with
  | (inl x, w') => (inl x, w')
  | (inr a, w') => f a w'
  end.
Definition check (b : bool) (x : failure) : B unit := λ w, (if b then inr tt else inl x, w).
(** [defer]: [f] runs however [p] ends. *)
Definition deferred {A} (f : world → world) (p : B A) : B A := λ w, let '(r, w') := p w in (r, f w').

(** What the environment decides. *)
Record outcomes := Outcomes {
  random : nat → list N;      (* the bytes of the k-th scheduler.ID() *)
  envs : nat → env;           (* what the k-th call of the store sees *)
  reaches : nat → bool;       (* whether it gets through *)
  clock : nat → Q;            (* the k-th time.Now() *)
  connects : bool; creates : bool; parses : bool; opens : bool; counts : bool; drops : bool }.

Section Program.
Context (o : outcomes).

Definition draw (k : nat) : string := scheduler_ID (random o k).
Definition NewID : B string := λ w,
  (inr (draw (drawn w)), World (schemas w) (S (drawn w)) (called w) (clocked w)).
Definition Now : B Q := λ w,
  (inr (clock o (clocked w)), World (schemas w) (drawn w) (called w) (S (clocked w))).

(** A transaction of the store on the tables of a schema. *)
Definition call {A} (schema : string) (t : Tx A) : B A := λ w,
  let c := called w in
  let w' s := World s (drawn w) (S c) (clocked w) in
  match schemas w !! schema with
  | Some d =>
      if reaches o c then
        let '(r, d') := transact t (envs o c) d in
        (match r with inl x => inl (StoreFailed x) | inr a => inr a end, w' (<[schema := d']> (schemas w)))
      else (inl Unreachable, w' (schemas w))
  | None => (inl Unreachable, w' (schemas w))
  end.

(** *** The jobs *)
Definition job_of (gpu : Z) (key : string) : Job :=
  MkJob "queue-pressure" ["true"] None (MkResources 1 64 gpu) 1 60 key EmptyString.
Definition makeJob (gpu : Z) : B Job := key ← NewID; mret (job_of gpu key).
Fixpoint makeJobs (gpu : Z) (n : nat) : B (list Job) :=
  match n with
  | O => mret []
  | S n => j ← makeJob gpu; js ← makeJobs gpu n; mret (j :: js)
  end.

(** [for offset := 0; offset < count; offset += 1000] *)
Fixpoint backlog (fuel : nat) (schema : string) (count offset : Z) : B unit :=
  if offset <? count then
    match fuel with
    | O => check false OutOfFuel
    | S fuel =>
        batch ← makeJobs 1 (Z.to_nat (Z.min 1000 (count - offset)));
        _ ← call schema (Submit batch);
        backlog fuel schema count (offset + 1000)
    end
  else mret tt.
Definition backlog_fuel (count : Z) : nat := Z.to_nat ((count + 999) / 1000).

(** *** The probes *)
Definition LeaseSeconds : Z := 15.
Definition request (rid wid sid attempt token : string) : Request :=
  MkRequest rid wid sid attempt token "queue-pressure" (MkResources 1 64 0) 0 EmptyString None None.
(** [l.AttemptID] and [l.LeaseToken]: an idle answer has neither. *)
Definition lease_of (r : response) : string * string :=
  match r with Leased l => (l_attempt l, l_token l) | _ => (EmptyString, EmptyString) end.

Definition probe (schema wid sid : string) : B Q :=
  rid ← NewID;
  start ← Now;
  data ← call schema (RPC LeaseSeconds LeaseJob (request rid wid sid EmptyString EmptyString));
  stop ← Now;
  let '(attempt, token) := lease_of data in
  _ ← check (nonempty attempt) NoCompatibleLease;
  rid ← NewID;
  _ ← call schema (RPC LeaseSeconds StartAttempt (request rid wid sid attempt token));
  rid ← NewID;
  _ ← call schema (RPC LeaseSeconds CompleteAttempt (request rid wid sid attempt token));
  mret (stop - start)%Q.
Fixpoint probe_all (n : nat) (schema wid sid : string) : B (list Q) :=
  match n with
  | O => mret []
  | S n => x ← probe schema wid sid; l ← probe_all n schema wid sid; mret (x :: l)
  end.

(** *** The report *)
(** [count( * ) FILTER(WHERE state=...)] *)
Definition rows_in (st : job_state) (d : db) : Z :=
  msum (λ j, if bool_decide (State j = st) then 1 else 0) (jobs d).
Definition count_rows (schema : string) : B (Z * Z) := λ w,
  (match schemas w !! schema with
   | Some d => if counts o then inr (rows_in QUEUED d, rows_in SUCCEEDED d) else inl Unreachable
   | None => inl Unreachable
   end, w).

(** The closure [percentile], of the sorted samples. *)
Definition percentile_of (sorted : list Q) (p : Q) : Q :=
  let position := (inject_Z (Z.of_nat (length sorted) - 1) * p)%Q in
  let i := Z.to_nat (Qfloor position) in
  (nth i sorted 0 + (nth (Nat.min (i + 1) (length sorted - 1)) sorted 0 - nth i sorted 0)
                    * (position - inject_Z (Qfloor position)))%Q.

Definition report_of (count queued completed : Z) (submitted : Q) (samples : list Q) : report :=
  let sorted := sorted_q samples in
  Report queued completed submitted (inject_Z count / submitted)%Q samples
    (percentile_of sorted (1 # 2)) (percentile_of sorted (95 # 100)) (percentile_of sorted (99 # 100)).

(** What is done in the schema, from [store.Open] on. *)
Definition measure (schema : string) (s : settings) : B report :=
  let count := jobs_flag s in
  let probes := probes_flag s in
  _ ← check (parses o) Unreachable;
  _ ← check (opens o) Unreachable;
  started ← Now;
  _ ← backlog (backlog_fuel count) schema count 0;
  stopped ← Now;
  let submitted := (stopped - started)%Q in
  batch ← makeJobs 0 (Z.to_nat probes);
  _ ← call schema (Submit batch);
  rid ← NewID;
  wid ← NewID;
  sid ← NewID;
  _ ← call schema (RPC LeaseSeconds RegisterWorker (request rid wid sid EmptyString EmptyString));
  samples ← probe_all (Z.to_nat probes) schema wid sid;
  '(queued, completed) ← count_rows schema;
  _ ← check ((queued =? count) && (completed =? probes)) InvariantViolated;
  _ ← check (negb (Qeq_bool submitted 0)) NotFinite;
  mret (report_of count queued completed submitted samples).

(** [CREATE SCHEMA], with the tables [store.Open] makes in it. *)
Definition create (schema : string) : B unit := λ w,
  if creates o && bool_decide (schemas w !! schema = None)
  then (inr tt, World (<[schema := empty_db]> (schemas w)) (drawn w) (called w) (clocked w))
  else (inl Unreachable, w).
(** [DROP SCHEMA ... CASCADE]; a failure is only printed. *)
Definition drop_schema (schema : string) (w : world) : world :=
  if drops o then World (delete schema (schemas w)) (drawn w) (called w) (clocked w) else w.

Definition schema_of (id : string) : string := "bench_" +:+ replace_char "-" EmptyString id.

Definition run (s : settings) : B report :=
  let count := jobs_flag s in
  let probes := probes_flag s in
  _ ← check (negb ((count <? 1) || (100000 <? count) || (probes <? 1) || (1000 <? probes))) BadFlags;
  _ ← check (nonempty (dsn s)) NoDatabase;
  _ ← check (connects o) Unreachable;
  id ← NewID;
  let schema := schema_of id in
  _ ← create schema;
  deferred (drop_schema schema) (measure schema s).

Definition exit_status (r : failure + report) : Z := match r with inl _ => 1 | inr _ => 0 end.

(** ** Only its own schema *)
(** [p] leaves all schemas but [schema] as they are. *)
Definition within {A} (schema : string) (p : B A) : Prop :=
  ∀ w name, name ≠ schema → schemas (p w).2 !! name = schemas w !! name.

Lemma within_ret {A} schema (a : A) : within schema (mret a).
Proof. done. Qed.
Lemma within_bind {A C} schema (p : B A) (f : A → B C) :
  within schema p → (∀ a, within schema (f a)) → within schema (p ≫= f).
Proof.
  intros Hp Hf w name Hn. unfold mbind, B_bind. specialize (Hp w name Hn).
  destruct (p w) as [[x|a] w']; [done|]. by rewrite Hf.
Qed.
Lemma within_check schema b x : within schema (check b x).
Proof. done. Qed.
Lemma within_NewID schema : within schema NewID.
Proof. done. Qed.
Lemma within_Now schema : within schema Now.
Proof. done. Qed.
Lemma within_call {A} schema (t : Tx A) : within schema (call schema t).
Proof.
  intros w name Hn. unfold call. destruct (schemas w !! schema); [|done]. destruct (reaches o _); [|done].
  destruct (transact _ _ _) as [r d']. cbn. by rewrite lookup_insert_ne.
Qed.
Lemma within_count schema : within schema (count_rows schema).
Proof. done. Qed.
#[local] Hint Resolve within_ret within_check within_NewID within_Now within_call within_count : core.
Ltac within :=
  repeat lazymatch goal with
  | |- within _ (match ?x with _ => _ end) => destruct x
  | |- within _ (_ ≫= _) => apply within_bind; [auto|intros ?]
  | _ => solve [auto]
  end.

Lemma within_makeJobs schema gpu n : within schema (makeJobs gpu n).
Proof. induction n as [|n IH]; cbn [makeJobs]; unfold makeJob; within. Qed.
#[local] Hint Resolve within_makeJobs : core.

Lemma within_measure schema s : within schema (measure schema s).
Proof.
  assert (∀ fuel count offset, within schema (backlog fuel schema count offset)) as Hb.
  { induction fuel as [|fuel IH]; intros count offset; cbn [backlog]; within. }
  assert (∀ wid sid, within schema (probe schema wid sid)) as Hp.
  { intros wid sid. unfold probe. within. }
  assert (∀ n wid sid, within schema (probe_all n schema wid sid)) as Hps.
  { induction n as [|n IH]; intros wid sid; cbn [probe_all]; within. }
  unfold measure. within.
Qed.

(** The benchmark works in a schema of its own: whatever fails, every other schema is left as it
    was, and when the schema can be dropped at the end nothing of the run remains. *)
Theorem benchmark_leaves_nothing s w :
  let '(r, w') := run s w in
  (∀ name, name ≠ schema_of (draw (drawn w)) → schemas w' !! name = schemas w !! name) ∧
  (drops o = true → schemas w' = schemas w).
Proof.
  unfold run, mbind, B_bind, check.
  destruct (negb _); [|done]. destruct (nonempty (dsn s)); [|done]. destruct (connects o); [|done].
  unfold NewID. set (schema := schema_of _). unfold create. cbn [schemas drawn called clocked].
  destruct (creates o && _) eqn:Hc; [|done]. apply andb_true_iff in Hc as [_ Hnew%bool_decide_eq_true].
  unfold deferred. set (w1 := World _ _ _ _). pose proof (within_measure schema s w1) as Hw.
  destruct (measure schema s w1) as [r w2]. cbn [snd] in Hw.
  assert (∀ name, name ≠ schema → schemas w2 !! name = schemas w !! name) as Hother.
  { intros name Hn. rewrite Hw by done. cbn. by rewrite lookup_insert_ne. }
  unfold drop_schema. split.
  - intros name Hn. destruct (drops o); cbn; [rewrite lookup_delete_ne by done|]; by apply Hother.
  - intros ->. cbn. apply map_eq. intros name. destruct (decide (name = schema)) as [->|Hn].
    + by rewrite lookup_delete_eq.
    + rewrite lookup_delete_ne by done. by apply Hother.
Qed.
End Program.
End BenchQueue.
