(* ===== verification/BenchQueueProps.v ===== *)
(** * BenchQueueProps: the check of the queue benchmark never fails

    [pressure] describes the tables between the calls of the benchmark; each of its calls is
    accepted and leads from one such state to the next. *)
From Stdlib Require Import QArith Qround.
From S2P Require Import Prelude Effects PyStr Json JsonParse PyInt Calendar Times Sha256 Wire Control ControlSpec.
From S2P Require Import ControlRefine ControlProps ControlBatch ControlServe ControlReap ControlLive Client Api ApiText Bench BenchQueue.
Import Store Api BenchQueue.
Local Open Scope string_scope.
Local Open Scope list_scope.
Local Open Scope Z_scope.

(** ** Identifiers as text *)
Lemma matches_length ps s : matches ps s = true → String.length s = length ps.
Proof.
  revert s. induction ps as [|p ps IH]; intros [|c s]; try done. cbn. intros [_ H]%andb_true_iff. by rewrite IH.
Qed.
Lemma matches_text ps s :
  matches ps s = true → Forall (λ p : ascii → bool, p Ascii.zero = false) ps → text_ok s = true.
Proof.
  revert s. induction ps as [|p ps IH]; intros [|c s]; try done. cbn [matches].
  intros [Hc H]%andb_true_iff [Hp Hps]%Forall_cons. specialize (IH s H Hps). unfold text_ok in *.
  cbn [contains]. rewrite negb_orb, IH, andb_true_r. cbn [has_prefix NUL].
  destruct (Ascii.eqb_spec Ascii.zero c) as [<-|]; [congruence|done].
Qed.
Lemma id_text s : idPattern s = true → text_ok s = true ∧ len s = 36 ∧ nonempty s = true.
Proof.
  intros H. assert (len s = 36) as Hl by (unfold len; by rewrite (matches_length _ _ H)). split_and!; [|done|by destruct s].
  eapply matches_text; [exact H|]. by repeat (apply Forall_cons; split).
Qed.

(** ** Sums over the rows *)
Lemma msum_alter {A} (f : A → Z) (g : A → A) m i x :
  m !! i = Some x → msum f (alter g i m) = msum f m - f x + f (g x).
Proof.
  intros Hi. rewrite (msum_delete f m i x Hi), (msum_delete f (alter g i m) i (g x)).
  - rewrite delete_alter_eq. lia.
  - by rewrite lookup_alter_eq, Hi.
Qed.
Lemma msum_pos {A} (f : A → Z) m : 0 < msum f m → ∃ i x, m !! i = Some x ∧ 0 < f x.
Proof.
  induction m as [|i x m Hi IH] using map_ind; [done|]. rewrite msum_insert by done. intros H.
  destruct (decide (0 < f x)) as [|Hx].
  - exists i, x. by rewrite lookup_insert_eq.
  - destruct IH as (k & y & Hk & Hy); [lia|]. exists k, y. rewrite lookup_insert_ne; [done|]. intros ->. congruence.
Qed.
Lemma alter_some {A} (g : A → A) (m : gmap string A) i x : m !! i = Some x → alter g i m = <[i := g x]> m.
Proof.
  intros Hi. apply map_eq. intros k. destruct (decide (i = k)) as [<-|Hk].
  - by rewrite lookup_alter_eq, Hi, lookup_insert_eq.
  - by rewrite lookup_alter_ne, lookup_insert_ne.
Qed.
Lemma total_const f v rows : Forall (λ row, f row = v) rows → total f rows = v * Z.of_nat (length rows).
Proof.
  unfold total. induction 1 as [|row rows Hr _ IH]; cbn [foldr length]; [lia|]. rewrite Hr, IH. lia.
Qed.

Lemma RPC_inv L m r e d x d' : ticking e → Inv d → transact (RPC L m r) e d = (inr x, d') → Inv d'.
Proof.
  intros He HI. unfold transact. destruct (RPC L m r e 0%nat d) as [|[[y n] d1]] eqn:H; [done|]. intros [= -> ->].
  eapply evolves_inv; [exact HI|]. by eapply RPC_refines.
Qed.

Section Run.
Context (o : outcomes).
Notation draw := (draw o).
Notation call := (call o).

(** ** The tables of the benchmark *)
Definition waiting (j : JobRow) : Z := if bool_decide (State j = QUEUED ∧ GPU (cols j) = 0) then 1 else 0.

(** After [n] identifiers and [c] calls: [q] jobs are queued, [p] of them without a GPU, [z]
    succeeded; no attempt is active, and everything is under identifiers drawn before. *)
Record pressure (n c : nat) (q p z : Z) (d : db) : Prop := {
  pr_inv : Inv d;
  pr_idle : idle d;
  pr_jobs k j : jobs d !! k = Some j →
    (∃ g, cols j = MkResources 1 64 g ∧ (g = 0 ∨ g = 1)) ∧ TimeoutSeconds (Definition_ j) = 60 ∧
    (∃ m, (m < n)%nat ∧ IdempotencyKey (Definition_ j) = draw m) ∧ ∃ c' m, (c' < c)%nat ∧ k = new_id (envs o c') m;
  pr_attempts i a : attempts d !! i = Some a → ∃ c' m, (c' < c)%nat ∧ i = new_id (envs o c') m;
  pr_requests k v : requests d !! k = Some v → ∃ m, (m < n)%nat ∧ k.2 = draw m;
  pr_queued : rows_in QUEUED d = q;
  pr_waiting : msum waiting (jobs d) = p;
  pr_done : rows_in SUCCEEDED d = z }.

(** ** What the environment has to do *)
Definition batch_size (s : settings) : nat := Z.to_nat (Z.min 1000 (Z.max (jobs_flag s) (probes_flag s))).
Definition first_probe (s : settings) : nat := backlog_fuel (jobs_flag s) + 2.
Definition total_calls (s : settings) : nat := first_probe s + 3 * Z.to_nat (probes_flag s).
Definition total_draws (s : settings) : nat := 4 + Z.to_nat (jobs_flag s) + 4 * Z.to_nat (probes_flag s).

(** Everything is reachable, identifiers are not drawn twice, nobody else locks rows, and a probe
    is done before its lease of 15 s ends. *)
Record healthy (s : settings) : Prop := {
  he_flags : 1 ≤ jobs_flag s ≤ 100000 ∧ 1 ≤ probes_flag s ≤ 1000 ∧ nonempty (dsn s) = true;
  he_admin : connects o = true ∧ creates o = true ∧ parses o = true ∧ opens o = true ∧ counts o = true;
  he_reaches c : reaches o c = true;
  he_random k : length (random o k) = 16%nat ∧ Forall (λ b, b < 256)%N (random o k);
  he_draws k k' : (k < total_draws s)%nat → (k' < total_draws s)%nat → draw k = draw k' → k = k';
  he_ticking c : ticking (envs o c);
  he_unlocked c k : locked (envs o c) k = false;
  he_ids c k : idPattern (new_id (envs o c) k) = true ∧ lower (new_id (envs o c) k) = new_id (envs o c) k;
  he_calls c c' k k' : (c < total_calls s)%nat → (c' < total_calls s)%nat →
    new_id (envs o c) k = new_id (envs o c') k' → c = c';
  he_batch c k k' : (c < total_calls s)%nat → (k < 4 * batch_size s)%nat → (k' < 4 * batch_size s)%nat →
    new_id (envs o c) k = new_id (envs o c) k' → k = k';
  he_swift c c' k k' : (first_probe s ≤ c < total_calls s)%nat → (c < c' ≤ c + 2)%nat →
    now (envs o c') k' < now (envs o c) k + sec LeaseSeconds;
  he_passes : (clock o 0 < clock o 1)%Q }.

Context (s : settings) (H : healthy s).

Lemma draw_ok k : idPattern (draw k) = true ∧ text_ok (draw k) = true ∧ len (draw k) = 36 ∧ nonempty (draw k) = true.
Proof using H.
  destruct (he_random s H k) as [Hl Hr]. destruct (scheduler_ID_ok _ Hl Hr) as [Hu _].
  split; [exact Hu|]. by apply id_text.
Qed.

Lemma job_acceptable g k : g = 0 ∨ g = 1 → acceptable (job_of g (draw k)).
Proof using H.
  intros Hg. destruct (draw_ok k) as (_ & Ht & Hl & _). unfold acceptable, texts_ok, Validate, job_of.
  cbn [Name IdempotencyKey ArtifactPrefix Command JobResources JobMaxAttempts TimeoutSeconds Environment].
  rewrite Ht, Hl. destruct Hg as [-> | ->]; by vm_compute.
Qed.

(** *** A batch *)
Definition batch (g : Z) (n m : nat) : list Job := (λ k, job_of g (draw k)) <$> seq n m.

(** The rows of a batch. *)
Lemma batch_rows g n m e d d' rows :
  queued (batch g n m) e d d' rows →
  length rows = m ∧
  Forall (λ row, (∃ k, (n ≤ k < n + m)%nat ∧ Definition_ row = job_of g (draw k)) ∧ State row = QUEUED ∧
                 cols row = MkResources 1 64 g) rows.
Proof.
  intros [Hds Hrows _ _ _]. split.
  { apply (f_equal length) in Hds. unfold batch in Hds. by rewrite !length_fmap, length_seq in Hds. }
  apply Forall_forall. intros row Hrow. rewrite Forall_forall in Hrows. destruct (Hrows row Hrow) as [Hst Hcols].
  assert (Definition_ row ∈ batch g n m) as (k & Hk & [? ?]%elem_of_seq)%list_elem_of_fmap.
  { rewrite <- Hds. by apply list_elem_of_fmap_2. }
  rewrite Hcols, Hk. split_and!; [|done|done]. exists k. split; [lia|done].
Qed.

Lemma queued_pressure g n c q p z d d' m rows :
  pressure n c q p z d → g = 0 ∨ g = 1 → queued (batch g n m) (envs o c) d d' rows → Inv d' →
  pressure (n + m) (S c) (q + Z.of_nat m) (p + (if g =? 0 then Z.of_nat m else 0)) z d'.
Proof.
  intros [HI Hidle Hjobs Hatt Hreq Hq Hp Hz] Hg Hqd HI'. destruct (batch_rows _ _ _ _ _ _ _ Hqd) as [Hlr Hall].
  destruct Hqd as [_ _ Hin Hsum (Ha & Hw & Hr)]. split.
  - exact HI'.
  - intros i a. rewrite Ha. apply Hidle.
  - intros k j [Hj|[Hj [m' ->]]]%Hin.
    + destruct (Hjobs _ _ Hj) as (H1 & H2 & (m' & ? & ?) & c' & m'' & ? & ?).
      split_and!; [done..| |]; [exists m'|exists c', m'']; (split; [lia|done]).
    + rewrite Forall_forall in Hall. destruct (Hall j Hj) as ((k & Hk & Hd) & _ & Hcols). rewrite Hd.
      split_and!; [by exists g|done|exists k|exists c, m']; (split; [lia|done]).
  - intros i a. rewrite Ha. intros (c' & m' & ? & ?)%Hatt. exists c', m'. split; [lia|done].
  - intros k v. rewrite Hr. intros (m' & ? & ?)%Hreq. exists m'. split; [lia|done].
  - unfold rows_in. rewrite Hsum. fold (rows_in QUEUED d). rewrite Hq, (total_const _ 1), Hlr; [lia|].
    eapply Forall_impl; [exact Hall|]. intros row (_ & -> & _). done.
  - rewrite Hsum, Hp, (total_const _ (if g =? 0 then 1 else 0)), Hlr; [by destruct (g =? 0); lia|].
    eapply Forall_impl; [exact Hall|]. intros row (_ & Hst & Hcols). unfold waiting. rewrite Hst, Hcols.
    destruct Hg as [-> | ->]; [by rewrite bool_decide_true|]. by rewrite bool_decide_false by (by intros [_ [=]]).
  - unfold rows_in. rewrite Hsum. fold (rows_in SUCCEEDED d). rewrite Hz, (total_const _ 0), Hlr; [lia|].
    eapply Forall_impl; [exact Hall|]. intros row (_ & -> & _). done.
Qed.

Lemma batch_step g n c q p z d m :
  pressure n c q p z d → g = 0 ∨ g = 1 → (1 ≤ m ≤ 1000)%nat → (m ≤ batch_size s)%nat → (c < total_calls s)%nat →
  (n + m ≤ total_draws s)%nat →
  ∃ rows d', transact (Submit (batch g n m)) (envs o c) d = (inr rows, d') ∧
    pressure (n + m) (S c) (q + Z.of_nat m) (p + (if g =? 0 then Z.of_nat m else 0)) z d' ∧ workers d' = workers d.
Proof using H.
  intros Hpr Hg Hm Hmb Hc Hn. pose proof Hpr as [HI _ Hjobs _ _ _ _ _].
  assert (length (batch g n m) = m) as Hlen by (unfold batch; by rewrite length_fmap, length_seq).
  destruct (batch_accepted (batch g n m) (envs o c) d) as (rows & d' & Ht & Hqd & HI' & _);
    [apply (he_ticking s H)|done|by rewrite Hlen|..].
  - apply Forall_fmap, Forall_forall. intros k _. by apply job_acceptable.
  - unfold batch. rewrite <- list_fmap_compose. apply NoDup_fmap_2_strong; [|apply NoDup_seq].
    intros x y [_ Hx]%elem_of_seq [_ Hy]%elem_of_seq Heq. apply (he_draws s H) in Heq; [done|lia..].
  - apply Forall_fmap, Forall_forall. intros x [Hx1 Hx2]%elem_of_seq. apply no_job_with_key. intros k j Hj Heq.
    destruct (Hjobs _ _ Hj) as (_ & _ & (m' & Hm' & Hkey) & _). cbn in Heq. rewrite Hkey in Heq.
    apply (he_draws s H) in Heq; lia.
  - rewrite Hlen. split.
    + intros k _. destruct (jobs d !! _) as [j|] eqn:Hj; [|done]. destruct (Hjobs _ _ Hj) as (_ & _ & _ & c' & m' & Hlt & Heq).
      apply (he_calls s H) in Heq; lia.
    + intros k k' Hk Hk' Heq. apply (he_batch s H) in Heq; lia.
  - exists rows, d'. split; [exact Ht|]. split; [by eapply queued_pressure|apply Hqd].
Qed.

(** *** A probe *)
(** The worker of the benchmark. *)
Definition staffed (wid sid : string) (d : db) : Prop :=
  ∃ w, workers d !! wid = Some w ∧ wk_session w = sid ∧ wk_state w = ACTIVE ∧ wk_cap w = MkResources 1 64 0.

Lemma staffed_noted m r e wid sid d d' :
  staffed wid sid d → WorkerID r = wid → noted_only m r e d d' → staffed wid sid d'.
Proof.
  intros (w & Hw & Hs & Hst & Hcap) <- [Hw' _]. exists (worker_beat (now e 0) w).
  rewrite Hw', lookup_alter_eq, Hw. done.
Qed.

(** Its requests under a new identifier. *)
Lemma probe_sends m n a1 a2 wid sid d w attempt token :
  (∀ k v, requests d !! k = Some v → ∃ m, (m < n)%nat ∧ k.2 = draw m) → (n < total_draws s)%nat →
  wid = draw a1 → sid = draw a2 → workers d !! wid = Some w → wk_session w = sid →
  sends m d (request (draw n) wid sid attempt token) w.
Proof using H.
  intros Hreq Hn Hwid Hsid Hw Hs. destruct (draw_ok n) as (_ & Ht & Hl & Hne).
  destruct (draw_ok a1) as (_ & Ht1 & Hl1 & Hne1), (draw_ok a2) as (_ & _ & Hl2 & Hne2).
  rewrite Hwid, Hsid in *. split; cbn [WorkerID SessionID RequestID request]; try done.
  - by rewrite Hne1, Hne2, Hl1, Hl2.
  - by rewrite Hne, Hl.
  - destruct (requests d !! _) as [v|] eqn:Hv; [|done]. apply Hreq in Hv as (m' & Hm' & Heq).
    cbn in Heq. apply (he_draws s H) in Heq; lia.
Qed.

(** A job without a GPU is at the head of the queue of the worker. *)
Lemma head_waits n c q p z d wid e :
  pressure n c q p z d → 0 < p → (∀ k, locked e k = false) →
  ∃ j, queue_head (free_of d wid (MkResources 1 64 0)) (locked e) d = Some j ∧
       jobs d !! ID j = Some j ∧ waiting j = 1 ∧ State j = QUEUED ∧ TimeoutSeconds (Definition_ j) = 60.
Proof.
  intros [HI Hidle Hjobs _ _ _ Hp _] Hpos Hlock. rewrite <- Hp in Hpos.
  unfold free_of. rewrite !idle_usage, !Z.sub_0_r by done. cbn [CPU MemoryMB GPU].
  destruct (queue_head _ _ d) as [j|] eqn:Hh.
  - exists j. split; [done|]. apply queue_head_spec in Hh as [Hl [k Hk]]. destruct (inv_job _ HI _ _ Hk) as (<- & _).
    unfold leasable in Hl. rewrite !andb_true_iff, bool_decide_eq_true, !Z.leb_le in Hl.
    destruct Hl as ((((Hst & _) & _) & Hg) & _). destruct (Hjobs _ _ Hk) as ((g & Hcols & Hg') & Ht & _).
    rewrite Hcols in Hg. cbn in Hg. unfold waiting. rewrite Hst, Hcols. cbn.
    split_and!; [done| |done|done]. rewrite bool_decide_true; [done|]. split; [done|lia].
  - apply msum_pos in Hpos as (k & j & Hj & Hw). unfold waiting in Hw. case_bool_decide as Hc; [|done].
    destruct Hc as [Hst Hg]. pose proof (queue_head_none _ _ _ _ _ Hh Hj) as Hl.
    destruct (Hjobs _ _ Hj) as ((g & Hcols & _) & _). unfold leasable in Hl. rewrite Hst, Hlock, Hcols in Hl.
    rewrite Hcols in Hg. cbn in Hg. rewrite Hg in Hl. done.
Qed.

(** What the three calls of a probe do to the tables: the job at the head succeeded. *)
Record probed (i : string) (j : JobRow) (d d' : db) : Prop := {
  pb_jobs : ∃ t, jobs d' = alter (λ x, job_set SUCCEEDED (MaxAttempts x) t x) (ID j) (jobs d);
  pb_attempts : ∃ a, attempts d' = <[i := a]> (attempts d) ∧ active (at_state a) = false;
  pb_inv : Inv d' }.

Lemma probed_pressure n c q p z d d' m k j :
  pressure n c q p z d → probed (new_id (envs o m) k) j d d' → jobs d !! ID j = Some j → waiting j = 1 →
  State j = QUEUED → (m < c + 3)%nat → (∀ k v, requests d' !! k = Some v → ∃ m, (m < n + 3)%nat ∧ k.2 = draw m) →
  pressure (n + 3) (c + 3) (q - 1) (p - 1) (z + 1) d'.
Proof.
  intros [HI Hidle Hjobs Hatt Hreq Hq Hp Hz] [[t Hj'] (a & Ha' & Hact) HI'] Hj Hw Hst Hm Hr'. split.
  - exact HI'.
  - intros i b. rewrite Ha'. intros [[_ <-]|[_ Hb]]%lookup_insert_Some; [done|by eapply Hidle].
  - intros k' j'. rewrite Hj', lookup_alter_row. intros (x & Hx & ->)%fmap_Some. destruct (Hjobs _ _ Hx)
      as (H1 & H2 & (m1 & Hm1 & H3) & c1 & m2 & Hc1 & H4). unfold at_row.
    assert (∃ m, (m < n + 3)%nat ∧ IdempotencyKey (Definition_ x) = draw m) by (exists m1; split; [lia|done]).
    assert (∃ c' m, (c' < c + 3)%nat ∧ k' = new_id (envs o c') m) by (exists c1, m2; split; [lia|done]).
    by destruct (decide _).
  - intros i b. rewrite Ha'. intros [[<- _]|[_ Hb]]%lookup_insert_Some; [by exists m, k|].
    destruct (Hatt _ _ Hb) as (c1 & m1 & ? & ?). exists c1, m1. split; [lia|done].
  - exact Hr'.
  - unfold rows_in in *. rewrite Hj'. erewrite msum_alter, Hq by done. cbn [State job_set].
    rewrite bool_decide_true, bool_decide_false by done. lia.
  - rewrite Hj'. erewrite msum_alter, Hp, Hw by done. unfold waiting. cbn [State job_set].
    rewrite bool_decide_false by (by intros [[=] _]). lia.
  - unfold rows_in in *. rewrite Hj'. erewrite msum_alter, Hz by done. cbn [State job_set].
    rewrite Hst, bool_decide_false, bool_decide_true by done. lia.
Qed.

(** Requests under identifiers drawn before, after one more call. *)
Lemma requests_grow m r e d d' n n' :
  (∀ k v, requests d !! k = Some v → ∃ m, (m < n)%nat ∧ k.2 = draw m) → (n ≤ n')%nat → RequestID r = draw n' →
  noted_only m r e d d' → ∀ k v, requests d' !! k = Some v → ∃ m, (m < S n')%nat ∧ k.2 = draw m.
Proof.
  intros Hreq Hn Hid [_ Hk] k v Hv. destruct (decide (k = receipt m r)) as [->|Hne].
  - exists n'. split; [lia|exact Hid].
  - rewrite Hk in Hv by done. destruct (Hreq _ _ Hv) as (m' & ? & ?). exists m'. split; [lia|done].
Qed.

(** A leased attempt of the worker is started and completed. *)
Lemma attempt_finished n c d wid sid a1 a2 i tok j a :
  (∀ k v, requests d !! k = Some v → ∃ m, (m < n)%nat ∧ k.2 = draw m) → (n + 2 ≤ total_draws s)%nat →
  Inv d → staffed wid sid d → wid = draw a1 → sid = draw a2 →
  idPattern i = true → lower i = i → idPattern tok = true →
  attempts d !! i = Some a → at_worker a = wid → at_token a = tok → at_state a = ALeased →
  jobs d !! at_job a = Some j → ID j = at_job a → State j = LEASED →
  (∀ c' k, (c ≤ c' ≤ S c)%nat → now (envs o c') k < at_expires a ∧ now (envs o c') k < at_deadline a) →
  ∃ d2 d3 t a',
    transact (RPC LeaseSeconds StartAttempt (request (draw n) wid sid i tok)) (envs o c) d = (inr Accepted, d2) ∧
    transact (RPC LeaseSeconds CompleteAttempt (request (draw (S n)) wid sid i tok)) (envs o (S c)) d2 = (inr Accepted, d3) ∧
    jobs d3 = alter (λ x, job_set SUCCEEDED (MaxAttempts x) t x) (ID j) (jobs d) ∧
    attempts d3 = <[i := a']> (attempts d) ∧ active (at_state a') = false ∧ Inv d3 ∧ staffed wid sid d3 ∧
    ∀ k v, requests d3 !! k = Some v → ∃ m, (m < S (S n))%nat ∧ k.2 = draw m.
Proof using H.
  intros Hreq Hn HI Hsf Hwid Hsid Hid Hlow Hidt Ha Haw Hat Hst Hj Hjid Hjst Hlive.
  pose proof Hsf as (w & Hw & Hs & _ & _).
  set (r1 := request (draw n) wid sid i tok).
  assert (holds (envs o c) d r1 j a) as Hold.
  { split; cbn [AttemptID LeaseToken WorkerID r1 request]; try done.
    - by rewrite Hid, Hidt.
    - by rewrite Hlow.
    - by rewrite Hjst.
    - intros k. apply Hlive. lia. }
  destruct (start_accepted LeaseSeconds (envs o c) d r1 w j a) as (t1 & t1' & d2 & Ht1 & Hj1 & Ha1 & Hn1);
    [eapply probe_sends; (done || lia)|done|done|].
  pose proof (RPC_inv _ _ _ _ _ _ _ (he_ticking s H c) HI Ht1) as HI1.
  pose proof (requests_grow _ r1 _ _ _ n n Hreq (Nat.le_refl n) eq_refl Hn1) as Hreq1.
  pose proof (staffed_noted _ r1 _ _ _ _ _ Hsf eq_refl Hn1) as Hsf1. pose proof Hsf1 as (w1 & Hw1 & Hs1 & _ & _).
  cbn [AttemptID r1 request] in Ha1. rewrite Hlow in Ha1.
  set (r2 := request (draw (S n)) wid sid i tok). set (j1 := job_set RUNNING (MaxAttempts j) t1' j).
  assert (holds (envs o (S c)) d2 r2 j1 (attempt_start t1 a)) as Hold1.
  { split; cbn [AttemptID LeaseToken WorkerID r2 request attempt_start at_job at_worker at_token at_expires at_deadline]; try done.
    - by rewrite Hid, Hidt.
    - by rewrite Hlow, Ha1, lookup_alter_eq, Ha.
    - by rewrite Hj1, <- Hjid, lookup_alter_eq, Hjid, Hj.
    - intros k. apply Hlive. lia. }
  destruct (complete_accepted LeaseSeconds (envs o (S c)) d2 r2 w1 j1 (attempt_start t1 a))
    as (t2 & t2' & d3 & Ht2 & Hj2 & Ha2 & Hn2); [eapply probe_sends; (done || lia)|done|done|].
  cbn [AttemptID r2 request] in Ha2. rewrite Hlow in Ha2. cbn [ID j1 job_set] in Hj2.
  eexists d2, d3, t2', _. split_and!; [exact Ht1|exact Ht2| | | | | |].
  - rewrite Hj2, Hj1, alter_alter_eq. done.
  - rewrite Ha2, Ha1, (alter_some _ _ _ _ Ha), alter_insert_eq. reflexivity.
  - done.
  - by eapply RPC_inv, Ht2; [apply (he_ticking s H)|].
  - by eapply (staffed_noted _ r2).
  - by eapply (requests_grow _ r2 _ d2 d3 (S n) (S n)).
Qed.

Lemma probe_calls n c q p z d wid sid a1 a2 :
  pressure n c q p z d → staffed wid sid d → 0 < p → wid = draw a1 → sid = draw a2 →
  (first_probe s ≤ c)%nat → (c + 2 < total_calls s)%nat → (n + 3 ≤ total_draws s)%nat →
  ∃ l d1 d2 d3,
    transact (RPC LeaseSeconds LeaseJob (request (draw n) wid sid EmptyString EmptyString)) (envs o c) d = (inr (Leased l), d1) ∧
    nonempty (l_attempt l) = true ∧
    transact (RPC LeaseSeconds StartAttempt (request (draw (S n)) wid sid (l_attempt l) (l_token l))) (envs o (S c)) d1
      = (inr Accepted, d2) ∧
    transact (RPC LeaseSeconds CompleteAttempt (request (draw (S (S n))) wid sid (l_attempt l) (l_token l))) (envs o (S (S c))) d2
      = (inr Accepted, d3) ∧
    pressure (n + 3) (c + 3) (q - 1) (p - 1) (z + 1) d3 ∧ staffed wid sid d3.
Proof using H.
  intros Hpr Hsf Hp Hwid Hsid Hc1 Hc2 Hn. pose proof Hpr as [HI _ _ Hatt Hreq _ _ _].
  pose proof Hsf as (w & Hw & Hs & Hst & Hcap).
  destruct (head_waits n c q p z d wid (envs o c) Hpr Hp (he_unlocked s H c)) as (j & Hh & Hj & Hwait & Hq & Htime).
  assert (∀ k, attempts d !! new_id (envs o c) k = None) as Hfresh.
  { intros k. destruct (attempts d !! _) as [a|] eqn:Ha; [|done]. destruct (Hatt _ _ Ha) as (c' & m & Hlt & Heq).
    apply (he_calls s H) in Heq; lia. }
  set (r := request (draw n) wid sid EmptyString EmptyString).
  destruct (head_leased LeaseSeconds (envs o c) d r w j HI) as (l & a & t & d1 & Ht & Hi & Htok & Hrow & Hj1 & Ha1 & Hn1);
    [eapply probe_sends; (done || lia)|done|done|by rewrite Hcap|].
  destruct Hrow as (Rjob & Rw & Rst & Rtok & k0 & Rexp & Rdl). cbn [WorkerID r request] in *.
  destruct (he_ids s H c 1) as [Hid Hlow], (he_ids s H c 2) as [Hidt _]. rewrite <- Hi in Hid, Hlow. rewrite <- Htok in Hidt.
  destruct (attempt_finished (S n) (S c) d1 wid sid a1 a2 (l_attempt l) (l_token l)
    (job_set LEASED (MaxAttempts j) t j) a) as (d2 & d3 & t' & a' & Ht2 & Ht3 & Hj3 & Ha3 & Hact & HI3 & Hsf3 & Hreq3);
    try done.
  - by apply (requests_grow _ r _ _ _ n n Hreq (Nat.le_refl n) eq_refl Hn1).
  - lia.
  - by eapply RPC_inv, Ht; [apply (he_ticking s H)|].
  - by apply (staffed_noted _ r _ _ _ _ _ Hsf eq_refl Hn1).
  - by rewrite Ha1, lookup_insert_eq.
  - by rewrite Rjob, Hj1, lookup_alter_eq, Hj.
  - intros c' k Hc'. rewrite Rexp, Rdl, Htime. change (Z.min LeaseSeconds 60) with LeaseSeconds.
    pose proof (he_swift s H c c' k0 k). pose proof (he_swift s H c c' (S k0) k). unfold LeaseSeconds, sec in *. lia.
  - exists l, d1, d2, d3. split_and!; [exact Ht|by apply id_text|exact Ht2|exact Ht3| |exact Hsf3].
    eapply (probed_pressure _ _ _ _ _ d d3 c 1 j); [done| |done|done|done|lia|].
    + rewrite <- Hi. split; [exists t'|exists a'|exact HI3].
      * rewrite Hj3, Hj1. cbn [ID job_set]. by rewrite alter_alter_eq.
      * by rewrite Ha3, Ha1, insert_insert_eq.
    + intros k v Hv. replace (n + 3)%nat with (S (S (S n))) by lia. by eapply Hreq3.
Qed.

(** ** The program *)
Lemma bind_run {A C} (p : B A) (f : A → B C) w a w' : p w = (inr a, w') → (p ≫= f) w = f a w'.
Proof. intros Hp. unfold mbind, B_bind. by rewrite Hp. Qed.

Lemma check_run {A} b x (f : unit → B A) w : b = true → (check b x ≫= f) w = f tt w.
Proof. by intros ->. Qed.

(** The world when the tables of [schema] are [d]. *)
Definition stands (schema : string) (n c : nat) (d : db) (w : world) : Prop :=
  schemas w !! schema = Some d ∧ drawn w = n ∧ called w = c.

Lemma call_runs {A} schema (t : Tx A) n c d w a d' :
  stands schema n c d w → transact t (envs o c) d = (inr a, d') →
  ∃ w', call schema t w = (inr a, w') ∧ stands schema n (S c) d' w' ∧ clocked w' = clocked w.
Proof using H.
  intros (Hd & Hn & Hc) Ht. unfold BenchQueue.call. rewrite Hd, Hc, (he_reaches s H), Ht.
  eexists. split; [reflexivity|]. split; [|done]. split_and!; cbn; [apply lookup_insert_eq|done|done].
Qed.
Lemma new_runs schema n c d w :
  stands schema n c d w →
  ∃ w', NewID o w = (inr (draw n), w') ∧ stands schema (S n) c d w' ∧ clocked w' = clocked w.
Proof. intros (Hd & Hn & Hc). eexists. unfold NewID. rewrite Hn. split; [reflexivity|]. by split_and!. Qed.
Lemma now_runs schema n c d w :
  stands schema n c d w →
  ∃ w', Now o w = (inr (clock o (clocked w)), w') ∧ stands schema n c d w' ∧ clocked w' = S (clocked w).
Proof. intros (Hd & Hn & Hc). eexists. split; [reflexivity|]. by split_and!. Qed.

Lemma make_runs schema g m n c d w :
  stands schema n c d w →
  ∃ w', makeJobs o g m w = (inr (batch g n m), w') ∧ stands schema (n + m) c d w' ∧
        clocked w' = clocked w.
Proof.
  revert n w. induction m as [|m IH]; intros n w Hw; unfold batch; cbn [makeJobs seq].
  { exists w. rewrite Nat.add_0_r. by split_and!. }
  destruct (new_runs _ _ _ _ _ Hw) as (w1 & H1 & Hw1 & Hc1). unfold makeJob.
  destruct (IH (S n) w1 Hw1) as (w2 & H2 & Hw2 & Hc2). exists w2. rewrite Nat.add_succ_r.
  split_and!; [|exact Hw2|congruence]. unfold mbind, B_bind. rewrite H1. unfold mret, B_ret. by rewrite H2.
Qed.

Lemma backlog_runs schema count fuel offset n c z d w :
  stands schema n c d w → pressure n c offset 0 z d → 0 ≤ offset →
  (fuel = 0%nat ∧ count = offset ∨
   offset < count ∧ 1000 * Z.of_nat fuel - 1000 < count - offset ≤ 1000 * Z.of_nat fuel) →
  (Z.to_nat (Z.min 1000 count) ≤ batch_size s)%nat → (c + fuel ≤ total_calls s)%nat →
  (n + Z.to_nat (count - offset) ≤ total_draws s)%nat →
  ∃ w' d', backlog o fuel schema count offset w = (inr tt, w') ∧
    stands schema (n + Z.to_nat (count - offset)) (c + fuel) d' w' ∧ clocked w' = clocked w ∧
    pressure (n + Z.to_nat (count - offset)) (c + fuel) count 0 z d' ∧ workers d' = workers d.
Proof using H.
  revert offset n c d w. induction fuel as [|fuel IH]; intros offset n c d w Hw Hp H0 Hf Hb Hc Hn.
  { assert (count = offset) as -> by lia. exists w, d. cbn [backlog].
    rewrite (proj2 (Z.ltb_ge _ _)) by lia. rewrite Z.sub_diag, !Nat.add_0_r. by split_and!. }
  destruct Hf as [[[=] _]|[Hlt Hf]]. cbn [backlog]. rewrite (proj2 (Z.ltb_lt _ _)) by lia.
  set (m := Z.to_nat (Z.min 1000 (count - offset))).
  destruct (make_runs schema 1 m n c d w Hw) as (w1 & H1 & Hw1 & Hc1). erewrite bind_run by exact H1.
  destruct (batch_step 1 n c offset 0 z d m) as (rows & d1 & Ht & Hp1 & Hwk); [done|by right|lia..|].
  destruct (call_runs _ _ _ _ _ _ _ _ Hw1 Ht) as (w2 & H2 & Hw2 & Hc2). erewrite bind_run by exact H2.
  destruct (decide (count - offset ≤ 1000)) as [Hlast|Hmore].
  - assert (fuel = 0%nat) as -> by lia. exists w2, d1. cbn [backlog].
    rewrite (proj2 (Z.ltb_ge _ _)) by lia. assert (m = Z.to_nat (count - offset)) as Hm by lia.
    replace (offset + Z.of_nat m) with count in Hp1 by lia. rewrite Hm in *.
    replace (c + 1)%nat with (S c) by lia. by split_and!; [..|congruence| |].
  - replace (offset + Z.of_nat m) with (offset + 1000) in Hp1 by lia.
    destruct (IH (offset + 1000) (n + m)%nat (S c) d1 w2) as (w3 & d3 & H3 & Hw3 & Hc3 & Hp3 & Hwk3); try done; try lia.
    exists w3, d3. replace (n + m + Z.to_nat (count - (offset + 1000)))%nat with (n + Z.to_nat (count - offset))%nat in * by lia.
    replace (S c + fuel)%nat with (c + S fuel)%nat in * by lia. split_and!; congruence || done.
Qed.

(** Run the next operation by the lemma [E]. *)
Ltac runs_by E w Hw Hc :=
  let Hr := fresh "Hr" in destruct E as (w & Hr & Hw & Hc); erewrite bind_run by exact Hr; clear Hr.

Lemma probe_runs schema n c q p z d wid sid a1 a2 w :
  stands schema n c d w → pressure n c q p z d → staffed wid sid d → 0 < p → wid = draw a1 → sid = draw a2 →
  (first_probe s ≤ c)%nat → (c + 2 < total_calls s)%nat → (n + 3 ≤ total_draws s)%nat →
  ∃ x w' d', probe o schema wid sid w = (inr x, w') ∧ stands schema (n + 3) (c + 3) d' w' ∧
    pressure (n + 3) (c + 3) (q - 1) (p - 1) (z + 1) d' ∧ staffed wid sid d'.
Proof using H.
  intros Hw Hp Hsf Hpos Hwid Hsid Hc1 Hc2 Hn.
  destruct (probe_calls n c q p z d wid sid a1 a2) as (l & d1 & d2 & d3 & T1 & Hne & T2 & T3 & Hp3 & Hsf3); try done.
  unfold probe. runs_by (new_runs _ _ _ _ _ Hw) w1 Hw1 C1. runs_by (now_runs _ _ _ _ _ Hw1) w2 Hw2 C2.
  runs_by (call_runs _ _ _ _ _ _ _ _ Hw2 T1) w3 Hw3 C3. runs_by (now_runs _ _ _ _ _ Hw3) w4 Hw4 C4.
  cbn [lease_of]. rewrite check_run by done.
  runs_by (new_runs _ _ _ _ _ Hw4) w5 Hw5 C5. runs_by (call_runs _ _ _ _ _ _ _ _ Hw5 T2) w6 Hw6 C6.
  runs_by (new_runs _ _ _ _ _ Hw6) w7 Hw7 C7. runs_by (call_runs _ _ _ _ _ _ _ _ Hw7 T3) w8 Hw8 C8.
  eexists _, w8, d3. split; [reflexivity|]. split; [|by split].
  by replace (n + 3)%nat with (S (S (S n))) by lia; replace (c + 3)%nat with (S (S (S c))) by lia.
Qed.

Lemma probe_all_runs schema m n c q z d wid sid a1 a2 w :
  stands schema n c d w → pressure n c q (Z.of_nat m) z d → staffed wid sid d → wid = draw a1 → sid = draw a2 →
  (first_probe s ≤ c)%nat → (c + 3 * m ≤ total_calls s)%nat → (n + 3 * m ≤ total_draws s)%nat →
  ∃ l w' d', probe_all o m schema wid sid w = (inr l, w') ∧ length l = m ∧
    stands schema (n + 3 * m) (c + 3 * m) d' w' ∧ rows_in QUEUED d' = q - Z.of_nat m ∧ rows_in SUCCEEDED d' = z + Z.of_nat m.
Proof using H.
  revert n c q z d w. induction m as [|m IH]; intros n c q z d w Hw Hp Hsf Hwid Hsid Hc1 Hc2 Hn; cbn [probe_all].
  { exists [], w, d. destruct Hp as [_ _ _ _ _ Hq _ Hz]. rewrite !Nat.add_0_r. split_and!; [done..|lia|lia]. }
  destruct (probe_runs schema n c q (Z.of_nat (S m)) z d wid sid a1 a2 w) as (x & w1 & d1 & H1 & Hw1 & Hp1 & Hsf1);
    try done; [lia..|]. erewrite bind_run by exact H1.
  replace (Z.of_nat (S m) - 1) with (Z.of_nat m) in Hp1 by lia.
  destruct (IH _ _ _ _ _ _ Hw1 Hp1 Hsf1 Hwid Hsid) as (l & w2 & d2 & H2 & Hl & Hw2 & Hq & Hz); [lia..|].
  erewrite bind_run by exact H2. exists (x :: l), w2, d2.
  replace (n + 3 * S m)%nat with (n + 3 + 3 * m)%nat by lia. replace (c + 3 * S m)%nat with (c + 3 + 3 * m)%nat by lia.
  split_and!; [done|cbn; lia|done|lia|lia].
Qed.

(** *** Setting the stage *)
Lemma empty_pressure n c : pressure n c 0 0 0 empty_db.
Proof. by split; [apply empty_inv|intros i a [=]|..]. Qed.

Lemma worker_registered n c q p z d :
  pressure n c q p z d → workers d = ∅ → (n + 3 ≤ total_draws s)%nat →
  ∃ d', transact (RPC LeaseSeconds RegisterWorker (request (draw n) (draw (S n)) (draw (S (S n))) EmptyString EmptyString))
          (envs o c) d = (inr Registered, d') ∧
    pressure (n + 3) (S c) q p z d' ∧ staffed (draw (S n)) (draw (S (S n))) d'.
Proof using H.
  intros Hp Hwk Hn. pose proof Hp as [HI Hidle Hjobs Hatt Hreq Hq Hw Hz].
  set (r := request _ _ _ _ _). destruct (draw_ok n) as (_ & T1 & L1 & N1).
  destruct (draw_ok (S n)) as (_ & T2 & L2 & N2), (draw_ok (S (S n))) as (_ & T3 & L3 & N3).
  destruct (registered LeaseSeconds (envs o c) d r) as (w & d' & Ht & Hs & Hcap & Hst & Hj' & Ha' & Hw' & Hr');
    cbn [WorkerID SessionID RequestID Hostname RqResources r request]; try done.
  - by rewrite Hwk.
  - destruct (requests d !! _) as [v|] eqn:Hv; [|done]. apply Hreq in Hv as (m & Hm & Heq). cbn in Heq.
    apply (he_draws s H) in Heq; lia.
  - by rewrite N2, N3, L2, L3.
  - by rewrite N1, L1.
  - exists d'. split; [exact Ht|]. split.
    + split; try done.
      * by eapply RPC_inv, Ht; [apply (he_ticking s H)|].
      * intros i a. rewrite Ha'. apply Hidle.
      * intros k j. rewrite Hj'. intros Hj. destruct (Hjobs _ _ Hj) as (H1 & H2 & (m & ? & ?) & c' & m' & ? & ?).
        split_and!; [done..| |]; [exists m|exists c', m']; (split; [lia|done]).
      * intros i a. rewrite Ha'. intros (c' & m & ? & ?)%Hatt. exists c', m. split; [lia|done].
      * intros k v Hv. destruct (decide (k = receipt RegisterWorker r)) as [->|Hk]; [exists n; split; [lia|done]|].
        rewrite Hr' in Hv by done. apply Hreq in Hv as (m & ? & ?). exists m. split; [lia|done].
      * unfold rows_in. by rewrite Hj'.
      * by rewrite Hj'.
      * unfold rows_in. by rewrite Hj'.
    + exists w. rewrite Hw', lookup_insert_eq. done.
Qed.

(** The closure of the benchmark is the percentile of benchmarks/run.py. *)
Lemma percentile_same l p : l ≠ [] → percentile l p = Some (percentile_of (sorted_q l) p).
Proof.
  intros Hl. unfold percentile, percentile_of. pose proof (sorted_q_perm l) as Hperm.
  destruct (sorted_q l) as [|x v]; [|done]. by apply Permutation_nil_l in Hperm.
Qed.

Lemma measure_runs schema w :
  stands schema 1 0 empty_db w → clocked w = 0%nat →
  ∃ samples w', measure o schema s w
    = (inr (report_of (jobs_flag s) (jobs_flag s) (probes_flag s) (clock o 1 - clock o 0)%Q samples), w') ∧
    Z.of_nat (length samples) = probes_flag s.
Proof using H.
  intros Hw Hck. destruct (he_flags s H) as (Hj & Hp & _), (he_admin s H) as (_ & _ & Hpa & Hop & Hco).
  assert (1000 * Z.of_nat (backlog_fuel (jobs_flag s)) - 1000 < (jobs_flag s) - 0 ≤ 1000 * Z.of_nat (backlog_fuel (jobs_flag s))) as Hfuel.
  { unfold backlog_fuel. rewrite Z2Nat.id by (apply Z.div_pos; lia).
    pose proof (Z.div_mod ((jobs_flag s) + 999) 1000). pose proof (Z.mod_pos_bound ((jobs_flag s) + 999) 1000). lia. }
  unfold measure. cbv zeta.  rewrite !check_run by done.
  runs_by (now_runs _ _ _ _ _ Hw) w1 Hw1 C1. rewrite Hck.
  destruct (backlog_runs schema (jobs_flag s) (backlog_fuel (jobs_flag s)) 0 1 0 0 empty_db w1) as (w2 & d2 & R2 & Hw2 & C2 & Hp2 & Hwk2);
    [done|apply empty_pressure|lia|lia|unfold batch_size; lia|unfold total_calls, first_probe; lia|unfold total_draws; lia|].
  erewrite bind_run by exact R2. rewrite Z.sub_0_r in *. rewrite Nat.add_0_l in *.
  set (n := (1 + Z.to_nat (jobs_flag s))%nat) in *. set (c := backlog_fuel (jobs_flag s)) in *.
  runs_by (now_runs _ _ _ _ _ Hw2) w3 Hw3 C3. replace (clocked w2) with 1%nat by lia.
  runs_by (make_runs _ 0 (Z.to_nat (probes_flag s)) _ _ _ _ Hw3) w4 Hw4 C4.
  destruct (batch_step 0 n c (jobs_flag s) 0 0 d2 (Z.to_nat (probes_flag s))) as (rows & d4 & T4 & Hp4 & Hwk4);
    [done|by left|lia|unfold batch_size; lia|unfold total_calls, first_probe; lia|unfold total_draws; lia|].
  runs_by (call_runs _ _ _ _ _ _ _ _ Hw4 T4) w5 Hw5 C5.
  runs_by (new_runs _ _ _ _ _ Hw5) w6 Hw6 C6. runs_by (new_runs _ _ _ _ _ Hw6) w7 Hw7 C7. runs_by (new_runs _ _ _ _ _ Hw7) w8 Hw8 C8.
  destruct (worker_registered _ _ _ _ _ d4 Hp4) as (d8 & T8 & Hp8 & Hsf);
    [by rewrite Hwk4, Hwk2|unfold total_draws; lia|].
  runs_by (call_runs _ _ _ _ _ _ _ _ Hw8 T8) w9 Hw9 C9. cbn [Z.eqb] in Hp8. rewrite Z.add_0_l in Hp8.
  replace (n + Z.to_nat (probes_flag s) + 3)%nat with (S (S (S (n + Z.to_nat (probes_flag s))))) in Hp8 by lia.
  destruct (probe_all_runs _ _ _ _ _ _ _ _ _ _ _ _ Hw9 Hp8 Hsf eq_refl eq_refl)
    as (samples & w10 & d10 & R10 & Hl & Hw10 & Hq & Hz);
    [unfold first_probe; lia|unfold total_calls, first_probe; lia|unfold total_draws; lia|].
  erewrite bind_run by exact R10. exists samples, w10. split; [|lia].
  destruct Hw10 as (Hd10 & _). unfold count_rows, mbind, B_bind, check. rewrite Hd10, Hco, Hq, Hz.
  replace ((jobs_flag s) + Z.of_nat (Z.to_nat (probes_flag s)) - Z.of_nat (Z.to_nat (probes_flag s))) with (jobs_flag s) by lia.
  replace (0 + Z.of_nat (Z.to_nat (probes_flag s))) with (probes_flag s) by lia. rewrite !Z.eqb_refl. cbn [andb].
  assert (Qeq_bool (clock o 1 - clock o 0) 0 = false) as ->; [|done].
  apply not_true_is_false. rewrite Qeq_bool_iff. intros Heq. pose proof (he_passes s H) as Hlt.
  apply Qlt_minus_iff in Hlt. fold (Qminus (clock o 1) (clock o 0)) in Hlt. rewrite Heq in Hlt. by apply Qlt_irrefl in Hlt.
Qed.
End Run.

(** The report of a healthy run, and what it leaves of the database. *)
Lemma run_passes o s db0 :
  healthy o s → db0 !! schema_of (draw o 0) = None →
  ∃ samples w', run o s (World db0 0 0 0)
      = (inr (report_of (jobs_flag s) (jobs_flag s) (probes_flag s) (clock o 1 - clock o 0)%Q samples), w') ∧
    Z.of_nat (length samples) = probes_flag s ∧ (drops o = true → schemas w' = db0).
Proof.
  intros H Hnew. destruct (he_flags o s H) as (Hj & Hp & Hdsn), (he_admin o s H) as (Hcon & Hcre & _).
  set (schema := schema_of (draw o 0)).
  destruct (measure_runs o s H schema (World (<[schema := empty_db]> db0) 1 0 0)) as (samples & w' & Hm & Hl).
  { split_and!; [apply lookup_insert_eq|done|done]. }
  { done. }
  pose proof (benchmark_leaves_nothing o s (World db0 0 0 0)) as Hleft.
  assert (run o s (World db0 0 0 0) = (inr (report_of (jobs_flag s) (jobs_flag s) (probes_flag s)
    (clock o 1 - clock o 0)%Q samples), drop_schema o schema w')) as Hrun.
  { unfold run, mbind, B_bind, check. replace (_ || _) with false.
    2: { symmetry. rewrite !orb_false_iff, !Z.ltb_ge. lia. }
    rewrite Hdsn, Hcon. cbn [negb]. unfold NewID, create. cbn [drawn schemas called clocked]. fold schema.
    rewrite Hcre, bool_decide_true by done. cbn [andb]. unfold deferred. by rewrite Hm. }
  rewrite Hrun in Hleft. destruct Hleft as [_ Hdrop]. do 2 eexists. split; [exact Hrun|]. by split.
Qed.

(** The queue benchmark passes its own check: when the database is reachable, identifiers are
    not drawn twice and a probe is done within the 15 s of its lease, then with every number of
    jobs and probes it accepts the run ends normally, with all the incompatible jobs still queued
    and one completed job and one sample for every probe; the percentiles are those of the
    samples, and when the schema can be dropped the database is as it was. *)
Theorem queue_benchmark_passes o s db0 :
  healthy o s → db0 !! schema_of (draw o 0) = None →
  ∃ r w', run o s (World db0 0 0 0) = (inr r, w') ∧
    queued_jobs r = jobs_flag s ∧ compatible_probes r = probes_flag s ∧
    Z.of_nat (length (placement_samples_seconds r)) = probes_flag s ∧
    percentile (placement_samples_seconds r) (1 # 2) = Some (placement_p50_seconds r) ∧
    percentile (placement_samples_seconds r) (95 # 100) = Some (placement_p95_seconds r) ∧
    percentile (placement_samples_seconds r) (99 # 100) = Some (placement_p99_seconds r) ∧
    (drops o = true → schemas w' = db0).
Proof.
  intros H Hnew. destruct (run_passes o s db0 H Hnew) as (samples & w' & Hrun & Hl & Hdrop).
  destruct (he_flags o s H) as (_ & Hp & _).
  assert (samples ≠ []) as Hne by (destruct samples; [cbn in Hl; lia|done]).
  do 2 eexists. split; [exact Hrun|].
  cbn [report_of queued_jobs compatible_probes placement_samples_seconds placement_p50_seconds placement_p95_seconds placement_p99_seconds].
  split_and!; [done|done|exact Hl|by apply percentile_same..|exact Hdrop].
Qed.

(** ** A small run: one incompatible job, one probe *)
Definition demo_outcomes : outcomes :=
  Outcomes (λ k, replicate 15 0%N ++ [N.of_nat k mod 256]%N)
    (λ c, Env (now (demo_at c)) (λ k, demo_id (c mod 6) (k mod 4)) (λ _, false))
    (λ _, true) (λ k, inject_Z (Z.of_nat k)) true true true true true true.
Definition demo_settings : settings := Settings 1 1 "postgres://localhost/test".

Lemma below (p : nat → bool) n : forallb p (seq 0 n) = true → ∀ k, (k < n)%nat → p k = true.
Proof. rewrite forallb_forall. intros Hp k Hk. apply Hp, in_seq. lia. Qed.
Lemma below2 (p : nat → nat → bool) n m :
  forallb (λ x, forallb (p x) (seq 0 m)) (seq 0 n) = true → ∀ x y, (x < n)%nat → (y < m)%nat → p x y = true.
Proof. intros Hp x y Hx Hy. eapply (below (p x)); [|exact Hy]. by apply (below (λ x, forallb (p x) (seq 0 m)) n Hp). Qed.

(** Different numbers give different identifiers. *)
Lemma demo_ids_differ x y x' y' :
  (x < 6)%nat → (y < 4)%nat → (x' < 6)%nat → (y' < 4)%nat → demo_id x y = demo_id x' y' → x = x' ∧ y = y'.
Proof. intros ???? Heq. unfold demo_id in Heq. apply app_inj_l in Heq. apply (inj pretty) in Heq. lia. Qed.

Lemma demo_healthy : healthy demo_outcomes demo_settings.
Proof.
  split.
  - by vm_compute.
  - done.
  - done.
  - intros k. split; [done|]. cbn [demo_outcomes random]. apply Forall_app. split; [by repeat constructor|].
    constructor; [by apply N.mod_lt|constructor].
  - intros k k' Hk Hk'. change (total_draws demo_settings) with 9%nat in *.
    pose proof (below2 (λ k k', negb (String.eqb (draw demo_outcomes k) (draw demo_outcomes k')) || (k =? k')%nat) 9 9
      ltac:(by vm_compute) k k' Hk Hk') as Hp.
    intros Heq. cbv beta in Hp. rewrite Heq, String.eqb_refl in Hp. by apply Nat.eqb_eq.
  - intros c. apply (demo_ticking c).
  - done.
  - intros c k. cbn [demo_outcomes envs new_id].
    pose proof (below2 (λ x y, idPattern (demo_id x y) && String.eqb (lower (demo_id x y)) (demo_id x y)) 6 4
      ltac:(by vm_compute) (c mod 6) (k mod 4)) as Hp.
    apply andb_true_iff in Hp as [H1 H2%String.eqb_eq]; [done|by apply Nat.mod_upper_bound..].
  - change (total_calls demo_settings) with 6%nat. cbn [demo_outcomes envs new_id]. intros c c' k k' Hc Hc' Heq.
    apply demo_ids_differ in Heq as [Heq _]; [|by apply Nat.mod_upper_bound..]. by rewrite !Nat.mod_small in Heq.
  - change (total_calls demo_settings) with 6%nat. change (4 * batch_size demo_settings)%nat with 4%nat.
    cbn [demo_outcomes envs new_id]. intros c k k' Hc Hk Hk' Heq.
    apply demo_ids_differ in Heq as [_ Heq]; [|by apply Nat.mod_upper_bound..]. by rewrite !Nat.mod_small in Heq.
  - intros c c' k k' _ Hc. cbn. unfold sec, LeaseSeconds. lia.
  - by vm_compute.
Qed.

Lemma queue_benchmark_passes_witness :
  ∃ r w', run demo_outcomes demo_settings (World ∅ 0 0 0) = (inr r, w') ∧ queued_jobs r = 1 ∧ compatible_probes r = 1.
Proof.
  destruct (queue_benchmark_passes demo_outcomes demo_settings ∅ demo_healthy) as (r & w' & Hr & Hq & Hp & _);
    [reflexivity|]. exists r, w'. split; [exact Hr|]. split; [exact Hq|exact Hp].
Defined.

Example demo_benchmark :
  match run demo_outcomes demo_settings (World ∅ 0 0 0) with
  | (inr r, w) => (queued_jobs r, compatible_probes r, drawn w, called w, size (schemas w))
  | (inl _, _) => (0, 0, 0%nat, 0%nat, 1%nat)
  end = (1, 1, 9%nat, 6%nat, 0%nat).
Proof. vm_compute. reflexivity. Qed.

(** ** A run with the default number of probes *)
Definition d1 (n : nat) : ascii := ascii_of_N (48 + N.of_nat (n mod 10)).
Definition d3 (n : nat) : string := String (d1 (n / 100)) (String (d1 (n / 10)) (String (d1 n) EmptyString)).
Definition wide_id (c k : nat) : string := "00000000-0000-4000-8000-000000" +:+ d3 c +:+ d3 k.
Definition wide_outcomes : outcomes :=
  Outcomes (λ k, replicate 14 0%N ++ [(N.of_nat k / 256) mod 256; N.of_nat k mod 256]%N)
    (λ c, Env (now (demo_at c)) (λ k, wide_id (c mod 303) (k mod 400)) (λ _, false))
    (λ _, true) (λ k, inject_Z (Z.of_nat k)) true true true true true true.
Definition wide_settings : settings := Settings 1 100 "postgres://localhost/test".

(** The number an identifier ends with. *)
Definition tail4 (s : string) : option N :=
  match String.substring 32 4 s with
  | String a (String b (String c (String d _))) => hex4_value a b c d
  | _ => None
  end.
Lemma wide_draws_differ k k' :
  (k < 405)%nat → (k' < 405)%nat → draw wide_outcomes k = draw wide_outcomes k' → k = k'.
Proof.
  assert (∀ k, (k < 405)%nat → bool_decide (tail4 (draw wide_outcomes k) = Some (N.of_nat k)) = true) as Hall
    by (apply below; by vm_compute).
  intros Hk%Hall%bool_decide_eq_true Hk'%Hall%bool_decide_eq_true Heq. rewrite Heq, Hk' in Hk.
  injection Hk as Hk. lia.
Qed.

Lemma d3_inj x y : (x < 1000)%nat → (y < 1000)%nat → d3 x = d3 y → x = y.
Proof.
  assert (∀ k, (k < 1000)%nat → bool_decide (digits 0 (d3 k) = (N.of_nat k, EmptyString)) = true) as Hall
    by (apply below; by vm_compute).
  intros Hx%Hall%bool_decide_eq_true Hy%Hall%bool_decide_eq_true Heq. rewrite Heq, Hy in Hx.
  injection Hx as Hx. lia.
Qed.
Lemma wide_ids_differ x y x' y' :
  (x < 303)%nat → (x' < 303)%nat → (y < 400)%nat → (y' < 400)%nat → wide_id x y = wide_id x' y' → x = x' ∧ y = y'.
Proof.
  intros ???? Heq. unfold wide_id in Heq. apply app_inj_l in Heq. split; apply d3_inj; try lia.
  - exact (f_equal (String.substring 0 3) Heq).
  - exact (f_equal (String.substring 3 3) Heq).
Qed.

Lemma d1_ok n : hex (d1 n) = true ∧ lower_char (d1 n) = d1 n.
Proof.
  unfold d1. pose proof (Nat.mod_upper_bound n 10 ltac:(done)) as Hn.
  revert Hn. generalize (n mod 10)%nat. intros m Hm. do 10 (destruct m as [|m]; [by vm_compute|]). lia.
Qed.
Lemma wide_ids_ok x y : idPattern (wide_id x y) = true ∧ lower (wide_id x y) = wide_id x y.
Proof.
  unfold wide_id, idPattern, d3. cbv -[d1 hex lower_char is_char andb]. rewrite !(proj1 (d1_ok _)), !(proj2 (d1_ok _)).
  by split; vm_compute.
Qed.

Lemma wide_healthy : healthy wide_outcomes wide_settings.
Proof.
  split.
  - by vm_compute.
  - done.
  - done.
  - intros k. split; [done|]. cbn [wide_outcomes random]. apply Forall_app. split; [by repeat constructor|].
    constructor; [by apply N.mod_lt|]. constructor; [by apply N.mod_lt|constructor].
  - intros k k' Hk Hk' Heq. change (total_draws wide_settings) with 405%nat in *.
    by apply wide_draws_differ.
  - intros c. apply (demo_ticking c).
  - done.
  - intros c k. apply wide_ids_ok.
  - change (total_calls wide_settings) with 303%nat. cbn [wide_outcomes envs new_id]. intros c c' k k' Hc Hc' Heq.
    apply wide_ids_differ in Heq as [Heq _]; [|by apply Nat.mod_upper_bound..]. by rewrite !Nat.mod_small in Heq.
  - change (4 * batch_size wide_settings)%nat with 400%nat. cbn [wide_outcomes envs new_id]. intros c k k' Hc Hk Hk' Heq.
    apply wide_ids_differ in Heq as [_ Heq]; [|by apply Nat.mod_upper_bound..]. by rewrite !Nat.mod_small in Heq.
  - intros c c' k k' _ Hc. cbn. unfold sec, LeaseSeconds. lia.
  - by vm_compute.
Qed.
