(* ===== verification/Backlog.v ===== *)
(** * Backlog: the queue benchmark at several sizes (benchmarks/backlog.py)

    The script builds [bin/benchqueue], runs it once for every number of jobs it is given and after
    each run writes all results so far to one file.  It is a tree of calls to the build, to git, to
    the benchmark and to the file system; a run of the benchmark is its exit status and the JSON
    value read from its output.  The numbers are exact rationals, and the text [json.dumps] writes
    of them is not modelled: a file is written as the values it holds.  The second part puts the
    program of BenchQueue in the place of the binary. *)
From Stdlib Require Import QArith.
From S2P Require Import Prelude Effects PyStr Json JsonParse PyInt Calendar Times Argparse Sha256 Wire Control ControlSpec.
From S2P Require Import ControlRefine ControlProps ControlBatch ControlServe ControlReap ControlLive Client Api ApiText Bench BenchQueue BenchQueueProps.
Local Open Scope string_scope.
Local Open Scope list_scope.
Local Open Scope Z_scope.

Module Backlog.

(** ** The calls *)
(** A value of [json.loads]. *)
Inductive datum :=
| DInt (z : Z)
| DReal (q : Q)
| DText (s : string)
| DList (l : list datum)
| DDict (l : list (string * datum)).

(** [results] *)
Record archive := Archive { revision : string; platform_ : string; samples : list datum }.

Inductive bop :=
| Environ (name default : string)     (* os.environ.get(name, default) *)
| Run (argv : list string)            (* subprocess.run(argv, check=True) *)
| CheckOutput (argv : list string)    (* subprocess.check_output(argv, text=True) *)
| Platform
| Benchqueue (count : Z)              (* json.loads(check_output(["bin/benchqueue", "-jobs", str(count)])) *)
| Mkdir (path : string)
| Write (path : string) (a : archive)
| Print (l : list (string * datum)).

Definition bans (o : bop) : Type :=
  match o with
  | Environ _ _ | Platform => string
  | Run _ | Mkdir _ | Write _ _ => exn + unit
  | CheckOutput _ => exn + string
  | Benchqueue _ => exn + datum
  | Print _ => unit
  end.
Definition BacklogSig : sig := Sig bop bans.
Abbreviation B := (py BacklogSig).
Abbreviation bevent := (event BacklogSig).
Definition bev (o : bop) (x : bans o) : bevent := existT (o : op BacklogSig) x.
Abbreviation ask o := (call_op (S:=BacklogSig) o).
Abbreviation must o := (bind (call_op (S:=BacklogSig) o) unwrap).

(** ** The script *)
Definition backlog_options : list option_ :=
  [Option_ "--jobs" (TMany TInt) false (VList (VInt <$> [10000; 100000]));
   Option_ "--output" TPath false (VStr "results/backlog.json")].
Definition backlog_args_of (argv : list string) : exn + (list Z * string) :=
  match parse_args backlog_options argv with
  | inl e => inl e
  | inr ns => inr (get_ints ns "--jobs", get_str ns "--output")
  end.

(** What is printed of a result: [.items()] of another value than a dictionary raises. *)
Definition printed (v : datum) : exn + list (string * datum) :=
  match v with
  | DDict l => inr (List.filter (λ kv, negb (String.eqb kv.1 "placement_samples_seconds")) l)
  | _ => inl (AttributeError "items")
  end.

Fixpoint backlog_cases (output : string) (results : archive) (counts : list Z) : B unit :=
  match counts with
  | [] => ret tt
  | count :: counts =>
      result <- must (Benchqueue count);
      let results := Archive (revision results) (platform_ results) (samples results ++ [result]) in
      _ <- must (Mkdir (parent output));
      _ <- must (Write output results);
      line <- unwrap (printed result);
      ask (Print line) ;;;
      backlog_cases output results counts
  end.

Definition build (go : string) : list string := [go; "build"; "-o"; "bin/benchqueue"; "./cmd/benchqueue"].

Definition backlog_main (jobs : list Z) (output : string) : B unit :=
  go <- ask (Environ "GO" "go");
  _ <- must (Run (build go));
  rev <- must (CheckOutput ["git"; "rev-parse"; "HEAD"]);
  platform <- ask Platform;
  backlog_cases output (Archive (strip is_space rev) platform []) jobs.

Definition backlog_script (argv : list string) : B unit :=
  match backlog_args_of argv with
  | inl e => raise e
  | inr (jobs, output) => backlog_main jobs output
  end.

(** ** What has happened *)
(** The runs that gave a result. *)
Definition result_of_event (e : bevent) : option (Z * datum) :=
  let o : bop := projT1 e in
  match o as o' return bans o' → option (Z * datum) with
  | Benchqueue count => λ r, match r with inr v => Some (count, v) | inl _ => None end
  | _ => λ _, None
  end (projT2 e).
Definition results_of (tr : list bevent) : list (Z * datum) := omap result_of_event tr.

(** The file: a write that fails may leave anything. *)
Inductive file := Absent | Holds (path : string) (a : archive) | Damaged.
Definition write_file (f : file) (e : bevent) : file :=
  let o : bop := projT1 e in
  match o as o' return bans o' → file with
  | Write path a => λ r, match r with inr _ => Holds path a | inl _ => Damaged end
  | _ => λ _, f
  end (projT2 e).
Definition file_after (tr : list bevent) : file := foldl write_file Absent tr.

(** The binary was built by this run of the script. *)
Definition built (tr : list bevent) : Prop := ∃ go, bev (Run (build go)) (inr tt) ∈ tr.

(** What git and the platform answered. *)
Definition name_event (n : string * string) (e : bevent) : string * string :=
  let o : bop := projT1 e in
  match o as o' return bans o' → string * string with
  | CheckOutput _ => λ r, match r with inr s => (strip is_space s, n.2) | inl _ => n end
  | Platform => λ s, (n.1, s)
  | _ => λ _, n
  end (projT2 e).
Definition named (tr : list bevent) : string * string := foldl name_event (EmptyString, EmptyString) tr.

(** What the file holds when [l] was written last. *)
Definition holding (output : string) (n : string * string) (l : list datum) : file :=
  match l with [] => Absent | _ => Holds output (Archive n.1 n.2 l) end.

Lemma results_snoc tr e : results_of (tr ++ [e]) = results_of tr ++ match result_of_event e with Some x => [x] | None => [] end.
Proof. unfold results_of. rewrite omap_app. cbn. by destruct (result_of_event e). Qed.
Lemma file_snoc tr e : file_after (tr ++ [e]) = write_file (file_after tr) e.
Proof. unfold file_after. by rewrite foldl_app. Qed.
Lemma named_snoc tr e : named (tr ++ [e]) = name_event (named tr) e.
Proof. unfold named. by rewrite foldl_app. Qed.
Lemma built_snoc tr e : built tr → built (tr ++ [e]).
Proof. intros [go Hgo]. exists go. apply elem_of_app. by left. Qed.
#[local] Create HintDb backlog.
#[local] Hint Rewrite results_snoc file_snoc named_snoc : backlog.
#[local] Hint Resolve built_snoc : core.

(** The guard: the benchmark is run after it was built. *)
Definition guard (tr : list bevent) (o : bop) : Prop := match o with Benchqueue _ => built tr | _ => True end.
Local Abbreviation wps := (wp (S:=BacklogSig) (λ _ _, true) guard).

Ltac backlog_step :=
  match goal with
  | |- wp _ _ (bind _ _) _ _ => apply wp_bind
  | |- wp _ _ (ret _) _ _ => apply wp_ret; cbn beta iota
  | |- wp _ _ (raise _) _ _ => apply wp_raise; cbn beta iota
  | |- wp _ _ (unwrap ?r) _ _ => destruct r eqn:?; [apply wp_raise|apply wp_ret]; cbn beta iota
  | |- wp _ _ (call_op _) _ _ =>
      let x := fresh "x" in
      apply (wp_call_op (S:=BacklogSig)); [try exact I|intros x _; cbn beta iota]
  end.

(** How a run that has [done] behind it ends. *)
Record ended (output : string) (done : list (Z * datum)) (counts : list Z) (r : outcome unit)
    (h : list bevent) : Prop := {
  en_fuel : r ≠ OutOfFuel;
  en_results : ∃ l, results_of h = done ++ l ∧ l.*1 `prefix_of` counts ∧ (r = Ok tt → l.*1 = counts);
  en_file : (∃ e, r = Raised e ∧ file_after h = Damaged) ∨
    ∃ kept lost, (results_of h).*2 = kept ++ lost ∧ (length lost ≤ 1)%nat ∧
      file_after h = holding output (named h) kept ∧ (r = Ok tt → lost = []) }.

Lemma ended_early output done counts e h l kept lost :
  results_of h = done ++ l → l.*1 `prefix_of` counts →
  (results_of h).*2 = kept ++ lost → (length lost ≤ 1)%nat → file_after h = holding output (named h) kept →
  ended output done counts (Raised e) h.
Proof. intros. split; [done|by exists l|right; by exists kept, lost]. Qed.

Lemma holding_snoc output n l v : holding output n (l ++ [v]) = Holds output (Archive n.1 n.2 (l ++ [v])).
Proof. by destruct l. Qed.

Lemma ended_cons output done count v counts r h :
  ended output (done ++ [(count, v)]) counts r h → ended output done (count :: counts) r h.
Proof.
  intros [Hfuel (rest & Hl & Hp & Hok) Hfile]. split; [done| |done].
  exists ((count, v) :: rest). rewrite Hl, <- app_assoc. cbn. split_and!; [done|by apply prefix_cons|].
  intros Hr. by rewrite Hok.
Qed.

(** Between two runs of the benchmark the file holds all results. *)
Record resting (output : string) (h : list bevent) : Prop := {
  re_built : built h;
  re_file : file_after h = holding output (named h) (results_of h).*2 }.

(** A run of the benchmark that gave [v], after which nothing has been written yet. *)
Record pending (output : string) (h : list bevent) (count : Z) (v : datum) (h1 : list bevent) : Prop := {
  pe_built : built h1;
  pe_results : results_of h1 = results_of h ++ [(count, v)];
  pe_named : named h1 = named h;
  pe_file : file_after h1 = holding output (named h1) (results_of h).*2 }.
Lemma resting_measured output h count v :
  resting output h → pending output h count v (h ++ [bev (Benchqueue count) (inr v)]).
Proof. intros [Hb Hf]. split; autorewrite with backlog; auto. Qed.
Lemma pending_written output h count v h1 path a :
  pending output h count v h1 → a = Archive (named h).1 (named h).2 ((results_of h).*2 ++ [v]) →
  let h3 := (h1 ++ [bev (Mkdir path) (inr tt)]) ++ [bev (Write output a) (inr tt)] in
  resting output h3 ∧ results_of h3 = results_of h ++ [(count, v)] ∧ named h3 = named h.
Proof.
  intros [Hb Hr Hn Hf] -> h3.
  assert (results_of h3 = results_of h ++ [(count, v)]) as Hr3
    by (unfold h3; autorewrite with backlog; cbn; by rewrite !app_nil_r).
  assert (named h3 = named h) as Hn3 by (unfold h3; autorewrite with backlog; exact Hn).
  split_and!; [|done..]. split; [unfold h3; auto|].
  rewrite Hn3, Hr3, fmap_app. cbn [fmap list_fmap snd]. rewrite holding_snoc. unfold h3. by autorewrite with backlog.
Qed.

Lemma backlog_cases_wp output counts h :
  resting output h →
  wps (backlog_cases output (Archive (named h).1 (named h).2 (results_of h).*2) counts)
    (λ r h', ended output (results_of h) counts r h') h.
Proof.
  revert h. induction counts as [|count counts IH]; intros h Hrest; cbn [backlog_cases revision platform_ samples].
  { destruct Hrest as [_ Hf]. apply wp_ret. split; [done| |].
    - exists []. rewrite app_nil_r. by split_and!.
    - right. exists (results_of h).*2, []. rewrite app_nil_r. split_and!; [done|cbn; lia|done..]. }
  do 3 backlog_step; [apply Hrest|]. backlog_step.
  { apply (ended_early _ _ _ _ _ [] (results_of h).*2 []); autorewrite with backlog; cbn; rewrite ?app_nil_r;
      [done|apply prefix_nil|done|lia|apply Hrest]. }
  set (h1 := h ++ [existT _ _]). assert (pending output h count d h1) as Hpend by by apply resting_measured.
  clearbody h1. pose proof Hpend as [_ Hr1 Hn1 Hf1].
  assert ((results_of h1).*2 = (results_of h).*2 ++ [d]) as Hs1 by (rewrite Hr1; by rewrite fmap_app).
  assert ([(count, d)].*1 `prefix_of` count :: counts) as Hpre by (cbn; apply prefix_cons, prefix_nil).
  do 4 backlog_step.
  { apply (ended_early _ _ _ _ _ [(count, d)] (results_of h).*2 [d]); autorewrite with backlog; cbn; rewrite ?app_nil_r;
      done || lia. }
  do 4 backlog_step.
  { split; [done| |left; autorewrite with backlog; by eexists].
    exists [(count, d)]. autorewrite with backlog. cbn. rewrite !app_nil_r. split_and!; [done|done|discriminate]. }
  destruct u, u0, (pending_written _ _ _ _ _ (parent output) _ Hpend eq_refl) as ([Hb3 Hf3] & Hr3 & Hn3).
  set (h3 := (h1 ++ _) ++ _) in *. clearbody h3. do 2 backlog_step.
  { apply (ended_early _ _ _ _ _ [(count, d)] (results_of h3).*2 []); rewrite ?app_nil_r; cbn; done || lia. }
  do 2 backlog_step. set (h4 := h3 ++ _).
  assert (results_of h4 = results_of h3) as Hr4 by (unfold h4; autorewrite with backlog; cbn; by rewrite app_nil_r).
  assert (named h4 = named h3) as Hn4 by (unfold h4; by autorewrite with backlog).
  specialize (IH h4). rewrite Hn4, Hr4, Hn3, Hr3, fmap_app in IH. cbn [fmap list_fmap snd] in IH.
  eapply wp_mono; [apply IH|by intros r h' Hend%ended_cons].
  split; [unfold h4; auto|]. rewrite Hn4, Hr4. unfold h4. autorewrite with backlog. exact Hf3.
Qed.

Lemma backlog_main_wp jobs output :
  wps (backlog_main jobs output) (λ r h, ended output [] jobs r h) [].
Proof.
  assert (∀ e h, results_of h = [] → file_after h = Absent →
    ended output [] jobs (Raised e) h) as Hearly.
  { intros e h Hr Hf. apply (ended_early _ _ _ _ _ [] [] []); rewrite ?Hr; cbn; try done; [apply prefix_nil|lia]. }
  unfold backlog_main. do 6 backlog_step; [by apply Hearly|]. do 4 backlog_step; [by apply Hearly|]. do 2 backlog_step.
  match goal with |- wp _ _ _ _ ?h => eapply wp_mono; [apply (backlog_cases_wp output jobs h)|by eauto] end. split; [|done].
  destruct u. exists x. rewrite !elem_of_app, !list_elem_of_singleton. tauto.
Qed.

Lemma backlog_main_ended jobs output tr r :
  traces (backlog_main jobs output) tr r →
  ended output [] jobs r tr ∧
  ∀ tr1 count x tr2, tr = tr1 ++ bev (Benchqueue count) x :: tr2 → built tr1.
Proof.
  intros Htr. destruct (wp_sound _ _ _ _ [] tr r (backlog_main_wp jobs output) Htr) as [Hend HG].
  { clear. generalize (@nil bevent). induction tr as [|e tr IH]; intros h; [done|]. apply IH. }
  split; [exact Hend|]. intros tr1 count x tr2 Heq. exact (HG tr1 (bev (Benchqueue count) x) tr2 Heq).
Qed.

(** The backlog script keeps what it measured.  A command line it does not accept ends it before
    any call.  Otherwise it ends, whatever its calls answer: the sizes are measured in the order of
    the command line and with the binary it has built; the output file holds, under the
    revision git named, the results of all completed runs but at most the last, which is lost only when the script fails; a file is
    damaged only by a failure to write it, which ends the script; and on a normal end there
    is one result for each size, all of them in the file. *)
Theorem backlog_keeps_results argv tr r :
  traces (backlog_script argv) tr r →
  match backlog_args_of argv with
  | inl e => tr = [] ∧ r = Raised e
  | inr (jobs, output) =>
      r ≠ OutOfFuel ∧ (results_of tr).*1 `prefix_of` jobs ∧
      (∀ tr1 count x tr2, tr = tr1 ++ bev (Benchqueue count) x :: tr2 → built tr1) ∧
      ((∃ e, r = Raised e ∧ file_after tr = Damaged) ∨
       ∃ kept lost, (results_of tr).*2 = kept ++ lost ∧ (length lost ≤ 1)%nat ∧
         file_after tr = holding output (named tr) kept ∧
         (r = Ok tt → (results_of tr).*1 = jobs ∧ lost = []))
  end.
Proof.
  intros Htr. unfold backlog_script in Htr. destruct (backlog_args_of argv) as [e|[jobs output]]; [done|].
  destruct (backlog_main_ended jobs output tr r Htr) as [[Hfuel (l & Hl & Hp & Hok) Hfile] HG].
  cbn [app] in Hl. rewrite Hl in *. split_and!; [done|done|exact HG|].
  destruct Hfile as [Hd|(kept & lost & H1 & H2 & H3 & H4)]; [by left|right].
  exists kept, lost. split_and!; [done..|]. intros Hr. split; auto.
Qed.

(** ** The benchmark in place of the binary *)
(** The output of [benchqueue]: [encoding/json] sorts the keys of a map. *)
Definition report_datum (timestamp : string) (r : BenchQueue.report) : datum :=
  DDict [("compatible_probes", DInt (BenchQueue.compatible_probes r));
         ("placement_p50_seconds", DReal (BenchQueue.placement_p50_seconds r));
         ("placement_p95_seconds", DReal (BenchQueue.placement_p95_seconds r));
         ("placement_p99_seconds", DReal (BenchQueue.placement_p99_seconds r));
         ("placement_samples_seconds", DList (DReal <$> BenchQueue.placement_samples_seconds r));
         ("queued_jobs", DInt (BenchQueue.queued_jobs r));
         ("submission_jobs_per_second", DReal (BenchQueue.submission_jobs_per_second r));
         ("submission_seconds", DReal (BenchQueue.submission_seconds r));
         ("timestamp", DText timestamp);
         ("workload", DText "store-layer incompatible GPU backlog; no process execution")].

(** The flags of [benchqueue -jobs count]. *)
Definition flags (dsn : string) (count : Z) : BenchQueue.settings := BenchQueue.Settings count 100 dsn.

Section Machine.
(** What the runs of the benchmark see, the database before the first, and what git and the platform answer. *)
Context (os : nat → BenchQueue.outcomes) (dsn timestamp rev platform : string) (db0 : gmap string Store.db).

Definition bench_run (k : nat) (count : Z) (d : gmap string Store.db) : (BenchQueue.failure + BenchQueue.report) * BenchQueue.world :=
  BenchQueue.run (os k) (flags dsn count) (BenchQueue.World d 0 0 0).

(** How many runs there were, and the database after them. *)
Definition ran (s : nat * gmap string Store.db) (e : bevent) : nat * gmap string Store.db :=
  match (projT1 e : bop) with
  | Benchqueue count => (S s.1, BenchQueue.schemas (bench_run s.1 count s.2).2)
  | _ => s
  end.
Definition station (h : list bevent) : nat * gmap string Store.db := foldl ran (0%nat, db0) h.

Definition machine (h : list bevent) (o : bop) : bans o :=
  match o return bans o with
  | Environ _ default => default
  | Platform => platform
  | CheckOutput _ => inr rev
  | Benchqueue count =>
      match (bench_run (station h).1 count (station h).2).1 with
      | inr r => inr (report_datum timestamp r)
      | inl _ => inl (CalledProcessError ["bin/benchqueue"; "-jobs"; pretty count])
      end
  | Run _ | Mkdir _ | Write _ _ => inr tt
  | Print _ => tt
  end.

(** The [k]-th run has a healthy environment and a schema name that is new. *)
Definition sound (k : nat) (count : Z) : Prop :=
  healthy (os k) (flags dsn count) ∧ BenchQueue.drops (os k) = true ∧
  db0 !! BenchQueue.schema_of (BenchQueue.draw (os k) 0) = None.

(** A result for [count] jobs: all of them still queued, and the default number of probes. *)
Definition measures (count : Z) (v : datum) : Prop :=
  ∃ r, v = report_datum timestamp r ∧ BenchQueue.queued_jobs r = count ∧ BenchQueue.compatible_probes r = 100 ∧
    length (BenchQueue.placement_samples_seconds r) = 100%nat.

Lemma bench_run_sound k count :
  sound k count → ∃ r w, bench_run k count db0 = (inr r, w) ∧ measures count (report_datum timestamp r) ∧ BenchQueue.schemas w = db0.
Proof.
  intros (Hh & Hd & Hn). destruct (run_passes _ _ db0 Hh Hn) as (l & w & Hr & Hl & Hw).
  do 2 eexists. split; [exact Hr|]. split; [|by apply Hw].
  eexists. split_and!; [done|done|done|]. cbn in Hl |- *. lia.
Qed.

Lemma station_app h tr : station (h ++ tr) = foldl ran (station h) tr.
Proof. unfold station. apply foldl_app. Qed.

Ltac use_run H :=
  match goal with |- context [Effects.run ?m ?p ?h] =>
    match type of H with _ = ?r => replace (Effects.run m p h) with r by (symmetry; exact H); done end end.

Lemma cases_run output arch counts h k :
  station h = (k, db0) → (∀ i count, counts !! i = Some count → sound (k + i) count) →
  ∃ tr, Effects.run (S:=BacklogSig) machine (backlog_cases output arch counts) h = (Ok tt, tr) ∧
    (station (h ++ tr)).2 = db0 ∧ Forall2 measures counts (results_of tr).*2 ∧ named (h ++ tr) = named h.
Proof.
  revert h k arch. induction counts as [|count counts IH]; intros h k arch Hs Hok.
  { exists []. rewrite app_nil_r, Hs. by split_and!; [done|done|constructor|done]. }
  destruct (bench_run_sound k count) as (r & w & Hr & Hm & Hw).
  { rewrite <- (Nat.add_0_r k). by apply Hok. }
  set (v := report_datum timestamp r).
  set (arch' := Archive (revision arch) (platform_ arch) (samples arch ++ [v])).
  destruct (printed v) as [?|line] eqn:Hline; [done|].
  set (evs := [bev (Benchqueue count) (inr v); bev (Mkdir (parent output)) (inr tt); bev (Write output arch') (inr tt); bev (Print line) tt]).
  destruct (IH (h ++ evs) (S k) arch') as (tr & Hrun & Hst & Hall & Hn).
  { rewrite station_app, Hs. unfold evs, bev. cbn [foldl ran projT1 fst snd]. rewrite Hr. cbn [snd]. by rewrite Hw. }
  { intros i c Hc. rewrite Nat.add_succ_comm. by apply Hok. }
  exists (evs ++ tr). rewrite (app_assoc h). split_and!; [|exact Hst|by constructor|].
  2: { rewrite Hn. unfold named. by rewrite foldl_app. }
  cbn [backlog_cases]. cbn -[bench_run backlog_cases station printed]. rewrite Hs. cbn [fst snd]. rewrite Hr.
  cbn -[bench_run backlog_cases station printed v]. fold v. rewrite Hline.
  cbn -[bench_run backlog_cases station printed v]. rewrite <- !app_assoc. cbn [app]. fold arch'.
  use_run Hrun.
Qed.

Lemma main_run jobs output :
  (∀ k count, jobs !! k = Some count → sound k count) →
  ∃ tr, Effects.run (S:=BacklogSig) machine (backlog_main jobs output) [] = (Ok tt, tr) ∧
    (station tr).2 = db0 ∧ Forall2 measures jobs (results_of tr).*2 ∧ named tr = (strip is_space rev, platform).
Proof.
  intros Hok. set (evs := [bev (Environ "GO" "go") "go"; bev (Run (build "go")) (inr tt);
    bev (CheckOutput ["git"; "rev-parse"; "HEAD"]) (inr rev); bev Platform platform]).
  destruct (cases_run output (Archive (strip is_space rev) platform []) jobs evs 0) as (tr & Hrun & Hst & Hall & Hn); [done|done|].
  exists (evs ++ tr). split_and!; [|exact Hst|exact Hall|exact Hn].
  unfold backlog_main. cbn -[backlog_cases strip]. use_run Hrun.
Qed.

(** C40. The backlog script and the queue benchmark together: in healthy environments, for every
    list of sizes the benchmark accepts, the script ends normally; its file holds one report per
    size, in order, each with all jobs of that size still queued behind which 100 probes were
    placed and completed; and the database is as it was. *)
Theorem backlog_measures_every_size argv jobs output :
  backlog_args_of argv = inr (jobs, output) → (∀ k count, jobs !! k = Some count → sound k count) →
  ∃ tr l, Effects.run (S:=BacklogSig) machine (backlog_script argv) [] = (Ok tt, tr) ∧
    file_after tr = holding output (strip is_space rev, platform) l ∧ Forall2 measures jobs l ∧ (station tr).2 = db0.
Proof.
  intros Hargs Hok. destruct (main_run jobs output Hok) as (tr & Hrun & Hst & Hall & Hn).
  destruct (backlog_main_ended jobs output tr (Ok tt)) as [[_ _ Hfile] _].
  { pose proof (traces_run (S:=BacklogSig) machine (backlog_main jobs output) []) as Htr. by rewrite Hrun in Htr. }
  destruct Hfile as [(e & He & _)|(kept & lost & Hk & _ & Hf & Hl)]; [done|].
  rewrite (Hl eq_refl), app_nil_r in Hk. exists tr, kept.
  unfold backlog_script. rewrite Hargs. split_and!; [exact Hrun|by rewrite Hf, Hn|by rewrite <- Hk|exact Hst].
Qed.
End Machine.

(** ** Concrete runs *)
(** Two sizes, of which the second cannot be measured. *)
Definition demo_argv : list string := ["--jobs"; "10"; "100001"; "--output"; "out/backlog.json"].
Definition demo_result : datum := DDict [("placement_samples_seconds", DList []); ("queued_jobs", DInt 10)].
Definition demo_calls (h : list bevent) (o : bop) : bans o :=
  match o return bans o with
  | Environ _ default => default
  | Platform => "Linux"
  | CheckOutput _ => inr "c0ffee "
  | Benchqueue count => if 100000 <? count then inl (CalledProcessError ["bin/benchqueue"]) else inr demo_result
  | Run _ | Mkdir _ | Write _ _ => inr tt
  | Print _ => tt
  end.
Definition demo_trace : outcome unit * list bevent := Effects.run (S:=BacklogSig) demo_calls (backlog_script demo_argv) [].

Lemma backlog_keeps_results_witness :
  demo_trace.1 = Raised (CalledProcessError ["bin/benchqueue"]) ∧ (results_of demo_trace.2).*1 `prefix_of` [10; 100001] ∧
  file_after demo_trace.2 = Holds "out/backlog.json" (Archive "c0ffee" "Linux" [demo_result]) ∧
  ((∃ e, demo_trace.1 = Raised e ∧ file_after demo_trace.2 = Damaged) ∨
   ∃ kept lost, (results_of demo_trace.2).*2 = kept ++ lost ∧ (length lost ≤ 1)%nat ∧
     file_after demo_trace.2 = holding "out/backlog.json" (named demo_trace.2) kept ∧
     (demo_trace.1 = Ok tt → (results_of demo_trace.2).*1 = [10; 100001] ∧ lost = [])).
Proof.
  assert (traces (backlog_script demo_argv) demo_trace.2 demo_trace.1) as Htr by apply traces_run.
  generalize (backlog_keeps_results demo_argv demo_trace.2 demo_trace.1 Htr).
  replace (backlog_args_of demo_argv) with (inr (A:=exn) ([10; 100001], "out/backlog.json")) by by vm_compute.
  intros (_ & Hp & _ & Hf). split; [by vm_compute|]. split; [exact Hp|]. split; [by vm_compute|exact Hf].
Defined.

Lemma backlog_measures_every_size_witness :
  ∃ tr v, Effects.run (S:=BacklogSig) (machine (λ _, wide_outcomes) "postgres://localhost/test" "now" "c0ffee" "Linux" ∅)
      (backlog_script ["--jobs"; "1"]) [] = (Ok tt, tr) ∧
    file_after tr = Holds "results/backlog.json" (Archive "c0ffee" "Linux" [v]) ∧ measures "now" 1 v.
Proof.
  destruct (backlog_measures_every_size (λ _, wide_outcomes) "postgres://localhost/test" "now" "c0ffee" "Linux" ∅
    ["--jobs"; "1"] [1] "results/backlog.json") as (tr & l & Hr & Hf & Hl & _).
  - by vm_compute.
  - intros k count [_ <-]%list_lookup_singleton_Some. split; [exact wide_healthy|]. split; reflexivity.
  - apply Forall2_cons_inv_l in Hl as (v & l' & Hv & ->%Forall2_nil_inv_l & ->). exists tr, v.
    split; [exact Hr|]. split; [exact Hf|exact Hv].
Defined.
End Backlog.
