(* ===== verification/Plot.v ===== *)
(** * Plot: the figure of the scaling benchmark (benchmarks/plot.py)

    The script reads every [summary.json] under a directory and draws, for each workload, a line
    through its cases in the order of their numbers of workers: throughput on one axis, latency on
    the other.  The summaries are the records BenchRun writes; what matplotlib does with a figure
    is not modelled: a figure is the lines and labels it is given. *)
From Stdlib Require Import QArith.
From stdpp Require Import sorting.
From S2P Require Import Prelude Effects PyStr Csv Json JsonParse JsonRound PyInt Calendar Times Argparse Wire Checkpoint Client Protocols Bench BenchRun.
Local Open Scope string_scope.
Local Open Scope list_scope.
Local Open Scope Z_scope.

Module Plot.

(** ** Data *)
Record line := Line { label : string; xs : list Z; ys : list (option Q) }.
Record axis := Axis { lines : list line; xlabel : string; ylabel : string }.
Record figure := Figure { throughput : axis; latency : axis }.

Inductive pop :=
| Summaries (dir : string)             (* [json.loads(path.read_text()) for path in dir.rglob("summary.json")] *)
| Savefig (path : string) (f : figure).
Definition pans (o : pop) : Type := match o with Summaries _ => exn + list summary | Savefig _ _ => exn + unit end.
Definition PlotSig : sig := Sig pop pans.
Definition pev (o : pop) (x : pans o) : event PlotSig := existT (o : op PlotSig) x.

(** ** The script *)
(** [sorted(l, key=key)] is stable. *)
Section Sort.
Context {A : Type} (key : A → Z).

Fixpoint insert_on (x : A) (l : list A) : list A :=
  match l with
  | [] => [x]
  | y :: l' => if key x <=? key y then x :: l else y :: insert_on x l'
  end.
Definition sorted_on (l : list A) : list A := foldr insert_on [] l.

Lemma insert_on_perm x l : insert_on x l ≡ₚ x :: l.
Proof. induction l as [|y l IH]; cbn; [done|]. destruct (_ <=? _); [done|]. rewrite IH. apply Permutation_swap. Qed.
Lemma sorted_on_perm l : sorted_on l ≡ₚ l.
Proof. induction l as [|x l IH]; cbn; [done|]. by rewrite insert_on_perm, IH. Qed.

Lemma insert_on_sorted x l : StronglySorted Z.le (key <$> l) → StronglySorted Z.le (key <$> insert_on x l).
Proof.
  induction l as [|y l IH]; cbn; [by repeat constructor|]. intros Hs. inversion_clear Hs as [|?? Hl Hall].
  destruct (Z.leb_spec (key x) (key y)); cbn.
  - constructor; [by constructor|]. constructor; [done|]. eapply Forall_impl; [exact Hall|]. cbn. lia.
  - constructor; [by apply IH|]. rewrite (insert_on_perm x l). cbn. constructor; [lia|done].
Qed.
Lemma sorted_on_sorted l : StronglySorted Z.le (key <$> sorted_on l).
Proof. induction l as [|x l IH]; cbn; [constructor|]. by apply insert_on_sorted. Qed.

(** Elements with the same key keep their order. *)
Lemma insert_on_stable k x l :
  StronglySorted Z.le (key <$> l) →
  List.filter (λ y, key y =? k) (insert_on x l) = List.filter (λ y, key y =? k) (x :: l).
Proof.
  induction l as [|y l IH]; cbn; [done|]. intros Hs. inversion_clear Hs as [|?? Hl Hall].
  destruct (Z.leb_spec (key x) (key y)); [done|]. cbn. rewrite (IH Hl). cbn.
  destruct (Z.eqb_spec (key x) k), (Z.eqb_spec (key y) k); done || lia.
Qed.
Lemma sorted_on_stable k l : List.filter (λ y, key y =? k) (sorted_on l) = List.filter (λ y, key y =? k) l.
Proof.
  induction l as [|x l IH]; [done|]. unfold sorted_on in *. cbn [foldr].
  rewrite insert_on_stable by apply sorted_on_sorted. cbn. by rewrite IH.
Qed.
End Sort.

(** [sorted({r["workload"] for r in rows})] *)
Definition workloads (rows : list summary) : list string := merge_sort String.le (remove_dups (s_workload <$> rows)).

Definition selected (w : string) (rows : list summary) : list summary :=
  sorted_on s_workers (List.filter (λ s, String.eqb (s_workload s) w) rows).

Definition plot (y : summary → option Q) (rows : list summary) (w : string) : line :=
  Line w (s_workers <$> selected w rows) (y <$> selected w rows).

Definition figure_of (rows : list summary) : figure :=
  let x := "Workers (2 advertised CPU each by default)" in
  Figure (Axis (plot (λ s, Some (s_end_to_end_rate s)) rows <$> workloads rows) x "Completed jobs / second (startup included)")
         (Axis (plot s_p95 rows <$> workloads rows) x "p95 submit-to-lease latency (seconds)").

Definition plot_options : list option_ := [Option_ "directory" TPath true VNone].
Definition plot_args_of (argv : list string) : exn + string :=
  match parse_args plot_options argv with inl e => inl e | inr ns => inr (get_str ns "directory") end.

Definition plot_main (dir : string) : py PlotSig unit :=
  rows <- bind (call_op (S:=PlotSig) (Summaries dir)) unwrap;
  match rows with
  | [] => raise (SystemExit 2)
  | _ =>
      _ <- bind (call_op (S:=PlotSig) (Savefig (path_join dir "scaling.png") (figure_of rows))) unwrap;
      _ <- bind (call_op (S:=PlotSig) (Savefig (path_join dir "scaling.svg") (figure_of rows))) unwrap;
      ret tt
  end.

Definition plot_script (argv : list string) : py PlotSig unit :=
  match plot_args_of argv with inl e => raise e | inr dir => plot_main dir end.

Example plot_command_line :
  plot_args_of ["results/"] = inr "results" ∧ plot_args_of [] = inl (SystemExit 2) ∧
  plot_args_of ["a"; "b"] = inl (SystemExit 2) ∧ plot_args_of ["--help"] = inl (SystemExit 0).
Proof. by vm_compute. Qed.

(** ** Theorems *)
Definition points (y : summary → option Q) (rows : list summary) : list (Z * option Q) := (λ s, (s_workers s, y s)) <$> rows.

(** The lines show the rows: one line for each workload, in the order of their names; a line goes
    from left to right through all cases of its workload, cases with as many workers in the order
    they were read. *)
Record shows (y : summary → option Q) (rows : list summary) (l : list line) : Prop := {
  sh_sorted : StronglySorted String.le (label <$> l);
  sh_once : NoDup (label <$> l);
  sh_labels w : w ∈ (label <$> l) ↔ w ∈ (s_workload <$> rows);
  sh_right ln : ln ∈ l → StronglySorted Z.le (xs ln);
  sh_points ln : ln ∈ l →
    zip (xs ln) (ys ln) ≡ₚ points y (List.filter (λ s, String.eqb (s_workload s) (label ln)) rows);
  sh_order ln n : ln ∈ l →
    List.filter (λ p, p.1 =? n) (zip (xs ln) (ys ln))
    = List.filter (λ p, p.1 =? n) (points y (List.filter (λ s, String.eqb (s_workload s) (label ln)) rows)) }.

#[local] Instance points_proper y : Proper ((≡ₚ) ==> (≡ₚ)) (points y).
Proof. intros l l' Hl. unfold points. by rewrite Hl. Qed.

Lemma plot_zip y rows w : zip (xs (plot y rows w)) (ys (plot y rows w)) = points y (selected w rows).
Proof. cbn. unfold points. induction (selected w rows) as [|s l IH]; cbn; [done|]. by rewrite IH. Qed.

Lemma filter_points n y l : List.filter (λ p, p.1 =? n) (points y l) = points y (List.filter (λ s, s_workers s =? n) l).
Proof. unfold points. induction l as [|s l IH]; cbn; [done|]. destruct (_ =? n); cbn; by rewrite IH. Qed.

Lemma plot_shows y rows : shows y rows (plot y rows <$> workloads rows).
Proof.
  assert (label <$> (plot y rows <$> workloads rows) = workloads rows) as Hl.
  { rewrite <- list_fmap_compose. apply list_fmap_id. }
  split.
  - rewrite Hl. apply (StronglySorted_merge_sort String.le).
  - rewrite Hl. unfold workloads. rewrite merge_sort_Permutation. apply NoDup_remove_dups.
  - intros w. rewrite Hl. unfold workloads. by rewrite merge_sort_Permutation, elem_of_remove_dups.
  - intros ln (w & -> & _)%list_elem_of_fmap. apply sorted_on_sorted.
  - intros ln (w & -> & _)%list_elem_of_fmap. rewrite plot_zip. unfold selected. by rewrite sorted_on_perm.
  - intros ln n (w & -> & _)%list_elem_of_fmap. rewrite plot_zip, !filter_points. unfold selected.
    by rewrite sorted_on_stable.
Qed.

(** The plot shows every case: without a directory, or when nothing is found in it, the script
    exits with status 2 and saves no figure; otherwise it saves the same figure twice, whose axes
    show the throughput and the latency of all the summaries found. *)
Theorem plots_show_every_case argv tr r :
  traces (plot_script argv) tr r →
  match plot_args_of argv with
  | inl e => tr = [] ∧ r = Raised e
  | inr dir =>
      ∃ found saves, tr = pev (Summaries dir) found :: saves ∧
      match found with
      | inl e => saves = [] ∧ r = Raised e
      | inr [] => saves = [] ∧ r = Raised (SystemExit 2)
      | inr rows =>
          ∃ f a, shows (λ s, Some (s_end_to_end_rate s)) rows (lines (throughput f)) ∧
            shows s_p95 rows (lines (latency f)) ∧
            match a with
            | inl e => saves = [pev (Savefig (path_join dir "scaling.png") f) (inl e)] ∧ r = Raised e
            | inr _ => ∃ b, saves = [pev (Savefig (path_join dir "scaling.png") f) a; pev (Savefig (path_join dir "scaling.svg") f) b] ∧
                         r = match b with inl e => Raised e | inr _ => Ok tt end
            end
      end
  end.
Proof.
  unfold plot_script. destruct (plot_args_of argv) as [e|dir]; [done|].
  intros (found & saves & -> & Htr). exists found, saves. split; [done|].
  destruct found as [e|[|s rows]]; [done|done|].
  destruct Htr as (a & saves' & -> & Htr). exists (figure_of (s :: rows)), a.
  split; [apply plot_shows|]. split; [apply plot_shows|].
  destruct a as [e|[]]; [by destruct Htr as [-> ->]|].
  destruct Htr as (b & saves & -> & Htr). exists b. by destruct b as [e|[]]; destruct Htr as [-> ->].
Qed.

(** A plot of a benchmark: when the scaling benchmark ended normally and the plot finds what it
    wrote, in any order, the lines are those of the workloads it was given, and each goes through
    all the numbers of workers it was given, as often as the benchmark was repeated. *)
Theorem plot_covers_benchmark argv a tr rows y :
  bench_args_of argv = inr a → refused a = false →
  traces (bench_script argv) tr (Ok tt) → consistent timely tr = true → rows ≡ₚ c_summaries (state tr) →
  let l := plot y rows <$> workloads rows in
  (∀ w, w ∈ (label <$> l) ↔ w ∈ (bench_cases a).*1) ∧
  ∀ ln, ln ∈ l → xs ln ≡ₚ (List.filter (λ c, String.eqb c.1 (label ln)) (bench_cases a)).*2.
Proof.
  intros Ha Hok Htr Hc Hrows l. unfold bench_script in Htr. rewrite Ha in Htr.
  pose proof (bench_main_controlled a tr (Ok tt) Htr Hc) as Hb. rewrite Hok in Hb.
  destruct Hb as (_ & _ & _ & Hcases & _). destruct (Hcases eq_refl) as [<- _]. destruct (plot_shows y rows). split.
  - intros w. unfold l. etrans; [apply sh_labels0|]. by rewrite Hrows, <- list_fmap_compose.
  - intros ln (w & -> & Hw)%list_elem_of_fmap. cbn [plot label xs]. unfold selected. rewrite sorted_on_perm.
    assert (∀ l, (List.filter (λ c, String.eqb c.1 w) ((λ s, (s_workload s, s_workers s)) <$> l)).*2
      = s_workers <$> List.filter (λ s, String.eqb (s_workload s) w) l) as Hf.
    { clear. induction l as [|s l IH]; cbn; [done|]. destruct (String.eqb _ _); cbn; by rewrite IH. }
    rewrite Hf. apply fmap_Permutation. clear -Hrows.
    induction Hrows as [|s l1 l2 _ IH|s1 s2 l1|l1 l2 l3 _ IH1 _ IH2]; cbn; [done|by destruct (String.eqb _ _); rewrite ?IH| |by etrans].
    destruct (String.eqb (s_workload s2) w), (String.eqb (s_workload s1) w); try done. apply Permutation_swap.
Qed.

(** The figure of the concrete run of the benchmark. *)
Example demo_figure :
  let rows := c_summaries (state demo_scaling.2) in
  ((λ ln, (label ln, xs ln)) <$> lines (latency (figure_of rows))) = [("noop", [4])] ∧
  (ys <$> lines (latency (figure_of rows))) = (λ s, [s_p95 s]) <$> rows.
Proof. by vm_compute. Qed.
End Plot.
